(* ===== verification/_CoqProject ===== *)
-Q . S2P
Prelude.v
Libc.v
Rle.v
SrvEvents.v
SrvPath.v
SrvTree.v
SrvResp.v
SrvLocks.v
SrvFileOps.v
SrvServer.v
SrvDiscipline.v
SrvSafety.v
SrvPool.v
SrvConcurrency.v
SrvPosix.v
SrvRefine.v
SrvReceive.v
SrvRequests.v
SrvClaims.v
XvMem.v
XvString.v
XvGrep.v
XvFsTypes.v
XvKernel.v
XvMsg.v
XvMsgProofs.v
XvVm.v
XvPages.v
XvWalk.v
XvCopy.v
XvExample.v
XvCopyClaims.v
XvMsgClaims.v
XvSched.v
XvSchedProofs.v
XvSignalClaims.v
XvSegments.v
XvMutex.v
XvMutexPool.v
XvPipe.v
XvPipeProofs.v
XvPipeClaims.v
XvProc.v
XvExit.v
XvShm.v
XvBio.v
XvBlock.v
XvLog.v
XvFs.v
XvSysfile.v
XvExec.v
XvConsole.v
XvVirtio.v
XvFsLogic.v
XvBioList.v
XvBioProofs.v
XvBioSpec.v
XvLogProofs.v
XvLogCommit.v
XvLogCrash.v
XvLogTx.v
XvLogClaims.v
XvFsBits.v
XvFsTx.v
XvFsBlocks.v
XvFsMap.v
XvFsFile.v
XvFsInode.v
XvFsInv.v
XvFsOps.v
XvFsIo.v
XvFsUser.v
XvFsWrite.v
XvFsExample.v
XvFsClaims.v
