(* ===== verification/Prelude.v ===== *)
(** * A verification of the file server and of the extended xv6 kernel

    The repository holds two programs: a multithreaded file server that speaks
    the RESP protocol (src/G16_Project_3/src) and an xv6 kernel extended with
    mutexes, freeze/thaw, signals, message queues, shared memory, waitpid, forkn
    and thread_create (src/G16_Project1_xv6CustomizeSystemCalls/xv6-riscv).  The
    definitions follow the C functions and keep their names; theorems that are
    claims about the code carry an identifier C<n> in their comment.

    ** Shared

    - [Prelude]: bytes, machine integers with wrap-around ([u8], [u32], [u64],
      [i32]), list lemmas, tactics and hints.
    - [Libc]: the string functions of the C library that the server uses.

    ** File server (Rle and the files Srv...)

    How the parts interact: [client_thread] reads requests (resp.c), passes them
    to [dispatch_command] (server.c), which calls a handler (file_ops.c); handlers
    check paths (path_utils.c), lock them (locks.c), do their work with system
    calls, log (logger.c) and reply (resp.c).

    - [Rle]: rle_compress_bytes and rle_decompress_bytes, with buffer capacities.
    - [SrvEvents]: system calls, pthreads, stdio and malloc are events whose
      answers are not defined here; code is a tree of events.
    - [SrvPath], [SrvResp], [SrvLocks] (with logger.c), [SrvFileOps], [SrvServer]:
      the functions of the source files of these names.
    - [SrvDiscipline], [SrvSafety]: whatever the system answers, every handler and
      every client thread respects the locking discipline, stays inside its
      buffers and ends with nothing held or open.
    - [SrvPool], [SrvConcurrency]: any number of threads, interleaved at every
      call: exclusion per file and of the log, one lock per path, no deadlock.
    - [SrvPosix], [SrvRefine], [SrvReceive], [SrvRequests], [SrvClaims]: on every
      system that meets a POSIX contract the handlers and whole sessions terminate
      and refine a specification over a map from paths to contents; round trips
      for clients.  The contract is met by an in-memory system.

    Fuel: loops that retry after EINTR or short transfers take a bound; under the
    POSIX contract, in which calls without progress are finite, the theorems show
    that the bound [roomy] asks for is enough.

    ** xv6 (the files Xv...)

    - [XvMem], [XvString], [XvGrep]: byte memory; kernel/string.c; user/ulib.c;
      the matcher and line loop of user/grep.c.
    - [XvKernel]: the kernel state [kst] (process table, CPU, locks, memory and the
      tables of the extensions) and kernel code as resumptions: code returns,
      panics, is stuck (spinning on a lock, outside an object, out of fuel), or
      switches to the scheduler.  kernel/spinlock.c, mycpu and myproc.  [wpk] is
      the logic of such code under a protocol for its context switches.
    - [XvVm]: kernel/kalloc.c and kernel/vm.c on page tables in memory.  [XvPages],
      [XvWalk], [XvCopy]: the ownership invariant of physical pages, and walk,
      mappages, vmfault, copyin and copyout under it.  [XvCopyClaims]: pages are
      handed out once, address spaces are isolated, copyin reads back copyout.
    - [XvMsg], [XvMsgProofs], [XvMsgClaims]: system-call arguments and message
      queues, proved against the interface [UserCopyLaws] that [XvCopy] implements.
    - [XvSched]: scheduler, sched, yield, sleep, wakeup, signals by pid, sleep
      locks, time and mutex calls.  [XvSchedProofs], [XvSignalClaims]: calls by pid
      refine a map from pids; the scheduler runs no frozen process; kill(0).
    - [XvSegments], [XvMutex], [XvMutexPool]: code between two context switches
      with guarantee and rely; the mutex calls of any number of processes, run by
      the code of the scheduler in any order: exclusion, no lost wakeup, no panic.
    - [XvPipe], [XvPipeProofs], [XvPipeClaims]: kernel/pipe.c and the table of
      kernel/file.c; a pipe is a bounded queue between two address spaces.
    - [XvProc], [XvExit], [XvShm]: allocation, fork, exit, wait, sbrk and shared
      memory (kernel/proc.c, kernel/sysproc.c, kernel/shm.c); what an exit leaves
      behind once the files are closed; shmget against its contract.
    - [XvExample]: a small machine on which the hypotheses of the theorems hold.

    Fuel: page loops are bounded by the number of pages of their range, freewalk
    by the three levels of a page table; code that waits is followed through a
    given number of wakeups and counts as asleep afterwards ([Asleep]), which is
    the only way in which verified code may stop without returning.

    ** Not modelled

    - Server: socket setup, signal handlers and the accept loop of start_server
      (threads appear in the pool at any time); freeing of memory.
    - The kernel is seen from one CPU.  Interrupt handlers do not run between the
      statements of kernel code; preemption happens in user mode.  Saved contexts
      are the resumptions themselves; the contents of a trap frame are a field of
      the process and not bytes of its page.
    - The file system, log and buffer cache (fs.c, log.c, bio.c, sysfile.c,
      exec.c) need a model of the disk; files and processes use them through the
      interface [Inodes].
    - Traps, devices and boot code work on control and device registers.
    - syscall.c beyond the register arguments; the shell, the other user programs,
      the demonstrations and tests; mkfs.
    - The definitions of shmat, shmdt, sleep locks, fork and wait have no theorems
      of their own yet. *)

From Stdlib Require Export ZArith Lia.
From Stdlib Require Import Ascii.
From stdpp Require Export base numbers list gmap strings.

#[global] Open Scope Z_scope.

(** * Bytes *)

(** Bytes are integers; [is_byte] is the range of an [unsigned char]. *)
Notation bytes := (list Z).

Definition is_byte (b : Z) : Prop := 0 <= b < 256.

#[global] Instance is_byte_dec b : Decision (is_byte b).
Proof. unfold is_byte. apply _. Defined.

Definition byte_of_ascii (a : ascii) : Z := Z.of_N (N_of_ascii a).

(** The bytes of a string literal of the source. *)
Fixpoint lit (s : string) : bytes :=
  match s with
  | EmptyString => []
  | String a s' => byte_of_ascii a :: lit s'
  end.

Declare Scope bytes_scope.
Delimit Scope bytes_scope with bytes.
Notation "'L' s" := (lit s%string) (at level 9, s at level 0, only parsing) : bytes_scope.
#[global] Open Scope bytes_scope.

(** * Machine integers *)

(** Conversions to the C integer types the sources use, with wrap-around. *)
Definition u8 (z : Z) : Z := z mod 2 ^ 8.
Definition u16 (z : Z) : Z := z mod 2 ^ 16.
Definition u32 (z : Z) : Z := z mod 2 ^ 32.
Definition u64 (z : Z) : Z := z mod 2 ^ 64.
Definition i16 (z : Z) : Z := (z + 2 ^ 15) mod 2 ^ 16 - 2 ^ 15.
Definition i32 (z : Z) : Z := (z + 2 ^ 31) mod 2 ^ 32 - 2 ^ 31.

Definition INT_MAX : Z := 2 ^ 31 - 1.
Definition INT_MIN : Z := - 2 ^ 31.

Lemma u8_range z : 0 <= u8 z < 256.
Proof. apply Z.mod_pos_bound. lia. Qed.

Lemma u32_range z : 0 <= u32 z < 2 ^ 32.
Proof. apply Z.mod_pos_bound. lia. Qed.

Lemma u64_range z : 0 <= u64 z < 2 ^ 64.
Proof. apply Z.mod_pos_bound. lia. Qed.

Lemma i32_range z : - 2 ^ 31 <= i32 z < 2 ^ 31.
Proof. unfold i32. pose proof (Z.mod_pos_bound (z + 2 ^ 31) (2 ^ 32)). lia. Qed.

Lemma u8_small z : 0 <= z < 256 -> u8 z = z.
Proof. apply Z.mod_small. Qed.

Lemma u32_small z : 0 <= z < 2 ^ 32 -> u32 z = z.
Proof. apply Z.mod_small. Qed.

Lemma u64_small z : 0 <= z < 2 ^ 64 -> u64 z = z.
Proof. apply Z.mod_small. Qed.

Lemma i32_small z : - 2 ^ 31 <= z < 2 ^ 31 -> i32 z = z.
Proof. intros. unfold i32. rewrite Z.mod_small; lia. Qed.

Lemma i32_idem z : i32 (i32 z) = i32 z.
Proof. apply i32_small, i32_range. Qed.

Lemma i32_u64 z : i32 (u64 z) = i32 z.
Proof.
  unfold i32, u64. f_equal.
  rewrite (Z.add_mod (z mod 2 ^ 64)), (Z.add_mod z) by lia.
  f_equal. f_equal. apply Z.mod_mod_divide. by exists (2 ^ 32).
Qed.

(** * Lists *)

Notation len l := (Z.of_nat (length l)).

Lemma len_nonneg {A} (l : list A) : 0 <= len l.
Proof. lia. Qed.

(** [l] indexed by a C integer. *)
Definition zlookup {A} (l : list A) (i : Z) : option A :=
  if 0 <=? i then l !! Z.to_nat i else None.

Lemma zlookup_Some_lt {A} (l : list A) i x : zlookup l i = Some x -> 0 <= i < len l.
Proof.
  unfold zlookup. destruct (Z.leb_spec 0 i); [|done].
  intros H'%lookup_lt_Some. lia.
Qed.

Lemma zlookup_lt {A} (l : list A) i : 0 <= i < len l -> is_Some (zlookup l i).
Proof.
  intros. unfold zlookup. destruct (Z.leb_spec 0 i); [|lia].
  apply lookup_lt_is_Some. lia.
Qed.

Lemma zlookup_nat {A} (l : list A) (n : nat) : zlookup l (Z.of_nat n) = l !! n.
Proof. unfold zlookup. destruct (Z.leb_spec 0 (Z.of_nat n)); [|lia]. by rewrite Nat2Z.id. Qed.

(** The first index from [i] on whose element satisfies [p]: the search loops
    [for(i = 0; i < N; i++) if(p(a[i])) ...] of the sources. *)
Fixpoint find_from {A} (p : A -> bool) (i : nat) (l : list A) : option nat :=
  match l with
  | [] => None
  | x :: l' => if p x then Some i else find_from p (S i) l'
  end.

Definition find_index {A} (p : A -> bool) (l : list A) : option nat := find_from p 0 l.

Lemma find_from_Some {A} (p : A -> bool) l i j :
  find_from p i l = Some j <->
  exists k x, j = (i + k)%nat /\ l !! k = Some x /\ p x = true /\
              (forall k' y, (k' < k)%nat -> l !! k' = Some y -> p y = false).
Proof.
  revert i. induction l as [|a l IH]; intros i; simpl.
  - split; [done|]. intros (k & x & _ & H & _). by rewrite lookup_nil in H.
  - destruct (p a) eqn:Ea.
    + split.
      * intros [= <-]. exists 0%nat, a. repeat split; [lia|done..|]. lia.
      * intros (k & x & -> & Hk & Hx & Hmin). destruct k as [|k]; [f_equal; lia|].
        specialize (Hmin 0%nat a ltac:(lia) eq_refl). congruence.
    + rewrite IH. split.
      * intros (k & x & -> & Hk & Hx & Hmin). exists (S k), x.
        repeat split; [lia|done..|]. intros [|k'] y Hlt Hy; simplify_eq/=; [done|].
        eapply Hmin; [|done]. lia.
      * intros (k & x & -> & Hk & Hx & Hmin). destruct k as [|k]; simplify_eq/=; [congruence|].
        exists k, x. repeat split; [lia|done..|]. intros k' y Hlt Hy.
        apply (Hmin (S k') y); [lia|done].
Qed.

Lemma find_index_Some {A} (p : A -> bool) (l : list A) j :
  find_index p l = Some j <->
  exists x, l !! j = Some x /\ p x = true /\
            (forall k y, (k < j)%nat -> l !! k = Some y -> p y = false).
Proof. unfold find_index. rewrite find_from_Some. naive_solver. Qed.

Lemma find_from_None {A} (p : A -> bool) (l : list A) i :
  find_from p i l = None <-> Forall (fun x => p x = false) l.
Proof.
  revert i. induction l as [|a l IH]; intros i; simpl.
  - split; [constructor|done].
  - rewrite Forall_cons. destruct (p a) eqn:E; [|rewrite IH]; naive_solver.
Qed.

Lemma find_index_None {A} (p : A -> bool) (l : list A) :
  find_index p l = None <-> Forall (fun x => p x = false) l.
Proof. apply find_from_None. Qed.

Lemma find_index_ext {A} (p q : A -> bool) (l : list A) :
  (forall i x, l !! i = Some x -> p x = q x) -> find_index p l = find_index q l.
Proof.
  unfold find_index. generalize 0%nat. induction l as [|x l IH]; intros n H; simpl; [done|].
  rewrite (H 0%nat x) by done. destruct (q x); [done|]. apply IH. intros i. apply (H (S i)).
Qed.

(** * C strings *)

(** The C string stored at the start of a buffer: the bytes before the first
    NUL. *)
Fixpoint c_str (b : bytes) : bytes :=
  match b with
  | [] => []
  | x :: b' => if x =? 0 then [] else x :: c_str b'
  end.

Definition no_nul (s : bytes) : Prop := Forall (fun b => b <> 0) s.

Lemma c_str_no_nul b : no_nul (c_str b).
Proof.
  induction b as [|x b IH]; simpl; [constructor|].
  destruct (Z.eqb_spec x 0); [constructor | by constructor].
Qed.

Lemma c_str_id s : no_nul s -> c_str s = s.
Proof.
  induction 1 as [|x s Hx _ IH]; simpl; [done|].
  destruct (Z.eqb_spec x 0); [done | by f_equal].
Qed.

Lemma c_str_prefix b : c_str b `prefix_of` b.
Proof.
  induction b as [|x b IH]; simpl; [apply prefix_nil|].
  destruct (x =? 0); [apply prefix_nil | by apply prefix_cons].
Qed.

(** * Automation *)

Create HintDb srv discriminated.
Create Rewrite HintDb len.
#[export] Hint Resolve u8_range u32_range u64_range i32_range c_str_no_nul : srv.
#[export] Hint Rewrite @length_app @length_cons @length_nil @length_take
  @length_drop @length_replicate @length_insert @length_reverse : len.

(** Split a boolean guard of the code and keep the arithmetic fact. *)
Ltac split_guard :=
  match goal with
  | |- context [?a =? ?b] => destruct (Z.eqb_spec a b)
  | |- context [?a <=? ?b] => destruct (Z.leb_spec a b)
  | |- context [?a <? ?b] => destruct (Z.ltb_spec a b)
  | |- context [bool_decide ?P] => destruct (bool_decide_reflect P)
  end.

Ltac split_guard_in H :=
  match type of H with
  | context [?a =? ?b] => destruct (Z.eqb_spec a b)
  | context [?a <=? ?b] => destruct (Z.leb_spec a b)
  | context [?a <? ?b] => destruct (Z.ltb_spec a b)
  | context [bool_decide ?P] => destruct (bool_decide_reflect P)
  end.

(** Closed decidable goals, by evaluation. *)
Ltac by_decide := refine (bool_decide_eq_true_1 _ _); vm_compute; reflexivity.
