(* ===== verification/Libc.v ===== *)
(** The C library functions the file server calls on strings: comparison,
    search, [strtol] and the conversions of [snprintf].  Strings are the bytes
    before the terminating NUL. *)

From S2P Require Import Prelude.

Module Libc.

(** * Comparison *)

(** [strcmp] compares as [unsigned char]; only the sign of the result is
    specified, which is all the sources use. *)
Fixpoint strcmp (a b : bytes) : Z :=
  match a, b with
  | [], [] => 0
  | [], y :: _ => - y
  | x :: _, [] => x
  | x :: a', y :: b' => if x =? y then strcmp a' b' else x - y
  end.

Definition tolower (c : Z) : Z := if (65 <=? c) && (c <=? 90) then c + 32 else c.

Definition strcasecmp (a b : bytes) : Z := strcmp (tolower <$> a) (tolower <$> b).

Definition starts_with (p s : bytes) : bool := bool_decide (take (length p) s = p).

(** [strstr(s, p)]: the suffix of [s] that starts with [p]. *)
Fixpoint strstr (s p : bytes) : option bytes :=
  if starts_with p s then Some s
  else match s with
       | [] => None
       | _ :: s' => strstr s' p
       end.

(** * Number parsing *)

Definition isspace (c : Z) : bool := (c =? 32) || ((9 <=? c) && (c <=? 13)).
Definition isdigit (c : Z) : bool := (48 <=? c) && (c <=? 57).

Definition LONG_MAX : Z := 2 ^ 63 - 1.
Definition LONG_MIN : Z := - 2 ^ 63.

Fixpoint skip_spaces (s : bytes) : bytes :=
  match s with
  | c :: s' => if isspace c then skip_spaces s' else s
  | [] => []
  end.

(** The digits at the start of [s], accumulated onto [acc], and the rest. *)
Fixpoint scan_digits (s : bytes) (acc : Z) : Z * bytes :=
  match s with
  | c :: s' => if isdigit c then scan_digits s' (acc * 10 + (c - 48)) else (acc, s)
  | [] => (acc, [])
  end.

(** [strtol(s, &end, 10)]: the value, the string at [end], and whether [errno]
    is set to [ERANGE]. *)
Definition strtol (s : bytes) : Z * bytes * bool :=
  let s1 := skip_spaces s in
  let '(neg, s2) :=
    match s1 with
    | c :: s' => if c =? 45 then (true, s') else if c =? 43 then (false, s') else (false, s1)
    | [] => (false, s1)
    end in
  match s2 with
  | c :: _ =>
      if isdigit c then
        let '(v, e) := scan_digits s2 0 in
        let v := if neg then - v else v in
        if LONG_MAX <? v then (LONG_MAX, e, true)
        else if v <? LONG_MIN then (LONG_MIN, e, true)
        else (v, e, false)
      else (0, s, false)
  | [] => (0, s, false)
  end.

(** * Number printing *)

Definition digit (d : Z) : Z := 48 + d.

(** The digits of [n] in base [b], most significant first. *)
Fixpoint digits (fuel : nat) (b n : Z) (acc : bytes) : bytes :=
  match fuel with
  | O => acc
  | S f => if n <? b then digit n :: acc else digits f b (n / b) (digit (n mod b) :: acc)
  end.

(** 64 digits print any 64-bit integer in any base from 2 on. *)
Definition print_u (b n : Z) : bytes := digits 64 b n [].

Definition print_d (n : Z) : bytes :=
  if n <? 0 then 45 :: print_u 10 (- n) else print_u 10 n.

(** * snprintf *)

(** [snprintf(out, size, ...)] whose conversions produce [text]: the returned
    length (negative when it does not fit an [int]) and the string stored. *)
Definition snprintf (size : Z) (text : bytes) : Z * bytes :=
  (if len text <=? INT_MAX then len text else -1,
   if size =? 0 then [] else take (Z.to_nat (size - 1)) text).

(** * Lemmas *)

Lemma strcmp_refl a : strcmp a a = 0.
Proof. induction a as [|x a IH]; simpl; [done|]. by rewrite Z.eqb_refl. Qed.

Lemma strcmp_eq a b : no_nul a -> no_nul b -> strcmp a b = 0 <-> a = b.
Proof.
  intros Ha. revert b. induction Ha as [|x a Hx _ IH]; intros b Hb.
  - destruct Hb as [|y b Hy _]; simpl; [done|]. split; [lia|done].
  - destruct Hb as [|y b Hy Hb]; simpl; [done|].
    destruct (Z.eqb_spec x y) as [->|]; [|split; [lia|congruence]].
    rewrite IH by done. split; congruence.
Qed.

Lemma strcmp_antisym a b : strcmp a b = - strcmp b a.
Proof.
  revert b. induction a as [|x a IH]; intros [|y b]; simpl; try lia.
  rewrite (Z.eqb_sym y x). destruct (Z.eqb_spec x y); [apply IH|lia].
Qed.

(** Strings of non-NUL unsigned bytes. *)
Definition c_string (s : bytes) : Prop := Forall (fun b => 0 < b < 256) s.

Lemma c_string_no_nul s : c_string s -> no_nul s.
Proof. intros H. eapply Forall_impl; [exact H|]. simpl. lia. Qed.

Lemma strcmp_lt_trans a b c :
  c_string a -> c_string b -> c_string c ->
  strcmp a b < 0 -> strcmp b c < 0 -> strcmp a c < 0.
Proof.
  revert b c. induction a as [|x a IH]; intros [|y b] [|z c] Ha Hb Hc; simpl;
    inversion Ha; inversion Hb; inversion Hc; simplify_eq; try lia.
  destruct (Z.eqb_spec x y), (Z.eqb_spec y z), (Z.eqb_spec x z); subst; try lia.
  by apply IH.
Qed.

Lemma starts_with_true p s : starts_with p s = true <-> p `prefix_of` s.
Proof.
  unfold starts_with. rewrite bool_decide_eq_true. split.
  - intros H. exists (drop (length p) s). rewrite <- H at 1. by rewrite take_drop.
  - intros [k ->]. apply take_app_length.
Qed.

(** [strstr] finds [p] exactly when [p] occurs in [s]. *)
Lemma strstr_None s p : strstr s p = None <-> forall k k', s <> k ++ p ++ k'.
Proof.
  induction s as [|c s IH]; simpl; destruct (starts_with p _) eqn:E.
  - apply starts_with_true in E as [k Hk]. split; [done|]. intros H. by destruct (H [] k).
  - split; [|done]. intros _ k k' Hk. symmetry in Hk.
    apply app_nil in Hk as [-> Hk]. apply app_nil in Hk as [-> ->]. done.
  - apply starts_with_true in E as [k Hk]. split; [done|]. intros H. by destruct (H [] k).
  - rewrite IH. split.
    + intros H k k' Hk. destruct k as [|c' k]; simplify_eq/=; [|by eapply H].
      assert (starts_with p (p ++ k') = true) as Hp by (apply starts_with_true; by exists k').
      rewrite <- Hk in Hp. congruence.
    + intros H k k' ->. by apply (H (c :: k) k').
Qed.

Lemma scan_digits_app s rest acc :
  Forall (fun c => isdigit c = true) s ->
  scan_digits (s ++ rest) acc = scan_digits rest (scan_digits s acc).1.
Proof.
  intros H. revert acc. induction H as [|c s Hc _ IH]; intros acc; simpl; [done|].
  by rewrite Hc, IH.
Qed.

Lemma isdigit_digit d : 0 <= d < 10 -> isdigit (digit d) = true.
Proof. intros. unfold isdigit, digit. lia. Qed.

Lemma digits_spec f n acc :
  0 <= n < 10 ^ Z.of_nat f -> (0 < f)%nat ->
  exists ds, digits f 10 n acc = ds ++ acc /\ (0 < length ds)%nat /\
    Forall (fun c => isdigit c = true) ds /\ forall a, (scan_digits ds a).1 = a * 10 ^ len ds + n.
Proof.
  revert n acc. induction f as [|f IH]; intros n acc Hn Hf; [lia|]. simpl.
  destruct (Z.ltb_spec n 10) as [Hlt|Hge].
  - exists [digit n]. repeat split; [simpl; lia| |].
    + repeat constructor. apply isdigit_digit. lia.
    + intros a. simpl. rewrite isdigit_digit by lia. unfold digit. simpl. lia.
  - assert (f <> 0%nat) by (intros ->; simpl in Hn; lia).
    rewrite Nat2Z.inj_succ, Z.pow_succ_r in Hn by lia.
    edestruct (IH (n / 10) (digit (n mod 10) :: acc)) as (ds & Eds & Hl & Hd & Hs); [|lia|].
    { split; [apply Z.div_pos; lia|]. apply Z.div_lt_upper_bound; lia. }
    pose proof (Z.mod_pos_bound n 10). pose proof (Z.div_mod n 10).
    exists (ds ++ [digit (n mod 10)]). rewrite <- app_assoc. split; [done|].
    rewrite length_app. split; [simpl; lia|]. split.
    + apply Forall_app. split; [done|]. repeat constructor. apply isdigit_digit. lia.
    + intros a. rewrite scan_digits_app by done. simpl.
      rewrite isdigit_digit by lia. rewrite Hs. unfold digit.
      rewrite Nat2Z.inj_add. simpl. rewrite Z.pow_add_r by lia. lia.
Qed.

(** [%zu] of a [size_t] produces decimal digits which [strtol] reads back. *)
Lemma print_u_spec n :
  0 <= n < 2 ^ 64 ->
  (0 < length (print_u 10 n))%nat /\ Forall (fun c => isdigit c = true) (print_u 10 n) /\
  forall a, (scan_digits (print_u 10 n) a).1 = a * 10 ^ len (print_u 10 n) + n.
Proof.
  intros Hn. unfold print_u.
  destruct (digits_spec 64 n []) as (ds & -> & H1 & H2 & H3); [|lia|].
  { split; [lia|]. change (10 ^ Z.of_nat 64) with (10 ^ 64). lia. }
  by rewrite app_nil_r.
Qed.

Lemma skip_spaces_digit c s : isdigit c = true -> skip_spaces (c :: s) = c :: s.
Proof. intros Hc. simpl. destruct (isspace c) eqn:E; [unfold isspace, isdigit in *; lia | done]. Qed.

Lemma strtol_print_u n :
  0 <= n <= LONG_MAX -> strtol (print_u 10 n) = (n, [], false).
Proof.
  intros Hn. unfold LONG_MAX in Hn.
  destruct (print_u_spec n) as (Hl & Hd & Hs); [lia|].
  destruct (print_u 10 n) as [|c s] eqn:E; [simpl in Hl; lia|].
  inversion Hd as [|? ? Hc Hd']; simplify_eq. unfold strtol.
  rewrite skip_spaces_digit by done.
  destruct (Z.eqb_spec c 45) as [->|]; [done|].
  destruct (Z.eqb_spec c 43) as [->|]; [done|]. rewrite Hc.
  specialize (Hs 0). pose proof (scan_digits_app (c :: s) [] 0 Hd) as Happ.
  rewrite app_nil_r in Happ. rewrite Happ, Hs. simpl.
  unfold LONG_MAX, LONG_MIN. repeat split_guard; try lia. done.
Qed.

End Libc.
