(* ===== verification/Rle.v ===== *)
(** Run-length compression of the file server ([rle_compress_bytes] and
    [rle_decompress_bytes] of file_ops.c): the loops over the input buffer with
    every store into the allocated output buffer bounds-checked, the encoding
    relation they implement, memory safety, and the round trip. *)

From S2P Require Import Prelude.

(** [errno] values of the C library. *)
Definition ENOENT : Z := 2.
Definition EINTR : Z := 4.
Definition ENOMEM : Z := 12.
Definition EEXIST : Z := 17.
Definition EINVAL : Z := 22.
Definition EFBIG : Z := 27.
Definition ERANGE : Z := 34.

Module Rle.

Definition MAX_FILE_SIZE : Z := 64 * 1024 * 1024.

(** The outcome of a function that fills a freshly allocated buffer: the bytes
    written, an [errno], or an access outside a buffer (also the result of a
    loop that outlives its bound). *)
Inductive cres :=
  | CBuf (out : bytes)
  | CErr (e : Z)
  | CUb.

(** [buf[w++] = x] on a buffer of [cap] bytes of which [out] are written. *)
Definition put (cap : Z) (out : bytes) (x : Z) : option bytes :=
  if len out <? cap then Some (out ++ [x]) else None.

(** [while (i + run < in_len && in[i + run] == value && run < 255) run++]:
    at most 254 iterations, since [run] starts at 1. *)
Fixpoint run_length (fuel : nat) (inp : bytes) (i value run : Z) : Z :=
  match fuel with
  | O => run
  | S f =>
      if (i + run <? len inp) && bool_decide (zlookup inp (i + run) = Some value) && (run <? 255)
      then run_length f inp i value (run + 1)
      else run
  end.

(** [for (i = 0; i < in_len;)]; [i] grows in every iteration, so [length inp]
    iterations are enough. *)
Fixpoint compress_loop (fuel : nat) (cap : Z) (inp : bytes) (i : Z) (out : bytes) : cres :=
  if i <? len inp then
    match fuel with
    | O => CUb
    | S f =>
        match zlookup inp i with
        | None => CUb
        | Some value =>
            let run := run_length 255 inp i value 1 in
            match put cap out (u8 run) with
            | None => CUb
            | Some out1 =>
                match put cap out1 value with
                | None => CUb
                | Some out2 => compress_loop f cap inp (i + run) out2
                end
            end
        end
    end
  else CBuf out.

Definition rle_cap (inp : bytes) : Z :=
  let cap := u64 (u64 (len inp * 2) + 8) in if cap =? 0 then 8 else cap.

Definition header : bytes := L"RLE1".

Fixpoint put_all (cap : Z) (out xs : bytes) : option bytes :=
  match xs with
  | [] => Some out
  | x :: xs' => match put cap out x with None => None | Some o => put_all cap o xs' end
  end.

(** [malloc n] says whether the allocation of [n] bytes succeeds. *)
Definition rle_compress_bytes (malloc : Z -> bool) (inp : bytes) : cres :=
  let cap := rle_cap inp in
  if negb (malloc cap) then CErr ENOMEM
  else match put_all cap [] header with
       | None => CUb
       | Some out => compress_loop (length inp) cap inp 0 out
       end.

(** The first pass of the decoder: the length of the output.  [None] is the
    [EFBIG] exit. *)
Fixpoint total_loop (fuel : nat) (inp : bytes) (i total : Z) : option Z :=
  match fuel with
  | O => Some total
  | S f =>
      if i + 1 <? len inp then
        let total := u64 (total + default 0 (zlookup inp i)) in
        if MAX_FILE_SIZE <? total then None else total_loop f inp (i + 2) total
      else Some total
  end.

(** [memset(buf + w, value, run)] on a buffer of [cap] bytes. *)
Definition fill (cap : Z) (out : bytes) (value run : Z) : option bytes :=
  if len out + run <=? cap then Some (out ++ replicate (Z.to_nat run) value) else None.

Fixpoint decompress_loop (fuel : nat) (cap : Z) (inp : bytes) (i : Z) (out : bytes) : cres :=
  if i + 1 <? len inp then
    match fuel with
    | O => CUb
    | S f =>
        match zlookup inp i, zlookup inp (i + 1) with
        | Some run, Some value =>
            match fill cap out value run with
            | None => CUb
            | Some out' => decompress_loop f cap inp (i + 2) out'
            end
        | _, _ => CUb
        end
    end
  else CBuf out.

(** The checks of the decoder before it allocates: an [errno] or the length of
    the output. *)
Definition rle_decompress_check (inp : bytes) : Z + Z :=
  if (len inp <? 4) || negb (bool_decide (take 4 inp = header)) then inl EINVAL
  else match total_loop (length inp) inp 4 0 with
       | None => inl EFBIG
       | Some total => if negb ((len inp - 4) mod 2 =? 0) then inl EINVAL else inr total
       end.

Definition rle_decompress_bytes (malloc : Z -> bool) (inp : bytes) : cres :=
  match rle_decompress_check inp with
  | inl e => CErr e
  | inr total =>
      let cap := if 0 <? total then total else 1 in
      if negb (malloc cap) then CErr ENOMEM
      else decompress_loop (length inp) cap inp 4 []
  end.

(** * The encoding *)

(** [rle_enc l o]: [o] is the sequence of (run, value) pairs of [l], each run
    between 1 and 255 long and maximal. *)
Inductive rle_enc : bytes -> bytes -> Prop :=
  | rle_nil : rle_enc [] []
  | rle_run r v l o :
      1 <= r <= 255 ->
      r = 255 \/ head l <> Some v ->
      rle_enc l o ->
      rle_enc (replicate (Z.to_nat r) v ++ l) (r :: v :: o).

(** The bytes a sequence of (run, value) pairs stands for. *)
Fixpoint expand (o : bytes) : bytes :=
  match o with
  | r :: v :: o' => replicate (Z.to_nat r) v ++ expand o'
  | _ => []
  end.

Lemma rle_enc_expand l o : rle_enc l o -> expand o = l.
Proof. induction 1; simpl; congruence. Qed.

Lemma rle_enc_length l o : rle_enc l o -> len o <= 2 * len l.
Proof.
  induction 1; [done|]. rewrite length_app, length_replicate. simpl. lia.
Qed.

Lemma rle_enc_bytes l o : rle_enc l o -> Forall is_byte l -> Forall is_byte o.
Proof.
  induction 1 as [|r v l o Hr _ _ IH]; [done|].
  intros [Hv Hl]%Forall_app. constructor; [unfold is_byte; lia|]. constructor; [|by apply IH].
  destruct (Z.to_nat r) eqn:E; [lia|]. by inversion Hv.
Qed.

(** * Compression *)

Lemma put_Some cap out x : len out < cap -> put cap out x = Some (out ++ [x]).
Proof. intros. unfold put. by split_guard; [|lia]. Qed.

Lemma zlookup_drop {A} (l : list A) i j :
  0 <= i -> 0 <= j -> zlookup l (i + j) = drop (Z.to_nat i) l !! Z.to_nat j.
Proof.
  intros. unfold zlookup. destruct (Z.leb_spec 0 (i + j)); [|lia].
  rewrite lookup_drop. f_equal. lia.
Qed.

Lemma head_drop {A} (l : list A) n : head (drop n l) = l !! n.
Proof. revert n. induction l; intros [|n]; simpl; [done..|]. apply IHl. Qed.

(** What [run_length] computes: the length of the maximal run of [value] at
    [i], cut at 255. *)
Lemma run_length_spec fuel inp i v run :
  0 <= i -> 1 <= run <= 255 -> 255 <= run + Z.of_nat fuel ->
  take (Z.to_nat run) (drop (Z.to_nat i) inp) = replicate (Z.to_nat run) v ->
  let r := run_length fuel inp i v run in
  run <= r <= 255 /\
  take (Z.to_nat r) (drop (Z.to_nat i) inp) = replicate (Z.to_nat r) v /\
  (r = 255 \/ head (drop (Z.to_nat r) (drop (Z.to_nat i) inp)) <> Some v).
Proof.
  revert run. induction fuel as [|f IH]; intros run Hi Hr Hf Ht; simpl.
  - repeat split; [lia..|done|]. left. lia.
  - rewrite (zlookup_drop inp i run) by lia. rewrite head_drop.
    destruct (Z.ltb_spec (i + run) (len inp)); simpl.
    2: { repeat split; [lia..|done|]. right. rewrite lookup_ge_None_2; [done|].
         rewrite length_drop. lia. }
    destruct (bool_decide_reflect (drop (Z.to_nat i) inp !! Z.to_nat run = Some v)) as [E|E]; simpl.
    2: { repeat split; [lia..|done|]. by right. }
    destruct (Z.ltb_spec run 255); simpl.
    2: { repeat split; [lia..|done|]. left. lia. }
    specialize (IH (run + 1) Hi ltac:(lia) ltac:(lia)). simpl in IH.
    rewrite head_drop in IH.
    destruct IH as (? & ? & ?); [|repeat split; (done || lia)].
    rewrite Z2Nat.inj_add by lia. rewrite Nat.add_1_r.
    rewrite (take_S_r _ _ v) by done. by rewrite Ht, <- replicate_S_end.
Qed.

Lemma run_length_split inp i v :
  0 <= i -> zlookup inp i = Some v ->
  let r := run_length 255 inp i v 1 in
  1 <= r <= 255 /\
  drop (Z.to_nat i) inp = replicate (Z.to_nat r) v ++ drop (Z.to_nat (i + r)) inp /\
  (r = 255 \/ head (drop (Z.to_nat (i + r)) inp) <> Some v).
Proof.
  intros Hi Hv r. rewrite <- (Z.add_0_r i), zlookup_drop in Hv by lia.
  destruct (run_length_spec 255 inp i v 1) as (Hr & Ht & Hm); [lia..| |].
  - destruct (drop (Z.to_nat i) inp); simplify_eq/=; done.
  - fold r in Hr, Ht, Hm. rewrite drop_drop in Hm. rewrite Z2Nat.inj_add by lia.
    repeat split; [lia..| |done].
    rewrite <- Ht, <- drop_drop. by rewrite take_drop.
Qed.

Lemma compress_loop_ok fuel cap inp i out :
  0 <= i <= len inp -> len inp <= i + Z.of_nat fuel ->
  len out + 2 * (len inp - i) <= cap ->
  exists o, compress_loop fuel cap inp i out = CBuf (out ++ o) /\
            rle_enc (drop (Z.to_nat i) inp) o.
Proof.
  revert i out. induction fuel as [|f IH]; intros i out Hi Hf Hcap; cbn -[run_length].
  - destruct (Z.ltb_spec i (len inp)); [lia|].
    exists []. rewrite app_nil_r, drop_ge by lia. split; [done|constructor].
  - destruct (Z.ltb_spec i (len inp)) as [Hlt|Hge].
    2: { exists []. rewrite app_nil_r, drop_ge by lia. split; [done|constructor]. }
    destruct (zlookup_lt inp i) as [v Hv]; [lia|]. rewrite Hv.
    destruct (run_length_split inp i v) as (Hr & Hd & Hm); [lia|done|].
    set (r := run_length 255 inp i v 1) in *.
    assert (i + r <= len inp) as Hir.
    { apply (f_equal length) in Hd. rewrite length_app, length_replicate, !length_drop in Hd. lia. }
    rewrite put_Some by lia. rewrite put_Some by (rewrite length_app; simpl; lia).
    edestruct (IH (i + r)) as (o & -> & Ho).
    { lia. } { lia. } { rewrite !length_app. simpl. lia. }
    exists (r :: v :: o). rewrite <- !app_assoc, u8_small by lia. split; [done|].
    rewrite Hd. by constructor.
Qed.

Lemma rle_cap_value inp : len inp <= MAX_FILE_SIZE -> rle_cap inp = 2 * len inp + 8.
Proof.
  intros H. unfold rle_cap, MAX_FILE_SIZE in *. rewrite (u64_small (len inp * 2)), u64_small by lia.
  split_guard; lia.
Qed.

(** Compression never writes outside its buffer and produces the header
    followed by the maximal-run encoding of the input. *)
Lemma rle_compress_ok malloc inp :
  len inp <= MAX_FILE_SIZE -> malloc (rle_cap inp) = true ->
  exists o, rle_compress_bytes malloc inp = CBuf (header ++ o) /\ rle_enc inp o.
Proof.
  intros Hl Hm. unfold rle_compress_bytes. rewrite Hm, (rle_cap_value inp) by done.
  assert (put_all (2 * len inp + 8) [] header = Some header) as ->.
  { simpl. repeat (rewrite put_Some by (simpl; lia); simpl). done. }
  destruct (compress_loop_ok (length inp) (2 * len inp + 8) inp 0 header) as (o & -> & Ho);
    [lia|lia|simpl; lia|]. by exists o.
Qed.

(** * Decompression *)

(** The decoded length: the sum of the run lengths. *)
Fixpoint expand_len (o : bytes) : Z :=
  match o with
  | r :: _ :: o' => r + expand_len o'
  | _ => 0
  end.

Lemma two_step_ind (P : bytes -> Prop) :
  P [] -> (forall x, P [x]) -> (forall x y l, P l -> P (x :: y :: l)) -> forall l, P l.
Proof.
  intros H0 H1 H2 l. enough (P l /\ forall x, P (x :: l)) by tauto.
  induction l as [|a l [IH1 IH2]]; split; auto.
Qed.

Lemma expand_len_length o : Forall is_byte o -> len (expand o) = expand_len o.
Proof.
  induction o as [| |r v o IH] using two_step_ind; intros Ho; simpl; [done..|].
  inversion Ho as [|? ? Hr Ho']; inversion Ho'; simplify_eq. unfold is_byte in Hr.
  rewrite length_app, length_replicate, Nat2Z.inj_add, IH by done. lia.
Qed.

Lemma expand_len_nonneg o : Forall is_byte o -> 0 <= expand_len o.
Proof. intros. rewrite <- expand_len_length by done. lia. Qed.

(** The pair under the cursor of the decoding loops. *)
Lemma cursor_step inp i :
  0 <= i -> Forall is_byte inp ->
  if i + 1 <? len inp then
    exists r v, zlookup inp i = Some r /\ zlookup inp (i + 1) = Some v /\ is_byte r /\
      drop (Z.to_nat i) inp = r :: v :: drop (Z.to_nat (i + 2)) inp
  else (length (drop (Z.to_nat i) inp) < 2)%nat.
Proof.
  intros Hi Hb. split_guard; [|rewrite length_drop; lia].
  destruct (zlookup_lt inp i) as [r Hr]; [lia|].
  destruct (zlookup_lt inp (i + 1)) as [v Hv]; [lia|].
  exists r, v. repeat split; [done..| | |].
  1-2: unfold zlookup in Hr; destruct (0 <=? i); [|done];
       eapply Forall_lookup_1 in Hr; [|done]; unfold is_byte in Hr; lia.
  rewrite (zlookup_drop inp i 1) in Hv by lia. rewrite <- (Z.add_0_r i), zlookup_drop in Hr by lia.
  rewrite Z2Nat.inj_add, <- drop_drop by lia.
  destruct (drop (Z.to_nat i) inp) as [|a [|b l]]; simplify_eq/=. done.
Qed.

Lemma total_loop_spec fuel inp i t :
  0 <= i -> Forall is_byte inp -> 0 <= t <= MAX_FILE_SIZE -> len inp <= i + 2 * Z.of_nat fuel ->
  total_loop fuel inp i t =
    let n := t + expand_len (drop (Z.to_nat i) inp) in
    if MAX_FILE_SIZE <? n then None else Some n.
Proof.
  revert i t. induction fuel as [|f IH]; intros i t Hi Hb Ht Hf; simpl.
  - rewrite drop_ge by lia. simpl. rewrite Z.add_0_r. split_guard; [lia|done].
  - pose proof (cursor_step inp i Hi Hb) as Hc.
    destruct (i + 1 <? len inp).
    + destruct Hc as (r & v & Hr & Hv & Hrb & Hd). rewrite Hr, Hd. simpl.
      unfold is_byte, MAX_FILE_SIZE in *. rewrite u64_small by lia.
      assert (0 <= expand_len (drop (Z.to_nat (i + 2)) inp))
        by (by apply expand_len_nonneg, Forall_drop).
      destruct (Z.ltb_spec (64 * 1024 * 1024) (t + r)).
      * split_guard; [done|lia].
      * rewrite IH by (done || lia). simpl. by rewrite Z.add_assoc.
    + destruct (drop (Z.to_nat i) inp) as [|x [|y l]]; simpl in *; [..|lia];
        rewrite Z.add_0_r; split_guard; (done || lia).
Qed.

Lemma decompress_loop_spec fuel cap inp i out :
  0 <= i -> Forall is_byte inp -> len inp <= i + 2 * Z.of_nat fuel ->
  len out + expand_len (drop (Z.to_nat i) inp) <= cap ->
  decompress_loop fuel cap inp i out = CBuf (out ++ expand (drop (Z.to_nat i) inp)).
Proof.
  revert i out. induction fuel as [|f IH]; intros i out Hi Hb Hf Hcap; simpl.
  - split_guard; [lia|]. rewrite drop_ge by lia. simpl. by rewrite app_nil_r.
  - pose proof (cursor_step inp i Hi Hb) as Hc.
    destruct (i + 1 <? len inp).
    + destruct Hc as (r & v & Hr & Hv & Hrb & Hd). rewrite Hr, Hv, Hd in *. simpl in *.
      assert (0 <= expand_len (drop (Z.to_nat (i + 2)) inp))
        by (by apply expand_len_nonneg, Forall_drop).
      unfold fill, is_byte in *. destruct (Z.leb_spec (len out + r) cap); [|lia].
      rewrite IH; [by rewrite <- app_assoc | lia | done | lia |].
      rewrite length_app, length_replicate. lia.
    + destruct (drop (Z.to_nat i) inp) as [|x [|y l]]; simpl in *; [..|lia]; by rewrite app_nil_r.
Qed.

(** The decoder as a function of the file contents alone. *)
Definition decode (malloc : Z -> bool) (inp : bytes) : cres :=
  if bool_decide (header `prefix_of` inp) then
    let o := drop 4 inp in
    if MAX_FILE_SIZE <? expand_len o then CErr EFBIG
    else if Nat.odd (length o) then CErr EINVAL
    else if malloc (Z.max 1 (expand_len o)) then CBuf (expand o) else CErr ENOMEM
  else CErr EINVAL.

Lemma header_test inp :
  (len inp <? 4) || negb (bool_decide (take 4 inp = header)) =
  negb (bool_decide (header `prefix_of` inp)).
Proof.
  assert (header `prefix_of` inp <-> take 4 inp = header) as Hiff.
  { split; [by intros [k ->]|]. intros <-. apply prefix_take. }
  rewrite (bool_decide_ext _ _ Hiff).
  destruct (bool_decide_reflect (take 4 inp = header)) as [E|E].
  - apply (f_equal length) in E. rewrite length_take in E.
    change (length header) with 4%nat in E. simpl. lia.
  - simpl. lia.
Qed.

Lemma odd_test (n : nat) : negb (Z.of_nat n mod 2 =? 0) = Nat.odd n.
Proof.
  change 2 with (Z.of_nat 2). rewrite <- Nat2Z.inj_mod.
  pose proof (Nat.bit0_mod n) as H. rewrite Nat.bit0_odd in H.
  destruct (Nat.odd n); cbn [Nat.b2n] in H; by rewrite <- H.
Qed.

Lemma rle_decompress_decode malloc inp :
  Forall is_byte inp -> rle_decompress_bytes malloc inp = decode malloc inp.
Proof.
  intros Hb. unfold rle_decompress_bytes, rle_decompress_check, decode. rewrite header_test.
  destruct (bool_decide_reflect (header `prefix_of` inp)) as [[k Hk]|]; [|done]. simpl.
  assert (len inp = 4 + len k) as Hlen by (rewrite Hk, length_app; change (length header) with 4%nat; lia).
  assert (drop 4 inp = k) as Hdrop by (by rewrite Hk).
  assert (0 <= expand_len k).
  { rewrite <- Hdrop. by apply expand_len_nonneg, Forall_drop. }
  rewrite total_loop_spec by first [done | unfold MAX_FILE_SIZE; lia].
  cbv zeta. rewrite Z.add_0_l. change (Z.to_nat 4) with 4%nat.
  rewrite Hdrop, Hlen. replace (4 + len k - 4) with (len k) by lia. rewrite odd_test.
  destruct (Z.ltb_spec MAX_FILE_SIZE (expand_len k)); [done|].
  destruct (Nat.odd (length k)); [done|].
  assert ((if 0 <? expand_len k then expand_len k else 1) = Z.max 1 (expand_len k)) as ->
    by (split_guard; lia).
  destruct (malloc _); [|done]. simpl.
  rewrite decompress_loop_spec; [by change (Z.to_nat 4) with 4%nat; rewrite Hdrop|lia|done|lia|].
  change (Z.to_nat 4) with 4%nat. rewrite Hdrop. simpl. lia.
Qed.

Lemma rle_enc_even l o : rle_enc l o -> Nat.odd (length o) = false.
Proof. induction 1; [done|]. cbn [length]. by rewrite Nat.odd_succ_succ. Qed.

(** The sequences the decoder accepts: whole pairs of bytes. *)
Definition pairs (o : bytes) : Prop := Forall is_byte o /\ Nat.odd (length o) = false.

Lemma pairs_cons r v o : pairs (r :: v :: o) -> is_byte r /\ pairs o.
Proof.
  intros [Hb Ho]. inversion Hb as [|? ? Hr Hb']; inversion Hb'; simplify_eq.
  cbn [length] in Ho. rewrite Nat.odd_succ_succ in Ho. done.
Qed.

(** The first run of a maximal encoding covers any run of [v] of at most 255
    bytes at the start of the input. *)
Lemma rle_enc_first_run m v rest o :
  1 <= m <= 255 -> rle_enc (replicate (Z.to_nat m) v ++ rest) o ->
  exists r l1 o1 k, o = r :: v :: o1 /\ rle_enc l1 o1 /\ rest = k ++ l1.
Proof.
  intros Hm He. inversion He as [Hl|r w l1 o1 Hr Hmax He1 Hl]; subst.
  { apply (f_equal length) in Hl. rewrite length_app, length_replicate in Hl. simpl in Hl. lia. }
  assert (w = v) as ->.
  { destruct (Z.to_nat r) eqn:E1; [lia|]. destruct (Z.to_nat m) eqn:E2; [lia|].
    by simplify_eq/=. }
  destruct (decide (m <= r)) as [Hle|Hlt].
  - exists r, l1, o1, (replicate (Z.to_nat (r - m)) v). repeat split; [done|].
    replace (Z.to_nat r) with (Z.to_nat m + Z.to_nat (r - m))%nat in Hl by lia.
    rewrite replicate_add, <- app_assoc in Hl. by apply app_inv_head in Hl.
  - destruct Hmax as [->|Hh]; [lia|]. exfalso. apply Hh.
    replace (Z.to_nat m) with (Z.to_nat r + S (Z.to_nat (m - r - 1)))%nat in Hl by lia.
    rewrite replicate_add, <- app_assoc in Hl. apply app_inv_head in Hl. by subst l1.
Qed.

(** A maximal encoding of a suffix is no longer than any encoding of the whole. *)
Lemma rle_enc_minimal_suffix o' k l o :
  pairs o' -> expand o' = k ++ l -> rle_enc l o -> len o <= len o'.
Proof.
  revert k l o. induction o' as [|x|r v o' IH] using two_step_ind; intros k l o Hp Hx He.
  - symmetry in Hx. apply app_nil in Hx as [-> ->]. inversion He as [|r v l' ? Hr Hm Hl Heq]; [done|].
    apply (f_equal length) in Heq. rewrite length_app, length_replicate in Heq. simpl in Heq. lia.
  - by destruct Hp.
  - apply pairs_cons in Hp as [Hr Hp]. unfold is_byte in Hr. simpl in Hx.
    destruct (decide (Z.to_nat r <= length k)%nat) as [Hk|Hk].
    + apply app_eq_inv in Hx as [(k' & Hk' & Hx)|(k' & -> & Hx)].
      * assert (k' = []) as ->.
        { apply (f_equal length) in Hk'. rewrite length_app, length_replicate in Hk'.
          destruct k'; [done|]. simpl in Hk'. lia. }
        specialize (IH [] l o Hp (eq_sym Hx) He). simpl. lia.
      * specialize (IH k' l o Hp Hx He). simpl. lia.
    + assert (l = replicate (Z.to_nat (r - len k)) v ++ expand o') as ->.
      { apply (f_equal (drop (length k))) in Hx.
        rewrite drop_app_length, drop_app_le in Hx by (rewrite length_replicate; lia).
        rewrite drop_replicate in Hx. rewrite <- Hx. do 2 f_equal. lia. }
      apply rle_enc_first_run in He as (r1 & l1 & o1 & k1 & -> & He1 & Hk1); [|lia].
      specialize (IH k1 l1 o1 Hp Hk1 He1). simpl. lia.
Qed.

Lemma rle_decompress_encoded malloc inp o :
  Forall is_byte inp -> len inp <= MAX_FILE_SIZE -> rle_enc inp o ->
  rle_decompress_bytes malloc (header ++ o) =
    if malloc (Z.max 1 (len inp)) then CBuf inp else CErr ENOMEM.
Proof.
  intros Hb Hl He. pose proof (rle_enc_bytes _ _ He Hb) as Ho.
  rewrite rle_decompress_decode.
  2: { apply Forall_app. split; [by_decide|done]. }
  unfold decode. rewrite bool_decide_eq_true_2 by (by eexists).
  change (drop 4 (header ++ o)) with o. cbv zeta.
  rewrite <- expand_len_length, (rle_enc_expand _ _ He), (rle_enc_even _ _ He) by done.
  by destruct (Z.ltb_spec MAX_FILE_SIZE (len inp)); [lia|].
Qed.

(** * Properties *)

(** C20: for every input of at most [MAX_FILE_SIZE] bytes, when both
    allocations succeed, compression yields a buffer that decompression turns
    back into exactly the input. *)
Theorem rle_roundtrip malloc malloc' inp :
  Forall is_byte inp -> len inp <= MAX_FILE_SIZE ->
  malloc (rle_cap inp) = true -> malloc' (Z.max 1 (len inp)) = true ->
  exists c, rle_compress_bytes malloc inp = CBuf c /\ rle_decompress_bytes malloc' c = CBuf inp.
Proof.
  intros Hb Hl Hm Hm'. destruct (rle_compress_ok malloc inp Hl Hm) as (o & -> & He).
  eexists. split; [done|]. by rewrite (rle_decompress_encoded _ inp), Hm'.
Qed.

Lemma rle_roundtrip_witness :
  exists c, rle_compress_bytes (fun _ => true) (L"aaab") = CBuf c /\
            rle_decompress_bytes (fun _ => true) c = CBuf (L"aaab").
Proof.
  apply (rle_roundtrip (fun _ => true) (fun _ => true) (L"aaab")).
  - by_decide.
  - vm_compute. discriminate.
  - reflexivity.
  - reflexivity.
Defined.

(** C23: compression stays inside the buffer it allocates and its output is the
    shortest one: no sequence of (run, value) byte pairs that decodes to the
    input is shorter, and the output is at most 4 + 2n bytes long. *)
Theorem rle_compress_optimal malloc inp :
  len inp <= MAX_FILE_SIZE -> malloc (rle_cap inp) = true ->
  exists o, rle_compress_bytes malloc inp = CBuf (header ++ o) /\
    expand o = inp /\ len o <= 2 * len inp /\
    forall o', pairs o' -> expand o' = inp -> len o <= len o'.
Proof.
  intros Hl Hm. destruct (rle_compress_ok malloc inp Hl Hm) as (o & Ho & He).
  exists o. repeat split; [done|by apply rle_enc_expand|by apply rle_enc_length|].
  intros o' Hp Hx. by apply (rle_enc_minimal_suffix o' [] inp).
Qed.

Lemma rle_compress_optimal_witness :
  exists o, rle_compress_bytes (fun _ => true) (L"aab") = CBuf (header ++ o) /\
    expand o = L"aab" /\ len o <= 2 * len (L"aab") /\
    forall o', pairs o' -> expand o' = L"aab" -> len o <= len o'.
Proof.
  apply (rle_compress_optimal (fun _ => true) (L"aab")).
  - vm_compute. discriminate.
  - reflexivity.
Defined.

(** C21: on arbitrary bytes, also malformed ones, the two-pass decoder never
    accesses memory outside its buffers and computes [decode]: EINVAL without
    the header or with a dangling byte, EFBIG when the runs add up to more than
    [MAX_FILE_SIZE], ENOMEM when the allocation fails, and else the expansion
    of the pairs. *)
Theorem rle_decompress_total malloc inp :
  Forall is_byte inp ->
  rle_decompress_bytes malloc inp = decode malloc inp /\
  rle_decompress_bytes malloc inp <> CUb.
Proof.
  intros Hb. rewrite rle_decompress_decode by done. split; [done|].
  unfold decode. cbv zeta. by repeat case_match.
Qed.

Lemma rle_decompress_total_witness :
  rle_decompress_bytes (fun _ => true) (L"RLE1xyz") = decode (fun _ => true) (L"RLE1xyz") /\
  rle_decompress_bytes (fun _ => true) (L"RLE1xyz") <> CUb.
Proof. apply (rle_decompress_total (fun _ => true) (L"RLE1xyz")). by_decide. Defined.

End Rle.
