(* ===== verification/SrvEvents.v ===== *)
(** The effects of the file server: every call the C sources make to the
    operating system, to pthreads, to stdio and to the allocator is an [event]
    whose answer is not ours to define; a piece of server code is a [prog], a
    tree of events with one branch per answer.  [M] adds the thread's [errno].
    [wp] is the predicate transformer of a [prog] against a contract of the
    events, [run] executes a [prog] on an operating system given as a
    parameter, and [run_sound] connects the two. *)

From S2P Require Import Prelude.

(** The result of a call that reports failure through [errno]. *)
Notation res A := (Z + A)%type.

Inductive oflag :=
  | O_RDONLY
  | O_WRONLY_CREAT_TRUNC.

Inductive whence :=
  | SEEK_SET
  | SEEK_END.

(** [g_lock_map_mutex] of locks.c and [g_log_mutex] of logger.c. *)
Inductive mutex :=
  | MapMutex
  | LogMutex.

#[global] Instance oflag_eq_dec : EqDecision oflag.
Proof. solve_decision. Defined.
#[global] Instance mutex_eq_dec : EqDecision mutex.
Proof. solve_decision. Defined.

(** [struct stat], as far as the server reads it. *)
Record stat := mk_stat {
  st_size : Z;
  st_mode : Z;
  st_uid : Z;
  st_gid : Z;
  st_atime : Z;
  st_mtime : Z;
  st_ctime : Z;
}.

(** [file_lock_entry_t]: the path and the identity of the embedded rwlock (the
    pointer the C code hands out); the registry is the list of entries from
    [g_lock_map_head] on. *)
Record file_lock_entry := mk_entry {
  fe_path : bytes;
  fe_lock : Z;
}.

Inductive event :=
  (* files *)
  | EOpen (path : bytes) (fl : oflag)
  | EFstat (fd : Z)
  | ERead (fd : Z) (n : Z)
  | EWrite (fd : Z) (data : bytes)
  | EFsync (fd : Z)
  | EClose (fd : Z)
  | EUnlink (path : bytes)
  | ERename (src dst : bytes)
  | EMkdir (path : bytes)
  | EStat (path : bytes)
  (* stdio, used for the audit log only *)
  | EFopen (path : bytes) (append : bool)
  | EFseek (fp : Z) (off : Z) (w : whence)
  | EFtell (fp : Z)
  | EFread (fp : Z) (n : Z)
  | EFprintf (fp : Z) (text : bytes)
  | EFclose (fp : Z)
  (* allocator, messages, clock *)
  | EMalloc (n : Z)
  | EStrerror (e : Z)
  | ETimestamp
  (* client socket *)
  | ERecv (fd : Z) (n : Z)
  | ESend (fd : Z) (data : bytes)
  (* pthreads and the lock registry *)
  | EMutexLock (m : mutex)
  | EMutexUnlock (m : mutex)
  | EGetMap
  | ERwInit
  | EPushEntry (path : bytes)
  | ERdLock (l : Z)
  | EWrLock (l : Z)
  | EUnlock (l : Z)
  (* the stop flag set by the signal handler *)
  | EStop.

Definition ans (e : event) : Type :=
  match e with
  | EOpen _ _ | EFopen _ _ => res Z
  | EFstat _ | EStat _ => res stat
  | ERead _ _ | ERecv _ _ => res bytes
  | EWrite _ _ | ESend _ _ => res Z
  | EFsync _ | EClose _ | EUnlink _ | ERename _ _ | EMkdir _ => res unit
  | EFseek _ _ _ => res unit
  | EFtell _ => res Z
  | EFread _ _ => bytes
  | EFprintf _ _ | EFclose _ => unit
  | EMalloc _ => bool
  | EStrerror _ | ETimestamp => bytes
  | EMutexLock _ | EMutexUnlock _ => unit
  | EGetMap => list file_lock_entry
  | ERwInit => bool
  | EPushEntry _ => Z
  | ERdLock _ | EWrLock _ => Z
  | EUnlock _ => unit
  | EStop => bool
  end.

(** Why a run can end without a result: a loop ran out of fuel, or the code
    accessed memory outside an object. *)
Inductive abort :=
  | NoFuel
  | OutOfBounds.

Inductive prog (A : Type) : Type :=
  | Ret (a : A)
  | Vis (e : event) (k : ans e -> prog A)
  | Abort (why : abort).
Arguments Ret {A} a.
Arguments Vis {A} e k.
Arguments Abort {A} why.

Fixpoint pbind {A B} (f : A -> prog B) (p : prog A) : prog B :=
  match p with
  | Ret a => f a
  | Vis e k => Vis e (fun r => pbind f (k r))
  | Abort w => Abort w
  end.

(** Server code: a [prog] that reads and writes the calling thread's [errno]. *)
Definition M (A : Type) : Type := Z -> prog (Z * A).

#[global] Instance M_ret : MRet M := fun A a en => Ret (en, a).
#[global] Instance M_bind : MBind M :=
  fun A B f m en => pbind (fun '(en', a) => f a en') (m en).

Definition call (e : event) : M (ans e) := fun en => Vis e (fun r => Ret (en, r)).
Definition get_errno : M Z := fun en => Ret (en, en).
Definition set_errno (e : Z) : M unit := fun _ => Ret (e, tt).
Definition out_of_fuel {A} : M A := fun _ => Abort NoFuel.
Definition out_of_bounds {A} : M A := fun _ => Abort OutOfBounds.

(** A call that fails with [errno] set; a call that succeeds leaves it alone. *)
Definition sys {A} (e : event) (conv : ans e -> res A) : M (res A) :=
  fun en => Vis e (fun r => match conv r with
                            | inl e' => Ret (e', inl e')
                            | inr a => Ret (en, inr a)
                            end).

Definition open (path : bytes) (fl : oflag) : M (res Z) := sys (EOpen path fl) id.
Definition fstat (fd : Z) : M (res stat) := sys (EFstat fd) id.
Definition read (fd n : Z) : M (res bytes) := sys (ERead fd n) id.
Definition write (fd : Z) (data : bytes) : M (res Z) := sys (EWrite fd data) id.
Definition fsync (fd : Z) : M (res unit) := sys (EFsync fd) id.
Definition close (fd : Z) : M (res unit) := sys (EClose fd) id.
Definition unlink (path : bytes) : M (res unit) := sys (EUnlink path) id.
Definition rename (src dst : bytes) : M (res unit) := sys (ERename src dst) id.
Definition mkdir (path : bytes) : M (res unit) := sys (EMkdir path) id.
Definition stat_path (path : bytes) : M (res stat) := sys (EStat path) id.
Definition fopen (path : bytes) (append : bool) : M (res Z) := sys (EFopen path append) id.
Definition fseek (fp off : Z) (w : whence) : M (res unit) := sys (EFseek fp off w) id.
(** [ftell] returns -1 on failure. *)
Definition ftell (fp : Z) : M Z :=
  r ← sys (EFtell fp) id;
  mret (match r with inl _ => -1 | inr n => n end).
Definition recv (fd n : Z) : M (res bytes) := sys (ERecv fd n) id.
Definition send (fd : Z) (data : bytes) : M (res Z) := sys (ESend fd data) id.
Definition strerror (e : Z) : M bytes := call (EStrerror e).

(** [malloc]; failure sets [ENOMEM]. *)
Definition malloc (n : Z) : M bool :=
  b ← call (EMalloc n);
  if (b : bool) then mret true else set_errno 12;; mret false.

(** * Contracts *)

(** A contract of the events over a ghost state [H]: what a caller must
    establish, and how the answer relates the ghost states. *)
Record contract (H : Type) := mk_contract {
  c_pre : event -> H -> Prop;
  c_post : forall e, ans e -> H -> H -> Prop;
}.
Arguments c_pre {H} _ _ _.
Arguments c_post {H} _ _ _ _ _.

(** [wp tot C p h Q]: from ghost state [h], whatever the events answer within
    the contract [C], [p] respects the preconditions, stays in bounds, runs out
    of fuel only if [tot] is false, and ends in [Q]. *)
Fixpoint wp {H A} (tot : bool) (C : contract H) (p : prog A) (h : H) (Q : A -> H -> Prop) : Prop :=
  match p with
  | Ret a => Q a h
  | Vis e k => c_pre C e h /\ forall r h', c_post C e r h h' -> wp tot C (k r) h' Q
  | Abort NoFuel => tot = false
  | Abort OutOfBounds => False
  end.

Definition wpm {H A} (tot : bool) (C : contract H) (m : M A) (en : Z) (h : H)
    (Q : Z -> A -> H -> Prop) : Prop :=
  wp tot C (m en) h (fun '(en', a) h' => Q en' a h').

(** * Execution *)

Inductive outcome (A W : Type) :=
  | Done (a : A) (w : W)
  | Aborted (why : abort).
Arguments Done {A W} a w.
Arguments Aborted {A W} why.

(** An operating system: the answer to an event and the state after it. *)
Definition handler (W : Type) : Type := forall e, W -> ans e * W.

Fixpoint run {W A} (os : handler W) (p : prog A) (w : W) : outcome A W :=
  match p with
  | Ret a => Done a w
  | Vis e k => let '(r, w') := os e w in run os (k r) w'
  | Abort why => Aborted why
  end.

(** [os] behaves as [C] says, [R] relating its states to the ghost states. *)
Definition conforms {W H} (os : handler W) (C : contract H) (R : W -> H -> Prop) : Prop :=
  forall e w h, R w h -> c_pre C e h ->
    exists h', c_post C e (os e w).1 h h' /\ R (os e w).2 h'.

Lemma run_sound {W H A} tot (os : handler W) (C : contract H) (R : W -> H -> Prop)
    (p : prog A) w h Q :
  conforms os C R -> R w h -> wp tot C p h Q ->
  match run os p w with
  | Done a w' => exists h', R w' h' /\ Q a h'
  | Aborted NoFuel => tot = false
  | Aborted OutOfBounds => False
  end.
Proof.
  intros Hos. revert w h. induction p as [a|e k IH|[]]; intros w h HR Hwp; simpl in *; eauto.
  destruct Hwp as [Hpre Hk]. destruct (Hos e w h HR Hpre) as (h' & Hpost & HR').
  destruct (os e w) as [r w']; simpl in *. eapply IH; eauto.
Qed.

(** A total specification of [m]: on every system that meets the contract, [m]
    runs to completion and its result and final state are as specified. *)
Lemma wpm_run {W H A} (os : handler W) (C : contract H) (R : W -> H -> Prop) (m : M A) en w h Q :
  conforms os C R -> R w h -> wpm true C m en h Q ->
  exists en' a w' h', run os (m en) w = Done (en', a) w' /\ R w' h' /\ Q en' a h'.
Proof.
  intros Hos HR Hwp. pose proof (run_sound true os C R (m en) w h _ Hos HR Hwp) as Hrun.
  destruct (run os (m en) w) as [[en' a] w'|[]]; [|done..].
  destruct Hrun as (h' & HR' & HQ). by exists en', a, w', h'.
Qed.

(** * Rules *)

Section rules.
Context {H : Type} {tot : bool} {C : contract H}.

Lemma wp_mono {A} (p : prog A) h (Q Q' : A -> H -> Prop) :
  (forall a h', Q a h' -> Q' a h') -> wp tot C p h Q -> wp tot C p h Q'.
Proof.
  intros HQ. revert h. induction p as [a|e k IH|[]]; intros h; simpl; auto.
  intros [? Hk]. split; [done|]. intros r h' Hr. by apply IH, Hk.
Qed.

Lemma wp_pbind {A B} (f : A -> prog B) (p : prog A) h Q :
  wp tot C p h (fun a h' => wp tot C (f a) h' Q) -> wp tot C (pbind f p) h Q.
Proof.
  revert h. induction p as [a|e k IH|[]]; intros h; simpl; auto.
  intros [? Hk]. split; [done|]. intros r h' Hr. by apply IH, Hk.
Qed.

Lemma wpm_mono {A} (m : M A) en h (Q Q' : Z -> A -> H -> Prop) :
  wpm tot C m en h Q -> (forall en' a h', Q en' a h' -> Q' en' a h') -> wpm tot C m en h Q'.
Proof. intros Hm HQ. unfold wpm in *. eapply wp_mono; [|exact Hm]. intros [] ?. apply HQ. Qed.

Lemma wpm_ret {A} (a : A) en h (Q : Z -> A -> H -> Prop) :
  Q en a h -> wpm tot C (mret a) en h Q.
Proof. done. Qed.

Lemma wpm_bind {A B} (m : M A) (f : A -> M B) en h Q :
  wpm tot C m en h (fun en' a h' => wpm tot C (f a) en' h' Q) ->
  wpm tot C (m ≫= f) en h Q.
Proof. intros Hm. apply wp_pbind. eapply wp_mono; [|exact Hm]. by intros [en' a] h'. Qed.

Lemma wpm_call e en h (Q : Z -> ans e -> H -> Prop) :
  c_pre C e h -> (forall r h', c_post C e r h h' -> Q en r h') ->
  wpm tot C (call e) en h Q.
Proof. intros ? Hk. by split. Qed.

Lemma wpm_sys {A} e (conv : ans e -> res A) en h (Q : Z -> res A -> H -> Prop) :
  c_pre C e h ->
  (forall r h', c_post C e r h h' ->
     match conv r with inl e' => Q e' (inl e') h' | inr a => Q en (inr a) h' end) ->
  wpm tot C (sys e conv) en h Q.
Proof.
  intros ? Hk. split; [done|]. intros r h' Hr. specialize (Hk r h' Hr). by destruct (conv r).
Qed.

Lemma wpm_get_errno en h (Q : Z -> Z -> H -> Prop) :
  Q en en h -> wpm tot C get_errno en h Q.
Proof. done. Qed.

Lemma wpm_set_errno e en h (Q : Z -> unit -> H -> Prop) :
  Q e tt h -> wpm tot C (set_errno e) en h Q.
Proof. done. Qed.

Lemma wpm_out_of_fuel {A} en h (Q : Z -> A -> H -> Prop) :
  tot = false -> wpm tot C out_of_fuel en h Q.
Proof. done. Qed.
End rules.

#[global] Arguments sys : simpl never.
#[global] Arguments call : simpl never.

(** Use a specification of the code at hand, continuing after it. *)
Tactic Notation "wmono" tactic3(tac) := eapply wpm_mono; [tac | cbv beta].
