(* ===== verification/SrvPath.v ===== *)
(** Path handling of the file server (path_utils.c): the safety check, the
    construction of full paths in buffers of [PATH_MAX] bytes, the creation of
    parent directories, and the suffix functions of COMPRESS and DECOMPRESS. *)

From S2P Require Import Prelude Libc Rle SrvEvents.
Import Libc.

Definition PATH_MAX : Z := 4096.

Module Path.

Definition SLASH : Z := 47.

Definition is_path_safe (path : bytes) : bool :=
  match path with
  | [] => false
  | c :: _ =>
      if c =? SLASH then false
      else match strstr path (L"..") with
           | Some _ => false
           | None => true
           end
  end.

(** [Some out] is return value 0 with the path in [out], [None] is -1. *)
Definition path_build (data_dir relative : bytes) (out_sz : Z) : option bytes :=
  if negb (is_path_safe relative) then None
  else
    let '(n, out) := snprintf out_sz (data_dir ++ [SLASH] ++ relative) in
    if (n <? 0) || (out_sz <=? n) then None else Some out.

(** The loop over [tmp + 1]: [done] is the part of the buffer before [p]. *)
Fixpoint ensure_dirs (done rest : bytes) : M Z :=
  match rest with
  | [] => mret 0
  | c :: rest' =>
      if negb (c =? SLASH) then ensure_dirs (done ++ [c]) rest'
      else
        r ← mkdir done;
        match r with
        | inl e => if negb (e =? EEXIST) then mret (-1) else ensure_dirs (done ++ [c]) rest'
        | inr _ => ensure_dirs (done ++ [c]) rest'
        end
  end.

Definition path_ensure_parent_dirs (filepath : bytes) : M Z :=
  let '(n, tmp) := snprintf PATH_MAX filepath in
  if (n <? 0) || (PATH_MAX <=? n) then mret (-1)
  else match tmp with
       | [] => out_of_bounds
       | c :: rest => ensure_dirs [c] rest
       end.

Definition path_append_suffix (path suffix : bytes) (out_sz : Z) : option bytes :=
  let '(n, out) := snprintf out_sz (path ++ suffix) in
  if (n <? 0) || (out_sz <=? n) then None else Some out.

Definition path_strip_suffix (path suffix : bytes) (out_sz : Z) : option bytes :=
  let plen := len path in
  let slen := len suffix in
  if (plen <=? slen) || negb (strcmp (drop (Z.to_nat (plen - slen)) path) suffix =? 0) then None
  else
    let need := plen - slen in
    if out_sz <? need + 1 then None else Some (take (Z.to_nat need) path).

(** * Lemmas *)

(** The components of a path: what lies between slashes. *)
Fixpoint components_aux (cur rest : bytes) : list bytes :=
  match rest with
  | [] => [cur]
  | c :: rest' => if c =? SLASH then cur :: components_aux [] rest'
                  else components_aux (cur ++ [c]) rest'
  end.

Definition components (p : bytes) : list bytes := components_aux [] p.

(** Lexical resolution of a path from a directory [below] levels under the
    data directory: "." and "" stay, ".." goes up (and out when [below] is 0),
    anything else goes down. *)
Fixpoint stays_below (below : nat) (cs : list bytes) : bool :=
  match cs with
  | [] => true
  | c :: cs' =>
      if bool_decide (c = []) || bool_decide (c = L".") then stays_below below cs'
      else if bool_decide (c = L"..") then
        match below with
        | O => false
        | S b => stays_below b cs'
        end
      else stays_below (S below) cs'
  end.

Lemma is_path_safe_spec p :
  is_path_safe p = true <->
  p <> [] /\ head p <> Some SLASH /\ forall k k', p <> k ++ L".." ++ k'.
Proof.
  destruct p as [|c p]; simpl; [naive_solver|].
  destruct (Z.eqb_spec c SLASH) as [->|]; [naive_solver|].
  destruct (strstr_None (c :: p) (L"..")) as [H1 H2]. simpl in H1, H2.
  destruct (_ : option bytes) eqn:E.
  - split; [done|]. intros (_ & _ & H). by specialize (H2 H).
  - split; [|done]. intros _. split; [done|]. split; [congruence|]. by apply H1.
Qed.

Lemma components_aux_infix cur rest c :
  c ∈ components_aux cur rest -> exists k k', cur ++ rest = k ++ c ++ k'.
Proof.
  revert cur. induction rest as [|x rest IH]; intros cur; simpl.
  - rewrite list_elem_of_singleton. intros ->. by exists [], [].
  - destruct (x =? SLASH).
    + rewrite elem_of_cons. intros [->|Hc]; [by exists [], (x :: rest)|].
      apply IH in Hc as (k & k' & Hk). exists (cur ++ x :: k), k'.
      rewrite <- app_assoc. simpl. f_equal. f_equal. exact Hk.
    + intros Hc. apply IH in Hc as (k & k' & Hk). exists k, k'. by rewrite <- Hk, <- app_assoc.
Qed.

Lemma no_dotdot_stays_below b cs : L".." ∉ cs -> stays_below b cs = true.
Proof.
  revert b. induction cs as [|c cs IH]; intros b; [done|].
  rewrite not_elem_of_cons. intros [Hc Hcs]. simpl.
  destruct (_ || _); [by apply IH|]. rewrite bool_decide_eq_false_2 by (intros ->; by apply Hc). by apply IH.
Qed.

Lemma path_build_Some data_dir rel sz out :
  0 < sz <= INT_MAX ->
  path_build data_dir rel sz = Some out <->
  is_path_safe rel = true /\ out = data_dir ++ [SLASH] ++ rel /\ len out < sz.
Proof.
  intros Hsz. unfold path_build, snprintf.
  destruct (is_path_safe rel); simpl; [|naive_solver].
  set (t := data_dir ++ SLASH :: rel).
  destruct (Z.leb_spec (len t) INT_MAX), (Z.eqb_spec sz 0); simpl; try lia.
  - destruct (Z.ltb_spec (len t) 0), (Z.leb_spec sz (len t)); simpl; try lia.
    + naive_solver lia.
    + rewrite take_ge by lia. naive_solver lia.
  - split; [done|]. intros (_ & -> & ?). lia.
Qed.

Lemma path_append_suffix_Some p s sz out :
  0 < sz <= INT_MAX ->
  path_append_suffix p s sz = Some out <-> out = p ++ s /\ len out < sz.
Proof.
  intros Hsz. unfold path_append_suffix, snprintf. set (t := p ++ s).
  destruct (Z.leb_spec (len t) INT_MAX), (Z.eqb_spec sz 0); simpl; try lia.
  - destruct (Z.ltb_spec (len t) 0), (Z.leb_spec sz (len t)); simpl; try lia.
    + naive_solver lia.
    + rewrite take_ge by lia. naive_solver lia.
  - split; [done|]. intros (-> & ?). lia.
Qed.

(** Stripping a suffix undoes appending it. *)
Lemma path_strip_suffix_app p s sz :
  p <> [] -> no_nul s -> len p < sz -> path_strip_suffix (p ++ s) s sz = Some p.
Proof.
  intros Hp Hs Hsz. unfold path_strip_suffix. rewrite length_app.
  assert (0 < len p) by (destruct p; [done|simpl; lia]).
  destruct (Z.leb_spec (Z.of_nat (length p + length s)) (len s)); [lia|].
  replace (Z.of_nat (length p + length s) - len s) with (len p) by lia.
  rewrite Nat2Z.id, drop_app_length, strcmp_refl. simpl.
  destruct (Z.ltb_spec sz (len p + 1)); [lia|]. by rewrite take_app_length.
Qed.

(** * Properties *)

(** C22: a path that [path_build] accepts is the data directory, a slash and the
    client's path, fits its buffer with the terminating NUL, and lexically
    never leaves the data directory; nothing else is accepted. *)
Theorem path_build_confined data_dir rel sz out :
  0 < sz <= INT_MAX ->
  path_build data_dir rel sz = Some out ->
  out = data_dir ++ [SLASH] ++ rel /\ len out + 1 <= sz /\
  rel <> [] /\ head rel <> Some SLASH /\
  forall below, stays_below below (components rel) = true.
Proof.
  intros Hsz [Hsafe [-> Hlen]]%path_build_Some; [|done].
  apply is_path_safe_spec in Hsafe as (Hne & Hhd & Hdd).
  repeat split; [lia|done..|]. intros below. apply no_dotdot_stays_below.
  intros (k & k' & Hk)%components_aux_infix. by apply (Hdd k k').
Qed.

Lemma path_build_confined_witness :
  let out := L"data/a/b.txt" in
  out = L"data" ++ [SLASH] ++ L"a/b.txt" /\ len out + 1 <= PATH_MAX /\
  L"a/b.txt" <> [] /\ head (L"a/b.txt") <> Some SLASH /\
  forall below, stays_below below (components (L"a/b.txt")) = true.
Proof.
  apply (path_build_confined (L"data") (L"a/b.txt") PATH_MAX (L"data/a/b.txt")).
  - vm_compute. split; [reflexivity|discriminate].
  - vm_compute. reflexivity.
Defined.

End Path.
