(* ===== verification/SrvTree.v ===== *)
(** Files by name, as POSIX has them: a tree of directories and regular files
    (no links), the resolution of a path component by component ("." and empty
    components stay, ".." goes up, a component that is too long fails), the
    directories that [mkdir] of every prefix of a path leaves, and [rename].
    Locations are the lists of names from the root. *)

From S2P Require Import Prelude Libc Rle SrvEvents SrvPath.
Import Libc Path.

Definition ENOTDIR : Z := 20.
Definition EISDIR : Z := 21.
Definition ENAMETOOLONG : Z := 36.

Module Tree.

Notation loc := (list bytes).

Inductive node :=
  | Dir
  | File (b : bytes).

Notation tree := (gmap (list bytes) node).

(** The tree with the file at [l] holding [x]. *)
Notation put l x t := (<[l := File x]> (t : tree)).

#[global] Instance node_eq_dec : EqDecision node.
Proof. solve_decision. Defined.

Definition is_dir (n : option node) : bool := bool_decide (n = Some Dir).

(** * Resolution *)

(** [nmax] is [NAME_MAX] of the file system. *)
Section naming.
Context (nmax : Z).

(** From location [l], the component [c]. *)
Definition step (t : tree) (l : loc) (c : bytes) : Z + loc :=
  match t !! l with
  | None => inl ENOENT
  | Some (File _) => inl ENOTDIR
  | Some Dir =>
      if bool_decide (c = []) || bool_decide (c = L".") then inr l
      else if bool_decide (c = L"..") then inr (removelast l)
      else if nmax <? len c then inl ENAMETOOLONG
      else inr (l ++ [c])
  end.

Fixpoint walk (t : tree) (l : loc) (cs : list bytes) : Z + loc :=
  match cs with
  | [] => inr l
  | c :: cs' =>
      match step t l c with
      | inl e => inl e
      | inr l' => walk t l' cs'
      end
  end.

(** What a path names. *)
Definition find (t : tree) (l : loc) (cs : list bytes) : Z + node :=
  match walk t l cs with
  | inl e => inl e
  | inr l' => match t !! l' with None => inl ENOENT | Some n => inr n end
  end.

(** [mkdir] of every prefix: the tree left and, unless one failed (with
    something else than EEXIST), where the last one is. *)
Fixpoint mkdirs (t : tree) (l : loc) (cs : list bytes) : tree * option loc :=
  match cs with
  | [] => (t, Some l)
  | c :: cs' =>
      match step t l c with
      | inl _ => (t, None)
      | inr l' =>
          match t !! l' with
          | None => mkdirs (<[l' := Dir]> t) l' cs'
          | Some _ => mkdirs t l' cs'
          end
      end
  end.

(** Where [open] with [O_CREAT] puts a file, if it can. *)
Definition slot (t : tree) (l : loc) (cs : list bytes) : option loc :=
  match walk t l cs with
  | inl _ => None
  | inr l' => if is_dir (t !! l') then None else Some l'
  end.

(** The same after the directories of the path were made, with the tree that
    leaves: the components but for the last one are directories. *)
Definition store (t : tree) (l : loc) (cs : list bytes) : tree * option loc :=
  let '(t1, o) := mkdirs t l (removelast cs) in
  (t1, match o with None => None | Some _ => slot t1 l cs end).

End naming.

(** A path without its trailing slashes. *)
Fixpoint strip (cs : list bytes) : list bytes :=
  match cs with
  | [] => []
  | c :: cs' =>
      match strip cs' with
      | [] => if bool_decide (c = []) then [] else [c]
      | r => c :: r
      end
  end.

(** The path ends in a slash. *)
Definition slashed (cs : list bytes) : bool := bool_decide (strip cs <> cs).

(** * rename *)

(** Where the entry at [k] is after the entry [s] was moved to [d]. *)
Definition relocate (s d k : loc) : loc :=
  if bool_decide (s `prefix_of` k) then d ++ drop (length s) k else k.

(** Nothing was below [d], but perhaps an empty directory at [d]. *)
Definition move (t : tree) (s d : loc) : tree :=
  list_to_map ((fun kn => (relocate s d kn.1, kn.2)) <$>
    map_to_list (filter (fun kn => ~ d `prefix_of` kn.1) t)).

(** No entry below [l]. *)
Definition empty_dir (t : tree) (l : loc) : bool :=
  bool_decide (map_Forall (fun k _ => l `prefix_of` k -> k = l) t).

(** [rename] of the entry at [s] to [d]; [slash]: one of the paths ends in a
    slash, so that it can only name a directory. *)
Definition rename_at (t : tree) (s d : loc) (slash : bool) : option tree :=
  match t !! s with
  | None => None
  | Some (File b) =>
      if slash || is_dir (t !! d) then None
      else Some (<[d := File b]> (delete s t))
  | Some Dir =>
      if bool_decide (s = d) then Some t
      else if bool_decide (s `prefix_of` d) then None
      else match t !! d with
           | None => Some (move t s d)
           | Some Dir => if empty_dir t d then Some (move t s d) else None
           | Some (File _) => None
           end
  end.

(** The last component is not "." or "..", which [rename] refuses. *)
Definition proper_last (cs : list bytes) : bool :=
  match last (strip cs) with
  | None => false
  | Some c => negb (bool_decide (c = L".") || bool_decide (c = L".."))
  end.

(** [rename] of one path to another, from locations [l] and [m]. *)
Definition rename_path (nmax : Z) (t : tree) (l : loc) (cs : list bytes) (m : loc) (ds : list bytes) : option tree :=
  if proper_last cs && proper_last ds then
    match walk nmax t l (strip cs), walk nmax t m (strip ds) with
    | inr s, inr d => rename_at t s d (slashed cs || slashed ds)
    | _, _ => None
    end
  else None.

(** * Lemmas *)

(** The names of a path: its components but for the ones that stay. *)
Definition stays (c : bytes) : Prop := c = [] \/ c = L".".

#[global] Instance stays_dec c : Decision (stays c).
Proof. unfold stays. apply _. Defined.

Definition names (cs : list bytes) : list bytes := filter (fun c => ~ stays c) cs.

Definition no_up (cs : list bytes) : Prop := L".." ∉ cs.

(** Directories stay directories. *)
Definition keeps_dirs (t t' : tree) : Prop := forall k, t !! k = Some Dir -> t' !! k = Some Dir.

(** [t'] has more directories, on the way to [l]. *)
Definition grown (l : loc) (t t' : tree) : Prop :=
  forall k, t' !! k = t !! k \/ t !! k = None /\ t' !! k = Some Dir /\ k `prefix_of` l.

Section facts.
Context (nmax : Z).

Notation step := (step nmax).
Notation walk := (walk nmax).
Notation mkdirs := (mkdirs nmax).

Lemma keeps_dirs_refl t : keeps_dirs t t.
Proof. by intros k. Qed.

Lemma keeps_dirs_trans t1 t2 t3 : keeps_dirs t1 t2 -> keeps_dirs t2 t3 -> keeps_dirs t1 t3.
Proof. intros H1 H2 k Hk. by apply H2, H1. Qed.

Lemma keeps_dirs_insert t l n : t !! l <> Some Dir -> keeps_dirs t (<[l := n]> t).
Proof. intros Hl k Hk. rewrite lookup_insert_ne; [done|]. by intros ->. Qed.

Lemma keeps_dirs_delete t l : t !! l <> Some Dir -> keeps_dirs t (delete l t).
Proof. intros Hl k Hk. rewrite lookup_delete_ne; [done|]. by intros ->. Qed.

Lemma grown_refl l t : grown l t t.
Proof. intros k. by left. Qed.

Lemma grown_trans l t1 t2 t3 : grown l t1 t2 -> grown l t2 t3 -> grown l t1 t3.
Proof.
  intros H1 H2 k. destruct (H1 k) as [E1|(E1 & E1' & ?)], (H2 k) as [E2|(E2 & E2' & ?)].
  - left. congruence.
  - right. split; [congruence|done].
  - right. split; [done|]. split; [congruence|done].
  - congruence.
Qed.

Lemma grown_insert l t k : t !! k = None -> k `prefix_of` l -> grown l t (<[k := Dir]> t).
Proof.
  intros Hk Hp j. destruct (decide (j = k)) as [->|].
  - right. by rewrite lookup_insert_eq.
  - left. by rewrite lookup_insert_ne.
Qed.

Lemma grown_keeps l t t' : grown l t t' -> keeps_dirs t t'.
Proof. intros H k Hk. destruct (H k) as [E|(E & _)]; congruence. Qed.

Lemma grown_prefix l m t t' : l `prefix_of` m -> grown l t t' -> grown m t t'.
Proof. intros Hp H k. destruct (H k) as [?|(? & ? & ?)]; [by left|right]. split_and!; [done..|]. by etransitivity. Qed.

Lemma step_dir t l c l' : step t l c = inr l' -> t !! l = Some Dir.
Proof. unfold step. destruct (t !! l) as [[]|]; done. Qed.

Lemma step_mono t t' l c l' : keeps_dirs t t' -> step t l c = inr l' -> step t' l c = inr l'.
Proof.
  intros Hk Hs. pose proof (step_dir _ _ _ _ Hs) as Hd. unfold step in *.
  by rewrite (Hk _ Hd), Hd in *.
Qed.

Lemma walk_mono t t' l cs l' : keeps_dirs t t' -> walk t l cs = inr l' -> walk t' l cs = inr l'.
Proof.
  intros Hk. revert l. induction cs as [|c cs IH]; intros l; simpl; [done|].
  destruct (step t l c) as [e|m] eqn:E; [done|]. rewrite (step_mono _ _ _ _ _ Hk E). apply IH.
Qed.

Lemma walk_app t l a b :
  walk t l (a ++ b) = match walk t l a with inl e => inl e | inr l' => walk t l' b end.
Proof.
  revert l. induction a as [|c a IH]; intros l; simpl; [done|]. by destruct (step t l c).
Qed.

Lemma step_loc t l c l' :
  c <> L".." -> step t l c = inr l' -> l' = l ++ names [c] /\ (t !! l = Some Dir) /\ (stays c \/ len c <= nmax).
Proof.
  intros Hc. unfold step. destruct (t !! l) as [[|]|]; [|done..]. unfold names. rewrite filter_cons, filter_nil.
  unfold stays. destruct (bool_decide_reflect (c = [])), (bool_decide_reflect (c = L".")); simpl;
    try (intros [= <-]; rewrite decide_False by tauto; rewrite app_nil_r; tauto).
  rewrite bool_decide_eq_false_2 by done. destruct (Z.ltb_spec nmax (len c)); [done|].
  intros [= <-]. rewrite decide_True by tauto. auto.
Qed.

Lemma names_cons c cs : names (c :: cs) = names [c] ++ names cs.
Proof. unfold names. rewrite !filter_cons, filter_nil. by destruct (decide _). Qed.

Lemma names_app cs ds : names (cs ++ ds) = names cs ++ names ds.
Proof. apply filter_app. Qed.

Lemma no_up_cons c cs : no_up (c :: cs) <-> c <> L".." /\ no_up cs.
Proof. unfold no_up. rewrite not_elem_of_cons. naive_solver. Qed.

Lemma walk_loc t l cs l' : no_up cs -> walk t l cs = inr l' -> l' = l ++ names cs.
Proof.
  revert l. induction cs as [|c cs IH]; intros l; simpl; [intros _ [= <-]; by rewrite app_nil_r|].
  rewrite no_up_cons. intros [Hc Hcs]. destruct (step t l c) as [e|m] eqn:E; [done|]. intros Hw.
  apply IH in Hw as ->; [|done]. apply step_loc in E as (-> & _); [|done]. by rewrite (names_cons c cs), app_assoc.
Qed.

(** A walk succeeds exactly when every location on the way is a directory and
    no name is too long. *)
Lemma walk_dirs t l cs l' k :
  no_up cs -> walk t l cs = inr l' -> l `prefix_of` k -> k `prefix_of` l' -> k <> l' -> t !! k = Some Dir.
Proof.
  revert l. induction cs as [|c cs IH]; intros l; simpl.
  { intros _ [= <-] [x ->] [y Hy] Hne. exfalso. apply Hne. rewrite <- app_assoc in Hy.
    assert (x ++ y = []) as E; [|apply app_eq_nil in E as [-> _]; by rewrite app_nil_r].
    apply (app_inv_head l). by rewrite app_nil_r. }
  rewrite no_up_cons. intros [Hc Hcs]. destruct (step t l c) as [e|m] eqn:E; [done|]. intros Hw Hlk Hkl Hne.
  apply step_loc in E as (-> & Hd & _); [|done].
  destruct (decide (k = l)) as [->|Hkl']; [done|]. eapply IH; [done|exact Hw| |done|done].
  pose proof (walk_loc _ _ _ _ Hcs Hw) as ->. destruct Hlk as [x ->]. destruct Hkl as [y Hy].
  rewrite <- !app_assoc in Hy. apply app_inv_head in Hy.
  unfold names in Hy |- *. rewrite filter_cons, filter_nil in Hy |- *. destruct (decide _); [|rewrite app_nil_r; by eexists].
  destruct x as [|c' x]; [by rewrite app_nil_r in Hkl'|]. injection Hy as <- _. exists x. by rewrite <- app_assoc.
Qed.

Lemma mkdirs_app t l a b :
  mkdirs t l (a ++ b) = match mkdirs t l a with (t1, Some m) => mkdirs t1 m b | r => r end.
Proof.
  revert t l. induction a as [|c a IH]; intros t l; simpl; [done|].
  destruct (step t l c) as [e|m]; [done|]. destruct (t !! m); apply IH.
Qed.

(** Nothing to make. *)
Lemma mkdirs_exists t l cs l' : walk t l cs = inr l' -> is_Some (t !! l') -> mkdirs t l cs = (t, Some l').
Proof.
  revert l. induction cs as [|c cs IH]; intros l; simpl; [by intros [= ->]|].
  destruct (step t l c) as [e|m] eqn:E; [done|]. intros Hw Hs. destruct (t !! m) eqn:Em; [by apply IH|].
  exfalso. destruct cs as [|c' cs]; simpl in Hw; [injection Hw as ->; by rewrite Em in Hs; destruct Hs|].
  unfold step in Hw. by rewrite Em in Hw.
Qed.

Lemma mkdirs_grown t l cs : no_up cs -> grown (l ++ names cs) t (mkdirs t l cs).1.
Proof.
  revert t l. induction cs as [|c cs IH]; intros t l; simpl; [intros; apply grown_refl|].
  rewrite no_up_cons. intros [Hc Hcs]. destruct (step t l c) as [e|m] eqn:E; [apply grown_refl|].
  apply step_loc in E as (-> & _); [|done]. rewrite (names_cons c cs), app_assoc.
  destruct (t !! (l ++ names [c])) eqn:Em; [by apply IH|].
  eapply grown_trans; [|by apply IH]. apply grown_insert; [done|by apply prefix_app_r].
Qed.

Lemma mkdirs_walk t l cs :
  match mkdirs t l cs with
  | (t1, Some l') => walk t1 l cs = inr l' /\ (is_Some (t !! l) -> is_Some (t1 !! l'))
  | (t1, None) => exists e, walk t1 l cs = inl e
  end /\ keeps_dirs t (mkdirs t l cs).1 /\ (forall k, is_Some (t !! k) -> (mkdirs t l cs).1 !! k = t !! k).
Proof.
  revert t l. induction cs as [|c cs IH]; intros t l; simpl; [by split_and!; auto using keeps_dirs_refl|].
  destruct (step t l c) as [e|m] eqn:E.
  { simpl. split_and!; [|apply keeps_dirs_refl|done]. exists e. by rewrite E. }
  set (t0 := match t !! m with None => <[m := Dir]> t | Some _ => t end).
  assert (keeps_dirs t t0) as Hk0.
  { unfold t0. destruct (t !! m) eqn:Em; [apply keeps_dirs_refl|]. apply keeps_dirs_insert. by rewrite Em. }
  assert (is_Some (t0 !! m)) as Hm.
  { unfold t0. destruct (t !! m) eqn:Em; [by eexists|]. rewrite lookup_insert_eq. by eexists. }
  assert (forall k, is_Some (t !! k) -> t0 !! k = t !! k) as Hsame.
  { intros k [n Hn]. unfold t0. destruct (t !! m) eqn:Em; [done|]. apply lookup_insert_ne. intros ->. congruence. }
  replace (match t !! m with Some _ => mkdirs t m cs | None => mkdirs (<[m:=Dir]> t) m cs end)
    with (mkdirs t0 m cs) by (unfold t0; by destruct (t !! m)).
  destruct (IH t0 m) as (Hw & Hk & Hs). split; [|split].
  - destruct (mkdirs t0 m cs) as [t1 [l'|]]; simpl in *; rewrite (step_mono t t1 l c m (keeps_dirs_trans _ _ _ Hk0 Hk) E).
    + destruct Hw as [Hw Hw']. split; [done|]. intros _. by apply Hw'.
    + done.
  - by eapply keeps_dirs_trans.
  - intros k Hn. rewrite <- (Hsame k Hn). apply Hs. by rewrite Hsame.
Qed.

Lemma mkdirs_none_walk t l cs t1 cs' :
  mkdirs t l cs = (t1, None) -> exists e, walk t1 l (cs ++ cs') = inl e.
Proof.
  intros E. destruct (mkdirs_walk t l cs) as [Hw _]. rewrite E in Hw. destruct Hw as [e He].
  exists e. by rewrite walk_app, He.
Qed.

End facts.

(** * Trailing slashes *)

Lemma strip_app cs ds : strip ds <> [] -> strip (cs ++ ds) = cs ++ strip ds.
Proof.
  intros Hd. induction cs as [|c cs IH]; simpl; [done|]. rewrite IH.
  destruct (cs ++ strip ds) eqn:E; [|done]. by apply app_eq_nil in E as [_ ?].
Qed.

Lemma strip_snoc cs c : c <> [] -> strip (cs ++ [c]) = cs ++ [c].
Proof. intros Hc. rewrite strip_app; simpl; by rewrite bool_decide_eq_false_2. Qed.

Lemma strip_snoc_nil cs : strip (cs ++ [[]]) = strip cs.
Proof. induction cs as [|c cs IH]; simpl; [done|]. by rewrite IH. Qed.

Lemma strip_cons_ne c cs : c <> [] -> strip (c :: cs) <> [].
Proof. intros Hc. simpl. destruct (strip cs); [|done]. by rewrite bool_decide_eq_false_2. Qed.

Lemma strip_length cs : (length (strip cs) <= length cs)%nat.
Proof.
  induction cs as [|c cs IH]; simpl; [lia|]. destruct (strip cs) eqn:Es; [|simpl in *; lia].
  destruct (bool_decide _); simpl; lia.
Qed.

Lemma strip_idem cs : strip (strip cs) = strip cs.
Proof.
  induction cs as [|c cs IH]; [done|]. simpl. destruct (strip cs) as [|d r] eqn:E.
  - case_bool_decide; [done|]. simpl. by rewrite bool_decide_eq_false_2.
  - simpl in *. by rewrite IH.
Qed.

(** What is left does not end in a slash. *)
Lemma strip_last cs ds c : strip cs = ds ++ [c] -> c <> [].
Proof.
  intros Hs ->. pose proof (strip_idem cs) as Hid. rewrite Hs, strip_snoc_nil in Hid.
  pose proof (strip_length ds) as Hl. rewrite Hid, length_app in Hl. simpl in Hl. lia.
Qed.

Lemma strip_names cs : names (strip cs) = names cs.
Proof.
  induction cs as [|c cs IH]; [done|]. simpl. rewrite (names_cons c cs), <- IH. destruct (strip cs) as [|d r] eqn:E.
  - rewrite app_nil_r. case_bool_decide; [by subst c|done].
  - apply (names_cons c (d :: r)).
Qed.

Lemma strip_elem c cs : c ∈ strip cs -> c ∈ cs.
Proof.
  induction cs as [|d cs IH]; [done|]. simpl. destruct (strip cs) as [|e r] eqn:E.
  - case_bool_decide; [by intros ?%not_elem_of_nil|]. rewrite list_elem_of_singleton. intros ->. by left.
  - rewrite !elem_of_cons in *. naive_solver.
Qed.

Lemma proper_last_names cs : proper_last cs = true -> names cs <> [].
Proof.
  unfold proper_last. rewrite <- strip_names. destruct (last (strip cs)) as [c|] eqn:Hl; [|done].
  apply last_Some in Hl as [ds Hs]. rewrite Hs, names_app. intros Hc.
  assert (~ stays c) as Hst.
  { intros [->| ->]; [by apply strip_last in Hs|]. by rewrite bool_decide_eq_true_2 in Hc. }
  unfold names at 2. rewrite filter_cons, decide_True by done. by destruct (names ds).
Qed.

Lemma walk_strip nmax t l cs l' : walk nmax t l cs = inr l' -> walk nmax t l (strip cs) = inr l'.
Proof.
  revert l' . induction cs as [|c cs IH] using rev_ind; intros l'; [done|].
  destruct (decide (c = [])) as [->|Hc]; [|by rewrite strip_snoc].
  rewrite strip_snoc_nil, walk_app. destruct (walk nmax t l cs) as [e|m] eqn:E; [done|]. simpl.
  intros Hs. apply IH. destruct (step nmax t m []) as [e|m'] eqn:Es; [done|]. injection Hs as <-.
  apply step_loc in Es as (-> & _); [|done]. unfold names. rewrite filter_cons, decide_False, filter_nil, app_nil_r; [done|].
  intros Hn. apply Hn. by left.
Qed.

(** * Moving *)

Lemma relocate_inj s d k1 k2 :
  ~ d `prefix_of` k1 -> ~ d `prefix_of` k2 -> relocate s d k1 = relocate s d k2 -> k1 = k2.
Proof.
  intros H1 H2. unfold relocate. case_bool_decide as Ha; case_bool_decide as Hb.
  - intros E%app_inv_head. destruct Ha as [x ->]. destruct Hb as [y ->].
    rewrite !drop_app_length in E. by f_equal.
  - intros <-. exfalso. apply H2. by apply prefix_app_r.
  - intros ->. exfalso. apply H1. by apply prefix_app_r.
  - done.
Qed.

Lemma move_Some t s d k n :
  move t s d !! k = Some n <-> exists k', t !! k' = Some n /\ ~ d `prefix_of` k' /\ k = relocate s d k'.
Proof.
  unfold move. rewrite <- elem_of_list_to_map.
  - rewrite list_elem_of_fmap. split.
    + intros ([k' n'] & [= -> ->] & He). rewrite elem_of_map_to_list, map_lookup_filter_Some in He.
      destruct He. by exists k'.
    + intros (k' & Hk & Hd & ->). exists (k', n). split; [done|].
      by rewrite elem_of_map_to_list, map_lookup_filter_Some.
  - rewrite <- list_fmap_compose. apply NoDup_fmap_2_strong.
    + intros [k1 n1] [k2 n2] H1 H2 E. simpl in E.
      rewrite elem_of_map_to_list, map_lookup_filter_Some in H1, H2. destruct H1 as [? H1], H2 as [? H2].
      apply relocate_inj in E; [|done..]. by simplify_eq.
    + apply NoDup_map_to_list.
Qed.

Lemma move_other t s d k : ~ s `prefix_of` k -> ~ d `prefix_of` k -> move t s d !! k = t !! k.
Proof.
  intros Hs Hd. apply option_eq. intros n. rewrite move_Some. split.
  - intros (k' & Hk & _ & ->). unfold relocate in *. case_bool_decide; [|done].
    exfalso. apply Hd. by apply prefix_app_r.
  - intros Hn. exists k. split; [done|]. split; [done|]. unfold relocate. by rewrite bool_decide_eq_false_2.
Qed.

(** Beyond the two entries and what is below them nothing changes. *)
Lemma rename_at_other t s d sl t' k :
  rename_at t s d sl = Some t' -> ~ s `prefix_of` k -> ~ d `prefix_of` k -> t' !! k = t !! k.
Proof.
  intros Hr Hs Hd. unfold rename_at in Hr. destruct (t !! s) as [[|b]|] eqn:Es; [| |done].
  - repeat case_match; simplify_eq; try done; by apply move_other.
  - case_match; [done|]. simplify_eq. rewrite lookup_insert_ne, lookup_delete_ne; [done|..]; by intros ->.
Qed.

(** Entries stay or come from below the renamed one. *)
Lemma rename_at_from t s d sl t' k n :
  rename_at t s d sl = Some t' -> t' !! k = Some n -> exists k', t !! k' = Some n /\ (k' = k \/ s `prefix_of` k').
Proof.
  intros Hr Hk. unfold rename_at in Hr. destruct (t !! s) as [[|b]|] eqn:Es; [| |done].
  - repeat case_match; simplify_eq; try (by eauto); apply move_Some in Hk as (k' & ? & _ & ->); exists k';
      (split; [done|]); unfold relocate; destruct (bool_decide_reflect (s `prefix_of` k')); auto.
  - case_match; [done|]. simplify_eq. destruct (decide (k = d)) as [->|].
    + rewrite lookup_insert_eq in Hk. simplify_eq. by exists s; auto.
    + rewrite lookup_insert_ne in Hk by done. apply lookup_delete_Some in Hk as [_ Hk]. by exists k; auto.
Qed.

(** * Paths as components *)

Lemma components_aux_ne a p : components_aux a p <> [].
Proof. revert a. induction p as [|c p IH]; intros a; simpl; [done|]. destruct (c =? SLASH); [done|apply IH]. Qed.

Lemma components_aux_app a p q cs cur :
  components_aux a p = cs ++ [cur] -> components_aux a (p ++ q) = cs ++ components_aux cur q.
Proof.
  revert a cs. induction p as [|c p IH]; intros a cs; simpl.
  - intros E. destruct cs as [|x [|]]; simplify_eq/=; done.
  - destruct (c =? SLASH); [|apply IH]. destruct cs as [|x cs]; simpl.
    + intros [= <- E]. by apply components_aux_ne in E.
    + intros [= -> E]. f_equal. by apply IH.
Qed.

Lemma components_app p q cs cur :
  components p = cs ++ [cur] -> components (p ++ q) = cs ++ components_aux cur q.
Proof. apply components_aux_app. Qed.

Lemma components_split p : exists cs cur, components p = cs ++ [cur].
Proof.
  destruct (exists_last (components_aux_ne [] p)) as (cs & cur & E). by exists cs, cur.
Qed.

(** A slash separates components. *)
Lemma components_slash p q : components (p ++ [SLASH] ++ q) = components p ++ components q.
Proof.
  destruct (components_split p) as (cs & cur & E). rewrite (components_app p _ cs cur E), E. simpl.
  by rewrite <- app_assoc.
Qed.

(** A path is its components with slashes between them. *)
Fixpoint join (cs : list bytes) : bytes :=
  match cs with
  | [] => []
  | [c] => c
  | c :: cs' => c ++ SLASH :: join cs'
  end.

Lemma join_components a p : join (components_aux a p) = a ++ p.
Proof.
  revert a. induction p as [|c p IH]; intros a; simpl; [by rewrite app_nil_r|].
  destruct (Z.eqb_spec c SLASH) as [->|]; [|by rewrite IH, <- app_assoc].
  simpl. rewrite IH. destruct (components_aux [] p) eqn:E; [by apply components_aux_ne in E|done].
Qed.

Lemma components_inj p q : components p = components q -> p = q.
Proof. unfold components. intros E. apply (f_equal join) in E. by rewrite !join_components in E. Qed.

Lemma removelast_cons {A} (x : A) l : l <> [] -> removelast (x :: l) = x :: removelast l.
Proof. by destruct l. Qed.

Lemma removelast_last_list {A} (l : list A) : l <> [] -> exists x, l = removelast l ++ [x].
Proof. intros Hl. destruct (exists_last Hl) as (l' & x & ->). exists x. by rewrite removelast_last. Qed.

Lemma mkdirs_parents_grown nmax t l cs :
  no_up cs -> grown (l ++ names cs) t (mkdirs nmax t l (removelast cs)).1.
Proof.
  intros Hup. destruct cs as [|c cs]; [apply grown_refl|]. destruct (removelast_last_list (c :: cs)) as [x Hx]; [done|].
  rewrite Hx, removelast_last in *. unfold no_up in Hup. rewrite elem_of_app in Hup. rewrite names_app, app_assoc.
  eapply grown_prefix; [|apply mkdirs_grown; tauto]. by apply prefix_app_r.
Qed.

(** Where a file is stored. *)
Lemma store_facts nmax t l cs t1 o :
  no_up cs -> store nmax t l cs = (t1, o) ->
  grown (l ++ names cs) t t1 /\ forall m, o = Some m -> m = l ++ names cs /\ t1 !! m <> Some Dir.
Proof.
  intros Hup Hs. pose proof (mkdirs_parents_grown nmax t l cs Hup) as Hg. unfold store in Hs.
  destruct (mkdirs nmax t l (removelast cs)) as [t0 o0]. injection Hs as <- <-. split; [done|].
  intros m Hm. destruct o0; [|done]. unfold slot in Hm. destruct (walk nmax t0 l cs) as [|m'] eqn:Ew; [done|].
  destruct (is_dir (t0 !! m')) eqn:Ed; [done|]. injection Hm as <-. split; [by eapply walk_loc|].
  intros E. unfold is_dir in Ed. by rewrite bool_decide_eq_true_2 in Ed.
Qed.

Lemma no_up_app cs ds : no_up (cs ++ ds) <-> no_up cs /\ no_up ds.
Proof. unfold no_up. rewrite elem_of_app. tauto. Qed.

Lemma safe_no_up rel : is_path_safe rel = true -> no_up (components rel).
Proof.
  intros (_ & _ & Hdd)%is_path_safe_spec (k & k' & Hk)%components_aux_infix. by apply (Hdd k k').
Qed.

(** * Where paths lead *)

Lemma step_name nmax t l c :
  t !! l = Some Dir -> c <> L".." -> Forall (fun n => len n <= nmax) (names [c]) -> step nmax t l c = inr (l ++ names [c]).
Proof.
  intros Hd Hc Hn. unfold step. rewrite Hd. unfold names in *. rewrite filter_cons, filter_nil in *. unfold stays in *.
  destruct (bool_decide_reflect (c = [])), (bool_decide_reflect (c = L".")); simpl;
    try (rewrite decide_False, app_nil_r by tauto; done).
  rewrite decide_True in * by tauto. rewrite bool_decide_eq_false_2 by done. apply Forall_cons in Hn as [Hn _].
  destruct (Z.ltb_spec nmax (len c)); [lia|done].
Qed.

(** Every directory on the way is there. *)
Lemma walk_there nmax t l cs :
  no_up cs -> Forall (fun n => len n <= nmax) (names cs) ->
  (forall k, l `prefix_of` k -> k `prefix_of` l ++ names cs -> t !! k = Some Dir) ->
  walk nmax t l cs = inr (l ++ names cs).
Proof.
  revert l. induction cs as [|c cs IH]; intros l; simpl; [by rewrite app_nil_r|].
  rewrite no_up_cons, (names_cons c cs), Forall_app, app_assoc. intros [Hc Hcs] [Hn Hns] Hk.
  rewrite step_name; [|apply Hk; [done|rewrite <- app_assoc; by apply prefix_app_r]|done|done].
  apply IH; [done..|]. intros k Hlk. apply Hk. etransitivity; [|exact Hlk]. by apply prefix_app_r.
Qed.

(** Directories are made below the starting point. *)
Lemma mkdirs_below nmax t l cs k : no_up cs -> ~ l `prefix_of` k -> (mkdirs nmax t l cs).1 !! k = t !! k.
Proof.
  revert t l. induction cs as [|c cs IH]; intros t l; simpl; [done|]. rewrite no_up_cons. intros [Hc Hcs] Hk.
  destruct (step nmax t l c) as [e|m] eqn:E; [done|]. apply step_loc in E as (-> & _); [|done].
  assert (~ (l ++ names [c]) `prefix_of` k) as Hk' by (intros H; apply Hk; by eapply prefix_app_l).
  destruct (t !! (l ++ names [c])); [by apply IH|]. rewrite IH by done. apply lookup_insert_ne.
  intros E. apply Hk'. by rewrite E.
Qed.

(** The directories on the way are there or can be made. *)
Lemma mkdirs_there nmax t l cs :
  no_up cs -> Forall (fun n => len n <= nmax) (names cs) -> t !! l = Some Dir ->
  (forall k, l `prefix_of` k -> k `prefix_of` l ++ names cs -> t !! k = None \/ t !! k = Some Dir) ->
  exists t1, mkdirs nmax t l cs = (t1, Some (l ++ names cs)).
Proof.
  revert t l. induction cs as [|c cs IH]; intros t l; simpl; [intros; exists t; by rewrite app_nil_r|].
  rewrite no_up_cons, (names_cons c cs), Forall_app, app_assoc. intros [Hc Hcs] [Hn Hns] Hl Hk.
  rewrite step_name by done. set (m := l ++ names [c]) in *.
  assert (l `prefix_of` m) as Hlm by (by apply prefix_app_r).
  assert (forall k, m `prefix_of` k -> l `prefix_of` k) as Hmk by (intros; by transitivity m).
  destruct (Hk m Hlm) as [Hm|Hm]; [by apply prefix_app_r|..]; rewrite Hm.
  - apply IH; [done|done|apply lookup_insert_eq|]. intros k H1 H2. destruct (decide (k = m)) as [->|].
    + right. apply lookup_insert_eq.
    + rewrite lookup_insert_ne by done. auto.
  - apply IH; auto.
Qed.

Lemma prefix_snoc_below {A} (k m : list A) c : k `prefix_of` m ++ [c] -> k <> m ++ [c] -> k `prefix_of` m.
Proof.
  intros [x Hx] Hne. induction x as [|y x _] using rev_ind; [by rewrite app_nil_r in Hx|].
  rewrite app_assoc in Hx. apply app_inj_tail in Hx as [-> _]. by apply prefix_app_r.
Qed.

(** A file can be stored at the location a path of names leads to. *)
Record storable (nmax : Z) (t : tree) (l : loc) (cs : list bytes) : Prop := mk_storable {
  st_names : Forall (fun n => len n <= nmax) (names cs);
  st_last : forall c, last cs = Some c -> ~ stays c;
  st_dirs : forall k, l `prefix_of` k -> k `prefix_of` l ++ names cs -> k <> l ++ names cs ->
              t !! k = None \/ t !! k = Some Dir;
  st_file : t !! (l ++ names cs) <> Some Dir;
}.

Section storing.
Context (nmax : Z) (t : tree) (l : loc) (cs : list bytes).
Hypothesis cs_up : no_up cs.
Hypothesis cs_ne : cs <> [].

(** With the directories on the way, the path leads to its location. *)
Lemma walk_storable t1 :
  Forall (fun n => len n <= nmax) (names cs) -> (forall c, last cs = Some c -> ~ stays c) ->
  (forall k, l `prefix_of` k -> k `prefix_of` l ++ names cs -> k <> l ++ names cs -> t1 !! k = Some Dir) ->
  walk nmax t1 l cs = inr (l ++ names cs).
Proof using cs_up cs_ne.
  intros Hn Hl Hk. destruct (removelast_last_list cs cs_ne) as [c E]. revert cs_up Hn Hl Hk. rewrite E.
  rewrite last_snoc, names_app, no_up_app, Forall_app. intros [Hu1 Hu2] [Hn1 Hn2] Hl Hk.
  specialize (Hl c eq_refl).
  assert (names [c] = [c]) as Ec by (unfold names; by rewrite filter_cons, decide_True).
  assert (forall k, l `prefix_of` k -> k `prefix_of` l ++ names (removelast cs) -> t1 !! k = Some Dir) as Hd.
  { intros k H1 H2. apply Hk; [done|rewrite app_assoc; by apply prefix_app_r|]. intros ->.
    apply prefix_length in H2. rewrite Ec, !length_app in H2. simpl in H2. lia. }
  rewrite walk_app, walk_there by done. simpl.
  rewrite step_name; [by rewrite app_assoc|apply Hd; [by apply prefix_app_r|done]| |done].
  intros ->. apply no_up_cons in Hu2 as [? _]. done.
Qed.

Lemma store_storable :
  t !! l = Some Dir -> storable nmax t l cs ->
  exists t1, store nmax t l cs = (t1, Some (l ++ names cs)) /\ grown (l ++ names cs) t t1 /\
    (forall k, ~ l `prefix_of` k -> t1 !! k = t !! k) /\
    forall k, l `prefix_of` k -> k `prefix_of` l ++ names cs -> k <> l ++ names cs -> t1 !! k = Some Dir.
Proof using cs_up cs_ne.
  intros Hl [Hn Hlast Hd Hf]. destruct (removelast_last_list cs cs_ne) as [c E].
  assert (names cs = names (removelast cs) ++ [c]) as En.
  { rewrite E at 1. rewrite names_app. f_equal. unfold names. rewrite filter_cons, decide_True; [done|].
    apply Hlast. by rewrite E, last_snoc. }
  assert (no_up (removelast cs)) as Hu by (apply (no_up_app _ [c]); by rewrite <- E).
  assert (forall k, k `prefix_of` l ++ names (removelast cs) -> k `prefix_of` l ++ names cs /\ k <> l ++ names cs) as Hpre.
  { intros k Hk. rewrite En, app_assoc. split; [by apply prefix_app_r|]. intros ->.
    apply prefix_length in Hk. rewrite length_app in Hk. simpl in Hk. lia. }
  destruct (mkdirs_there nmax t l (removelast cs)) as [t1 Hm]; [done| |done|..].
  { rewrite En in Hn. by apply Forall_app in Hn as [? _]. }
  { intros k H1 H2. apply Hd; [done|by apply Hpre..]. }
  pose proof (mkdirs_parents_grown nmax t l cs cs_up) as Hg. pose proof (mkdirs_walk nmax t l (removelast cs)) as (Hw & Hkd & _).
  pose proof (mkdirs_grown nmax t l (removelast cs) Hu) as Hg'.
  rewrite Hm in Hg, Hw, Hkd, Hg'. simpl in Hg, Hw, Hkd, Hg'. destruct Hw as [Hw Hex].
  assert (forall k, l `prefix_of` k -> k `prefix_of` l ++ names cs -> k <> l ++ names cs -> t1 !! k = Some Dir) as Hdirs.
  { intros k H1 H2 H3. assert (k `prefix_of` l ++ names (removelast cs)) as Hk.
    { rewrite En, app_assoc in H2, H3. by eapply prefix_snoc_below. }
    destruct (decide (k = l ++ names (removelast cs))) as [->|]; [|by eapply walk_dirs].
    destruct (Hex (ex_intro _ _ Hl)) as [n Hx]. destruct (Hg' (l ++ names (removelast cs))) as [H|(_ & ? & _)]; [|done].
    destruct (Hd _ H1 H2 H3); congruence. }
  exists t1. split; [|split; [done|]; split; [|done]].
  2: { intros k Hk. pose proof (mkdirs_below nmax t l (removelast cs) k Hu Hk) as Hb. by rewrite Hm in Hb. }
  unfold store. rewrite Hm. unfold slot. rewrite walk_storable by done.
  destruct (Hg' (l ++ names cs)) as [->|(_ & _ & [_ []]%Hpre)]; [|done]. unfold is_dir. by rewrite bool_decide_eq_false_2.
Qed.
(** A path that names a file can be stored to. *)
Lemma store_existing m b :
  walk nmax t l cs = inr m -> t !! m = Some (File b) -> store nmax t l cs = (t, Some m).
Proof using cs_ne.
  intros Hw Hb. assert (exists k, mkdirs nmax t l (removelast cs) = (t, Some k)) as [k Hm].
  { destruct (removelast_last_list cs cs_ne) as [c E]. rewrite E, walk_app in Hw.
    destruct (walk nmax t l (removelast cs)) as [e|k] eqn:Ek; [done|]. simpl in Hw.
    destruct (step nmax t k c) as [|k'] eqn:Es; [done|]. exists k. apply mkdirs_exists; [done|].
    by rewrite (step_dir _ _ _ _ _ Es). }
  unfold store, slot, is_dir. by rewrite Hm, Hw, Hb.
Qed.
End storing.

End Tree.
