(* ===== verification/SrvResp.v ===== *)
(** The RESP protocol layer of the file server (resp.c): reading a request
    array from the client socket and sending replies. *)

From S2P Require Import Prelude Libc Rle SrvEvents.
Import Libc.

Definition CR : Z := 13.
Definition LF : Z := 10.

Module Resp.

(** [resp_array_t]: each item holds [len] bytes followed by a NUL. *)
Record resp_array := mk_array {
  ra_count : Z;
  ra_items : list bytes;
}.

(** * Receiving *)

(** The loop of [recv_exact]; [buf] holds the [total] bytes received so far.
    The result pairs the [ssize_t] returned with the buffer. *)
Fixpoint recv_exact (fuel : nat) (fd n : Z) (buf : bytes) : M (Z * bytes) :=
  if len buf <? n then
    match fuel with
    | O => out_of_fuel
    | S f =>
        r ← recv fd (n - len buf);
        match r with
        | inr [] => mret (0, buf)
        | inl e => if e =? EINTR then recv_exact f fd n buf else mret (-1, buf)
        | inr bs => recv_exact f fd n (buf ++ bs)
        end
    end
  else mret (len buf, buf).

Definition recv_byte (fuel : nat) (fd : Z) : M (option Z) :=
  '(r, b) ← recv_exact fuel fd 1 [];
  mret (if r <=? 0 then None else head b).

(** [while (i + 1 < out_sz)] with [room] iterations left and [out] filled. *)
Fixpoint crlf_loop (fuel room : nat) (fd : Z) (out : bytes) : M (option bytes) :=
  match room with
  | O => mret None
  | S room' =>
      c ← recv_byte fuel fd;
      match c with
      | None => mret None
      | Some c =>
          if c =? CR then
            nx ← recv_byte fuel fd;
            match nx with
            | None => mret None
            | Some nx => mret (if nx =? LF then Some out else None)
            end
          else crlf_loop fuel room' fd (out ++ [c])
      end
  end.

Definition recv_crlf_line (fuel : nat) (fd out_sz : Z) : M (option bytes) :=
  crlf_loop fuel (Z.to_nat (out_sz - 1)) fd [].

(** The value [strtol] reads from the whole of [s], if it is an [int]. *)
Definition int_value (s : bytes) : option Z :=
  let '(v, e, range) := strtol s in
  if range || bool_decide (e = s) || negb (bool_decide (e = [])) || (v <? INT_MIN) || (INT_MAX <? v)
  then None else Some v.

(** [parse_int], on the C string in the line buffer; it also resets [errno]. *)
Definition parse_int (s : bytes) : M (option Z) :=
  set_errno (if (strtol s).2 then ERANGE else 0);;
  mret (int_value s).

Definition LINE_SZ : Z := 64.

(** The loop over the items, [todo] of them left. *)
Fixpoint read_items (fuel todo : nat) (fd : Z) (items : list bytes) : M (option (list bytes)) :=
  match todo with
  | O => mret (Some items)
  | S todo' =>
      kind ← recv_byte fuel fd;
      if negb (bool_decide (kind = Some 36)) then mret None
      else
        line ← recv_crlf_line fuel fd LINE_SZ;
        match line with
        | None => mret None
        | Some line =>
            blen ← parse_int (c_str line);
            match blen with
            | None => mret None
            | Some blen =>
                if blen <? 0 then mret None
                else
                  ok ← malloc (blen + 1);
                  if negb ok then mret None
                  else
                    '(r, data) ← recv_exact fuel fd blen [];
                    if r <=? 0 then mret None
                    else
                      '(r2, crlf) ← recv_exact fuel fd 2 [];
                      if (r2 <=? 0) || negb (bool_decide (crlf = [CR; LF])) then mret None
                      else read_items fuel todo' fd (items ++ [data])
            end
        end
  end.

Definition resp_read_array (fuel : nat) (fd : Z) : M (option resp_array) :=
  lead ← recv_byte fuel fd;
  if negb (bool_decide (lead = Some 42)) then mret None
  else
    line ← recv_crlf_line fuel fd LINE_SZ;
    match line with
    | None => mret None
    | Some line =>
        nitems ← parse_int (c_str line);
        match nitems with
        | None => mret None
        | Some nitems =>
            if (nitems <=? 0) || (128 <? nitems) then mret None
            else
              ok ← malloc (nitems * 16);
              if negb ok then mret None
              else
                items ← read_items fuel (Z.to_nat nitems) fd [];
                mret (match items with
                      | None => None
                      | Some items => Some (mk_array nitems items)
                      end)
        end
    end.

(** * Sending *)

(** The loop of [send_all], on the bytes not yet sent. *)
Fixpoint send_all (fuel : nat) (fd : Z) (buf : bytes) : M Z :=
  match buf with
  | [] => mret 0
  | _ =>
      match fuel with
      | O => out_of_fuel
      | S f =>
          w ← send fd buf;
          match w with
          | inl e => if e =? EINTR then send_all f fd buf else mret (-1)
          | inr n => send_all f fd (drop (Z.to_nat n) buf)
          end
      end
  end.

(** Replies built with [snprintf] in a buffer of [size] bytes. *)
Definition reply_line (fuel : nat) (fd size : Z) (text : bytes) : M Z :=
  let '(n, line) := snprintf size text in
  if (n <? 0) || (size <=? n) then mret (-1) else send_all fuel fd line.

Definition CRLF : bytes := [CR; LF].

Definition resp_reply_simple (fuel : nat) (fd : Z) (msg : bytes) : M Z :=
  reply_line fuel fd 256 (L"+" ++ msg ++ CRLF).

Definition resp_reply_error (fuel : nat) (fd : Z) (msg : bytes) : M Z :=
  reply_line fuel fd 512 (L"-ERR " ++ msg ++ CRLF).

Definition resp_reply_bulk (fuel : nat) (fd : Z) (data : bytes) : M Z :=
  let '(n, hd) := snprintf 64 (L"$" ++ print_u 10 (len data) ++ CRLF) in
  if (n <? 0) || (64 <=? n) then mret (-1)
  else
    r ← send_all fuel fd hd;
    if negb (r =? 0) then mret (-1)
    else
      r2 ← (if 0 <? len data then send_all fuel fd data else mret 0);
      if negb (r2 =? 0) then mret (-1)
      else send_all fuel fd CRLF.

Definition resp_reply_null_bulk (fuel : nat) (fd : Z) : M Z :=
  send_all fuel fd (L"$-1" ++ CRLF).

Definition resp_reply_integer (fuel : nat) (fd value : Z) : M Z :=
  reply_line fuel fd 128 (L":" ++ print_d value ++ CRLF).

End Resp.
