(* ===== verification/SrvLocks.v ===== *)
(** The lock registry of the file server (locks.c) and its audit log
    (logger.c): find-or-create under [g_lock_map_mutex], acquisition of one or
    two read/write locks, release, and the log line written under
    [g_log_mutex]. *)

From S2P Require Import Prelude Libc Rle SrvEvents.
Import Libc.

Module Locks.

(** The walk from [g_lock_map_head]. *)
Fixpoint find_entry (map : list file_lock_entry) (path : bytes) : option file_lock_entry :=
  match map with
  | [] => None
  | cur :: next => if strcmp (fe_path cur) path =? 0 then Some cur else find_entry next path
  end.

(** [sizeof(file_lock_entry_t)]: two pointers and a [pthread_rwlock_t]. *)
Definition NODE_SZ : Z := 72.

Definition get_or_create_lock (path : bytes) : M (option file_lock_entry) :=
  call (EMutexLock MapMutex);;
  map ← call EGetMap;
  match find_entry map path with
  | Some cur => call (EMutexUnlock MapMutex);; mret (Some cur)
  | None =>
      node ← malloc NODE_SZ;
      if negb node then call (EMutexUnlock MapMutex);; mret None
      else
        p ← malloc (len path + 1);
        if negb p then call (EMutexUnlock MapMutex);; mret None
        else
          init ← call ERwInit;
          if negb init then call (EMutexUnlock MapMutex);; mret None
          else
            l ← call (EPushEntry path);
            call (EMutexUnlock MapMutex);;
            mret (Some (mk_entry path l))
  end.

(** [Some l] is return value 0 with [*held = l], [None] is -1. *)
Definition locks_acquire_read (path : bytes) : M (option Z) :=
  entry ← get_or_create_lock path;
  match entry with
  | None => mret None
  | Some entry =>
      r ← call (ERdLock (fe_lock entry));
      mret (if negb (r =? 0) then None else Some (fe_lock entry))
  end.

Definition locks_acquire_write (path : bytes) : M (option Z) :=
  entry ← get_or_create_lock path;
  match entry with
  | None => mret None
  | Some entry =>
      r ← call (EWrLock (fe_lock entry));
      mret (if negb (r =? 0) then None else Some (fe_lock entry))
  end.

(** The locks of [path_a] and [path_b] and the [same_lock] flag. *)
Definition locks_acquire_two_write (path_a path_b : bytes) : M (option (Z * Z * bool)) :=
  if strcmp path_a path_b =? 0 then
    l ← locks_acquire_write path_a;
    mret (match l with
          | None => None
          | Some l => Some (l, l, true)
          end)
  else
    let swapped := 0 <? strcmp path_a path_b in
    let first := if swapped then path_b else path_a in
    let second := if swapped then path_a else path_b in
    l1 ← locks_acquire_write first;
    match l1 with
    | None => mret None
    | Some first_lock =>
        l2 ← locks_acquire_write second;
        match l2 with
        | None => call (EUnlock first_lock);; mret None
        | Some second_lock =>
            mret (Some (if swapped then (second_lock, first_lock, false)
                        else (first_lock, second_lock, false)))
        end
    end.

Definition locks_release (lock : Z) : M unit := call (EUnlock lock).

Definition locks_release_two (locks : Z * Z * bool) : M unit :=
  let '(lock_a, lock_b, same_lock) := locks in
  if (same_lock : bool) then call (EUnlock lock_a)
  else call (EUnlock lock_a);; call (EUnlock lock_b).

End Locks.

Module Logger.

Definition logger_init (data_dir : bytes) : bytes :=
  (snprintf 4096 (data_dir ++ L"/operations.log")).2.

Definition log_line (ts client command target status detail : bytes) : bytes :=
  ts ++ L" client=" ++ client ++ L" cmd=" ++ command ++ L" target=" ++ target
     ++ L" status=" ++ status ++ L" detail=" ++ detail ++ [10].

(** The arguments are never NULL at the call sites, so the [?:] defaults of the
    source do not apply. *)
Definition logger_log (log_path client command target status detail : bytes) : M unit :=
  ts ← call ETimestamp;
  call (EMutexLock LogMutex);;
  fp ← fopen log_path true;
  match fp with
  | inr fp =>
      call (EFprintf fp (log_line ts client command target status detail));;
      call (EFclose fp);;
      call (EMutexUnlock LogMutex)
  | inl _ => call (EMutexUnlock LogMutex)
  end.

End Logger.
