(* ===== verification/SrvFileOps.v ===== *)
(** The command handlers of the file server (file_ops.c).  [fuel] bounds every
    loop that retries or moves data; [log_path] is [g_log_path]. *)

From S2P Require Import Prelude Libc Rle SrvEvents SrvPath SrvResp SrvLocks.
Import Libc Path Resp Locks Logger.

Module FileOps.
Section ops.
Context (fuel : nat) (log_path : bytes).

Definition MAX_FILE_SIZE : Z := Rle.MAX_FILE_SIZE.
Definition COPY_BUF_SIZE : Z := 8192.

(** * Whole-file input and output *)

(** The read loop of [read_all_file]: [buf] holds the [off] bytes read. *)
Fixpoint read_loop (n : nat) (f sz : Z) (buf : bytes) : M (option bytes) :=
  if len buf <? sz then
    match n with
    | O => out_of_fuel
    | S n' =>
        r ← read f (sz - len buf);
        match r with
        | inl e => if e =? EINTR then read_loop n' f sz buf else mret None
        | inr [] => mret (Some buf)
        | inr bs => read_loop n' f sz (buf ++ bs)
        end
    end
  else mret (Some buf).

(** [Some buf] is return value 0, [None] is -1 with [errno] set. *)
Definition read_all_file (full_path : bytes) : M (option bytes) :=
  f ← open full_path O_RDONLY;
  match f with
  | inl _ => mret None
  | inr f =>
      st ← fstat f;
      match st with
      | inl _ => close f;; mret None
      | inr st =>
          if (st_size st <? 0) || (MAX_FILE_SIZE <? st_size st) then
            close f;; set_errno EFBIG;; mret None
          else
            let sz := st_size st in
            ok ← malloc (if 0 <? sz then sz else 1);
            if negb ok then close f;; set_errno ENOMEM;; mret None
            else
              b ← read_loop fuel f sz [];
              match b with
              | None => close f;; mret None
              | Some buf => close f;; mret (Some buf)
              end
      end
  end.

(** The write loop, on the bytes not yet written. *)
Fixpoint write_loop (n : nat) (f : Z) (data : bytes) : M bool :=
  match data with
  | [] => mret true
  | _ =>
      match n with
      | O => out_of_fuel
      | S n' =>
          w ← write f data;
          match w with
          | inl e => if e =? EINTR then write_loop n' f data else mret false
          | inr k => write_loop n' f (drop (Z.to_nat k) data)
          end
      end
  end.

Definition write_all_file (full_path data : bytes) : M Z :=
  r ← path_ensure_parent_dirs full_path;
  if negb (r =? 0) then mret (-1)
  else
    f ← open full_path O_WRONLY_CREAT_TRUNC;
    match f with
    | inl _ => mret (-1)
    | inr f =>
        ok ← write_loop fuel f data;
        if negb ok then close f;; mret (-1)
        else
          s ← fsync f;
          match s with
          | inl _ => close f;; mret (-1)
          | inr _ =>
              c ← close f;
              match c with
              | inl _ => mret (-1)
              | inr _ => mret 0
              end
          end
    end.

(** * Replies that also log *)

Definition log (client command target status detail : bytes) : M unit :=
  logger_log log_path client command target status detail.

(** [logger_log(..., "ERR", msg); return resp_reply_error(fd, msg')] *)
Definition fail_with (fd : Z) (client cmd target detail msg : bytes) : M Z :=
  log client cmd target (L"ERR") detail;;
  resp_reply_error fuel fd msg.

(** [logger_log(..., "ERR", strerror(e)); return resp_reply_error(fd, strerror(e))] *)
Definition fail_errno (fd : Z) (client cmd target : bytes) (e : Z) : M Z :=
  d ← strerror e;
  log client cmd target (L"ERR") d;;
  m ← strerror e;
  resp_reply_error fuel fd m.

(** * Single-file commands *)

Definition op_getfile (fd : Z) (data_dir client rel_path : bytes) : M Z :=
  let cmd := L"GETFILE" in
  match path_build data_dir rel_path PATH_MAX with
  | None => fail_with fd client cmd rel_path (L"invalid path") (L"invalid path")
  | Some full =>
      lock ← locks_acquire_read full;
      match lock with
      | None => fail_with fd client cmd rel_path (L"lock failure") (L"internal lock error")
      | Some lock =>
          r ← read_all_file full;
          match r with
          | None =>
              e ← get_errno;
              locks_release lock;;
              if e =? ENOENT then
                log client cmd rel_path (L"MISS") (L"not found");;
                resp_reply_null_bulk fuel fd
              else if e =? EFBIG then
                fail_with fd client cmd rel_path (L"file too large") (L"file too large")
              else fail_errno fd client cmd rel_path e
          | Some buf =>
              locks_release lock;;
              rc ← resp_reply_bulk fuel fd buf;
              log client cmd rel_path (L"OK") (L"read success");;
              mret rc
          end
      end
  end.

Definition op_setfile (fd : Z) (data_dir client rel_path data : bytes) : M Z :=
  let cmd := L"SETFILE" in
  match path_build data_dir rel_path PATH_MAX with
  | None => fail_with fd client cmd rel_path (L"invalid path") (L"invalid path")
  | Some full =>
      lock ← locks_acquire_write full;
      match lock with
      | None => fail_with fd client cmd rel_path (L"lock failure") (L"internal lock error")
      | Some lock =>
          r ← write_all_file full data;
          if negb (r =? 0) then
            e ← get_errno;
            locks_release lock;;
            fail_errno fd client cmd rel_path e
          else
            locks_release lock;;
            log client cmd rel_path (L"OK") (L"write success");;
            resp_reply_simple fuel fd (L"OK")
      end
  end.

Definition op_delfile (fd : Z) (data_dir client rel_path : bytes) : M Z :=
  let cmd := L"DELFILE" in
  match path_build data_dir rel_path PATH_MAX with
  | None => fail_with fd client cmd rel_path (L"invalid path") (L"invalid path")
  | Some full =>
      lock ← locks_acquire_write full;
      match lock with
      | None => fail_with fd client cmd rel_path (L"lock failure") (L"internal lock error")
      | Some lock =>
          r ← unlink full;
          match r with
          | inl e =>
              locks_release lock;;
              if e =? ENOENT then
                log client cmd rel_path (L"MISS") (L"not found");;
                resp_reply_integer fuel fd 0
              else fail_errno fd client cmd rel_path e
          | inr _ =>
              locks_release lock;;
              log client cmd rel_path (L"OK") (L"deleted");;
              resp_reply_integer fuel fd 1
          end
      end
  end.

(** The text of STATFILE. *)
Definition stat_text (st : stat) : bytes :=
  L"size=" ++ print_d (st_size st) ++ L" mode=" ++ print_u 8 (Z.land (st_mode st) 511)
  ++ L" uid=" ++ print_u 10 (st_uid st) ++ L" gid=" ++ print_u 10 (st_gid st)
  ++ L" atime=" ++ print_d (st_atime st) ++ L" mtime=" ++ print_d (st_mtime st)
  ++ L" ctime=" ++ print_d (st_ctime st).

Definition op_statfile (fd : Z) (data_dir client rel_path : bytes) : M Z :=
  let cmd := L"STATFILE" in
  match path_build data_dir rel_path PATH_MAX with
  | None => fail_with fd client cmd rel_path (L"invalid path") (L"invalid path")
  | Some full =>
      lock ← locks_acquire_read full;
      match lock with
      | None => fail_with fd client cmd rel_path (L"lock failure") (L"internal lock error")
      | Some lock =>
          r ← stat_path full;
          match r with
          | inl e =>
              locks_release lock;;
              if e =? ENOENT then
                log client cmd rel_path (L"MISS") (L"not found");;
                resp_reply_null_bulk fuel fd
              else fail_errno fd client cmd rel_path e
          | inr st =>
              locks_release lock;;
              let '(n, out) := snprintf 512 (stat_text st) in
              if (n <? 0) || (512 <=? n) then
                fail_with fd client cmd rel_path (L"stat formatting error") (L"stat formatting error")
              else
                log client cmd rel_path (L"OK") (L"metadata read");;
                resp_reply_bulk fuel fd out
          end
      end
  end.

(** * Two-file commands *)

(** Both [path_build] calls, in order. *)
Definition build_two (data_dir src_rel dst_rel : bytes) : option (bytes * bytes) :=
  match path_build data_dir src_rel PATH_MAX with
  | None => None
  | Some s =>
      match path_build data_dir dst_rel PATH_MAX with
      | None => None
      | Some d => Some (s, d)
      end
  end.

Definition op_renamefile (fd : Z) (data_dir client src_rel dst_rel : bytes) : M Z :=
  let cmd := L"RENAMEFILE" in
  match build_two data_dir src_rel dst_rel with
  | None => fail_with fd client cmd (L"-") (L"invalid path") (L"invalid path")
  | Some (src_full, dst_full) =>
      locks ← locks_acquire_two_write src_full dst_full;
      match locks with
      | None => fail_with fd client cmd src_rel (L"lock failure") (L"internal lock error")
      | Some locks =>
          r ← path_ensure_parent_dirs dst_full;
          if negb (r =? 0) then
            e ← get_errno;
            locks_release_two locks;;
            fail_errno fd client cmd src_rel e
          else
            r ← rename src_full dst_full;
            match r with
            | inl e =>
                locks_release_two locks;;
                fail_errno fd client cmd src_rel e
            | inr _ =>
                locks_release_two locks;;
                log client cmd src_rel (L"OK") (L"renamed");;
                resp_reply_simple fuel fd (L"OK")
            end
      end
  end.

(** How the copy loop of COPYFILE ends. *)
Inductive copy_end :=
  | CopyDone
  | CopyReadErr (e : Z)
  | CopyWriteErr (e : Z).

Fixpoint copy_write (n : nat) (dst_fd : Z) (buf : bytes) : M (option Z) :=
  match buf with
  | [] => mret None
  | _ =>
      match n with
      | O => out_of_fuel
      | S n' =>
          w ← write dst_fd buf;
          match w with
          | inl e => if e =? EINTR then copy_write n' dst_fd buf else mret (Some e)
          | inr k => copy_write n' dst_fd (drop (Z.to_nat k) buf)
          end
      end
  end.

(** [for (;;) { read; write all }] *)
Fixpoint copy_loop (n : nat) (src_fd dst_fd : Z) : M copy_end :=
  match n with
  | O => out_of_fuel
  | S n' =>
      r ← read src_fd COPY_BUF_SIZE;
      match r with
      | inl e => if e =? EINTR then copy_loop n' src_fd dst_fd else mret (CopyReadErr e)
      | inr [] => mret CopyDone
      | inr buf =>
          w ← copy_write fuel dst_fd buf;
          match w with
          | Some e => mret (CopyWriteErr e)
          | None => copy_loop n' src_fd dst_fd
          end
      end
  end.

Definition op_copyfile (fd : Z) (data_dir client src_rel dst_rel : bytes) : M Z :=
  let cmd := L"COPYFILE" in
  match build_two data_dir src_rel dst_rel with
  | None => fail_with fd client cmd (L"-") (L"invalid path") (L"invalid path")
  | Some (src_full, dst_full) =>
      locks ← locks_acquire_two_write src_full dst_full;
      match locks with
      | None => fail_with fd client cmd src_rel (L"lock failure") (L"internal lock error")
      | Some locks =>
          src ← open src_full O_RDONLY;
          match src with
          | inl e =>
              locks_release_two locks;;
              if e =? ENOENT then
                log client cmd src_rel (L"MISS") (L"source not found");;
                resp_reply_error fuel fd (L"source file not found")
              else fail_errno fd client cmd src_rel e
          | inr src_fd =>
              r ← path_ensure_parent_dirs dst_full;
              if negb (r =? 0) then
                e ← get_errno;
                close src_fd;;
                locks_release_two locks;;
                fail_errno fd client cmd dst_rel e
              else
                dst ← open dst_full O_WRONLY_CREAT_TRUNC;
                match dst with
                | inl e =>
                    close src_fd;;
                    locks_release_two locks;;
                    fail_errno fd client cmd dst_rel e
                | inr dst_fd =>
                    c ← copy_loop fuel src_fd dst_fd;
                    match c with
                    | CopyReadErr e =>
                        close src_fd;; close dst_fd;;
                        locks_release_two locks;;
                        fail_errno fd client cmd src_rel e
                    | CopyWriteErr e =>
                        close src_fd;; close dst_fd;;
                        locks_release_two locks;;
                        fail_errno fd client cmd dst_rel e
                    | CopyDone =>
                        s ← fsync dst_fd;
                        match s with
                        | inl e =>
                            close src_fd;; close dst_fd;;
                            locks_release_two locks;;
                            fail_errno fd client cmd dst_rel e
                        | inr _ =>
                            close src_fd;; close dst_fd;;
                            locks_release_two locks;;
                            log client cmd src_rel (L"OK") (L"copied");;
                            resp_reply_simple fuel fd (L"OK")
                        end
                    end
                end
          end
      end
  end.

(** * The log *)

Definition LOG_TAIL_MAX : Z := 1024 * 1024.

(** [for (i = nread; i > 0; --i)]: the start of the tail of [limit] lines, on
    the first [i] bytes, [seen] newlines counted. *)
Fixpoint tail_start (buf : bytes) (limit : Z) (i : nat) (seen : Z) : nat :=
  match i with
  | O => 0
  | S j =>
      if bool_decide (buf !! j = Some LF) then
        if limit <? seen + 1 then i else tail_start buf limit j (seen + 1)
      else tail_start buf limit j seen
  end.

Definition read_log_tail (line_limit : Z) : M (option bytes) :=
  fp ← fopen log_path false;
  match fp with
  | inl e =>
      if e =? ENOENT then
        ok ← malloc 1;
        mret (if (ok : bool) then Some [] else None)
      else mret None
  | inr fp =>
      s ← fseek fp 0 SEEK_END;
      match s with
      | inl _ => call (EFclose fp);; mret None
      | inr _ =>
        size ← ftell fp;
        if size <? 0 then call (EFclose fp);; mret None
        else
          let size := if LOG_TAIL_MAX <? size then LOG_TAIL_MAX else size in
          s1 ← fseek fp (- size) SEEK_END;
          s2 ← match s1 with inl _ => fseek fp 0 SEEK_SET | inr _ => mret (inr tt) end;
          match s2 with
          | inl _ => call (EFclose fp);; mret None
          | inr _ =>
              ok ← malloc (size + 1);
              if negb ok then call (EFclose fp);; mret None
              else
                buf ← call (EFread fp size);
                call (EFclose fp);;
                if size <? len buf then out_of_bounds
                else if line_limit <=? 0 then mret (Some buf)
                else
                  let start := tail_start buf line_limit (length buf) 0 in
                  ok2 ← malloc (len buf - Z.of_nat start + 1);
                  mret (if negb ok2 then None else Some (drop start buf))
          end
      end
  end.

Definition op_logs (fd : Z) (client : bytes) (line_limit : Z) : M Z :=
  let cmd := L"LOGS" in
  r ← read_log_tail line_limit;
  match r with
  | None =>
      e ← get_errno;
      d ← strerror e;
      log client cmd (L"operations.log") (L"ERR") d;;
      e' ← get_errno;
      m ← strerror e';
      resp_reply_error fuel fd m
  | Some buf =>
      rc ← resp_reply_bulk fuel fd buf;
      log client cmd (L"operations.log") (L"OK") (L"read logs");;
      mret rc
  end.

(** * Compression *)

(** Run one of the [Rle] functions: [bytes] on success, [None] with [errno] set
    on failure; a store outside the buffer is an out-of-bounds access. *)
Definition rle_result (r : Rle.cres) : M (option bytes) :=
  match r with
  | Rle.CBuf out => mret (Some out)
  | Rle.CErr e => set_errno e;; mret None
  | Rle.CUb => out_of_bounds
  end.

(** COMPRESS and DECOMPRESS differ in the transformation and in the name and
    success message they log. *)
Definition op_transform (transform : bytes -> M (option bytes)) (cmd okmsg : bytes)
    (fd : Z) (data_dir client src_rel dst_rel : bytes) : M Z :=
  match build_two data_dir src_rel dst_rel with
  | None => fail_with fd client cmd src_rel (L"invalid path") (L"invalid path")
  | Some (src_full, dst_full) =>
      locks ← locks_acquire_two_write src_full dst_full;
      match locks with
      | None => fail_with fd client cmd src_rel (L"lock failure") (L"internal lock error")
      | Some locks =>
          r ← read_all_file src_full;
          match r with
          | None =>
              e ← get_errno;
              locks_release_two locks;;
              fail_errno fd client cmd src_rel e
          | Some src_buf =>
              c ← transform src_buf;
              match c with
              | None =>
                  e ← get_errno;
                  locks_release_two locks;;
                  fail_errno fd client cmd src_rel e
              | Some comp =>
                  w ← write_all_file dst_full comp;
                  if negb (w =? 0) then
                    e ← get_errno;
                    locks_release_two locks;;
                    fail_errno fd client cmd dst_rel e
                  else
                    locks_release_two locks;;
                    log client cmd src_rel (L"OK") okmsg;;
                    resp_reply_simple fuel fd (L"OK")
              end
          end
      end
  end.

Definition rle_compress (inp : bytes) : M (option bytes) :=
  ok ← malloc (Rle.rle_cap inp);
  rle_result (Rle.rle_compress_bytes (fun _ => ok) inp).

(** The decoder allocates only after its checks of the input. *)
Definition rle_decompress (inp : bytes) : M (option bytes) :=
  match Rle.rle_decompress_check inp with
  | inl e => set_errno e;; mret None
  | inr total =>
      ok ← malloc (if 0 <? total then total else 1);
      rle_result (Rle.rle_decompress_bytes (fun _ => ok) inp)
  end.

Definition op_compress (fd : Z) (data_dir client src_rel dst_rel : bytes) : M Z :=
  op_transform rle_compress (L"COMPRESS") (L"compressed") fd data_dir client src_rel dst_rel.

Definition op_decompress (fd : Z) (data_dir client src_rel dst_rel : bytes) : M Z :=
  op_transform rle_decompress (L"DECOMPRESS") (L"decompressed") fd data_dir client src_rel dst_rel.

End ops.
End FileOps.
