(* ===== verification/SrvServer.v ===== *)
(** The server proper (server.c): command dispatch, the loop of a client
    thread, the default destinations of COMPRESS and DECOMPRESS and the
    command-line arguments. *)

From S2P Require Import Prelude Libc Rle SrvEvents SrvPath SrvResp SrvLocks SrvFileOps.
Import Libc Path Resp Locks Logger FileOps.

Module Server.

(** Sets [errno] and returns the [int] that the whole of [s] denotes. *)
Definition parse_int_arg (s : bytes) : M (option Z) :=
  let '(v, e, range) := strtol s in
  set_errno (if (range : bool) then ERANGE else 0);;
  mret (if range || bool_decide (e = s) || negb (bool_decide (e = []))
           || (v <? INT_MIN) || (INT_MAX <? v) then None else Some v).

Definition derive_compress_dst (src : bytes) (dst_sz : Z) : option bytes :=
  path_append_suffix src (L".rle") dst_sz.

Definition derive_decompress_dst (src : bytes) (dst_sz : Z) : option bytes :=
  match path_strip_suffix src (L".rle") dst_sz with
  | Some dst => Some dst
  | None => path_append_suffix src (L".out") dst_sz
  end.

(** [strcasecmp(cmd, name) == 0] *)
Definition is_cmd (cmd name : bytes) : bool := strcasecmp cmd name =? 0.

Section server.
Context (fuel : nat) (log_path data_dir : bytes).

(** [req->items[i].ptr], with its [len] bytes. *)
Definition item (req : resp_array) (i : nat) (k : bytes -> M Z) : M Z :=
  match ra_items req !! i with
  | None => out_of_bounds
  | Some b => k b
  end.

Definition reply_error (fd : Z) (msg : bytes) : M Z := resp_reply_error fuel fd msg.

(** The commands that take one path. *)
Definition dispatch_path (op : Z -> bytes -> bytes -> bytes -> M Z) (errmsg : bytes)
    (fd : Z) (client : bytes) (req : resp_array) : M Z :=
  if negb (ra_count req =? 2) then reply_error fd errmsg
  else item req 1 (fun p => op fd data_dir client (c_str p)).

(** The commands that take two paths. *)
Definition dispatch_two (op : Z -> bytes -> bytes -> bytes -> bytes -> M Z) (errmsg : bytes)
    (fd : Z) (client : bytes) (req : resp_array) : M Z :=
  if negb (ra_count req =? 3) then reply_error fd errmsg
  else item req 1 (fun p => item req 2 (fun q => op fd data_dir client (c_str p) (c_str q))).

(** COMPRESS and DECOMPRESS, with an optional destination. *)
Definition dispatch_transform (op : Z -> bytes -> bytes -> bytes -> bytes -> M Z)
    (derive : bytes -> Z -> option bytes) (errmsg : bytes)
    (fd : Z) (client : bytes) (req : resp_array) : M Z :=
  if ra_count req =? 2 then
    item req 1 (fun p =>
      match derive (c_str p) PATH_MAX with
      | None => reply_error fd (L"unable to build destination path")
      | Some dst => op fd data_dir client (c_str p) dst
      end)
  else if ra_count req =? 3 then
    item req 1 (fun p => item req 2 (fun q => op fd data_dir client (c_str p) (c_str q)))
  else reply_error fd errmsg.

Definition dispatch_logs (fd : Z) (client : bytes) (req : resp_array) : M Z :=
  if ra_count req =? 2 then
    item req 1 (fun p =>
      limit ← parse_int_arg (c_str p);
      match limit with
      | None => reply_error fd (L"LOGS limit must be non-negative integer")
      | Some limit =>
          if limit <? 0 then reply_error fd (L"LOGS limit must be non-negative integer")
          else op_logs fuel log_path fd client limit
      end)
  else if negb (ra_count req =? 1) then reply_error fd (L"wrong number of arguments for LOGS")
  else op_logs fuel log_path fd client 20.

Definition dispatch_ping (fd : Z) (req : resp_array) : M Z :=
  if ra_count req =? 1 then resp_reply_simple fuel fd (L"PONG")
  else item req 1 (fun m => resp_reply_bulk fuel fd m).

Definition dispatch_command (fd : Z) (client : bytes) (req : resp_array) : M Z :=
  item req 0 (fun c =>
    let cmd := c_str c in
    if is_cmd cmd (L"PING") then dispatch_ping fd req
    else if is_cmd cmd (L"GETFILE") then
      dispatch_path (op_getfile fuel log_path) (L"wrong number of arguments for GETFILE") fd client req
    else if is_cmd cmd (L"SETFILE") then
      if negb (ra_count req =? 3) then reply_error fd (L"wrong number of arguments for SETFILE")
      else item req 1 (fun p => item req 2 (fun d =>
             op_setfile fuel log_path fd data_dir client (c_str p) d))
    else if is_cmd cmd (L"DELFILE") then
      dispatch_path (op_delfile fuel log_path) (L"wrong number of arguments for DELFILE") fd client req
    else if is_cmd cmd (L"RENAMEFILE") then
      dispatch_two (op_renamefile fuel log_path) (L"wrong number of arguments for RENAMEFILE") fd client req
    else if is_cmd cmd (L"COPYFILE") then
      dispatch_two (op_copyfile fuel log_path) (L"wrong number of arguments for COPYFILE") fd client req
    else if is_cmd cmd (L"STATFILE") then
      dispatch_path (op_statfile fuel log_path) (L"wrong number of arguments for STATFILE") fd client req
    else if is_cmd cmd (L"LOGS") then dispatch_logs fd client req
    else if is_cmd cmd (L"COMPRESS") then
      dispatch_transform (op_compress fuel log_path) derive_compress_dst
        (L"wrong number of arguments for COMPRESS") fd client req
    else if is_cmd cmd (L"DECOMPRESS") then
      dispatch_transform (op_decompress fuel log_path) derive_decompress_dst
        (L"wrong number of arguments for DECOMPRESS") fd client req
    else reply_error fd (L"unknown command")).

(** [client_thread]: [n] bounds the number of requests served. *)
Fixpoint client_loop (n : nat) (fd : Z) (client : bytes) : M unit :=
  stop ← call EStop;
  if (stop : bool) then mret tt
  else
    match n with
    | O => out_of_fuel
    | S n' =>
        req ← resp_read_array fuel fd;
        match req with
        | None => mret tt
        | Some req =>
            if (ra_count req =? 0) || bool_decide (ra_items req !! 0%nat = None) then
              reply_error fd (L"empty command");;
              client_loop n' fd client
            else
              dispatch_command fd client req;;
              client_loop n' fd client
        end
    end.

Definition client_thread (fd : Z) (client : bytes) : M unit :=
  client_loop fuel fd client;;
  close fd;;
  mret tt.

End server.

(** The argument loop of [main]: the port and data directory, or exit status 1. *)
Fixpoint parse_args (args : list bytes) (port : Z) (dir : bytes) : option (Z * bytes) :=
  match args with
  | [] => Some (port, dir)
  | a :: rest =>
      match rest with
      | v :: rest' =>
          if bool_decide (a = L"-p") then
            let p := (strtol v).1.1 in
            if (p <=? 0) || (65535 <? p) then None else parse_args rest' (u16 p) dir
          else if bool_decide (a = L"-d") then
            match v with
            | [] => None
            | _ =>
                let '(n, d) := snprintf PATH_MAX v in
                if (n <? 0) || (PATH_MAX <=? n) then None else parse_args rest' port d
            end
          else None
      | [] => None
      end
  end.

(** Defaults: port 6379, directory ".". *)
Definition main_args (args : list bytes) : option (Z * bytes) := parse_args args 6379 (L".").

End Server.
