(* ===== verification/SrvDiscipline.v ===== *)
(** The lock and descriptor discipline of a server thread, as a contract of its
    events: read/write locks are taken in increasing path order with no mutex
    held, mutexes are leaves, a file is touched only under the lock of its path
    (the write lock when it changes), the registry only under
    [g_lock_map_mutex], the log file is appended to only under [g_log_mutex],
    and descriptors are used while open and closed before the lock is released.
    Every command handler respects it whatever the operating system answers,
    and ends with nothing held and nothing open. *)

From S2P Require Import Prelude Libc Rle SrvEvents SrvPath SrvResp SrvLocks SrvFileOps SrvServer.
Import Libc Path Resp Locks Logger FileOps Server.

Module Discipline.

(** What a thread holds. *)
Record gst := mk_gst {
  g_known : gmap Z bytes;                       (* locks it has learned, with their paths *)
  g_snap : option (list file_lock_entry);       (* the registry, while the map mutex is held *)
  g_mutex : option mutex;
  g_held : list (Z * bytes * bool);             (* rwlock, path, held for writing *)
  g_fds : gmap Z (bytes * bool);                (* open files: path, open for writing *)
  g_fps : gmap Z bool;                          (* open streams: for appending *)
  g_sock : bool;                                (* the client socket is open *)
}.

Definition set_known x h := mk_gst x (g_snap h) (g_mutex h) (g_held h) (g_fds h) (g_fps h) (g_sock h).
Definition set_snap x h := mk_gst (g_known h) x (g_mutex h) (g_held h) (g_fds h) (g_fps h) (g_sock h).
Definition set_mutex x h := mk_gst (g_known h) (g_snap h) x (g_held h) (g_fds h) (g_fps h) (g_sock h).
Definition set_held x h := mk_gst (g_known h) (g_snap h) (g_mutex h) x (g_fds h) (g_fps h) (g_sock h).
Definition set_fds x h := mk_gst (g_known h) (g_snap h) (g_mutex h) (g_held h) x (g_fps h) (g_sock h).
Definition set_fps x h := mk_gst (g_known h) (g_snap h) (g_mutex h) (g_held h) (g_fds h) x (g_sock h).
Definition set_sock x h := mk_gst (g_known h) (g_snap h) (g_mutex h) (g_held h) (g_fds h) (g_fps h) x.

Definition holds (h : gst) (p : bytes) : Prop := exists l w, (l, p, w) ∈ g_held h.
Definition holds_write (h : gst) (p : bytes) : Prop := exists l, (l, p, true) ∈ g_held h.

(** Nothing held, nothing open. *)
Definition idle (h : gst) : Prop :=
  g_snap h = None /\ g_mutex h = None /\ g_held h = [] /\ g_fds h = ∅ /\ g_fps h = ∅.

(** Every path held precedes [p] in [strcmp] order. *)
Definition above (h : gst) (p : bytes) : Prop :=
  Forall (fun x => strcmp x.1.2 p < 0) (g_held h).

Definition map_of (m : list file_lock_entry) : gmap Z bytes :=
  list_to_map ((fun x => (fe_lock x, fe_path x)) <$> m).

(** The entries of a registry have distinct locks and distinct paths, and the
    paths are C strings. *)
Definition wf_registry (m : list file_lock_entry) : Prop :=
  NoDup (fe_lock <$> m) /\ NoDup (fe_path <$> m) /\ Forall (fun x => c_string (fe_path x)) m.

Section contract.
Context (sock : Z).

Definition lock_pre (l : Z) (h : gst) : Prop :=
  g_mutex h = None /\ exists p, g_known h !! l = Some p /\ above h p.

Definition pre (e : event) (h : gst) : Prop :=
  match e with
  | EOpen p O_RDONLY => holds h p
  | EOpen p O_WRONLY_CREAT_TRUNC => holds_write h p
  | EFstat fd | ERead fd _ => exists p w, g_fds h !! fd = Some (p, w) /\ holds h p
  | EWrite fd _ | EFsync fd => exists p, g_fds h !! fd = Some (p, true) /\ holds_write h p
  | EClose fd =>
      if bool_decide (fd = sock) then g_sock h = true /\ idle h
      else exists p w, g_fds h !! fd = Some (p, w) /\ holds h p
  | EUnlink p => holds_write h p
  | ERename s d => holds_write h s /\ holds_write h d
  | EStat p => holds h p
  | EMkdir _ => True
  | EFopen _ append => append = true -> g_mutex h = Some LogMutex
  | EFseek fp _ _ | EFtell fp | EFread fp _ => g_fps h !! fp = Some false
  | EFprintf fp _ => g_fps h !! fp = Some true /\ g_mutex h = Some LogMutex
  | EFclose fp => is_Some (g_fps h !! fp)
  | EMalloc _ | EStrerror _ | ETimestamp | EStop => True
  | ERecv fd n => fd = sock /\ g_sock h = true /\ 0 < n
  | ESend fd data => fd = sock /\ g_sock h = true /\ data <> []
  | EMutexLock MapMutex => g_mutex h = None
  | EMutexLock LogMutex => g_mutex h = None /\ g_held h = []
  | EMutexUnlock m =>
      g_mutex h = Some m /\ (m = LogMutex -> map_Forall (fun _ append => append = false) (g_fps h))
  | EGetMap => g_mutex h = Some MapMutex
  | ERwInit => True
  | EPushEntry p =>
      g_mutex h = Some MapMutex /\ c_string p /\
      exists m, g_snap h = Some m /\ p ∉ fe_path <$> m
  | ERdLock l | EWrLock l => lock_pre l h
  | EUnlock l => exists p w, (l, p, w) ∈ g_held h /\ map_Forall (fun _ x => x.1 <> p) (g_fds h)
  end.

(** The effect of taking lock [l]. *)
Definition lock_post (w : bool) (l r : Z) (h h' : gst) : Prop :=
  if r =? 0 then exists p, g_known h !! l = Some p /\ h' = set_held ((l, p, w) :: g_held h) h
  else h' = h.

Definition post (e : event) : ans e -> gst -> gst -> Prop :=
  match e return ans e -> gst -> gst -> Prop with
  | EOpen p fl => fun r h h' =>
      match r with
      | inl _ => h' = h
      | inr f => (g_sock h = true -> f <> sock) /\ g_fds h !! f = None /\
                 h' = set_fds (<[f := (p, bool_decide (fl = O_WRONLY_CREAT_TRUNC))]> (g_fds h)) h
      end
  | ERead _ n | ERecv _ n => fun r h h' =>
      h' = h /\ match r with inl _ => True | inr bs => len bs <= n /\ Forall is_byte bs end
  | EClose fd => fun _ h h' =>
      h' = if bool_decide (fd = sock) then set_sock false h else set_fds (delete fd (g_fds h)) h
  | EFopen _ append => fun r h h' =>
      match r with
      | inl _ => h' = h
      | inr fp => g_fps h !! fp = None /\ h' = set_fps (<[fp := append]> (g_fps h)) h
      end
  | EFread _ n => fun r h h' => h' = h /\ len r <= Z.max 0 n
  | EFclose fp => fun _ h h' => h' = set_fps (delete fp (g_fps h)) h
  | EMutexLock m => fun _ h h' => h' = set_mutex (Some m) h
  | EMutexUnlock _ => fun _ h h' => h' = set_snap None (set_mutex None h)
  | EGetMap => fun m h h' =>
      wf_registry m /\ (forall l p w, (l, p, w) ∈ g_held h -> map_of m !! l = Some p) /\
      h' = set_snap (Some m) (set_known (map_of m) h)
  | EPushEntry p => fun l h h' =>
      g_known h !! l = None /\ exists m, g_snap h = Some m /\
        h' = set_snap (Some (mk_entry p l :: m)) (set_known (<[l := p]> (g_known h)) h)
  | ERdLock l => fun r h h' => lock_post false l r h h'
  | EWrLock l => fun r h h' => lock_post true l r h h'
  | EUnlock l => fun _ h h' =>
      h' = set_held (filter (fun x => x.1.1 <> l) (g_held h)) h
  | _ => fun _ h h' => h' = h
  end.

Definition discipline : contract gst := mk_contract _ pre post.
End contract.

(** * Proof rules *)

Lemma gst_eta h :
  h = mk_gst (g_known h) (g_snap h) (g_mutex h) (g_held h) (g_fds h) (g_fps h) (g_sock h).
Proof. by destruct h. Qed.

Section proofs.
Context (sock : Z) (fuel : nat).

(** [m] respects the discipline from [h], gives [h] back and returns a value
    in [P]. *)
Definition keeps {A} (m : M A) (h : gst) (P : A -> Prop) : Prop :=
  forall en, wpm false (discipline sock) m en h (fun _ a h' => h' = h /\ P a).

Lemma wpm_keeps {A} (m : M A) en h (P : A -> Prop) (Q : Z -> A -> gst -> Prop) :
  keeps m h P -> (forall en' a, P a -> Q en' a h) -> wpm false (discipline sock) m en h Q.
Proof. intros Hm HQ. eapply wpm_mono; [apply Hm|]. intros en' a h' [-> Ha]. by apply HQ. Qed.

Lemma keeps_bind {A B} (m : M A) (f : A -> M B) h P P' :
  keeps m h P -> (forall a, P a -> keeps (f a) h P') -> keeps (m ≫= f) h P'.
Proof. intros Hm Hf en. apply wpm_bind. eapply wpm_keeps; [done|]. intros. by apply Hf. Qed.

Lemma keeps_ret {A} (a : A) h (P : A -> Prop) : P a -> keeps (mret a) h P.
Proof. intros Ha en. by apply wpm_ret. Qed.

Lemma keeps_weaken {A} (m : M A) h (P P' : A -> Prop) :
  keeps m h P -> (forall a, P a -> P' a) -> keeps m h P'.
Proof. intros Hm HP en. eapply wpm_keeps; [done|]. auto. Qed.

Lemma keeps_fuel {A} h (P : A -> Prop) : keeps out_of_fuel h P.
Proof. intros en. by apply wpm_out_of_fuel. Qed.

Lemma keeps_get_errno h : keeps get_errno h (fun _ => True).
Proof. intros en. by apply wpm_get_errno. Qed.

Lemma keeps_set_errno e h : keeps (set_errno e) h (fun _ => True).
Proof. intros en. by apply wpm_set_errno. Qed.

Lemma keeps_call e h (P : ans e -> Prop) :
  pre sock e h -> (forall r h', post sock e r h h' -> h' = h /\ P r) -> keeps (call e) h P.
Proof. intros Hpre Hpost en. apply wpm_call; [done|]. intros r h' Hr. by apply Hpost. Qed.

Lemma keeps_sys {A} e (conv : ans e -> res A) h (P : res A -> Prop) :
  pre sock e h -> (forall r h', post sock e r h h' -> h' = h /\ P (conv r)) ->
  keeps (sys e conv) h P.
Proof.
  intros Hpre Hpost en. apply wpm_sys; [done|]. intros r h' Hr.
  destruct (Hpost r h' Hr) as [-> HP]. by destruct (conv r).
Qed.

Lemma keeps_malloc n h : keeps (malloc n) h (fun _ => True).
Proof.
  eapply keeps_bind; [apply (keeps_call _ _ (fun _ => True)); [done|]; by intros r h' ->|].
  intros [] _; [by apply keeps_ret|].
  eapply keeps_bind; [apply keeps_set_errno|]. intros. by apply keeps_ret.
Qed.

Lemma keeps_strerror e h : keeps (strerror e) h (fun _ => True).
Proof. apply keeps_call; [done|]. by intros r h' ->. Qed.

(** * The client socket *)

Lemma keeps_send_all n h buf : g_sock h = true -> keeps (send_all n sock buf) h (fun _ => True).
Proof.
  intros Hs. revert buf. induction n as [|n IH]; intros [|c buf]; simpl;
    try (by apply keeps_ret); try apply keeps_fuel.
  eapply keeps_bind; [apply (keeps_sys _ _ _ (fun _ => True)); [done|]; by intros r h' ->|].
  intros [e|k] _; [|apply IH]. destruct (e =? EINTR); [apply IH | by apply keeps_ret].
Qed.

Lemma keeps_recv_exact n h k buf :
  g_sock h = true -> Forall is_byte buf ->
  keeps (recv_exact n sock k buf) h (fun x => Forall is_byte x.2 /\ (0 < x.1 -> k <= len x.2)).
Proof.
  intros Hs. revert buf. induction n as [|n IH]; intros buf Hb; simpl.
  - destruct (Z.ltb_spec (len buf) k); [apply keeps_fuel|]. by apply keeps_ret.
  - destruct (Z.ltb_spec (len buf) k); [|by apply keeps_ret].
    eapply keeps_bind.
    { apply (keeps_sys _ _ _ (fun r => match r with inl _ => True | inr bs => Forall is_byte bs end)).
      - repeat split; [done|lia].
      - intros r h' [-> Hr]. split; [done|]. destruct r; [done|]. apply Hr. }
    intros [e|bs] Hr; [destruct (e =? EINTR); [by apply IH|apply keeps_ret; simpl; split; [done|lia]]|].
    destruct bs as [|c bs]; [apply keeps_ret; simpl; split; [done|lia]|].
    apply IH, Forall_app. done.
Qed.

Lemma keeps_recv_byte h :
  g_sock h = true -> keeps (recv_byte fuel sock) h (fun c => forall b, c = Some b -> is_byte b).
Proof.
  intros Hs. eapply keeps_bind; [by apply keeps_recv_exact|].
  intros [r b] [Hb _]. apply keeps_ret. destruct (r <=? 0); [done|].
  intros x Hx. simpl in Hb. by destruct Hb; simplify_eq/=.
Qed.

Lemma keeps_recv_crlf_line h sz :
  g_sock h = true -> keeps (recv_crlf_line fuel sock sz) h (fun _ => True).
Proof.
  intros Hs. unfold recv_crlf_line. generalize (@nil Z) (Z.to_nat (sz - 1)). intros out room.
  revert out. induction room as [|room IH]; intros out; simpl; [by apply keeps_ret|].
  eapply keeps_bind; [by apply keeps_recv_byte|]. intros [c|] _; [|by apply keeps_ret].
  destruct (c =? CR); [|apply IH].
  eapply keeps_bind; [by apply keeps_recv_byte|]. by intros [] _; apply keeps_ret.
Qed.

Lemma keeps_parse_int h s :
  keeps (parse_int s) h (fun _ => True).
Proof. eapply keeps_bind; [apply keeps_set_errno|]. intros. by apply keeps_ret. Qed.

Lemma keeps_read_items h todo items :
  g_sock h = true -> Forall (Forall is_byte) items ->
  keeps (read_items fuel todo sock items) h
    (fun r => match r with
              | None => True
              | Some l => Forall (Forall is_byte) l /\ length l = (length items + todo)%nat
              end).
Proof.
  intros Hs. revert items. induction todo as [|todo IH]; intros items Hi; simpl.
  { apply keeps_ret. split; [done|lia]. }
  eapply keeps_bind; [by apply keeps_recv_byte|]. intros kind _.
  destruct (negb _); [by apply keeps_ret|].
  eapply keeps_bind; [by apply keeps_recv_crlf_line|]. intros [line|] _; [|by apply keeps_ret].
  eapply keeps_bind; [apply keeps_parse_int|]. intros [blen|] _; [|by apply keeps_ret].
  destruct (blen <? 0); [by apply keeps_ret|].
  eapply keeps_bind; [apply keeps_malloc|]. intros [] _; [|by apply keeps_ret]. simpl.
  eapply keeps_bind; [by apply keeps_recv_exact|]. intros [r data] [Hd _]. simpl in *.
  destruct (r <=? 0); [by apply keeps_ret|].
  eapply keeps_bind; [by apply keeps_recv_exact|]. intros [r2 crlf] _. simpl in *.
  destruct (_ || _); [by apply keeps_ret|].
  eapply keeps_weaken; [apply IH|].
  - apply Forall_app. by repeat constructor.
  - intros [l|]; [|done]. rewrite length_app. simpl. intros [? ->]. split; [done|lia].
Qed.

(** A request as [resp_read_array] leaves it. *)
Definition wf_request (req : resp_array) : Prop :=
  1 <= ra_count req <= 128 /\ len (ra_items req) = ra_count req /\
  Forall (Forall is_byte) (ra_items req).

Lemma keeps_resp_read_array h :
  g_sock h = true ->
  keeps (resp_read_array fuel sock) h
    (fun r => match r with None => True | Some req => wf_request req end).
Proof.
  intros Hs. eapply keeps_bind; [by apply keeps_recv_byte|]. intros lead _.
  destruct (negb _); [by apply keeps_ret|].
  eapply keeps_bind; [by apply keeps_recv_crlf_line|]. intros [line|] _; [|by apply keeps_ret].
  eapply keeps_bind; [apply keeps_parse_int|]. intros [n|] _; [|by apply keeps_ret].
  destruct ((n <=? 0) || (128 <? n)) eqn:Hn; [by apply keeps_ret|].
  eapply keeps_bind; [apply keeps_malloc|]. intros [] _; [|by apply keeps_ret]. simpl.
  eapply keeps_bind; [by apply keeps_read_items|].
  intros [l|] Hl; apply keeps_ret; [|done]. destruct Hl as [Hl Hlen]. simpl in Hlen.
  repeat split; simpl; [lia..|done].
Qed.

(** * Replies *)

Lemma keeps_reply_line h size text :
  g_sock h = true -> keeps (reply_line fuel sock size text) h (fun _ => True).
Proof.
  intros Hs. unfold reply_line. destruct (snprintf size text) as [n line].
  destruct (_ || _); [by apply keeps_ret | by apply keeps_send_all].
Qed.

Lemma keeps_reply_bulk h data :
  g_sock h = true -> keeps (resp_reply_bulk fuel sock data) h (fun _ => True).
Proof.
  intros Hs. unfold resp_reply_bulk. destruct (snprintf _ _) as [n hd].
  destruct (_ || _); [by apply keeps_ret|].
  eapply keeps_bind; [by apply keeps_send_all|]. intros r _.
  destruct (negb _); [by apply keeps_ret|].
  eapply (keeps_bind _ _ _ (fun _ => True)).
  { destruct (0 <? len data); [by apply keeps_send_all | by apply keeps_ret]. }
  intros r2 _. destruct (negb _); [by apply keeps_ret | by apply keeps_send_all].
Qed.

(** * Files *)

Lemma keeps_ensure_dirs h done rest : keeps (ensure_dirs done rest) h (fun _ => True).
Proof.
  revert done. induction rest as [|c rest IH]; intros done; simpl; [by apply keeps_ret|].
  destruct (c =? SLASH); simpl; [|apply IH].
  eapply keeps_bind; [apply (keeps_sys _ _ _ (fun _ => True)); [done|]; by intros r h' ->|].
  intros [e|[]] _; [|apply IH]. destruct (negb _); [by apply keeps_ret|apply IH].
Qed.

Lemma keeps_path_ensure_parent_dirs h p :
  p <> [] -> keeps (path_ensure_parent_dirs p) h (fun _ => True).
Proof.
  intros Hp. unfold path_ensure_parent_dirs, snprintf.
  destruct (_ || _); [by apply keeps_ret|]. destruct p as [|c p]; [done|].
  apply (keeps_ensure_dirs h [c] (take (Z.to_nat 4094) p)).
Qed.

(** A file opened at [h] under the lock of its path. *)
Definition with_fd (f : Z) (p : bytes) (w : bool) (h : gst) : gst :=
  set_fds (<[f := (p, w)]> (g_fds h)) h.

Lemma wpm_open h p fl en (Q : Z -> res Z -> gst -> Prop) :
  pre sock (EOpen p fl) h -> g_sock h = true ->
  (forall e, Q e (inl e) h) ->
  (forall f, f <> sock -> g_fds h !! f = None ->
     Q en (inr f) (with_fd f p (bool_decide (fl = O_WRONLY_CREAT_TRUNC)) h)) ->
  wpm false (discipline sock) (open p fl) en h Q.
Proof.
  intros Hpre Hs He Hf. apply wpm_sys; [done|]. intros [e|f] h' Hpost; simpl in *.
  - rewrite Hpost. apply He.
  - destruct Hpost as (? & ? & ->). by apply Hf; auto.
Qed.

Lemma wpm_close h f p w en (Q : Z -> res unit -> gst -> Prop) :
  f <> sock -> g_fds h !! f = None -> holds h p ->
  (forall en' r, Q en' r h) ->
  wpm false (discipline sock) (close f) en (with_fd f p w h) Q.
Proof.
  intros Hf Hnone Hh HQ. apply wpm_sys.
  - simpl. rewrite bool_decide_eq_false_2 by done. exists p, w. by rewrite lookup_insert_eq.
  - intros r h' Hpost. simpl in Hpost. rewrite bool_decide_eq_false_2 in Hpost by done.
    assert (h' = h) as ->.
    { rewrite Hpost. unfold with_fd, set_fds. simpl. rewrite delete_insert_id by done.
      symmetry. apply gst_eta. }
    destruct r; apply HQ.
Qed.

Lemma keeps_read h f n p w :
  g_fds h !! f = Some (p, w) -> holds h p ->
  keeps (read f n) h
    (fun r => match r with inl _ => True | inr bs => len bs <= n /\ Forall is_byte bs end).
Proof. intros Hf Hh. apply keeps_sys; [by exists p, w|]. by intros r h' [-> Hr]. Qed.

Lemma keeps_write h f data p :
  g_fds h !! f = Some (p, true) -> holds_write h p -> keeps (write f data) h (fun _ => True).
Proof. intros Hf Hh. apply keeps_sys; [by exists p|]. by intros r h' ->. Qed.

Lemma keeps_fsync h f p :
  g_fds h !! f = Some (p, true) -> holds_write h p -> keeps (fsync f) h (fun _ => True).
Proof. intros Hf Hh. apply keeps_sys; [by exists p|]. by intros r h' ->. Qed.

Lemma keeps_read_loop h f p w n sz buf :
  g_fds h !! f = Some (p, w) -> holds h p -> len buf <= sz -> Forall is_byte buf ->
  keeps (read_loop n f sz buf) h
    (fun r => match r with None => True | Some b => len b <= sz /\ Forall is_byte b end).
Proof.
  intros Hf Hh. revert buf. induction n as [|n IH]; intros buf Hl Hb; simpl.
  - destruct (len buf <? sz); [apply keeps_fuel | by apply keeps_ret].
  - destruct (len buf <? sz); [|by apply keeps_ret].
    eapply keeps_bind; [by eapply keeps_read|]. intros [e|bs] Hr.
    + destruct (e =? EINTR); [by apply IH | by apply keeps_ret].
    + destruct bs as [|c bs]; [by apply keeps_ret|]. destruct Hr as [Hn Hbs].
      apply IH; [rewrite length_app; lia | by apply Forall_app].
Qed.

Lemma keeps_write_loop h f p n data :
  g_fds h !! f = Some (p, true) -> holds_write h p -> keeps (write_loop n f data) h (fun _ => True).
Proof.
  intros Hf Hh. revert data. induction n as [|n IH]; intros [|c data]; simpl;
    try (by apply keeps_ret); try apply keeps_fuel.
  eapply keeps_bind; [by eapply keeps_write|].
  intros [e|k] _; [|apply IH]. destruct (e =? EINTR); [apply IH | by apply keeps_ret].
Qed.

Lemma holds_write_holds h p : holds_write h p -> holds h p.
Proof. intros [l Hl]. by exists l, true. Qed.

Lemma keeps_close_ret {A} h f p w (a : A) en (P : A -> Prop) :
  f <> sock -> g_fds h !! f = None -> holds h p -> P a ->
  wpm false (discipline sock) (close f;; mret a) en (with_fd f p w h) (fun _ a' h' => h' = h /\ P a').
Proof. intros. apply wpm_bind. apply wpm_close; [done..|]. intros. by apply wpm_ret. Qed.

Lemma keeps_close_errno {A} h f p w e (a : A) en (P : A -> Prop) :
  f <> sock -> g_fds h !! f = None -> holds h p -> P a ->
  wpm false (discipline sock) (close f;; set_errno e;; mret a) en (with_fd f p w h)
    (fun _ a' h' => h' = h /\ P a').
Proof.
  intros. apply wpm_bind. apply wpm_close; [done..|]. intros.
  apply wpm_bind, wpm_set_errno. by apply wpm_ret.
Qed.

Lemma keeps_read_all_file h p :
  g_sock h = true -> holds h p ->
  keeps (read_all_file fuel p) h
    (fun r => match r with None => True | Some b => len b <= MAX_FILE_SIZE /\ Forall is_byte b end).
Proof.
  intros Hs Hh en. apply wpm_bind. apply wpm_open; [done|done|intros e; by apply wpm_ret|].
  intros f Hf Hnone. set (h1 := with_fd _ _ _ h).
  assert (g_fds h1 !! f = Some (p, false)) as Hl by apply lookup_insert_eq.
  assert (holds h1 p) as Hh1 by done.
  apply wpm_bind. eapply (wpm_keeps _ _ _ (fun _ => True)).
  { apply keeps_sys; [by exists p, false|]. by intros r h' ->. }
  intros en1 [e|st] _; [by apply keeps_close_ret|].
  destruct ((_ <? 0) || _) eqn:Hsz; [by apply keeps_close_errno|].
  apply wpm_bind. eapply wpm_keeps; [apply keeps_malloc|].
  intros en2 [] _; [|by apply keeps_close_errno]. simpl.
  apply wpm_bind. eapply wpm_keeps; [eapply keeps_read_loop; [done..| |constructor]|].
  { simpl. lia. }
  intros en3 [b|] Hb; apply keeps_close_ret; [done..| |done|done|done|done].
  destruct Hb. split; [lia|done].
Qed.

Lemma keeps_write_all_file h p data :
  p <> [] -> g_sock h = true -> holds_write h p -> keeps (write_all_file fuel p data) h (fun _ => True).
Proof.
  intros Hp Hs Hh en. pose proof (holds_write_holds _ _ Hh).
  apply wpm_bind. eapply wpm_keeps; [by apply keeps_path_ensure_parent_dirs|]. intros en1 r _.
  destruct (negb _); [by apply wpm_ret|].
  apply wpm_bind. apply wpm_open; [done|done|intros e; by apply wpm_ret|].
  intros f Hf Hnone. set (h1 := with_fd _ _ _ h).
  assert (g_fds h1 !! f = Some (p, true)) as Hl by apply lookup_insert_eq.
  assert (holds_write h1 p) as Hh1 by done.
  apply wpm_bind. eapply wpm_keeps; [by eapply keeps_write_loop|].
  intros en2 [] _; [|by apply keeps_close_ret]. simpl.
  apply wpm_bind. eapply wpm_keeps; [by eapply keeps_fsync|].
  intros en3 [e|[]] _; [by apply keeps_close_ret|].
  apply wpm_bind. apply wpm_close; [done..|]. intros en4 [|] ; by apply wpm_ret.
Qed.

(** * The log *)

(** No lock, no mutex, no stream: where [logger_log] may be called. *)
Definition unlocked (h : gst) : Prop :=
  g_snap h = None /\ g_mutex h = None /\ g_held h = [] /\ g_fps h = ∅.

Lemma keeps_logger_log lp h client cmd target status detail :
  unlocked h -> keeps (logger_log lp client cmd target status detail) h (fun _ => True).
Proof.
  intros (Hsn & Hmu & Hhe & Hfp) en. unfold logger_log.
  apply wpm_bind, wpm_call; [done|]. intros ts h0 Hh0. simpl in Hh0. subst h0.
  apply wpm_bind, wpm_call; [done|]. intros ? h1 Hh1. simpl in Hh1.
  assert (set_snap None (set_mutex None h1) = h) as Hback.
  { rewrite Hh1. rewrite (gst_eta h) at 2. unfold set_snap, set_mutex. simpl. by rewrite Hsn, Hmu. }
  assert (pre sock (EMutexUnlock LogMutex) h1) as Hpre1.
  { rewrite Hh1. split; [done|]. intros _. simpl. rewrite Hfp. apply map_Forall_empty. }
  apply wpm_bind, wpm_sys; [by rewrite Hh1|]. intros [e|fp] h2 Hh2; simpl in Hh2 |- *.
  - apply wpm_call; [by rewrite Hh2; apply Hpre1|]. intros ? h3 Hh3. simpl in Hh3. by rewrite Hh3, Hh2.
  - destruct Hh2 as [Hnone ->].
    apply wpm_bind, wpm_call; [split; [apply lookup_insert_eq|by rewrite Hh1]|]. intros ? h3 ->.
    apply wpm_bind, wpm_call; [simpl; by rewrite lookup_insert_eq|]. intros ? h4 Hh4. simpl in Hh4.
    assert (h4 = h1) as ->.
    { rewrite Hh4. unfold set_fps. simpl. rewrite delete_insert_id by done. symmetry. apply gst_eta. }
    apply wpm_call; [apply Hpre1|]. intros ? h5 Hh5. simpl in Hh5. by rewrite Hh5.
Qed.

(** * The lock registry *)

Lemma find_entry_Some m p x :
  wf_registry m -> no_nul p -> find_entry m p = Some x ->
  fe_path x = p /\ map_of m !! fe_lock x = Some p.
Proof.
  intros (Hl & _ & Hs) Hp Hf.
  assert (x ∈ m /\ strcmp (fe_path x) p = 0) as [Hx Hc].
  { clear Hl Hs. induction m as [|y m IH]; simpl in Hf; [done|].
    destruct (Z.eqb_spec (strcmp (fe_path y) p) 0); simplify_eq; [set_solver|].
    destruct (IH Hf). set_solver. }
  rewrite Forall_forall in Hs. apply strcmp_eq in Hc as <-; [|by apply c_string_no_nul, Hs|done].
  split; [done|]. apply elem_of_list_to_map.
  - by rewrite <- list_fmap_compose.
  - apply list_elem_of_fmap. by exists x.
Qed.

Lemma find_entry_None m p : find_entry m p = None -> p ∉ fe_path <$> m.
Proof.
  induction m as [|y m IH]; simpl; [set_solver|].
  destruct (Z.eqb_spec (strcmp (fe_path y) p) 0) as [|Hne]; [done|].
  intros Hf [->|Hin]%elem_of_cons; [by rewrite strcmp_refl in Hne|by apply IH].
Qed.

(** The state after a search of the registry: only the known locks changed. *)
Definition looked (h h' : gst) : Prop := exists k, h' = set_known k h.

(** The known locks include those held. *)
Definition coherent (h : gst) : Prop :=
  forall l p w, (l, p, w) ∈ g_held h -> g_known h !! l = Some p.

Definition got_entry (h : gst) (p : bytes) (r : option file_lock_entry) (h' : gst) : Prop :=
  looked h h' /\
  match r with None => True | Some x => coherent h' /\ g_known h' !! fe_lock x = Some p end.

Lemma wpm_unlock_map {A} (a : A) h h1 k en Q :
  g_snap h = None -> g_mutex h = None ->
  g_mutex h1 = Some MapMutex -> set_snap None (set_mutex None h1) = set_known k h ->
  Q en a (set_known k h) ->
  wpm false (discipline sock) (call (EMutexUnlock MapMutex);; mret a) en h1 Q.
Proof.
  intros Hsn Hmu Hm Hback HQ. apply wpm_bind, wpm_call; [by split|].
  intros ? h2 Hh2. simpl in Hh2. apply wpm_ret. by rewrite Hh2, Hback.
Qed.

Lemma wpm_get_or_create_lock h p en :
  c_string p -> g_snap h = None -> g_mutex h = None ->
  wpm false (discipline sock) (get_or_create_lock p) en h (fun _ r h' => got_entry h p r h').
Proof.
  intros Hp Hsn Hmu. unfold get_or_create_lock.
  apply wpm_bind, wpm_call; [done|]. intros ? h1 Hh1. simpl in Hh1.
  apply wpm_bind, wpm_call; [by rewrite Hh1|]. intros m h2 (Hwf & Hco & Hh2).
  rewrite Hh1 in Hco; simpl in Hco.
  assert (g_mutex h2 = Some MapMutex) as Hmu2 by (by rewrite Hh2, Hh1).
  assert (set_snap None (set_mutex None h2) = set_known (map_of m) h) as Hback.
  { rewrite Hh2, Hh1. unfold set_snap, set_mutex, set_known. simpl. by rewrite Hsn, Hmu. }
  destruct (find_entry m p) as [x|] eqn:Hf.
  { eapply wpm_unlock_map; [done..|]. split; [by eexists|]. split; [exact Hco|].
    by apply find_entry_Some; [|apply c_string_no_nul|]. }
  assert (forall en', wpm false (discipline sock) (call (EMutexUnlock MapMutex);; mret None) en' h2
            (fun _ r h' => got_entry h p r h')) as Hfail.
  { intros. eapply wpm_unlock_map; [done..|]. by split; [eexists|]. }
  apply wpm_bind. eapply wpm_keeps; [apply keeps_malloc|]. intros en1 [] _; [|apply Hfail]. simpl.
  apply wpm_bind. eapply wpm_keeps; [apply keeps_malloc|]. intros en2 [] _; [|apply Hfail]. simpl.
  apply wpm_bind, wpm_call; [done|]. intros [] h3 Hh3; simpl in Hh3; subst h3; [|apply Hfail]. simpl.
  apply wpm_bind, wpm_call.
  { split; [done|]. split; [done|]. exists m. rewrite Hh2. split; [done|]. by apply find_entry_None. }
  intros l h4 (Hfresh & m' & _ & Hh4). rewrite Hh2 in Hfresh; simpl in Hfresh.
  eapply (wpm_unlock_map _ h _ (<[l:=p]> (map_of m))); [done|done|by rewrite Hh4| |].
  - rewrite Hh4, Hh2, Hh1. unfold set_snap, set_mutex, set_known. simpl. by rewrite Hsn, Hmu.
  - split; [by eexists|]. split; [|apply lookup_insert_eq].
    intros l' q w Hin. specialize (Hco l' q w Hin). simpl.
    rewrite lookup_insert_ne by congruence. done.
Qed.

(** After an attempt to lock [p]: the lock is held on success. *)
Definition got_lock (w : bool) (h : gst) (p : bytes) (r : option Z) (h' : gst) : Prop :=
  match r with
  | None => looked h h'
  | Some l => exists k, h' = set_held ((l, p, w) :: g_held h) (set_known k h) /\ coherent h'
  end.

Lemma lock_post_got w h p x r h1 h2 :
  got_entry h p (Some x) h1 -> lock_post w (fe_lock x) r h1 h2 ->
  got_lock w h p (if negb (r =? 0) then None else Some (fe_lock x)) h2.
Proof.
  intros [[k ->] [Hco Hk]] Hl. unfold lock_post in Hl. destruct (r =? 0); simpl; [|by eexists].
  destruct Hl as (q & Hq & ->). simpl in *. exists k. assert (q = p) as -> by congruence.
  split; [done|]. intros l' q' w' [[= -> -> ->]|Hin]%elem_of_cons; [done|]. by eapply Hco.
Qed.

Lemma wpm_acquire_read h p en :
  c_string p -> g_snap h = None -> g_mutex h = None -> above h p ->
  wpm false (discipline sock) (locks_acquire_read p) en h (fun _ r h' => got_lock false h p r h').
Proof.
  intros Hp Hsn Hmu Ha. apply wpm_bind. eapply wpm_mono; [by apply wpm_get_or_create_lock|].
  intros en1 [x|] h1 Hg; simpl in Hg; [|apply wpm_ret; apply Hg].
  pose proof Hg as [[k ->] [_ Hk]]. apply wpm_bind, wpm_call; [split; [done|]; by exists p|].
  intros r h2 Hr. apply wpm_ret. by eapply lock_post_got.
Qed.

Lemma wpm_acquire_write h p en :
  c_string p -> g_snap h = None -> g_mutex h = None -> above h p ->
  wpm false (discipline sock) (locks_acquire_write p) en h (fun _ r h' => got_lock true h p r h').
Proof.
  intros Hp Hsn Hmu Ha. apply wpm_bind. eapply wpm_mono; [by apply wpm_get_or_create_lock|].
  intros en1 [x|] h1 Hg; simpl in Hg; [|apply wpm_ret; apply Hg].
  pose proof Hg as [[k ->] [_ Hk]]. apply wpm_bind, wpm_call; [split; [done|]; by exists p|].
  intros r h2 Hr. apply wpm_ret. by eapply lock_post_got.
Qed.

(** [h'] is [h] with the locks [held]. *)
Definition holding (h : gst) (held : list (Z * bytes * bool)) (h' : gst) : Prop :=
  exists k, h' = set_held held (set_known k h).

Lemma holding_nil h h' : g_held h = [] -> holding h [] h' -> looked h h'.
Proof.
  intros Hh [k ->]. exists k. unfold set_held, set_known. simpl. by rewrite Hh.
Qed.

Definition got_two (h : gst) (pa pb : bytes) (r : option (Z * Z * bool)) (h' : gst) : Prop :=
  match r with
  | None => looked h h'
  | Some (la, lb, true) => pa = pb /\ holding h [(la, pa, true)] h'
  | Some (la, lb, false) =>
      la <> lb /\ exists held, held ≡ₚ [(la, pa, true); (lb, pb, true)] /\ holding h held h'
  end.

Lemma wpm_unlock h held held' l p w h1 en (Q : Z -> unit -> gst -> Prop) :
  g_fds h = ∅ -> holding h held h1 -> (l, p, w) ∈ held ->
  filter (fun x => x.1.1 <> l) held = held' ->
  (forall h2, holding h held' h2 -> Q en tt h2) ->
  wpm false (discipline sock) (call (EUnlock l)) en h1 Q.
Proof.
  intros Hfds [k ->] Hin Hfil HQ. apply wpm_call.
  - exists p, w. split; [done|]. simpl. rewrite Hfds. apply map_Forall_empty.
  - intros [] h2 ->. apply HQ. exists k. by rewrite <- Hfil.
Qed.

(** Acquiring two different locks in path order, and giving the first back
    when the second fails. *)
Lemma wpm_acquire_in_order h p1 p2 (K : Z * Z -> Z * Z * bool) en :
  c_string p1 -> c_string p2 -> strcmp p1 p2 < 0 -> unlocked h -> g_fds h = ∅ ->
  wpm false (discipline sock)
    (l1 ← locks_acquire_write p1;
     match l1 with
     | None => mret None
     | Some l1 =>
         l2 ← locks_acquire_write p2;
         match l2 with
         | None => call (EUnlock l1);; mret None
         | Some l2 => mret (Some (K (l1, l2)))
         end
     end) en h
    (fun _ r h' =>
       looked h h' /\ r = None \/
       exists l1 l2, r = Some (K (l1, l2)) /\ l1 <> l2 /\
                     holding h [(l2, p2, true); (l1, p1, true)] h').
Proof.
  intros Hp1 Hp2 Hlt (Hsn & Hmu & Hhe & _) Hfds.
  assert (above h p1) as Ha by (unfold above; rewrite Hhe; constructor).
  apply wpm_bind. eapply wpm_mono; [by apply wpm_acquire_write|].
  intros en1 [l1|] h1 Hg; [|apply wpm_ret; by left]. destruct Hg as (k & Hh1 & Hco).
  rewrite Hhe in Hh1.
  apply wpm_bind. eapply wpm_mono.
  { apply wpm_acquire_write; [done|by rewrite Hh1..|]. rewrite Hh1. by repeat constructor. }
  intros en2 [l2|] h2 Hg2.
  - destruct Hg2 as (k2 & Hh2 & Hco2). apply wpm_ret. right. exists l1, l2. split; [done|].
    assert (g_held h2 = [(l2, p2, true); (l1, p1, true)]) as Hheld by (by rewrite Hh2, Hh1).
    split; [|exists k2; by rewrite Hh2, Hh1].
    intros ->. unfold coherent in Hco2. rewrite Hheld in Hco2.
    pose proof (Hco2 l2 p2 true ltac:(set_solver)) as E2.
    pose proof (Hco2 l2 p1 true ltac:(set_solver)) as E1.
    assert (p1 = p2) as -> by congruence. rewrite strcmp_refl in Hlt. lia.
  - destruct Hg2 as [k2 Hh2]. apply wpm_bind.
    eapply (wpm_unlock h [(l1, p1, true)] [] l1 p1 true);
      [done|by exists k2; rewrite Hh2, Hh1|set_solver| |].
    { rewrite filter_cons_False; [done|]. simpl. tauto. }
    intros h3 Hh3. apply wpm_ret. left. split; [by apply holding_nil|done].
Qed.

Lemma wpm_acquire_two_write h pa pb en :
  c_string pa -> c_string pb -> unlocked h -> g_fds h = ∅ ->
  wpm false (discipline sock) (locks_acquire_two_write pa pb) en h
    (fun _ r h' => got_two h pa pb r h').
Proof.
  intros Ha Hb Hu Hfds. pose proof Hu as (Hsn & Hmu & Hhe & _). unfold locks_acquire_two_write.
  destruct (Z.eqb_spec (strcmp pa pb) 0) as [Heq|Hne].
  - apply strcmp_eq in Heq; [|by apply c_string_no_nul..]. subst pb.
    apply wpm_bind. eapply wpm_mono.
    { apply wpm_acquire_write; [done..|]. unfold above. rewrite Hhe. constructor. }
    intros en1 [l|] h1 Hg; apply wpm_ret; [|done].
    destruct Hg as (k & -> & _). split; [done|]. exists k. by rewrite Hhe.
  - cbv zeta. destruct (Z.ltb_spec 0 (strcmp pa pb)) as [Hgt|Hle].
    + rewrite strcmp_antisym in Hgt.
      eapply wpm_mono.
      { apply (wpm_acquire_in_order h pb pa (fun ls => (ls.2, ls.1, false)));
          [done|done|lia|done|done]. }
      intros en1 r h1 [[Hl ->]|(l1 & l2 & -> & Hll & Hh)]; [done|]. simpl.
      split; [done|]. eexists. split; [|exact Hh]. done.
    + eapply wpm_mono.
      { apply (wpm_acquire_in_order h pa pb (fun ls => (ls.1, ls.2, false)));
          [done|done|lia|done|done]. }
      intros en1 r h1 [[Hl ->]|(l1 & l2 & -> & Hll & Hh)]; [done|]. simpl.
      split; [done|]. eexists. split; [|exact Hh]. apply perm_swap.
Qed.

Lemma wpm_release_two h pa pb ls h1 en (Q : Z -> unit -> gst -> Prop) :
  g_held h = [] -> g_fds h = ∅ -> got_two h pa pb (Some ls) h1 ->
  (forall h2, looked h h2 -> Q en tt h2) ->
  wpm false (discipline sock) (locks_release_two ls) en h1 Q.
Proof.
  intros Hhe Hfds Hg HQ. destruct ls as [[la lb] same]. unfold locks_release_two.
  destruct same; simpl in Hg.
  - destruct Hg as [-> Hh].
    eapply (wpm_unlock h [(la, pb, true)] [] la pb true); [done..|set_solver| |].
    { rewrite filter_cons_False; [done|]. simpl. tauto. }
    intros h2 Hh2. by apply HQ, holding_nil.
  - destruct Hg as (Hne & held & Hperm & Hh). apply wpm_bind.
    eapply (wpm_unlock h held [(lb, pb, true)] la pa true); [done..| | |].
    { rewrite Hperm. set_solver. }
    { apply Permutation_singleton_r. rewrite Hperm.
      rewrite filter_cons_False by (simpl; tauto). rewrite filter_cons_True by (simpl; congruence).
      done. }
    intros h2 Hh2.
    eapply (wpm_unlock h [(lb, pb, true)] [] lb pb true); [done..|set_solver| |].
    { rewrite filter_cons_False; [done|]. simpl. tauto. }
    intros h3 Hh3. by apply HQ, holding_nil.
Qed.

Lemma got_two_holds h pa pb ls h1 :
  got_two h pa pb (Some ls) h1 -> holds_write h1 pa /\ holds_write h1 pb.
Proof.
  destruct ls as [[la lb] []]; simpl.
  - intros [-> [k ->]]. split; exists la; set_solver.
  - intros (_ & held & Hperm & k & ->). split; [exists la|exists lb]; simpl; rewrite Hperm; set_solver.
Qed.

(** [h] is where a handler starts and ends: no locks, no files, socket open. *)
Definition ready (h : gst) : Prop := idle h /\ g_sock h = true.

Lemma ready_looked h h' : ready h -> looked h h' -> ready h'.
Proof. by intros Hr [k ->]. Qed.

Lemma ready_unlocked h : ready h -> unlocked h.
Proof. intros [(? & ? & ? & _ & ?) _]. done. Qed.

(** A handler: from a ready state to a ready state. *)
Definition serves {A} (m : M A) : Prop :=
  forall en h, ready h -> wpm false (discipline sock) m en h (fun _ _ h' => ready h').

Lemma serves_keeps {A} (m : M A) P : (forall h, ready h -> keeps m h P) -> serves m.
Proof. intros Hm en h Hh. eapply wpm_keeps; [by apply Hm|]. done. Qed.

Lemma serves_bind {A B} (m : M A) (f : A -> M B) :
  serves m -> (forall a, serves (f a)) -> serves (m ≫= f).
Proof. intros Hm Hf en h Hh. apply wpm_bind. eapply wpm_mono; [by apply Hm|]. intros. by apply Hf. Qed.

Lemma serves_ret {A} (a : A) : serves (mret a).
Proof. intros en h Hh. by apply wpm_ret. Qed.

End proofs.

End Discipline.
