(* ===== verification/SrvSafety.v ===== *)
(** Every command of the file server respects the lock and descriptor
    discipline of [SrvDiscipline] and stays inside its buffers, whatever the
    operating system answers: the handlers one by one, dispatch, and the loop
    of a client thread. *)

From S2P Require Import Prelude Libc Rle SrvEvents SrvPath SrvResp SrvLocks SrvFileOps SrvServer SrvDiscipline.
Import Libc Path Resp Locks Logger FileOps Server Discipline.

Create HintDb serves discriminated.

(** Follow the code of a part that runs with nothing held. *)
Ltac serve_step :=
  match goal with
  | |- serves _ (mret _) => apply serves_ret
  | |- serves _ (_ ≫= _) => apply serves_bind; [|intros ?]
  | |- serves _ (if ?b then _ else _) => destruct b
  | |- serves _ (let '(_, _) := ?x in _) => destruct x
  | |- serves _ (match ?x with _ => _ end) => destruct x
  | |- serves _ _ => solve [eauto with serves]
  end.
Ltac serve := repeat serve_step.

Module Safety.
Section safety.
Context (sock : Z) (fuel : nat) (lp : bytes).

Notation WP := (wpm false (discipline sock)).

Lemma serves_get_errno : serves sock get_errno.
Proof. eapply serves_keeps. intros. apply keeps_get_errno. Qed.

Lemma serves_set_errno e : serves sock (set_errno e).
Proof. eapply serves_keeps. intros. apply keeps_set_errno. Qed.

Lemma serves_strerror e : serves sock (strerror e).
Proof. eapply serves_keeps. intros. apply keeps_strerror. Qed.

Lemma serves_malloc n : serves sock (malloc n).
Proof. eapply serves_keeps. intros. apply keeps_malloc. Qed.

Lemma serves_log client cmd target status detail :
  serves sock (log lp client cmd target status detail).
Proof. eapply serves_keeps. intros h Hh. by apply keeps_logger_log, (ready_unlocked h). Qed.

Lemma serves_reply_line size text : serves sock (reply_line fuel sock size text).
Proof. eapply serves_keeps. intros h [_ Hh]. by apply keeps_reply_line. Qed.

Lemma serves_reply_simple msg : serves sock (resp_reply_simple fuel sock msg).
Proof. apply serves_reply_line. Qed.

Lemma serves_reply_error msg : serves sock (resp_reply_error fuel sock msg).
Proof. apply serves_reply_line. Qed.

Lemma serves_reply_integer n : serves sock (resp_reply_integer fuel sock n).
Proof. apply serves_reply_line. Qed.

Lemma serves_reply_null_bulk : serves sock (resp_reply_null_bulk fuel sock).
Proof. eapply serves_keeps. intros h [_ Hh]. by apply keeps_send_all. Qed.

Lemma serves_reply_bulk data : serves sock (resp_reply_bulk fuel sock data).
Proof. eapply serves_keeps. intros h [_ Hh]. by apply keeps_reply_bulk. Qed.

#[local] Hint Resolve serves_get_errno serves_set_errno serves_strerror serves_malloc serves_log
  serves_reply_simple serves_reply_error serves_reply_integer serves_reply_null_bulk
  serves_reply_bulk : serves.

Lemma serves_fail_with client cmd target detail msg :
  serves sock (fail_with fuel lp sock client cmd target detail msg).
Proof. unfold fail_with. serve. Qed.

Lemma serves_fail_errno client cmd target e :
  serves sock (fail_errno fuel lp sock client cmd target e).
Proof. unfold fail_errno. serve. Qed.

#[local] Hint Resolve serves_fail_with serves_fail_errno : serves.

(** * Single-file commands *)

(** The state between acquiring the lock of [p] and releasing it. *)
Definition locked (h : gst) (l : Z) (p : bytes) (w : bool) (h' : gst) : Prop :=
  ready h /\ holding h [(l, p, w)] h'.

Lemma locked_holds h l p w h' : locked h l p w h' -> holds h' p.
Proof. intros [_ [k ->]]. exists l, w. set_solver. Qed.

Lemma locked_holds_write h l p h' : locked h l p true h' -> holds_write h' p.
Proof. intros [_ [k ->]]. exists l. set_solver. Qed.

Lemma locked_sock h l p w h' : locked h l p w h' -> g_sock h' = true.
Proof. by intros [[_ Hs] [k ->]]. Qed.

Lemma wpm_release h l p w h1 en (Q : Z -> unit -> gst -> Prop) :
  locked h l p w h1 -> (forall h2, ready h2 -> Q en tt h2) -> WP (locks_release l) en h1 Q.
Proof.
  intros [Hr Hh] HQ. pose proof Hr as [(? & ? & Hhe & Hfds & ?) ?].
  eapply (wpm_unlock sock h [(l, p, w)] [] l p w); [done..|set_solver| |].
  { rewrite filter_cons_False; [done|]. simpl. tauto. }
  intros h2 Hh2. apply HQ. eapply ready_looked; [done|]. by apply holding_nil.
Qed.

(** Release, then a part that runs with nothing held. *)
Lemma wpm_release_serves {A} h l p w h1 en (m : M A) :
  locked h l p w h1 -> serves sock m ->
  WP (locks_release l;; m) en h1 (fun _ _ h' => ready h').
Proof. intros Hl Hm. apply wpm_bind. eapply wpm_release; [done|]. intros h2 Hh2. by apply Hm. Qed.

Lemma path_build_c_string dir rel full :
  c_string dir -> c_string rel -> path_build dir rel PATH_MAX = Some full ->
  c_string full /\ full <> [].
Proof.
  intros Hd Hr Hb. apply path_build_Some in Hb as (_ & -> & _); [|unfold PATH_MAX, INT_MAX; lia].
  split; [|by destruct dir]. repeat (apply Forall_app; split; [done|]).
  constructor; [unfold SLASH; lia|done].
Qed.

Lemma ready_above h p : ready h -> above h p.
Proof. intros [(_ & _ & Hhe & _) _]. unfold above. rewrite Hhe. constructor. Qed.

Lemma got_lock_locked w h p l h1 :
  ready h -> got_lock w h p (Some l) h1 -> locked h l p w h1.
Proof.
  intros Hr (k & -> & _). split; [done|]. exists k. by destruct Hr as [(_ & _ & -> & _) _].
Qed.

(** The read-locking handlers: a failure to build or lock the path ends in
    [fail]; else the body runs under the read lock. *)
Lemma serves_with_read {A} dir rel (fail1 fail2 : M A) (body : bytes -> Z -> M A) :
  c_string dir -> c_string rel -> serves sock fail1 -> serves sock fail2 ->
  (forall h full l h1 en, c_string full -> full <> [] -> locked h l full false h1 ->
     WP (body full l) en h1 (fun _ _ h' => ready h')) ->
  serves sock (match path_build dir rel PATH_MAX with
               | None => fail1
               | Some full => lock ← locks_acquire_read full;
                   match lock with None => fail2 | Some lock => body full lock end
               end).
Proof.
  intros Hd Hr Hf1 Hf2 Hbody. destruct (path_build _ _ _) as [full|] eqn:Hb; [|done].
  destruct (path_build_c_string _ _ _ Hd Hr Hb). intros en h Hh.
  pose proof Hh as [(? & ? & ? & ? & ?) ?].
  apply wpm_bind. eapply wpm_mono; [apply wpm_acquire_read; [done..|by apply ready_above]|].
  intros en1 [l|] h1 Hg.
  - eapply Hbody; [done..|]. by apply got_lock_locked.
  - apply Hf2. by eapply ready_looked.
Qed.

Lemma serves_with_write {A} dir rel (fail1 fail2 : M A) (body : bytes -> Z -> M A) :
  c_string dir -> c_string rel -> serves sock fail1 -> serves sock fail2 ->
  (forall h full l h1 en, c_string full -> full <> [] -> locked h l full true h1 ->
     WP (body full l) en h1 (fun _ _ h' => ready h')) ->
  serves sock (match path_build dir rel PATH_MAX with
               | None => fail1
               | Some full => lock ← locks_acquire_write full;
                   match lock with None => fail2 | Some lock => body full lock end
               end).
Proof.
  intros Hd Hr Hf1 Hf2 Hbody. destruct (path_build _ _ _) as [full|] eqn:Hb; [|done].
  destruct (path_build_c_string _ _ _ Hd Hr Hb). intros en h Hh.
  pose proof Hh as [(? & ? & ? & ? & ?) ?].
  apply wpm_bind. eapply wpm_mono; [apply wpm_acquire_write; [done..|by apply ready_above]|].
  intros en1 [l|] h1 Hg.
  - eapply Hbody; [done..|]. by apply got_lock_locked.
  - apply Hf2. by eapply ready_looked.
Qed.

Lemma serves_getfile dir client rel :
  c_string dir -> c_string rel -> serves sock (op_getfile fuel lp sock dir client rel).
Proof.
  intros Hd Hr. apply serves_with_read; [done|done|serve|serve|].
  intros h full l h1 en Hs Hne Hl. apply wpm_bind.
  eapply wpm_keeps; [by eapply keeps_read_all_file; [eapply locked_sock|eapply locked_holds]|].
  intros en1 [buf|] _.
  - eapply wpm_release_serves; [done|]. serve.
  - apply wpm_bind, wpm_get_errno. eapply wpm_release_serves; [done|]. serve.
Qed.

Lemma serves_setfile dir client rel data :
  c_string dir -> c_string rel -> serves sock (op_setfile fuel lp sock dir client rel data).
Proof.
  intros Hd Hr. apply serves_with_write; [done|done|serve|serve|].
  intros h full l h1 en Hs Hne Hl. apply wpm_bind.
  eapply wpm_keeps; [by eapply keeps_write_all_file; [done|eapply locked_sock|eapply locked_holds_write]|].
  intros en1 r _. destruct (negb _).
  - apply wpm_bind, wpm_get_errno. eapply wpm_release_serves; [done|]. serve.
  - eapply wpm_release_serves; [done|]. serve.
Qed.

Lemma serves_delfile dir client rel :
  c_string dir -> c_string rel -> serves sock (op_delfile fuel lp sock dir client rel).
Proof.
  intros Hd Hr. apply serves_with_write; [done|done|serve|serve|].
  intros h full l h1 en Hs Hne Hl. apply wpm_bind.
  eapply (wpm_keeps _ _ _ _ (fun _ => True)).
  { apply keeps_sys; [by eapply locked_holds_write|]. by intros r h' ->. }
  intros en1 [e|[]] _; (eapply wpm_release_serves; [done|]; serve).
Qed.

Lemma serves_statfile dir client rel :
  c_string dir -> c_string rel -> serves sock (op_statfile fuel lp sock dir client rel).
Proof.
  intros Hd Hr. apply serves_with_read; [done|done|serve|serve|].
  intros h full l h1 en Hs Hne Hl. apply wpm_bind.
  eapply (wpm_keeps _ _ _ _ (fun _ => True)).
  { apply keeps_sys; [by eapply locked_holds|]. by intros r h' ->. }
  intros en1 [e|st] _; (eapply wpm_release_serves; [done|]; serve).
Qed.

(** * Two-file commands *)

Definition locked2 (h : gst) (pa pb : bytes) (ls : Z * Z * bool) (h' : gst) : Prop :=
  ready h /\ got_two h pa pb (Some ls) h'.

Lemma locked2_holds h pa pb ls h' :
  locked2 h pa pb ls h' -> holds_write h' pa /\ holds_write h' pb.
Proof. intros [_ Hg]. by eapply got_two_holds. Qed.

Lemma locked2_sock h pa pb ls h' : locked2 h pa pb ls h' -> g_sock h' = true.
Proof.
  intros [[_ Hs] Hg]. destruct ls as [[la lb] []].
  - by destruct Hg as [_ [k ->]].
  - by destruct Hg as (_ & held & _ & k & ->).
Qed.

Lemma wpm_release_two_serves {A} h pa pb ls h1 en (m : M A) :
  locked2 h pa pb ls h1 -> serves sock m ->
  WP (locks_release_two ls;; m) en h1 (fun _ _ h' => ready h').
Proof.
  intros [Hr Hg] Hm. pose proof Hr as [(? & ? & Hhe & Hfds & ?) ?].
  apply wpm_bind. eapply wpm_release_two; [done..|].
  intros h2 Hh2. apply Hm. by eapply ready_looked.
Qed.

Lemma serves_with_two {A} dir src dst (fail1 fail2 : M A) (body : bytes -> bytes -> Z * Z * bool -> M A) :
  c_string dir -> c_string src -> c_string dst -> serves sock fail1 -> serves sock fail2 ->
  (forall h s d ls h1 en, s <> [] -> d <> [] -> locked2 h s d ls h1 ->
     WP (body s d ls) en h1 (fun _ _ h' => ready h')) ->
  serves sock (match build_two dir src dst with
               | None => fail1
               | Some (s, d) => locks ← locks_acquire_two_write s d;
                   match locks with None => fail2 | Some locks => body s d locks end
               end).
Proof.
  intros Hd Hs Ht Hf1 Hf2 Hbody. unfold build_two.
  destruct (path_build dir src _) as [s|] eqn:Hbs; [|done].
  destruct (path_build dir dst _) as [d|] eqn:Hbd; [|done].
  destruct (path_build_c_string _ _ _ Hd Hs Hbs), (path_build_c_string _ _ _ Hd Ht Hbd).
  intros en h Hh. pose proof Hh as [(? & ? & ? & ? & ?) ?].
  apply wpm_bind. eapply wpm_mono; [by apply wpm_acquire_two_write|].
  intros en1 [ls|] h1 Hg; [by eapply Hbody|]. apply Hf2. by eapply ready_looked.
Qed.

Lemma serves_renamefile dir client src dst :
  c_string dir -> c_string src -> c_string dst ->
  serves sock (op_renamefile fuel lp sock dir client src dst).
Proof.
  intros Hd Hs Ht. apply serves_with_two; [done..|serve|serve|].
  intros h s d ls h1 en Hsne Hdne Hl. apply wpm_bind.
  eapply wpm_keeps; [by apply keeps_path_ensure_parent_dirs|]. intros en1 r _. destruct (negb _).
  - apply wpm_bind, wpm_get_errno. eapply wpm_release_two_serves; [done|]. serve.
  - apply wpm_bind. eapply (wpm_keeps _ _ _ _ (fun _ => True)).
    { apply keeps_sys; [by eapply locked2_holds|]. by intros ? h' ->. }
    intros en2 [e|[]] _; (eapply wpm_release_two_serves; [done|]; serve).
Qed.

(** Closing the first of two open files. *)
Lemma wpm_close_first h f p w f2 p2 w2 en (Q : Z -> res unit -> gst -> Prop) :
  f <> sock -> g_fds h !! f = None -> f <> f2 -> holds h p ->
  (forall en' r, Q en' r (with_fd f2 p2 w2 h)) ->
  WP (close f) en (with_fd f2 p2 w2 (with_fd f p w h)) Q.
Proof.
  intros Hf Hnone Hne Hh HQ.
  assert (with_fd f2 p2 w2 (with_fd f p w h) = with_fd f p w (with_fd f2 p2 w2 h)) as ->.
  { unfold with_fd, set_fds. simpl. by rewrite insert_insert_ne. }
  apply wpm_close; [done| |done|done]. simpl. by rewrite lookup_insert_ne.
Qed.

(** Close both files and release both locks. *)
Lemma wpm_close_both {A} h0 s d ls h f1 w1 f2 w2 en (m : M A) :
  locked2 h0 s d ls h -> f1 <> sock -> f2 <> sock ->
  g_fds h !! f1 = None -> g_fds (with_fd f1 s w1 h) !! f2 = None -> serves sock m ->
  WP (close f1;; close f2;; locks_release_two ls;; m) en
     (with_fd f2 d w2 (with_fd f1 s w1 h)) (fun _ _ h' => ready h').
Proof.
  intros Hl Hf1 Hf2 Hn1 Hn2 Hm. pose proof (locked2_holds _ _ _ _ _ Hl) as [Hs Hd].
  simpl in Hn2. apply lookup_insert_None in Hn2 as [Hn2 Hne].
  apply wpm_bind. apply wpm_close_first; [done|done|done|by apply holds_write_holds|]. intros.
  apply wpm_bind. apply wpm_close; [done|done|by apply holds_write_holds|]. intros.
  by eapply wpm_release_two_serves.
Qed.

Lemma keeps_copy_write h f p n buf :
  g_fds h !! f = Some (p, true) -> holds_write h p ->
  keeps sock (copy_write n f buf) h (fun _ => True).
Proof.
  intros Hf Hh. revert buf. induction n as [|n IH]; intros [|c buf]; simpl;
    try (by apply keeps_ret); try apply keeps_fuel.
  eapply keeps_bind; [by eapply keeps_write|].
  intros [e|k] _; [|apply IH]. destruct (e =? EINTR); [apply IH | by apply keeps_ret].
Qed.

Lemma keeps_copy_loop h f1 p1 w1 f2 p2 n :
  g_fds h !! f1 = Some (p1, w1) -> holds h p1 ->
  g_fds h !! f2 = Some (p2, true) -> holds_write h p2 ->
  keeps sock (copy_loop fuel n f1 f2) h (fun _ => True).
Proof.
  intros Hf1 Hh1 Hf2 Hh2. induction n as [|n IH]; simpl; [apply keeps_fuel|].
  eapply keeps_bind; [by eapply keeps_read|]. intros [e|bs] _.
  - destruct (e =? EINTR); [done | by apply keeps_ret].
  - destruct bs; [by apply keeps_ret|].
    eapply keeps_bind; [by eapply keeps_copy_write|]. intros [e|] _; [by apply keeps_ret|done].
Qed.

Lemma serves_copyfile dir client src dst :
  c_string dir -> c_string src -> c_string dst ->
  serves sock (op_copyfile fuel lp sock dir client src dst).
Proof.
  intros Hd Hs Ht. apply serves_with_two; [done..|serve|serve|].
  intros h s d ls h1 en Hsne Hdne Hl. pose proof (locked2_holds _ _ _ _ _ Hl) as [Hhs Hhd]. pose proof (locked2_sock _ _ _ _ _ Hl) as Hsk.
  apply wpm_bind. apply wpm_open; [by apply holds_write_holds|done| |].
  { intros e. eapply wpm_release_two_serves; [done|]. serve. }
  intros f1 Hf1 Hn1. apply wpm_bind.
  eapply wpm_keeps; [by apply keeps_path_ensure_parent_dirs|]. intros en1 r _. destruct (negb _).
  { apply wpm_bind, wpm_get_errno. apply wpm_bind.
    apply wpm_close; [done|done|by apply holds_write_holds|]. intros.
    eapply wpm_release_two_serves; [done|]. serve. }
  apply wpm_bind. apply wpm_open; [done|done| |].
  { intros e. apply wpm_bind. apply wpm_close; [done|done|by apply holds_write_holds|]. intros.
    eapply wpm_release_two_serves; [done|]. serve. }
  intros f2 Hf2 Hn2. set (h2 := with_fd f2 _ _ _).
  assert (g_fds h2 !! f2 = Some (d, true)) as Hl2 by apply lookup_insert_eq.
  assert (g_fds h2 !! f1 = Some (s, false)) as Hl1.
  { simpl in *. apply lookup_insert_None in Hn2 as [_ Hne].
    rewrite lookup_insert_ne by done. apply lookup_insert_eq. }
  apply wpm_bind. eapply wpm_keeps.
  { eapply keeps_copy_loop; [exact Hl1| |exact Hl2|done]. by apply (holds_write_holds h1). }
  intros en2 [|e|e] _; [|eapply wpm_close_both; [done..|]; serve..].
  apply wpm_bind. eapply wpm_keeps; [by eapply keeps_fsync|].
  intros en3 [e|[]] _; (eapply wpm_close_both; [done..|]; serve).
Qed.

(** The transformation of COMPRESS or DECOMPRESS stays in bounds on a file of
    at most [MAX_FILE_SIZE] bytes. *)
Definition transform_ok (t : bytes -> M (option bytes)) : Prop :=
  forall h b, len b <= MAX_FILE_SIZE -> Forall is_byte b -> keeps sock (t b) h (fun _ => True).

Lemma keeps_rle_result h r : r <> Rle.CUb -> keeps sock (rle_result r) h (fun _ => True).
Proof.
  intros Hr. destruct r; simpl; [by apply keeps_ret| |done].
  eapply keeps_bind; [apply keeps_set_errno|]. intros. by apply keeps_ret.
Qed.

Lemma rle_compress_transform_ok : transform_ok rle_compress.
Proof.
  intros h b Hl Hb. eapply keeps_bind; [apply keeps_malloc|]. intros ok _.
  apply keeps_rle_result. destruct ok.
  - destruct (Rle.rle_compress_ok (fun _ => true) b Hl eq_refl) as (o & -> & _). done.
  - done.
Qed.

Lemma rle_decompress_transform_ok : transform_ok rle_decompress.
Proof.
  intros h b Hl Hb. unfold rle_decompress. destruct (Rle.rle_decompress_check b).
  - eapply keeps_bind; [apply keeps_set_errno|]. intros. by apply keeps_ret.
  - eapply keeps_bind; [apply keeps_malloc|]. intros ok _. apply keeps_rle_result.
    rewrite Rle.rle_decompress_decode by done. unfold Rle.decode. cbv zeta. by repeat case_match.
Qed.

Lemma serves_transform t cmd okmsg dir client src dst :
  transform_ok t -> c_string dir -> c_string src -> c_string dst ->
  serves sock (op_transform fuel lp t cmd okmsg sock dir client src dst).
Proof.
  intros Htr Hd Hs Ht. apply serves_with_two; [done..|serve|serve|].
  intros h s d ls h1 en Hsne Hdne Hl. pose proof (locked2_holds _ _ _ _ _ Hl) as [Hhs Hhd]. pose proof (locked2_sock _ _ _ _ _ Hl) as Hsk.
  apply wpm_bind. eapply wpm_keeps; [by apply keeps_read_all_file; [|apply holds_write_holds]|].
  intros en1 [b|] Hb.
  2: { apply wpm_bind, wpm_get_errno. eapply wpm_release_two_serves; [done|]. serve. }
  apply wpm_bind. eapply wpm_keeps; [by apply Htr; apply Hb|].
  intros en2 [c|] _.
  2: { apply wpm_bind, wpm_get_errno. eapply wpm_release_two_serves; [done|]. serve. }
  apply wpm_bind. eapply wpm_keeps; [by apply keeps_write_all_file|]. intros en3 r _.
  destruct (negb _); [apply wpm_bind, wpm_get_errno|];
    (eapply wpm_release_two_serves; [done|]; serve).
Qed.

(** * LOGS *)

Lemma wpm_fclose_ret {A} h fp (a : A) en (P : A -> Prop) :
  g_fps h !! fp = None -> P a ->
  WP (call (EFclose fp);; mret a) en (set_fps (<[fp := false]> (g_fps h)) h)
     (fun _ a' h' => h' = h /\ P a').
Proof.
  intros Hn HP. apply wpm_bind, wpm_call; [simpl; by rewrite lookup_insert_eq|].
  intros ? h' Hh'. simpl in Hh'. apply wpm_ret. split; [|done].
  rewrite Hh'. unfold set_fps. simpl. rewrite delete_insert_id by done. symmetry. apply gst_eta.
Qed.

Lemma keeps_fseek h fp off w :
  g_fps h !! fp = Some false -> keeps sock (fseek fp off w) h (fun _ => True).
Proof. intros Hf. apply keeps_sys; [done|]. by intros r h' ->. Qed.

Lemma keeps_ftell h fp : g_fps h !! fp = Some false -> keeps sock (ftell fp) h (fun _ => True).
Proof.
  intros Hf. eapply (keeps_bind _ _ _ _ (fun _ => True)).
  - apply keeps_sys; [done|]. by intros r h' ->.
  - intros. by apply keeps_ret.
Qed.

Lemma keeps_read_log_tail h limit : keeps sock (read_log_tail lp limit) h (fun _ => True).
Proof.
  intros en. apply wpm_bind, wpm_sys; [done|]. intros [e|fp] h1 Hh1; simpl in Hh1 |- *.
  { subst h1. destruct (e =? ENOENT); [|by apply wpm_ret].
    apply wpm_bind. eapply wpm_keeps; [apply keeps_malloc|]. intros. by apply wpm_ret. }
  destruct Hh1 as [Hn ->]. set (h1 := set_fps _ _).
  assert (g_fps h1 !! fp = Some false) as Hfp by apply lookup_insert_eq.
  apply wpm_bind. eapply wpm_keeps; [by apply keeps_fseek|].
  intros en1 [e|[]] _; [by apply wpm_fclose_ret|].
  apply wpm_bind. eapply wpm_keeps; [by apply keeps_ftell|]. intros en2 size _.
  destruct (Z.ltb_spec size 0); [by apply wpm_fclose_ret|]. cbv zeta.
  set (sz := if LOG_TAIL_MAX <? size then _ else _).
  assert (0 <= sz) by (unfold sz, LOG_TAIL_MAX; split_guard; lia).
  apply wpm_bind. eapply wpm_keeps; [by apply keeps_fseek|]. intros en3 s1 _.
  apply wpm_bind. eapply (wpm_keeps _ _ _ _ (fun _ => True)).
  { destruct s1; [by apply keeps_fseek | by apply keeps_ret]. }
  intros en4 [e|[]] _; [by apply wpm_fclose_ret|].
  apply wpm_bind. eapply wpm_keeps; [apply keeps_malloc|].
  intros en5 [] _; [|by apply wpm_fclose_ret]. simpl.
  apply wpm_bind, wpm_call; [done|]. intros buf h2 [-> Hlen].
  apply wpm_bind, wpm_call; [simpl; by rewrite lookup_insert_eq|]. intros ? h3 Hh3. simpl in Hh3.
  assert (h3 = h) as ->.
  { rewrite Hh3. unfold set_fps. simpl. rewrite delete_insert_id by done. symmetry. apply gst_eta. }
  destruct (Z.ltb_spec sz (len buf)); [lia|].
  destruct (limit <=? 0); [by apply wpm_ret|].
  apply wpm_bind. eapply wpm_keeps; [apply keeps_malloc|]. intros. by apply wpm_ret.
Qed.

Lemma serves_logs client limit : serves sock (op_logs fuel lp sock client limit).
Proof.
  apply serves_bind; [eapply serves_keeps; intros; apply keeps_read_log_tail|].
  intros []; serve.
Qed.

(** * Dispatch *)

#[local] Hint Resolve serves_getfile serves_setfile serves_delfile serves_statfile
  serves_renamefile serves_copyfile serves_logs : serves.

Lemma c_str_c_string b : Forall is_byte b -> c_string (c_str b).
Proof.
  induction 1 as [|x b Hx _ IH]; simpl; [constructor|].
  destruct (Z.eqb_spec x 0); [constructor|]. constructor; [unfold is_byte in Hx; lia|done].
Qed.

Lemma serves_item req i k :
  wf_request req -> Z.of_nat i < ra_count req ->
  (forall b, Forall is_byte b -> serves sock (k b)) -> serves sock (item req i k).
Proof.
  intros (Hc & Hl & Hb) Hi Hk. unfold item.
  destruct (lookup_lt_is_Some_2 (ra_items req) i) as [b Hib]; [lia|].
  rewrite Hib. apply Hk. by eapply Forall_lookup_1 in Hb.
Qed.

Lemma append_c_string src suf sz dst :
  0 < sz <= INT_MAX -> c_string src -> c_string suf ->
  path_append_suffix src suf sz = Some dst -> c_string dst.
Proof. intros Hsz ? ? [-> _]%path_append_suffix_Some; [|done]. by apply Forall_app. Qed.

Lemma derive_decompress_c_string src sz dst :
  0 < sz <= INT_MAX -> c_string src -> derive_decompress_dst src sz = Some dst -> c_string dst.
Proof.
  intros Hsz Hs. unfold derive_decompress_dst.
  destruct (path_strip_suffix src _ sz) as [d|] eqn:Hst.
  - intros [= ->]. unfold path_strip_suffix in Hst. repeat case_match; simplify_eq.
    by apply Forall_take.
  - apply append_c_string; [done|done|by_decide].
Qed.

Section dispatch.
Context (dir client : bytes) (req : resp_array).
Hypothesis dir_ok : c_string dir.
Hypothesis req_ok : wf_request req.

Lemma serves_dispatch_path op msg :
  (forall rel, c_string rel -> serves sock (op sock dir client rel)) ->
  serves sock (dispatch_path fuel dir op msg sock client req).
Proof.
  intros Hop. unfold dispatch_path. destruct (Z.eqb_spec (ra_count req) 2); simpl; [|serve].
  apply serves_item; [done|lia|]. intros. by apply Hop, c_str_c_string.
Qed.

Lemma serves_two_items (op : bytes -> bytes -> M Z) :
  ra_count req = 3 ->
  (forall b b', Forall is_byte b -> Forall is_byte b' -> serves sock (op b b')) ->
  serves sock (item req 1 (fun p => item req 2 (fun q => op p q))).
Proof.
  intros Hc Hop. apply serves_item; [done|lia|]. intros b Hb.
  apply serves_item; [done|lia|]. intros b' Hb'. by apply Hop.
Qed.

Lemma serves_dispatch_two op msg :
  (forall p q, c_string p -> c_string q -> serves sock (op sock dir client p q)) ->
  serves sock (dispatch_two fuel dir op msg sock client req).
Proof.
  intros Hop. unfold dispatch_two. destruct (Z.eqb_spec (ra_count req) 3); simpl; [|serve].
  apply (serves_two_items (fun p q => op sock dir client (c_str p) (c_str q))); [done|].
  intros. by apply Hop; apply c_str_c_string.
Qed.

Lemma serves_dispatch_transform op derive msg :
  (forall p q, c_string p -> c_string q -> serves sock (op sock dir client p q)) ->
  (forall p q, c_string p -> derive p PATH_MAX = Some q -> c_string q) ->
  serves sock (dispatch_transform fuel dir op derive msg sock client req).
Proof.
  intros Hop Hder. unfold dispatch_transform.
  destruct (Z.eqb_spec (ra_count req) 2).
  - apply serves_item; [done|lia|]. intros b Hb%c_str_c_string.
    destruct (derive _ _) as [dst|] eqn:Hd; [|serve]. apply Hop; [done|by eapply Hder].
  - destruct (Z.eqb_spec (ra_count req) 3); [|serve].
    apply (serves_two_items (fun p q => op sock dir client (c_str p) (c_str q))); [done|].
    intros. by apply Hop; apply c_str_c_string.
Qed.

Lemma serves_parse_int_arg s : serves sock (parse_int_arg s).
Proof. unfold parse_int_arg. serve. Qed.

Lemma serves_dispatch_logs : serves sock (dispatch_logs fuel lp sock client req).
Proof.
  unfold dispatch_logs. destruct (Z.eqb_spec (ra_count req) 2).
  - apply serves_item; [done|lia|]. intros b _.
    apply serves_bind; [apply serves_parse_int_arg|]. intros [l|]; serve.
  - serve.
Qed.

Lemma serves_dispatch_ping : serves sock (dispatch_ping fuel sock req).
Proof.
  unfold dispatch_ping. destruct (Z.eqb_spec (ra_count req) 1); [serve|].
  destruct req_ok as [Hc _]. apply serves_item; [done|lia|]. intros. serve.
Qed.

Lemma serves_dispatch_setfile :
  serves sock (if negb (ra_count req =? 3)
     then reply_error fuel sock (L"wrong number of arguments for SETFILE")
     else item req 1 (fun p => item req 2 (fun d =>
            op_setfile fuel lp sock dir client (c_str p) d))).
Proof.
  destruct (Z.eqb_spec (ra_count req) 3); simpl; [|serve].
  apply (serves_two_items (fun p d => op_setfile fuel lp sock dir client (c_str p) d)); [done|].
  intros. by apply serves_setfile; [|apply c_str_c_string].
Qed.

Lemma serves_dispatch_command :
  serves sock (dispatch_command fuel lp dir sock client req).
Proof.
  assert (0 < PATH_MAX <= INT_MAX) by (unfold PATH_MAX, INT_MAX; lia).
  destruct req_ok as [Hc _]. unfold dispatch_command. apply serves_item; [done|lia|]. intros b _.
  cbv zeta. repeat match goal with |- serves _ (if is_cmd ?c ?n then _ else _) => destruct (is_cmd c n) end.
  - apply serves_dispatch_ping.
  - apply serves_dispatch_path. eauto with serves.
  - apply serves_dispatch_setfile.
  - apply serves_dispatch_path. eauto with serves.
  - apply serves_dispatch_two. eauto with serves.
  - apply serves_dispatch_two. eauto with serves.
  - apply serves_dispatch_path. eauto with serves.
  - apply serves_dispatch_logs.
  - apply serves_dispatch_transform; [intros; by apply serves_transform; [apply rle_compress_transform_ok|..]|].
    intros p q Hp. apply append_c_string; [done|done|by_decide].
  - apply serves_dispatch_transform; [intros; by apply serves_transform; [apply rle_decompress_transform_ok|..]|].
    intros p q Hp. by apply derive_decompress_c_string.
  - serve.
Qed.

End dispatch.

(** * The client thread *)

Lemma serves_stop : serves sock (call EStop).
Proof. apply (serves_keeps _ _ (fun _ => True)). intros. apply keeps_call; [done|]. by intros r h' ->. Qed.

Lemma serves_client_loop dir client n :
  c_string dir -> serves sock (client_loop fuel lp dir n sock client).
Proof.
  intros Hd. induction n as [|n IH]; simpl; (apply serves_bind; [apply serves_stop|]);
    intros []; try apply serves_ret.
  - intros en h Hh. by apply wpm_out_of_fuel.
  - intros en h Hh. apply wpm_bind.
    eapply wpm_keeps; [apply keeps_resp_read_array, Hh|].
    intros en1 [req|] Hreq; [|by apply wpm_ret]. destruct (_ || _).
    + apply wpm_bind. eapply wpm_mono; [by apply serves_reply_error|]. intros. by apply IH.
    + apply wpm_bind. eapply wpm_mono; [by apply serves_dispatch_command|]. intros. by apply IH.
Qed.

Lemma client_thread_safe dir client en h :
  c_string dir -> ready h ->
  WP (client_thread fuel lp dir sock client) en h (fun _ _ h' => idle h' /\ g_sock h' = false).
Proof.
  intros Hd Hh. apply wpm_bind. eapply wpm_mono; [by apply serves_client_loop|].
  intros en1 [] h1 [Hidle Hs]. apply wpm_bind, wpm_sys.
  - simpl. by rewrite bool_decide_eq_true_2.
  - intros r h2 Hh2. simpl in Hh2. rewrite bool_decide_eq_true_2 in Hh2 by done.
    destruct r; apply wpm_ret; by rewrite Hh2.
Qed.

End safety.

(** * Properties *)

(** C10: for every request the parser can deliver and whatever the operating
    system answers, [dispatch_command] accesses each file only under its path's
    lock, takes locks in increasing path order, appends to the log only under
    the log mutex, never leaves a buffer, and returns with every lock released
    and every descriptor closed. *)
Theorem dispatch_command_disciplined sock fuel lp dir client req en h :
  c_string dir -> wf_request req -> ready h ->
  wpm false (discipline sock) (dispatch_command fuel lp dir sock client req) en h
    (fun _ _ h' => ready h').
Proof. intros Hd Hr Hh. by apply serves_dispatch_command. Qed.

(** The state of a thread that has just accepted a connection. *)
Definition fresh : gst := mk_gst ∅ None None [] ∅ ∅ true.

Lemma dispatch_command_disciplined_witness :
  wpm false (discipline 7)
    (dispatch_command 9 (L"d/operations.log") (L"d") 7 (L"client")
       (mk_array 3 [L"COPYFILE"; L"a"; L"b"])) 0 fresh (fun _ _ h' => ready h').
Proof.
  apply (dispatch_command_disciplined 7 9 (L"d/operations.log") (L"d") (L"client")
           (mk_array 3 [L"COPYFILE"; L"a"; L"b"]) 0 fresh).
  - by_decide.
  - split; [simpl; lia|]. split; [reflexivity|]. by_decide.
  - repeat split.
Defined.

(** C19: the whole life of a client thread respects the discipline and ends with
    nothing held, nothing open and the client socket closed. *)
Theorem client_thread_disciplined sock fuel lp dir client en h :
  c_string dir -> ready h ->
  wpm false (discipline sock) (client_thread fuel lp dir sock client) en h
    (fun _ _ h' => idle h' /\ g_sock h' = false).
Proof. apply client_thread_safe. Qed.

Lemma client_thread_disciplined_witness :
  wpm false (discipline 7) (client_thread 9 (L"d/operations.log") (L"d") 7 (L"client")) 0 fresh
    (fun _ _ h' => idle h' /\ g_sock h' = false).
Proof.
  apply (client_thread_disciplined 7 9 (L"d/operations.log") (L"d") (L"client") 0 fresh).
  - by_decide.
  - repeat split.
Defined.

End Safety.
