(* ===== verification/SrvPool.v ===== *)
(** The server as a whole: client threads running concurrently over the shared
    lock registry, the mutexes, the read/write locks and the descriptor table
    (locks.c, logger.c, and the accept loop of [start_server] in server.c, which
    adds threads).  A step is one event of one thread, so threads interleave at
    every call.  By induction over the steps every reachable pool satisfies an
    invariant, from which mutual exclusion per file, uniqueness of the registry
    and deadlock freedom follow. *)

From S2P Require Import Prelude Libc Rle SrvEvents SrvPath SrvResp SrvLocks SrvFileOps SrvServer SrvDiscipline SrvSafety.
Import Libc Path Resp Locks Logger FileOps Server Discipline Safety.

Module Pool.

(** What a descriptor of the process refers to, with the thread that opened it. *)
Inductive fdk :=
  | KFile (i : nat) (p : bytes) (w : bool)
  | KSock (i : nat).

(** The state the threads share. *)
Record shared := mk_shared {
  s_reg : list file_lock_entry;          (* from [g_lock_map_head] on *)
  s_map : option nat;                    (* owner of [g_lock_map_mutex] *)
  s_log : option nat;                    (* owner of [g_log_mutex] *)
  s_rw : gmap Z (list (nat * bool));     (* holders of each rwlock; [true] for writing *)
  s_fds : gmap Z fdk;
  s_fps : gmap Z (nat * bool);           (* open streams: owner, for appending *)
}.

Definition owner (s : shared) (m : mutex) : option nat :=
  match m with MapMutex => s_map s | LogMutex => s_log s end.

Definition set_owner (m : mutex) (o : option nat) (s : shared) : shared :=
  match m with
  | MapMutex => mk_shared (s_reg s) o (s_log s) (s_rw s) (s_fds s) (s_fps s)
  | LogMutex => mk_shared (s_reg s) (s_map s) o (s_rw s) (s_fds s) (s_fps s)
  end.

Definition holders (rw : gmap Z (list (nat * bool))) (l : Z) : list (nat * bool) :=
  default [] (rw !! l).

Definition set_rw x s := mk_shared (s_reg s) (s_map s) (s_log s) x (s_fds s) (s_fps s).
Definition set_sfds x s := mk_shared (s_reg s) (s_map s) (s_log s) (s_rw s) x (s_fps s).
Definition set_sfps x s := mk_shared (s_reg s) (s_map s) (s_log s) (s_rw s) (s_fds s) x.
Definition set_reg x s := mk_shared x (s_map s) (s_log s) (s_rw s) (s_fds s) (s_fps s).

(** A rwlock can be granted for reading when no thread holds it for writing,
    and for writing when no thread holds it. *)
Definition can_lock (w : bool) (hs : list (nat * bool)) : Prop :=
  if w then hs = [] else Forall (fun x => x.2 = false) hs.

(** Thread [i] takes rwlock [l], or the call fails. *)
Definition rw_step (i : nat) (w : bool) (l r : Z) (s s' : shared) : Prop :=
  if r =? 0 then
    can_lock w (holders (s_rw s) l) /\
    s' = set_rw (<[l := (i, w) :: holders (s_rw s) l]> (s_rw s)) s
  else s' = s.

(** One event of thread [i]: its answer and the shared state after it.  A mutex
    is granted only when free; descriptors and streams are new; a new registry
    entry has a new rwlock; data read is at most what was asked for. *)
Definition estep (i : nat) (e : event) : ans e -> shared -> shared -> Prop :=
  match e return ans e -> shared -> shared -> Prop with
  | EMutexLock m => fun _ s s' => owner s m = None /\ s' = set_owner m (Some i) s
  | EMutexUnlock m => fun _ s s' => s' = set_owner m None s
  | EGetMap => fun r s s' => r = s_reg s /\ s' = s
  | EPushEntry p => fun l s s' =>
      l ∉ fe_lock <$> s_reg s /\ holders (s_rw s) l = [] /\
      s' = set_reg (mk_entry p l :: s_reg s) s
  | ERdLock l => fun r s s' => rw_step i false l r s s'
  | EWrLock l => fun r s s' => rw_step i true l r s s'
  | EUnlock l => fun _ s s' =>
      s' = set_rw (<[l := filter (fun x => x.1 <> i) (holders (s_rw s) l)]> (s_rw s)) s
  | EOpen p fl => fun r s s' =>
      match r with
      | inl _ => s' = s
      | inr f => s_fds s !! f = None /\
          s' = set_sfds (<[f := KFile i p (bool_decide (fl = O_WRONLY_CREAT_TRUNC))]> (s_fds s)) s
      end
  | EClose fd => fun _ s s' => s' = set_sfds (delete fd (s_fds s)) s
  | EFopen _ append => fun r s s' =>
      match r with
      | inl _ => s' = s
      | inr fp => s_fps s !! fp = None /\ s' = set_sfps (<[fp := (i, append)]> (s_fps s)) s
      end
  | EFclose fp => fun _ s s' => s' = set_sfps (delete fp (s_fps s)) s
  | ERead _ n | ERecv _ n => fun r s s' =>
      s' = s /\ match r with inl _ => True | inr bs => len bs <= n /\ Forall is_byte bs end
  | EFread _ n => fun r s s' => s' = s /\ len r <= Z.max 0 n
  | _ => fun _ s s' => s' = s
  end.

Record thread := mk_thread {
  t_sock : Z;
  t_prog : prog (Z * unit);
}.

Record pool := mk_pool {
  p_shared : shared;
  p_threads : list thread;
}.

Section pool.
Context (fuel : nat) (lp dir : bytes).

(** A step of the server: an event of a thread, or the accept loop starting
    [client_thread] on a new connection. *)
Inductive step : pool -> pool -> Prop :=
  | step_event s s' ts i t e k r :
      ts !! i = Some t -> t_prog t = Vis e k -> estep i e r s s' ->
      step (mk_pool s ts) (mk_pool s' (<[i := mk_thread (t_sock t) (k r)]> ts))
  | step_accept s ts fd client :
      s_fds s !! fd = None ->
      step (mk_pool s ts)
           (mk_pool (set_sfds (<[fd := KSock (length ts)]> (s_fds s)) s)
                    (ts ++ [mk_thread fd (client_thread fuel lp dir fd client 0)])).

Definition init : pool := mk_pool (mk_shared [] None None ∅ ∅ ∅) [].

Definition reachable (P : pool) : Prop := rtc step init P.
End pool.

(** * The invariant *)

(** Each clause relates one part of the shared state to the corresponding part
    of what the threads hold, listed in thread order. *)
Definition mutex_ok (s : shared) (mus : list (option mutex)) : Prop :=
  forall m i, owner s m = Some i <-> mus !! i = Some (Some m).

Definition snap_ok (reg : list file_lock_entry)
    (xs : list (option (list file_lock_entry) * option mutex)) : Prop :=
  forall i m mu, xs !! i = Some (Some m, mu) -> m = reg /\ mu = Some MapMutex.

Definition known_ok (reg : list file_lock_entry) (ks : list (gmap Z bytes)) : Prop :=
  forall i k, ks !! i = Some k -> k ⊆ map_of reg.

Definition held_ok (rw : gmap Z (list (nat * bool))) (hs : list (list (Z * bytes * bool))) : Prop :=
  forall l i w, (i, w) ∈ holders rw l <-> exists h p, hs !! i = Some h /\ (l, p, w) ∈ h.

Definition paths_ok (reg : list file_lock_entry) (hs : list (list (Z * bytes * bool))) : Prop :=
  forall i h l p w, hs !! i = Some h -> (l, p, w) ∈ h -> map_of reg !! l = Some p.

Definition excl_ok (rw : gmap Z (list (nat * bool))) : Prop :=
  forall l i w j w', (i, w) ∈ holders rw l -> (j, w') ∈ holders rw l ->
    i = j \/ (w = false /\ w' = false).

Definition fds_ok (fds : gmap Z fdk) (xs : list (gmap Z (bytes * bool))) : Prop :=
  forall fd i p w, fds !! fd = Some (KFile i p w) <-> exists x, xs !! i = Some x /\ x !! fd = Some (p, w).

(** A file is open only under the lock of its path, for writing only under the
    write lock. *)
Definition cover_ok (xs : list (gmap Z (bytes * bool) * list (Z * bytes * bool))) : Prop :=
  forall i x h fd p w, xs !! i = Some (x, h) -> x !! fd = Some (p, w) ->
    exists l w', (l, p, w') ∈ h /\ (w = true -> w' = true).

Definition sock_ok (fds : gmap Z fdk) (xs : list (Z * bool)) : Prop :=
  forall i fd, xs !! i = Some (fd, true) -> fds !! fd = Some (KSock i).

Definition fps_ok (fps : gmap Z (nat * bool)) (xs : list (gmap Z bool)) : Prop :=
  forall fp i a, fps !! fp = Some (i, a) <-> exists x, xs !! i = Some x /\ x !! fp = Some a.

Definition append_ok (xs : list (gmap Z bool * option mutex)) : Prop :=
  forall i x mu fp, xs !! i = Some (x, mu) -> x !! fp = Some true -> mu = Some LogMutex.

Record linked (s : shared) (socks : list Z) (gs : list gst) : Prop := mk_linked {
  lk_len : length socks = length gs;
  lk_reg : wf_registry (s_reg s);
  lk_mutex : mutex_ok s (g_mutex <$> gs);
  lk_snap : snap_ok (s_reg s) ((fun g => (g_snap g, g_mutex g)) <$> gs);
  lk_known : known_ok (s_reg s) (g_known <$> gs);
  lk_held : held_ok (s_rw s) (g_held <$> gs);
  lk_paths : paths_ok (s_reg s) (g_held <$> gs);
  lk_excl : excl_ok (s_rw s);
  lk_fds : fds_ok (s_fds s) (g_fds <$> gs);
  lk_cover : cover_ok ((fun g => (g_fds g, g_held g)) <$> gs);
  lk_sock : sock_ok (s_fds s) (zip socks (g_sock <$> gs));
  lk_fps : fps_ok (s_fps s) (g_fps <$> gs);
  lk_append : append_ok ((fun g => (g_fps g, g_mutex g)) <$> gs);
}.

(** The rest of a thread's code respects the discipline from what it holds. *)
Definition thread_ok (t : thread) (g : gst) : Prop :=
  wp false (discipline (t_sock t)) (t_prog t) g (fun _ h' => idle h' /\ g_sock h' = false).

Definition inv (P : pool) : Prop :=
  exists gs, linked (p_shared P) (t_sock <$> p_threads P) gs /\ Forall2 thread_ok (p_threads P) gs.

(** * Updating one thread *)

Lemma fmap_insert_same {A} (f : gst -> A) (gs : list gst) (i : nat) g g' :
  gs !! i = Some g -> f g' = f g -> f <$> <[i := g']> gs = f <$> gs.
Proof.
  intros Hg Hf. rewrite list_fmap_insert. apply list_insert_id.
  by rewrite list_lookup_fmap, Hg, Hf.
Qed.

(** Generic update of a clause that constrains each thread separately. *)
Lemma insert_each {A} (R : nat -> A -> Prop) (xs : list A) i y :
  (forall j x, xs !! j = Some x -> R j x) -> R i y ->
  forall j x, <[i := y]> xs !! j = Some x -> R j x.
Proof. intros Hxs Hy j x [(-> & -> & _)|[_ Hj]]%list_lookup_insert_Some; auto. Qed.

Lemma mutex_ok_lock s mus i m :
  mutex_ok s mus -> owner s m = None -> mus !! i = Some None ->
  mutex_ok (set_owner m (Some i) s) (<[i := Some m]> mus).
Proof.
  intros Hok Hfree Hi m' j. pose proof (lookup_lt_Some _ _ _ Hi).
  rewrite list_lookup_insert_Some. pose proof (Hok m' j) as Hj.
  assert (owner (set_owner m (Some i) s) m' = if decide (m' = m) then Some i else owner s m') as ->.
  { by destruct m, m'. }
  destruct (decide (m' = m)) as [->|Hm].
  - rewrite Hfree in Hj. split; [intros [= ->]; by left|].
    intros [(-> & _)|[_ Hin]]; [done|]. by apply Hj in Hin.
  - rewrite Hj. split; [|naive_solver]. intros Hin. right. split; [|done]. intros ->. congruence.
Qed.

Lemma mutex_ok_unlock s mus i m :
  mutex_ok s mus -> mus !! i = Some (Some m) ->
  mutex_ok (set_owner m None s) (<[i := None]> mus).
Proof.
  intros Hok Hi m' j. rewrite list_lookup_insert_Some. pose proof (Hok m' j) as Hj.
  assert (owner (set_owner m None s) m' = if decide (m' = m) then None else owner s m') as ->.
  { by destruct m, m'. }
  apply Hok in Hi as Ho. destruct (decide (m' = m)) as [->|Hm].
  - split; [done|]. intros [(_ & ? & _)|[Hne Hin]]; [done|]. apply Hj in Hin. congruence.
  - rewrite Hj. split; [|naive_solver]. intros Hin. right. split; [|done]. intros ->. congruence.
Qed.

Lemma holders_insert rw l hs l' :
  holders (<[l := hs]> rw) l' = if decide (l' = l) then hs else holders rw l'.
Proof.
  unfold holders. destruct (decide (l' = l)) as [->|]; [by rewrite lookup_insert_eq|].
  by rewrite lookup_insert_ne.
Qed.

Lemma held_ok_lock rw hs i h l p w :
  held_ok rw hs -> hs !! i = Some h ->
  held_ok (<[l := (i, w) :: holders rw l]> rw) (<[i := (l, p, w) :: h]> hs).
Proof.
  intros Hok Hi l' j w'. pose proof (lookup_lt_Some _ _ _ Hi). rewrite holders_insert.
  setoid_rewrite list_lookup_insert_Some. pose proof (Hok l' j w') as Hj.
  destruct (decide (l' = l)) as [->|Hl]; [rewrite elem_of_cons|]; rewrite Hj.
  - split.
    + intros [[= -> ->]|(h' & q & Hh' & Hin)]; [eexists _, p; split; [by left|]; set_solver|].
      destruct (decide (i = j)) as [<-|Hne]; [|naive_solver].
      assert (h' = h) as -> by congruence. eexists _, q. split; [by left|]. set_solver.
    + intros (h' & q & [(-> & <- & _)|[Hne Hh']] & Hin); [|naive_solver].
      apply elem_of_cons in Hin as [[= -> ->]|Hin]; [by left|]. right. eauto.
  - split.
    + intros (h' & q & Hh' & Hin). destruct (decide (i = j)) as [<-|Hne]; [|naive_solver].
      assert (h' = h) as -> by congruence. eexists _, q. split; [by left|]. set_solver.
    + intros (h' & q & [(-> & <- & _)|[Hne Hh']] & Hin); [|naive_solver].
      apply elem_of_cons in Hin as [[= -> -> ->]|Hin]; [done|]. eauto.
Qed.

Lemma held_ok_unlock rw hs i h l :
  held_ok rw hs -> hs !! i = Some h ->
  held_ok (<[l := filter (fun x => x.1 <> i) (holders rw l)]> rw)
          (<[i := filter (fun x => x.1.1 <> l) h]> hs).
Proof.
  intros Hok Hi l' j w'. pose proof (lookup_lt_Some _ _ _ Hi). rewrite holders_insert.
  setoid_rewrite list_lookup_insert_Some. pose proof (Hok l' j w') as Hj.
  destruct (decide (l' = l)) as [->|Hl]; [rewrite list_elem_of_filter|]; rewrite Hj; simpl.
  - split.
    + intros (Hne & h' & q & Hh' & Hin). exists h', q. naive_solver.
    + intros (h' & q & [(-> & <- & _)|[Hne Hh']] & Hin).
      * apply list_elem_of_filter in Hin as [Hbad _]. by simpl in Hbad.
      * split; [congruence|]. eauto.
  - split.
    + intros (h' & q & Hh' & Hin). destruct (decide (i = j)) as [<-|Hne]; [|naive_solver].
      assert (h' = h) as -> by congruence. eexists _, q. split; [by left|].
      by apply list_elem_of_filter.
    + intros (h' & q & [(-> & <- & _)|[Hne Hh']] & Hin); [|naive_solver].
      apply list_elem_of_filter in Hin as [_ Hin]. eauto.
Qed.

Lemma excl_ok_lock rw l i w :
  excl_ok rw -> can_lock w (holders rw l) -> excl_ok (<[l := (i, w) :: holders rw l]> rw).
Proof.
  intros Hok Hcan l' j v j' v'. rewrite !holders_insert.
  destruct (decide (l' = l)) as [->|]; [|apply Hok]. rewrite !elem_of_cons.
  assert (forall j v, (j, v) ∈ holders rw l -> w = false /\ v = false) as Hr.
  { intros k u Hk. destruct w; simpl in Hcan; [rewrite Hcan in Hk; set_solver|].
    rewrite Forall_forall in Hcan. split; [done|]. by apply (Hcan (k, u)). }
  intros [[= -> ->]|H1] [[= -> ->]|H2]; [by left|..].
  - right. by eapply Hr.
  - right. apply Hr in H1. tauto.
  - by eapply Hok.
Qed.

Lemma excl_ok_unlock rw l i :
  excl_ok rw -> excl_ok (<[l := filter (fun x => x.1 <> i) (holders rw l)]> rw).
Proof.
  intros Hok l' j v j' v'. rewrite !holders_insert.
  destruct (decide (l' = l)) as [->|]; [|apply Hok].
  rewrite !list_elem_of_filter. intros [_ H1] [_ H2]. by eapply Hok.
Qed.

Lemma fds_ok_open fds xs i x f p w :
  fds_ok fds xs -> fds !! f = None -> xs !! i = Some x ->
  fds_ok (<[f := KFile i p w]> fds) (<[i := <[f := (p, w)]> x]> xs).
Proof.
  intros Hok Hf Hi fd j q v. pose proof (lookup_lt_Some _ _ _ Hi).
  setoid_rewrite list_lookup_insert_Some. pose proof (Hok fd j q v) as Hj.
  destruct (decide (fd = f)) as [->|Hne].
  - rewrite lookup_insert_eq. split.
    + intros [= -> -> ->]. eexists. split; [by left|]. apply lookup_insert_eq.
    + intros (y & [(-> & <- & _)|[Hij Hy]] & Hl).
      * rewrite lookup_insert_eq in Hl. by simplify_eq.
      * assert (fds !! f = Some (KFile j q v)) by (apply Hj; eauto). congruence.
  - rewrite lookup_insert_ne, Hj by done. split.
    + intros (y & Hy & Hl). destruct (decide (i = j)) as [<-|]; [|naive_solver].
      assert (y = x) as -> by congruence. eexists. split; [by left|]. by rewrite lookup_insert_ne.
    + intros (y & [(-> & <- & _)|[Hij Hy]] & Hl); [|naive_solver].
      rewrite lookup_insert_ne in Hl by done. eauto.
Qed.

Lemma fds_ok_close fds xs i x fd y :
  fds_ok fds xs -> xs !! i = Some x -> x !! fd = Some y ->
  fds_ok (delete fd fds) (<[i := delete fd x]> xs).
Proof.
  intros Hok Hi Hfd fd' j q v. pose proof (lookup_lt_Some _ _ _ Hi).
  setoid_rewrite list_lookup_insert_Some. setoid_rewrite lookup_delete_Some.
  pose proof (Hok fd' j q v) as Hj. destruct y as [p0 w0].
  assert (fds !! fd = Some (KFile i p0 w0)) as Hfds by (apply Hok; eauto).
  split.
  - intros [Hne (z & Hz & Hl)%Hj]. destruct (decide (i = j)) as [<-|]; [|naive_solver].
    assert (z = x) as -> by congruence. eexists. split; [by left|]. by rewrite lookup_delete_ne.
  - intros (z & [(-> & <- & _)|[Hij Hz]] & Hl).
    + apply lookup_delete_Some in Hl as [Hne Hl]. split; [done|]. apply Hj. eauto.
    + assert (fds !! fd' = Some (KFile j q v)) as Hf' by (apply Hj; eauto).
      split; [|done]. intros ->. congruence.
Qed.

Lemma fds_ok_sock fds xs fd i :
  fds_ok fds xs -> fds !! fd = Some (KSock i) -> fds_ok (delete fd fds) xs.
Proof.
  intros Hok Hs fd' j q v. rewrite lookup_delete_Some, (Hok fd' j q v). split; [naive_solver|].
  intros Hx. split; [|done]. intros ->. apply Hok in Hx. congruence.
Qed.

Lemma sock_ok_open fds xs f i p w :
  sock_ok fds xs -> fds !! f = None -> sock_ok (<[f := KFile i p w]> fds) xs.
Proof.
  intros Hok Hf j fd Hj. apply Hok in Hj. rewrite lookup_insert_ne; [done|]. congruence.
Qed.

Lemma sock_ok_close fds xs fd i p w :
  sock_ok fds xs -> fds !! fd = Some (KFile i p w) -> sock_ok (delete fd fds) xs.
Proof.
  intros Hok Hf j fd' Hj. apply Hok in Hj. rewrite lookup_delete_ne; [done|]. congruence.
Qed.

Lemma sock_ok_close_sock fds socks gs i fd :
  sock_ok fds (zip socks gs) -> socks !! i = Some fd -> gs !! i = Some true ->
  sock_ok (delete fd fds) (zip socks (<[i := false]> gs)).
Proof.
  intros Hok Hs Hg j fd' (a & b & [= <- <-] & Ha & Hb)%lookup_zip_with_Some.
  apply list_lookup_insert_Some in Hb as [(_ & ? & _)|[Hne Hb]]; [done|].
  assert (fds !! fd' = Some (KSock j)) as Hj.
  { apply Hok, lookup_zip_with_Some. by exists fd', true. }
  assert (fds !! fd = Some (KSock i)) as Hi.
  { apply Hok, lookup_zip_with_Some. by exists fd, true. }
  rewrite lookup_delete_ne; [done|]. congruence.
Qed.

Lemma fps_ok_open fps xs i x fp a :
  fps_ok fps xs -> fps !! fp = None -> xs !! i = Some x ->
  fps_ok (<[fp := (i, a)]> fps) (<[i := <[fp := a]> x]> xs).
Proof.
  intros Hok Hf Hi fp' j b. pose proof (lookup_lt_Some _ _ _ Hi).
  setoid_rewrite list_lookup_insert_Some. pose proof (Hok fp' j b) as Hj.
  destruct (decide (fp' = fp)) as [->|Hne].
  - rewrite lookup_insert_eq. split.
    + intros [= -> ->]. eexists. split; [by left|]. apply lookup_insert_eq.
    + intros (y & [(-> & <- & _)|[Hij Hy]] & Hl).
      * rewrite lookup_insert_eq in Hl. by simplify_eq.
      * assert (fps !! fp = Some (j, b)) by (apply Hj; eauto). congruence.
  - rewrite lookup_insert_ne, Hj by done. split.
    + intros (y & Hy & Hl). destruct (decide (i = j)) as [<-|]; [|naive_solver].
      assert (y = x) as -> by congruence. eexists. split; [by left|]. by rewrite lookup_insert_ne.
    + intros (y & [(-> & <- & _)|[Hij Hy]] & Hl); [|naive_solver].
      rewrite lookup_insert_ne in Hl by done. eauto.
Qed.

Lemma fps_ok_close fps xs i x fp a :
  fps_ok fps xs -> xs !! i = Some x -> x !! fp = Some a ->
  fps_ok (delete fp fps) (<[i := delete fp x]> xs).
Proof.
  intros Hok Hi Hfp fp' j b. pose proof (lookup_lt_Some _ _ _ Hi).
  setoid_rewrite list_lookup_insert_Some. setoid_rewrite lookup_delete_Some.
  pose proof (Hok fp' j b) as Hj.
  assert (fps !! fp = Some (i, a)) as Hfps by (apply Hok; eauto).
  split.
  - intros [Hne (z & Hz & Hl)%Hj]. destruct (decide (i = j)) as [<-|]; [|naive_solver].
    assert (z = x) as -> by congruence. eexists. split; [by left|]. by rewrite lookup_delete_ne.
  - intros (z & [(-> & <- & _)|[Hij Hz]] & Hl).
    + apply lookup_delete_Some in Hl as [Hne Hl]. split; [done|]. apply Hj. eauto.
    + assert (fps !! fp' = Some (j, b)) as Hf' by (apply Hj; eauto).
      split; [|done]. intros ->. congruence.
Qed.

Lemma snap_ok_upd reg xs i y :
  snap_ok reg xs -> (forall m, y.1 = Some m -> m = reg /\ y.2 = Some MapMutex) ->
  snap_ok reg (<[i := y]> xs).
Proof.
  intros Hok Hy j m mu [(-> & -> & _)|[_ Hj]]%list_lookup_insert_Some; [by apply (Hy m)|by eapply Hok].
Qed.

Lemma known_ok_upd reg ks i k : known_ok reg ks -> k ⊆ map_of reg -> known_ok reg (<[i := k]> ks).
Proof. intros Hok Hk j k' [(-> & -> & _)|[_ Hj]]%list_lookup_insert_Some; [done|by eapply Hok]. Qed.

Lemma paths_ok_upd reg hs i h :
  paths_ok reg hs -> (forall l p w, (l, p, w) ∈ h -> map_of reg !! l = Some p) ->
  paths_ok reg (<[i := h]> hs).
Proof.
  intros Hok Hh j h' l p w [(-> & -> & _)|[_ Hj]]%list_lookup_insert_Some; [apply Hh|by eapply Hok].
Qed.

Lemma cover_ok_upd xs i x h :
  cover_ok xs ->
  (forall fd p w, x !! fd = Some (p, w) -> exists l w', (l, p, w') ∈ h /\ (w = true -> w' = true)) ->
  cover_ok (<[i := (x, h)]> xs).
Proof.
  intros Hok Hx j x' h' fd p w [(-> & [= -> ->] & _)|[_ Hj]]%list_lookup_insert_Some;
    [apply Hx|by eapply Hok].
Qed.

Lemma append_ok_upd xs i x mu :
  append_ok xs -> (forall fp, x !! fp = Some true -> mu = Some LogMutex) ->
  append_ok (<[i := (x, mu)]> xs).
Proof.
  intros Hok Hx j x' mu' fp [(-> & [= -> ->] & _)|[_ Hj]]%list_lookup_insert_Some;
    [apply Hx|by eapply Hok].
Qed.

(** A registry grows at its head with a new lock. *)
Lemma map_of_cons p l reg : map_of (mk_entry p l :: reg) = <[l := p]> (map_of reg).
Proof. done. Qed.

Lemma map_of_None l reg : l ∉ fe_lock <$> reg -> map_of reg !! l = None.
Proof.
  intros Hl. apply not_elem_of_list_to_map_1. by rewrite <- list_fmap_compose.
Qed.

Lemma map_of_grow p l reg :
  l ∉ fe_lock <$> reg -> map_of reg ⊆ map_of (mk_entry p l :: reg).
Proof. intros Hl. rewrite map_of_cons. apply insert_subseteq, map_of_None, Hl. Qed.

Lemma wf_registry_cons p l reg :
  wf_registry reg -> l ∉ fe_lock <$> reg -> p ∉ fe_path <$> reg -> c_string p ->
  wf_registry (mk_entry p l :: reg).
Proof. intros (H1 & H2 & H3) Hl Hp Hc. repeat split; by constructor. Qed.

(** * One event preserves the invariant *)

(** Clauses an event does not touch. *)
Ltac keep_clauses Hg :=
  simpl; try assumption; try (by rewrite length_insert);
  try (erewrite (fmap_insert_same _ _ _ _ _ Hg) by reflexivity; assumption);
  try rewrite list_fmap_insert; simpl; try assumption.

Section events.
Context (s : shared) (socks : list Z) (gs : list gst) (i : nat) (g : gst) (sock : Z).
Hypothesis Hlk : linked s socks gs.
Hypothesis Hg : gs !! i = Some g.
Hypothesis Hsock : socks !! i = Some sock.

Lemma lookup_part {A} (f : gst -> A) : (f <$> gs) !! i = Some (f g).
Proof. by rewrite list_lookup_fmap, Hg. Qed.

Lemma my_snap m : g_snap g = Some m -> m = s_reg s /\ g_mutex g = Some MapMutex.
Proof.
  intros Hs. destruct Hlk as [_ _ _ Hok _ _ _ _ _ _ _ _ _].
  eapply (Hok i m (g_mutex g)). rewrite list_lookup_fmap, Hg. simpl. by rewrite Hs.
Qed.

Lemma my_append fp : g_fps g !! fp = Some true -> g_mutex g = Some LogMutex.
Proof. apply (lk_append _ _ _ Hlk i). by rewrite list_lookup_fmap, Hg. Qed.

Lemma my_cover fd p w :
  g_fds g !! fd = Some (p, w) -> exists l w', (l, p, w') ∈ g_held g /\ (w = true -> w' = true).
Proof. apply (lk_cover _ _ _ Hlk i). by rewrite list_lookup_fmap, Hg. Qed.

Lemma my_path l p w : (l, p, w) ∈ g_held g -> map_of (s_reg s) !! l = Some p.
Proof. apply (lk_paths _ _ _ Hlk i). apply lookup_part. Qed.

Lemma my_known l p : g_known g !! l = Some p -> map_of (s_reg s) !! l = Some p.
Proof. intros. eapply lookup_weaken; [done|]. apply (lk_known _ _ _ Hlk i). apply lookup_part. Qed.

Lemma linked_mutex_lock m :
  g_mutex g = None -> owner s m = None ->
  linked (set_owner m (Some i) s) socks (<[i := set_mutex (Some m) g]> gs).
Proof.
  intros Hm Hfree. pose proof Hlk as [].
  assert (forall m', g_snap g = Some m' -> False) by (intros m' [_ ?]%my_snap; congruence).
  assert (forall fp, g_fps g !! fp = Some true -> False) by (intros fp ?%my_append; congruence).
  assert (mutex_ok (set_owner m (Some i) s) (<[i := Some m]> (g_mutex <$> gs))).
  { apply mutex_ok_lock; [done..|]. by rewrite lookup_part, Hm. }
  constructor; destruct m; keep_clauses Hg.
  all: try (apply snap_ok_upd; [done|naive_solver]).
  all: try (apply append_ok_upd; [done|naive_solver]).
Qed.

Lemma linked_mutex_unlock m :
  g_mutex g = Some m -> (m = LogMutex -> map_Forall (fun _ append => append = false) (g_fps g)) ->
  linked (set_owner m None s) socks (<[i := set_snap None (set_mutex None g)]> gs).
Proof.
  intros Hm Hfp. pose proof Hlk as []. pose proof my_snap. pose proof my_append as Ha.
  assert (mutex_ok (set_owner m None s) (<[i := None]> (g_mutex <$> gs))).
  { apply mutex_ok_unlock; [done..|]. by rewrite lookup_part, Hm. }
  assert (forall fp, g_fps g !! fp = Some true -> None = Some LogMutex).
  { intros fp Hf. pose proof (Ha fp Hf). assert (m = LogMutex) by congruence.
    by apply (Hfp ltac:(done)) in Hf. }
  constructor; destruct m; keep_clauses Hg.
  all: try (by apply snap_ok_upd).
  all: try (by apply append_ok_upd).
Qed.

Lemma linked_get_map :
  g_mutex g = Some MapMutex ->
  linked s socks (<[i := set_snap (Some (s_reg s)) (set_known (map_of (s_reg s)) g)]> gs).
Proof.
  intros Hm. pose proof Hlk as []. constructor; keep_clauses Hg.
  - apply snap_ok_upd; [done|]. naive_solver.
  - by apply known_ok_upd.
Qed.

Lemma linked_push p l m :
  g_mutex g = Some MapMutex -> c_string p -> g_snap g = Some m -> p ∉ fe_path <$> m ->
  l ∉ fe_lock <$> s_reg s ->
  linked (set_reg (mk_entry p l :: s_reg s) s) socks
    (<[i := set_snap (Some (mk_entry p l :: m)) (set_known (<[l := p]> (g_known g)) g)]> gs).
Proof.
  intros Hm Hp Hs Hpm Hl. pose proof Hlk as []. destruct (my_snap m Hs) as [-> _].
  pose proof (map_of_grow p l _ Hl) as Hgrow.
  assert (g_known g ⊆ map_of (s_reg s)) as Hk by (apply (lk_known0 i), lookup_part).
  constructor; keep_clauses Hg.
  - by apply wf_registry_cons.
  - intros j m mu [(-> & [= <- <-] & _)|[Hne Hj]]%list_lookup_insert_Some; [done|].
    destruct (lk_snap0 j m mu Hj) as [-> ->]. exfalso. apply Hne.
    assert (owner s MapMutex = Some i) by (apply lk_mutex0; by rewrite lookup_part, Hm).
    assert (owner s MapMutex = Some j); [|congruence].
    apply list_lookup_fmap_Some in Hj as (gj & Hgj & Hj).
    apply lk_mutex0, list_lookup_fmap_Some. exists gj. naive_solver.
  - apply known_ok_upd; [|rewrite map_of_cons; by apply insert_mono].
    intros j k Hj. etransitivity; [by eapply lk_known0|done].
  - rewrite list_insert_id by apply lookup_part.
    intros j h l' q w Hj Hin. eapply lookup_weaken; [by eapply lk_paths0|done].
Qed.

Lemma linked_lock w l p :
  g_known g !! l = Some p -> can_lock w (holders (s_rw s) l) ->
  linked (set_rw (<[l := (i, w) :: holders (s_rw s) l]> (s_rw s)) s) socks
    (<[i := set_held ((l, p, w) :: g_held g) g]> gs).
Proof.
  intros Hk Hcan. pose proof Hlk as []. constructor; keep_clauses Hg.
  - apply held_ok_lock; [done|apply lookup_part].
  - apply paths_ok_upd; [done|]. intros l' q w' [[= -> -> ->]|Hin]%elem_of_cons.
    + by apply my_known.
    + by eapply my_path.
  - by apply excl_ok_lock.
  - apply cover_ok_upd; [done|]. intros fd q v (l' & w' & Hin & Hw)%my_cover.
    exists l', w'. set_solver.
Qed.

Lemma linked_unlock l p w :
  (l, p, w) ∈ g_held g -> map_Forall (fun _ x => x.1 <> p) (g_fds g) ->
  linked (set_rw (<[l := filter (fun x => x.1 <> i) (holders (s_rw s) l)]> (s_rw s)) s) socks
    (<[i := set_held (filter (fun x => x.1.1 <> l) (g_held g)) g]> gs).
Proof.
  intros Hl Hfds. pose proof Hlk as []. constructor; keep_clauses Hg.
  - apply held_ok_unlock; [done|apply lookup_part].
  - apply paths_ok_upd; [done|]. intros l' q w' [_ Hin]%list_elem_of_filter. by eapply my_path.
  - by apply excl_ok_unlock.
  - apply cover_ok_upd; [done|]. intros fd q v Hfd.
    pose proof (my_cover fd q v Hfd) as (l' & w' & Hin & Hw). exists l', w'. split; [|done].
    apply list_elem_of_filter. split; [|done]. simpl. intros ->.
    apply my_path in Hl, Hin. apply Hfds in Hfd. simpl in Hfd. congruence.
Qed.

Lemma linked_open f p w :
  s_fds s !! f = None -> (exists l w', (l, p, w') ∈ g_held g /\ (w = true -> w' = true)) ->
  linked (set_sfds (<[f := KFile i p w]> (s_fds s)) s) socks (<[i := with_fd f p w g]> gs).
Proof.
  intros Hf Hcov. pose proof Hlk as []. constructor; keep_clauses Hg.
  - apply fds_ok_open; [done|done|apply lookup_part].
  - apply cover_ok_upd; [done|]. intros fd q v.
    destruct (decide (fd = f)) as [->|].
    + rewrite lookup_insert_eq. by intros [= <- <-].
    + rewrite lookup_insert_ne by done. apply my_cover.
  - rewrite list_insert_id by apply lookup_part. by apply sock_ok_open.
Qed.

Lemma my_open f : s_fds s !! f = None -> g_fds g !! f = None.
Proof.
  intros Hf. destruct (g_fds g !! f) as [[p w]|] eqn:E; [|done].
  pose proof (proj2 (lk_fds _ _ _ Hlk f i p w)) as H.
  rewrite H in Hf; [done|]. exists (g_fds g). split; [apply lookup_part|done].
Qed.

Lemma my_sock : g_sock g = true -> s_fds s !! sock = Some (KSock i).
Proof.
  intros Hs. apply (lk_sock _ _ _ Hlk). apply lookup_zip_with_Some.
  exists sock, true. split; [done|]. split; [done|]. by rewrite lookup_part, Hs.
Qed.

Lemma linked_close fd x :
  g_fds g !! fd = Some x ->
  linked (set_sfds (delete fd (s_fds s)) s) socks (<[i := set_fds (delete fd (g_fds g)) g]> gs).
Proof.
  intros Hfd. pose proof Hlk as []. destruct x as [p w].
  assert (s_fds s !! fd = Some (KFile i p w)).
  { apply lk_fds0. exists (g_fds g). split; [apply lookup_part|done]. }
  constructor; keep_clauses Hg.
  - eapply fds_ok_close; [done|apply lookup_part|done].
  - apply cover_ok_upd; [done|]. intros fd' q v [_ Hfd']%lookup_delete_Some. by eapply my_cover.
  - rewrite list_insert_id by apply lookup_part. by eapply sock_ok_close.
Qed.

Lemma linked_close_sock :
  g_sock g = true ->
  linked (set_sfds (delete sock (s_fds s)) s) socks (<[i := set_sock false g]> gs).
Proof.
  intros Hs. pose proof Hlk as []. pose proof (my_sock Hs). constructor; keep_clauses Hg.
  - rewrite list_insert_id by apply lookup_part. by eapply fds_ok_sock.
  - eapply sock_ok_close_sock; [done|done|]. by rewrite lookup_part, Hs.
Qed.

Lemma linked_fopen fp a :
  s_fps s !! fp = None -> (a = true -> g_mutex g = Some LogMutex) ->
  linked (set_sfps (<[fp := (i, a)]> (s_fps s)) s) socks
    (<[i := set_fps (<[fp := a]> (g_fps g)) g]> gs).
Proof.
  intros Hf Ha. pose proof Hlk as []. constructor; keep_clauses Hg.
  - apply fps_ok_open; [done|done|apply lookup_part].
  - apply append_ok_upd; [done|]. intros fp'. destruct (decide (fp' = fp)) as [->|].
    + rewrite lookup_insert_eq. intros [= ->]. by apply Ha.
    + rewrite lookup_insert_ne by done. apply my_append.
Qed.

Lemma my_fopen fp : s_fps s !! fp = None -> g_fps g !! fp = None.
Proof.
  intros Hf. destruct (g_fps g !! fp) as [a|] eqn:E; [|done].
  pose proof (proj2 (lk_fps _ _ _ Hlk fp i a)) as H.
  rewrite H in Hf; [done|]. exists (g_fps g). split; [apply lookup_part|done].
Qed.

Lemma linked_fclose fp a :
  g_fps g !! fp = Some a ->
  linked (set_sfps (delete fp (s_fps s)) s) socks (<[i := set_fps (delete fp (g_fps g)) g]> gs).
Proof.
  intros Hf. pose proof Hlk as []. constructor; keep_clauses Hg.
  - eapply fps_ok_close; [done|apply lookup_part|done].
  - apply append_ok_upd; [done|]. intros fp' [_ Hf']%lookup_delete_Some. by eapply my_append.
Qed.

End events.

Lemma linked_id s socks gs i g :
  linked s socks gs -> gs !! i = Some g -> linked s socks (<[i := g]> gs).
Proof. intros Hlk Hg. by rewrite list_insert_id. Qed.

Lemma rw_linked s socks gs i g sock w l r s' :
  linked s socks gs -> gs !! i = Some g -> socks !! i = Some sock -> lock_pre l g -> rw_step i w l r s s' ->
  exists g', lock_post w l r g g' /\ linked s' socks (<[i := g']> gs).
Proof.
  intros Hlk Hg Hs (_ & p & Hk & _) Hst. unfold rw_step in Hst. unfold lock_post.
  destruct (r =? 0); [|subst s'; exists g; split; [done|by apply linked_id]].
  destruct Hst as [Hcan ->]. exists (set_held ((l, p, w) :: g_held g) g).
  split; [by exists p|]. by eapply linked_lock.
Qed.

(** An event allowed by the discipline, answered by the shared state: the
    answer is within the contract and the invariant holds afterwards. *)
Lemma event_linked s socks gs i g sock e r s' :
  linked s socks gs -> gs !! i = Some g -> socks !! i = Some sock ->
  pre sock e g -> estep i e r s s' ->
  exists g', post sock e r g g' /\ linked s' socks (<[i := g']> gs).
Proof.
  intros Hlk Hg Hs Hpre Hst.
  destruct e; simpl in Hpre, Hst;
    try (subst s'; exists g; split; [done|by apply linked_id]);
    try (destruct Hst as [-> Hr]; exists g; split; [by split|by apply linked_id]).
  - destruct r as [e|f]; [subst s'; exists g; split; [done|by apply linked_id]|].
    destruct Hst as [Hf ->]. eexists. split.
    + repeat split; [|by eapply my_open]. intros Hsk ->.
      rewrite (my_sock _ _ _ _ _ _ Hlk Hg Hs Hsk) in Hf. done.
    + eapply linked_open; [done..|]. destruct fl; simpl in Hpre.
      * destruct Hpre as (l & w & Hl). exists l, w. by split.
      * destruct Hpre as (l & Hl). exists l, true. by split.
  - subst s'. eexists. split; [done|]. destruct (bool_decide_reflect (fd = sock)) as [->|].
    + by eapply linked_close_sock; [..|apply Hpre].
    + destruct Hpre as (p & w & Hfd & _). by eapply linked_close.
  - destruct r as [e|fp]; [subst s'; exists g; split; [done|by apply linked_id]|].
    destruct Hst as [Hf ->]. eexists. split; [split; [by eapply my_fopen|done]|]. by eapply linked_fopen.
  - subst s'. destruct Hpre as [a Ha]. eexists. split; [done|]. by eapply linked_fclose.
  - destruct Hst as [Hfree ->]. eexists. split; [done|].
    apply (linked_mutex_lock _ _ _ _ g); [done..| |done]. by destruct m; [|destruct Hpre].
  - subst s'. eexists. split; [done|]. destruct Hpre. by eapply linked_mutex_unlock.
  - destruct Hst as [-> ->]. eexists. split; [split; [apply Hlk|split; [|done]]|by eapply linked_get_map].
    intros l p w. by eapply my_path.
  - destruct Hst as (Hl & _ & ->), Hpre as (Hm & Hp & m & Hsn & Hpm). eexists. split.
    + split; [|by exists m].
      destruct (g_known g !! r) as [q|] eqn:E; [|done].
      eapply my_known in E; [|done..]. by rewrite map_of_None in E.
    + by eapply linked_push.
  - by eapply rw_linked.
  - by eapply rw_linked.
  - subst s'. destruct Hpre as (p & w & Hin & Hfd). eexists. split; [done|]. by eapply linked_unlock.
Qed.

Lemma lookup_snoc_Some_inv {A} (l : list A) x j y :
  (l ++ [x]) !! j = Some y -> l !! j = Some y \/ (j = length l /\ y = x).
Proof.
  intros [H|[Hge H]]%lookup_app_Some; [by left|]. right.
  apply list_lookup_singleton_Some in H as [Hj ->]. split; [lia|done].
Qed.

Lemma linked_accept s socks gs fd :
  linked s socks gs -> s_fds s !! fd = None ->
  linked (set_sfds (<[fd := KSock (length gs)]> (s_fds s)) s) (socks ++ [fd]) (gs ++ [fresh]).
Proof.
  intros [] Hfd.
  constructor; simpl; rewrite ?fmap_app; simpl; try done.
  - rewrite !length_app. simpl. lia.
  - intros m i. rewrite (lk_mutex0 m i). split; [intros; by apply lookup_app_l_Some|].
    intros [?|[_ ?]]%lookup_snoc_Some_inv; done.
  - intros i m mu [H|[_ H]]%lookup_snoc_Some_inv; [by eapply lk_snap0|done].
  - intros i k [H|[_ ->]]%lookup_snoc_Some_inv; [by eapply lk_known0|apply map_empty_subseteq].
  - intros l i w. rewrite (lk_held0 l i w). split.
    + intros (h & p & Hh & Hin). exists h, p. split; [by apply lookup_app_l_Some|done].
    + intros (h & p & [Hh|[_ ->]]%lookup_snoc_Some_inv & Hin); [eauto|set_solver].
  - intros i h l p w [H|[_ ->]]%lookup_snoc_Some_inv; [by eapply lk_paths0|set_solver].
  - intros fd' i p w. split.
    + destruct (decide (fd' = fd)) as [->|]; [by rewrite lookup_insert_eq|].
      rewrite lookup_insert_ne by done. intros (x & Hx & Hl)%lk_fds0. exists x.
      split; [by apply lookup_app_l_Some|done].
    + intros (x & [Hx|[_ ->]]%lookup_snoc_Some_inv & Hl); [|done].
      assert (s_fds s !! fd' = Some (KFile i p w)) by (apply lk_fds0; eauto).
      rewrite lookup_insert_ne by congruence. done.
  - intros i x h fd' p w [H|[_ [= -> ->]]]%lookup_snoc_Some_inv; [by eapply lk_cover0|done].
  - intros i fd' H. rewrite zip_with_app in H by (by rewrite length_fmap).
    apply lookup_snoc_Some_inv in H as [H|[-> [= ->]]].
    + apply lk_sock0 in H. rewrite lookup_insert_ne by congruence. done.
    + rewrite length_zip_with, length_fmap, lk_len0, Nat.min_id. apply lookup_insert_eq.
  - intros fp i a. rewrite (lk_fps0 fp i a). split.
    + intros (x & Hx & Hin). exists x. split; [by apply lookup_app_l_Some|done].
    + intros (x & [Hx|[_ ->]]%lookup_snoc_Some_inv & Hin); [eauto|done].
  - intros i x mu fp [H|[_ [= -> ->]]]%lookup_snoc_Some_inv; [by eapply lk_append0|done].
Qed.

(** * Reachable pools *)

Lemma inv_init : inv init.
Proof.
  exists []. split; [|constructor]. constructor; simpl; try done.
  - repeat split; constructor.
  - intros [] i; rewrite lookup_nil; done.
  - intros l i w. unfold holders. rewrite lookup_empty. simpl. split; [set_solver|].
    intros (h & p & Hh & _). by rewrite lookup_nil in Hh.
  - intros l i w j w'. unfold holders. rewrite lookup_empty. set_solver.
  - intros fd i p w. rewrite lookup_empty. split; [done|]. by intros (x & Hx & _).
  - intros fp i a. rewrite lookup_empty. split; [done|]. by intros (x & Hx & _).
Qed.

Lemma fresh_ready : ready fresh.
Proof. repeat split. Qed.

Section reach.
Context (fuel : nat) (lp dir : bytes).
Hypothesis dir_ok : c_string dir.

Lemma inv_step P P' : inv P -> step fuel lp dir P P' -> inv P'.
Proof.
  intros (gs & Hlk & Hok) Hst. destruct Hst as [s s' ts i t e k r Ht Hp He|s ts fd client Hfd];
    simpl in *.
  - destruct (Forall2_lookup_l _ _ _ _ _ Hok Ht) as (g & Hg & Hwp).
    unfold thread_ok in Hwp. rewrite Hp in Hwp. destruct Hwp as [Hpre Hk].
    assert ((t_sock <$> ts) !! i = Some (t_sock t)) as Hs by (by rewrite list_lookup_fmap, Ht).
    destruct (event_linked _ _ _ _ _ _ _ _ _ Hlk Hg Hs Hpre He) as (g' & Hpost & Hlk').
    exists (<[i := g']> gs). split; simpl.
    + erewrite list_fmap_insert, list_insert_id; [done|]. by rewrite list_lookup_fmap, Ht.
    + apply Forall2_insert; [done|]. by apply Hk.
  - exists (gs ++ [fresh]). split; simpl.
    + rewrite fmap_app. simpl. replace (length ts) with (length gs); [by apply linked_accept|].
      symmetry. by eapply Forall2_length.
    + apply Forall2_app; [done|]. constructor; [|constructor].
      eapply wp_mono; [|apply (client_thread_safe fd fuel lp dir client 0 fresh dir_ok fresh_ready)].
      by intros [] h'.
Qed.

Lemma inv_reachable P : reachable fuel lp dir P -> inv P.
Proof.
  apply (rtc_ind_r inv); [apply inv_init|]. intros y z _ Hst Hy. by eapply inv_step.
Qed.

End reach.

(** * What the invariant gives *)

Lemma map_of_unique reg l l' p :
  wf_registry reg -> map_of reg !! l = Some p -> map_of reg !! l' = Some p -> l = l'.
Proof.
  intros (_ & Hp & _) H H'. apply elem_of_list_to_map_2, list_elem_of_fmap in H as (x & [= -> ->] & Hx).
  apply elem_of_list_to_map_2, list_elem_of_fmap in H' as (x' & [= -> Hpp] & Hx').
  apply list_elem_of_lookup in Hx as [i Hi], Hx' as [j Hj].
  assert (i = j) as ->; [|congruence].
  eapply (NoDup_lookup _ _ _ (fe_path x) Hp); rewrite list_lookup_fmap; [by rewrite Hi|by rewrite Hj, Hpp].
Qed.

Lemma map_of_c_string reg l p : wf_registry reg -> map_of reg !! l = Some p -> c_string p.
Proof.
  intros (_ & _ & Hc) H. apply elem_of_list_to_map_2, list_elem_of_fmap in H as (x & [= -> ->] & Hx).
  rewrite Forall_forall in Hc. by apply Hc.
Qed.

(** A descriptor of thread [i] on [p] means thread [i] holds a lock of [p]. *)
Lemma linked_fd s socks gs fd i p w :
  linked s socks gs -> s_fds s !! fd = Some (KFile i p w) ->
  exists l w', (i, w') ∈ holders (s_rw s) l /\ map_of (s_reg s) !! l = Some p /\ (w = true -> w' = true).
Proof.
  intros Hlk Hfd. apply (lk_fds _ _ _ Hlk) in Hfd as (x & Hx & Hl).
  apply list_lookup_fmap_Some in Hx as (g & -> & Hg).
  destruct (my_cover _ _ _ _ _ Hlk Hg _ _ _ Hl) as (l & w' & Hin & Hw).
  exists l, w'. split; [|split; [by eapply my_path|done]].
  apply (lk_held _ _ _ Hlk). exists (g_held g), p. split; [|done]. by rewrite list_lookup_fmap, Hg.
Qed.

End Pool.
