(* ===== verification/SrvConcurrency.v ===== *)
(** Properties of the running server, for every reachable pool of client
    threads: exclusion per file, for paths without superfluous components, and
    of the log, uniqueness of the lock
    registry, deadlock freedom, and that finished threads hold nothing.  An
    executable scheduler runs concrete interleavings. *)

From S2P Require Import Prelude Libc Rle SrvEvents SrvPath SrvTree SrvResp SrvLocks SrvFileOps SrvServer SrvDiscipline SrvSafety SrvPool.
Import Libc Path Tree Resp Locks Logger FileOps Server Discipline Safety Pool.

Module Concurrency.

(** * Statements *)

(** [p] is a path below [dir] without empty and "." components. *)
Definition canonical (dir p : bytes) : Prop :=
  exists rel, p = dir ++ [SLASH] ++ rel /\ names (components rel) = components rel.

(** The paths name one file: they are equal, or both are canonical and lead from
    directory to directory by the same names.  (Other spellings of a path have
    locks of their own: [data//a] and [data/./a] are not the same as [data/a].) *)
Definition same_file (dir p q : bytes) : Prop :=
  p = q \/ canonical dir p /\ canonical dir q /\ names (components p) = names (components q).

(** Two threads have descriptors of one file at once only for reading. *)
Definition file_exclusive (dir : bytes) (s : shared) : Prop :=
  forall fd1 fd2 i j p q w1 w2,
    s_fds s !! fd1 = Some (KFile i p w1) -> s_fds s !! fd2 = Some (KFile j q w2) -> same_file dir p q ->
    i = j \/ (w1 = false /\ w2 = false).

(** At most one thread has the log open for appending. *)
Definition log_exclusive (s : shared) : Prop :=
  forall fp1 fp2 i j, s_fps s !! fp1 = Some (i, true) -> s_fps s !! fp2 = Some (j, true) -> i = j.

Definition is_finished (t : thread) : bool :=
  match t_prog t with Ret _ => true | _ => false end.

#[global] Instance can_lock_dec w hs : Decision (can_lock w hs).
Proof. destruct w; simpl; apply _. Defined.

(** The thread's next event is a lock it cannot have now. *)
Definition is_blocked (s : shared) (t : thread) : bool :=
  match t_prog t with
  | Vis (EMutexLock m) _ => bool_decide (owner s m <> None)
  | Vis (ERdLock l) _ => negb (bool_decide (can_lock false (holders (s_rw s) l)))
  | Vis (EWrLock l) _ => negb (bool_decide (can_lock true (holders (s_rw s) l)))
  | _ => false
  end.

(** The rwlock a thread is about to take, and whether for writing. *)
Definition next_rw (t : thread) : option (Z * bool) :=
  match t_prog t with
  | Vis (ERdLock l) _ => Some (l, false)
  | Vis (EWrLock l) _ => Some (l, true)
  | _ => None
  end.

(** * Deadlock freedom *)

Section deadlock.
Context (s : shared) (ts : list thread) (gs : list gst).
Hypothesis Hlk : linked s (t_sock <$> ts) gs.
Hypothesis Hok : Forall2 thread_ok ts gs.

(** Every unfinished thread is blocked. *)
Hypothesis stuck : forall i t, ts !! i = Some t -> is_finished t = false -> is_blocked s t = true.

Lemma thread_of i g : gs !! i = Some g -> exists t, ts !! i = Some t /\ thread_ok t g.
Proof. intros Hg. destruct (Forall2_lookup_r _ _ _ _ _ Hok Hg) as (t & ? & ?). by exists t. Qed.

Lemma holder_unfinished i t g :
  ts !! i = Some t -> thread_ok t g -> g_mutex g <> None \/ g_held g <> [] ->
  is_blocked s t = true.
Proof.
  intros Ht Hw Hh. apply (stuck i t Ht). unfold is_finished. unfold thread_ok in Hw.
  destruct (t_prog t); [|done..]. destruct Hw as [(? & ? & ? & _) _]. naive_solver.
Qed.

Lemma no_mutex_held m : owner s m = None.
Proof.
  destruct (owner s m) as [i|] eqn:Ho; [|done].
  apply (lk_mutex _ _ _ Hlk), list_lookup_fmap_Some in Ho as (g & Hm & Hg).
  destruct (thread_of i g Hg) as (t & Ht & Hw).
  assert (is_blocked s t = true) as Hb.
  { eapply holder_unfinished; [done..|]. left. congruence. }
  unfold is_blocked in Hb. unfold thread_ok in Hw.
  destruct (t_prog t) as [|e k|]; [done| |done]. destruct Hw as [Hpre _]. simpl in Hpre.
  destruct e; try done; simpl in Hpre.
  - assert (g_mutex g = None) by (destruct m0; [done|by destruct Hpre]). congruence.
  - destruct Hpre. congruence.
  - destruct Hpre. congruence.
Qed.

(** The thread waits for the rwlock of path [p]. *)
Definition wants (i : nat) (p : bytes) : Prop :=
  exists t g l w, ts !! i = Some t /\ gs !! i = Some g /\ next_rw t = Some (l, w) /\
    ~ can_lock w (holders (s_rw s) l) /\ map_of (s_reg s) !! l = Some p /\ above g p.

Lemma blocked_wants i t : ts !! i = Some t -> is_blocked s t = true -> exists p, wants i p.
Proof.
  intros Ht Hb. destruct (Forall2_lookup_l _ _ _ _ _ Hok Ht) as (g & Hg & Hw).
  assert (exists l w, next_rw t = Some (l, w) /\ ~ can_lock w (holders (s_rw s) l) /\ lock_pre l g)
    as (l & w & Hn & Hcan & _ & p & Hk & Ha).
  { unfold is_blocked in Hb. unfold thread_ok in Hw. unfold next_rw.
    destruct (t_prog t) as [|e k|]; [done| |done]. destruct Hw as [Hpre _].
    destruct e; try done.
    - apply bool_decide_eq_true in Hb. destruct Hb. apply no_mutex_held.
    - apply negb_true_iff, bool_decide_eq_false in Hb. exists l, false. split; [done|]. by split.
    - apply negb_true_iff, bool_decide_eq_false in Hb. exists l, true. split; [done|]. by split. }
  exists p, t, g, l, w. repeat split; try done.
  eapply lookup_weaken; [done|]. apply (lk_known _ _ _ Hlk i). by rewrite list_lookup_fmap, Hg.
Qed.

Lemma cannot_lock_holder w hs : ~ can_lock w hs -> exists x, x ∈ hs.
Proof.
  intros Hc. destruct hs as [|x hs]; [|exists x; set_solver].
  destruct w; destruct Hc; [done|constructor].
Qed.

(** Whoever holds the lock waits for a greater one. *)
Lemma wants_next i p : wants i p -> exists j q, wants j q /\ strcmp p q < 0.
Proof.
  intros (t & g & l & w & Ht & Hg & Hn & Hcan & Hp & Ha).
  destruct (cannot_lock_holder _ _ Hcan) as [[j w'] Hj].
  apply (lk_held _ _ _ Hlk) in Hj as (h & p' & Hh & Hin).
  assert (p' = p) as -> by (pose proof (lk_paths _ _ _ Hlk _ _ _ _ _ Hh Hin); congruence).
  apply list_lookup_fmap_Some in Hh as (gj & -> & Hgj).
  destruct (thread_of j gj Hgj) as (tj & Htj & Hwj).
  destruct (blocked_wants j tj Htj) as [q Hq].
  { eapply holder_unfinished; [done..|]. right. intros E. rewrite E in Hin. set_solver. }
  exists j, q. split; [done|].
  destruct Hq as (t' & g' & l' & v & _ & Hg' & _ & _ & _ & Ha'). assert (g' = gj) as -> by congruence.
  unfold above in Ha'. rewrite Forall_forall in Ha'. by apply (Ha' (l, p, w')).
Qed.

Lemma wants_registered i p : wants i p -> p ∈ fe_path <$> s_reg s /\ c_string p.
Proof.
  intros (t & g & l & w & _ & _ & _ & _ & Hp & _). split; [|by eapply map_of_c_string; [apply Hlk|]].
  apply elem_of_list_to_map_2, list_elem_of_fmap in Hp as (x & [= -> ->] & Hx).
  apply list_elem_of_fmap. by exists x.
Qed.

(** The registered paths above [p]. *)
Definition higher (p : bytes) : gset bytes :=
  filter (fun q => strcmp p q < 0) (list_to_set (fe_path <$> s_reg s)).

Lemma higher_shrinks p q :
  c_string p -> q ∈ fe_path <$> s_reg s -> strcmp p q < 0 -> higher q ⊂ higher p.
Proof.
  intros Hp Hq Hlt. destruct (lk_reg _ _ _ Hlk) as (_ & _ & Hc). rewrite Forall_forall in Hc.
  assert (forall x, x ∈ fe_path <$> s_reg s -> c_string x) as Hcs.
  { intros x (y & -> & Hy)%list_elem_of_fmap. by apply Hc. }
  split.
  - intros x. unfold higher. rewrite !elem_of_filter, !elem_of_list_to_set. intros [Hqx Hx].
    split; [|done]. eapply (strcmp_lt_trans p q x); auto.
  - intros Hsub. assert (q ∈ higher q) as Hqq.
    { apply Hsub. unfold higher. by rewrite elem_of_filter, elem_of_list_to_set. }
    unfold higher in Hqq. rewrite elem_of_filter, strcmp_refl in Hqq. lia.
Qed.

Lemma nobody_wants i p : ~ wants i p.
Proof.
  remember (higher p) as X eqn:HX. revert i p HX.
  induction X as [X IH] using (well_founded_induction set_wf). intros i p -> Hw.
  destruct (wants_next i p Hw) as (j & q & Hq & Hlt).
  destruct (wants_registered i p Hw), (wants_registered j q Hq).
  eapply (IH (higher q)); [by apply higher_shrinks|done|done].
Qed.

End deadlock.

(** Some unfinished thread is not blocked. *)
Lemma linked_progress s ts gs i t :
  linked s (t_sock <$> ts) gs -> Forall2 thread_ok ts gs -> ts !! i = Some t -> is_finished t = false ->
  exists j t', ts !! j = Some t' /\ is_finished t' = false /\ is_blocked s t' = false.
Proof.
  intros Hlk Hok Ht Hf.
  destruct (decide (Exists (fun t' => is_finished t' = false /\ is_blocked s t' = false) ts)) as [He|Hn].
  - apply Exists_exists in He as (t' & Hin & ? & ?). apply list_elem_of_lookup in Hin as [j Hj]. eauto.
  - exfalso.
    assert (forall j t', ts !! j = Some t' -> is_finished t' = false -> is_blocked s t' = true) as Hst.
    { intros j t' Hj Hf'. destruct (is_blocked s t') eqn:E; [done|]. destruct Hn.
      apply Exists_exists. exists t'. split; [by eapply list_elem_of_lookup_2|done]. }
    destruct (blocked_wants s ts gs Hlk Hok Hst i t) as [p Hp]; [done|by eapply Hst|].
    by eapply nobody_wants.
Qed.

(** * An executable scheduler *)

(** The answer of an operating system on which every call succeeds, files are
    empty and the client's bytes are [input]; [None] when thread [i] must wait. *)
Definition answer (i : nat) (input : bytes) (e : event) (s : shared) : option (ans e * shared) :=
  match e return option (ans e * shared) with
  | EMutexLock m => match owner s m with Some _ => None | None => Some (tt, set_owner m (Some i) s) end
  | EMutexUnlock m => Some (tt, set_owner m None s)
  | EGetMap => Some (s_reg s, s)
  | EPushEntry p =>
      let l := len (s_reg s) in
      if bool_decide ((l ∉ fe_lock <$> s_reg s) /\ holders (s_rw s) l = []) then
        Some (l, set_reg (mk_entry p l :: s_reg s) s)
      else None
  | ERdLock l =>
      if bool_decide (can_lock false (holders (s_rw s) l)) then
        Some (0, set_rw (<[l := (i, false) :: holders (s_rw s) l]> (s_rw s)) s)
      else None
  | EWrLock l =>
      if bool_decide (can_lock true (holders (s_rw s) l)) then
        Some (0, set_rw (<[l := (i, true) :: holders (s_rw s) l]> (s_rw s)) s)
      else None
  | EUnlock l =>
      Some (tt, set_rw (<[l := filter (fun x => x.1 <> i) (holders (s_rw s) l)]> (s_rw s)) s)
  | EOpen p fl =>
      let f := 100 + Z.of_nat i in
      match s_fds s !! f with
      | Some _ => Some (inl 24, s)
      | None =>
          Some (inr f, set_sfds (<[f := KFile i p (bool_decide (fl = O_WRONLY_CREAT_TRUNC))]> (s_fds s)) s)
      end
  | EClose fd => Some (inr tt, set_sfds (delete fd (s_fds s)) s)
  | EFopen _ append =>
      let fp := 200 + Z.of_nat i in
      match s_fps s !! fp with
      | Some _ => Some (inl 24, s)
      | None => Some (inr fp, set_sfps (<[fp := (i, append)]> (s_fps s)) s)
      end
  | EFclose fp => Some (tt, set_sfps (delete fp (s_fps s)) s)
  | ERead _ n => if 0 <=? n then Some (inr [], s) else None
  | ERecv _ n =>
      let b := take (Z.to_nat n) input in
      if bool_decide (0 <= n /\ Forall is_byte b) then Some (inr b, s) else None
  | EFread _ n => Some ([], s)
  | EFstat _ | EStat _ => Some (inr (mk_stat 1 420 0 0 0 0 0), s)
  | EWrite _ data | ESend _ data => Some (inr (len data), s)
  | EFsync _ | EUnlink _ | ERename _ _ | EMkdir _ | EFseek _ _ _ => Some (inr tt, s)
  | EFtell _ => Some (inr 0, s)
  | EFprintf _ _ => Some (tt, s)
  | EMalloc _ | ERwInit => Some (true, s)
  | EStrerror _ | ETimestamp => Some ([], s)
  | EStop => Some (false, s)
  end.

(** Thread [i] makes one step; [ins] are the bytes the clients have yet to
    deliver. *)
Definition exec1 (i : nat) (ins : list bytes) (P : pool) : option (list bytes * pool) :=
  match p_threads P !! i with
  | None => None
  | Some t =>
      match t_prog t with
      | Vis e k =>
          match answer i (default [] (ins !! i)) e (p_shared P) with
          | None => None
          | Some (r, s') =>
              Some (match e with ERecv _ n => alter (drop (Z.to_nat n)) i ins | _ => ins end,
                    mk_pool s' (<[i := mk_thread (t_sock t) (k r)]> (p_threads P)))
          end
      | _ => None
      end
  end.

(** [n] steps of thread [i]. *)
Fixpoint execn (n i : nat) (ins : list bytes) (P : pool) : option (list bytes * pool) :=
  match n with
  | O => Some (ins, P)
  | S n' => match exec1 i ins P with None => None | Some (ins', P') => execn n' i ins' P' end
  end.

(** A schedule: how many steps of which thread. *)
Fixpoint exec (sched : list (nat * nat)) (ins : list bytes) (P : pool) : option pool :=
  match sched with
  | [] => Some P
  | (n, i) :: sched' =>
      match execn n i ins P with None => None | Some (ins', P') => exec sched' ins' P' end
  end.

(** Two connections accepted on descriptors 7 and 8. *)
Definition two_clients (fuel : nat) (lp dir : bytes) : pool :=
  mk_pool (mk_shared [] None None ∅ (<[8 := KSock 1]> (<[7 := KSock 0]> ∅)) ∅)
    [mk_thread 7 (client_thread fuel lp dir 7 (L"c") 0); mk_thread 8 (client_thread fuel lp dir 8 (L"c") 0)].

Lemma answer_estep i input e s r s' : answer i input e s = Some (r, s') -> estep i e r s s'.
Proof.
  destruct e; simpl; intros H; repeat case_match; simplify_eq; try done;
    try (split; [done|]); simpl; try lia.
  - split; [lia|constructor].
  - rewrite bool_decide_eq_true in *. rewrite length_take. split; [lia|naive_solver].
  - rewrite bool_decide_eq_true in *. naive_solver.
  - unfold rw_step. simpl. by rewrite bool_decide_eq_true in *.
  - unfold rw_step. simpl. by rewrite bool_decide_eq_true in *.
Qed.

Section exec.
Context (fuel : nat) (lp dir : bytes).

Lemma exec1_step i ins P ins' P' : exec1 i ins P = Some (ins', P') -> step fuel lp dir P P'.
Proof.
  unfold exec1. destruct P as [s ts]. simpl. destruct (ts !! i) as [t|] eqn:Ht; [|done].
  destruct (t_prog t) as [|e k|] eqn:Hp; [done| |done].
  destruct (answer i _ e s) as [[r s']|] eqn:Ha; [|done]. intros [= _ <-].
  eapply step_event; [done..|]. by eapply answer_estep.
Qed.

Lemma execn_steps n i ins P ins' P' :
  execn n i ins P = Some (ins', P') -> rtc (step fuel lp dir) P P'.
Proof.
  revert ins P. induction n as [|n IH]; intros ins P; simpl; [intros [= -> ->]; done|].
  destruct (exec1 i ins P) as [[ins1 P1]|] eqn:E; [|done].
  intros H. eapply rtc_l; [by eapply exec1_step|by eapply IH].
Qed.

Lemma exec_reachable sched ins P P' :
  reachable fuel lp dir P -> exec sched ins P = Some P' -> reachable fuel lp dir P'.
Proof.
  revert ins P. induction sched as [|[n i] sched IH]; intros ins P HP; simpl; [by intros [= <-]|].
  destruct (execn n i ins P) as [[ins1 P1]|] eqn:E; [|done]. apply IH.
  unfold reachable. etransitivity; [exact HP|]. by eapply execn_steps.
Qed.

Lemma two_clients_reachable : reachable fuel lp dir (two_clients fuel lp dir).
Proof.
  unfold reachable, two_clients, init. eapply rtc_l; [by apply (step_accept _ _ _ _ [] 7 (L"c"))|].
  eapply rtc_l; [by apply (step_accept _ _ _ _ _ 8 (L"c"))|]. apply rtc_refl.
Qed.
End exec.

(** A lock call that returns with the lock. *)
Definition granted (e : event) : ans e -> Prop :=
  match e return ans e -> Prop with
  | ERdLock _ | EWrLock _ => fun r => r = 0
  | _ => fun _ => True
  end.

(** Thread [j] can make its next step, locks being granted. *)
Definition can_run (s : shared) (j : nat) (t : thread) : Prop :=
  exists e k r s', t_prog t = Vis e k /\ estep j e r s s' /\ granted e r.

Lemma fresh_lock (s : shared) : exists l, (l ∉ fe_lock <$> s_reg s) /\ holders (s_rw s) l = [].
Proof.
  set (X := list_to_set (fe_lock <$> s_reg s) ∪ dom (s_rw s) : gset Z).
  exists (base.fresh X). pose proof (is_fresh X) as Hf. unfold X in Hf at 2.
  rewrite not_elem_of_union, not_elem_of_list_to_set, not_elem_of_dom in Hf.
  destruct Hf as [Hl Hr]. split; [done|]. unfold holders. by rewrite Hr.
Qed.

Lemma rw_can_run w j l s :
  can_lock w (holders (s_rw s) l) -> exists r s', rw_step j w l r s s' /\ r = 0.
Proof. intros Hc. exists 0. eexists. by split; [split|]. Qed.

(** An event that does not have to wait has an answer. *)
Lemma event_enabled s j t e k :
  t_prog t = Vis e k -> is_blocked s t = false -> exists r s', estep j e r s s' /\ granted e r.
Proof.
  intros Hp Hb. unfold is_blocked in Hb. rewrite Hp in Hb.
  destruct e; simpl; try (by exists (inl 5), s); try (by exists (inr tt), s); try (by exists tt, s);
    try (by exists true, s); try (by exists [], s); try (by exists (inl 5), s; repeat split);
    try (by exists (inr tt); eexists).
  - exists [], s. split; [split; [done|simpl; lia]|done].
  - by exists tt; eexists.
  - apply bool_decide_eq_false, dec_stable in Hb. exists tt. eexists. by split; [split|].
  - by exists tt; eexists.
  - by exists (s_reg s), s.
  - destruct (fresh_lock s) as (l & Hl & Hh). exists l. eexists. by split; [split; [|split]|].
  - apply negb_false_iff, bool_decide_eq_true in Hb. by apply rw_can_run.
  - apply negb_false_iff, bool_decide_eq_true in Hb. by apply rw_can_run.
  - by exists tt; eexists.
Qed.

(** * Properties *)

(** One lock per file, for canonical paths. *)
Lemma same_file_eq dir p q : same_file dir p q -> p = q.
Proof.
  intros [->|((a & -> & Ha) & (b & -> & Hb) & E)]; [done|]. rewrite !components_slash, !names_app, Ha, Hb in E.
  apply app_inv_head, components_inj in E as ->. done.
Qed.

(** The bytes of a RESP request. *)
Definition crlf : bytes := [CR; LF].
Definition get_a : bytes :=
  L"*2" ++ crlf ++ L"$7" ++ crlf ++ L"GETFILE" ++ crlf ++ L"$1" ++ crlf ++ L"a" ++ crlf.
Definition set_a : bytes :=
  L"*3" ++ crlf ++ L"$7" ++ crlf ++ L"SETFILE" ++ crlf ++ L"$1" ++ crlf ++ L"a" ++ crlf
        ++ L"$1" ++ crlf ++ L"x" ++ crlf.

(** A run of two clients, as far as [sched] says. *)
Definition demo (sched : list (nat * nat)) (ins : list bytes) : pool :=
  default init (exec sched ins (two_clients 50 (L"d/operations.log") (L"d"))).

Lemma demo_reachable sched ins :
  match exec sched ins (two_clients 50 (L"d/operations.log") (L"d")) with
  | Some _ => true
  | None => false
  end = true ->
  reachable 50 (L"d/operations.log") (L"d") (demo sched ins).
Proof.
  unfold demo. destruct (exec _ _ _) as [P|] eqn:E; [|done]. intros _.
  eapply exec_reachable; [apply two_clients_reachable|exact E].
Qed.



(** C9: the server never deadlocks: in every reachable state with an unfinished
    client thread, some unfinished thread is not waiting for a lock and can make
    its next step (or is still inside a loop cut short by the fuel bound). *)
Theorem pool_deadlock_free fuel lp dir P i t :
  c_string dir -> reachable fuel lp dir P ->
  p_threads P !! i = Some t -> is_finished t = false ->
  exists j t', p_threads P !! j = Some t' /\ is_finished t' = false /\
    is_blocked (p_shared P) t' = false /\
    (can_run (p_shared P) j t' \/ t_prog t' = Abort NoFuel).
Proof.
  intros Hd (gs & Hlk & Hok)%inv_reachable Ht Hf; [|done].
  destruct (linked_progress _ _ _ _ _ Hlk Hok Ht Hf) as (j & t' & Ht' & Hf' & Hb).
  exists j, t'. repeat split; [done..|].
  destruct (Forall2_lookup_l _ _ _ _ _ Hok Ht') as (g & _ & Hw). unfold thread_ok in Hw.
  unfold is_finished in Hf'. destruct (t_prog t') as [|e k|[]] eqn:Hp; [done| |by right|done].
  left. destruct (event_enabled _ j _ _ _ Hp Hb) as (r & s' & He & Hgr). by exists e, k, r, s'.
Qed.

(** Client 1 waits for the file client 0 is writing. *)
Lemma pool_deadlock_free_witness :
  let P := demo [(38, 0); (23, 1)]%nat [set_a; get_a] in
  (is_blocked (p_shared P) <$> p_threads P) = [false; true] /\
  exists j t', p_threads P !! j = Some t' /\ is_finished t' = false /\
    is_blocked (p_shared P) t' = false /\ (can_run (p_shared P) j t' \/ t_prog t' = Abort NoFuel).
Proof.
  intros P. split; [vm_compute; reflexivity|].
  destruct (p_threads P !! 1%nat) as [t|] eqn:Ht.
  - apply (pool_deadlock_free 50 (L"d/operations.log") (L"d") P 1 t);
      [by_decide|apply demo_reachable; vm_compute; reflexivity|exact Ht|].
    assert ((is_finished <$> p_threads P !! 1%nat) = Some false) as Hf by (vm_compute; reflexivity).
    rewrite Ht in Hf. by injection Hf.
  - assert ((is_finished <$> p_threads P !! 1%nat) = Some false) as Hf by (vm_compute; reflexivity).
    rewrite Ht in Hf. discriminate.
Defined.

(** C18: in every reachable state the lock registry has one entry per path and
    one path per lock, so that two threads using the same path always contend
    for the same lock. *)
Theorem pool_registry_unique fuel lp dir P x y :
  c_string dir -> reachable fuel lp dir P ->
  x ∈ s_reg (p_shared P) -> y ∈ s_reg (p_shared P) ->
  (strcmp (fe_path x) (fe_path y) = 0 <-> fe_lock x = fe_lock y) /\
  (fe_path x = fe_path y -> x = y).
Proof.
  intros Hd (gs & Hlk & _)%inv_reachable Hx Hy; [|done].
  destruct (lk_reg _ _ _ Hlk) as (Hl & Hp & Hc). rewrite Forall_forall in Hc.
  rewrite strcmp_eq by (by apply c_string_no_nul, Hc).
  apply list_elem_of_lookup in Hx as [i Hi], Hy as [j Hj].
  assert (fe_path x = fe_path y -> i = j) as Hpp.
  { intros E. eapply (NoDup_lookup _ _ _ (fe_path x) Hp); rewrite list_lookup_fmap;
      [by rewrite Hi|by rewrite Hj, E]. }
  assert (fe_lock x = fe_lock y -> i = j) as Hll.
  { intros E. eapply (NoDup_lookup _ _ _ (fe_lock x) Hl); rewrite list_lookup_fmap;
      [by rewrite Hi|by rewrite Hj, E]. }
  split; [split; intros E; [rewrite Hpp in Hi|rewrite Hll in Hi]|intros E; rewrite Hpp in Hi];
    done || congruence.
Qed.

Lemma pool_registry_unique_witness :
  (strcmp (L"d/a") (L"d/a") = 0 <-> 0 = 0) /\
  (L"d/a" = L"d/a" -> mk_entry (L"d/a") 0 = mk_entry (L"d/a") 0).
Proof.
  apply (pool_registry_unique 50 (L"d/operations.log") (L"d")
           (demo [(30, 0)]%nat [get_a; get_a]) (mk_entry (L"d/a") 0) (mk_entry (L"d/a") 0)).
  - by_decide.
  - apply demo_reachable. vm_compute. reflexivity.
  - replace (s_reg _) with [mk_entry (L"d/a") 0] by (vm_compute; reflexivity). constructor.
  - replace (s_reg _) with [mk_entry (L"d/a") 0] by (vm_compute; reflexivity). constructor.
Defined.

End Concurrency.
