(* ===== verification/SrvPosix.v ===== *)
(** What the file server may rely on of a POSIX system, as a contract: a tree of
    directories and regular files in which paths are resolved component by
    component, descriptors with offsets, short reads and writes, interrupted
    calls, allocation failures, errors of every call, a client that sends bytes
    and may go away.  The file system has no links and no other process changes
    it; the number of calls that make no progress (EINTR, zero-byte writes) is
    finite.  The loops of the server terminate under this contract and do what
    they are for: making the directories of a path, whole-file reads and writes,
    sending, receiving. *)

From S2P Require Import Prelude Libc Rle SrvEvents SrvPath SrvTree SrvResp SrvLocks SrvFileOps SrvServer.
Import Libc Path Tree Resp Locks Logger FileOps Server.

Module Posix.

Record world := mk_world {
  w_tree : tree;                       (* files by location *)
  w_cwd : loc;                         (* the working directory *)
  w_nmax : Z;                          (* NAME_MAX *)
  w_fds : gmap Z (loc * Z);            (* open files: location and offset *)
  w_fps : gmap Z (loc * Z);            (* open streams: location and position *)
  w_in : bytes;                        (* what the client has yet to deliver *)
  w_out : bytes;                       (* what was sent to the client *)
  w_gone : bool;                       (* a send failed: the client is gone *)
  w_budget : nat;                      (* calls that may still make no progress *)
}.

Definition set_tree x h := mk_world x (w_cwd h) (w_nmax h) (w_fds h) (w_fps h) (w_in h) (w_out h) (w_gone h) (w_budget h).
Definition set_fds x h := mk_world (w_tree h) (w_cwd h) (w_nmax h) x (w_fps h) (w_in h) (w_out h) (w_gone h) (w_budget h).
Definition set_fps x h := mk_world (w_tree h) (w_cwd h) (w_nmax h) (w_fds h) x (w_in h) (w_out h) (w_gone h) (w_budget h).
Definition set_in x h := mk_world (w_tree h) (w_cwd h) (w_nmax h) (w_fds h) (w_fps h) x (w_out h) (w_gone h) (w_budget h).
Definition set_out x h := mk_world (w_tree h) (w_cwd h) (w_nmax h) (w_fds h) (w_fps h) (w_in h) x (w_gone h) (w_budget h).
Definition set_gone h := mk_world (w_tree h) (w_cwd h) (w_nmax h) (w_fds h) (w_fps h) (w_in h) (w_out h) true (w_budget h).
Definition set_budget x h := mk_world (w_tree h) (w_cwd h) (w_nmax h) (w_fds h) (w_fps h) (w_in h) (w_out h) (w_gone h) x.

(** * Paths *)

(** Absolute paths start at the root, others at the working directory. *)
Definition start (h : world) (p : bytes) : loc :=
  if bool_decide (head p = Some SLASH) then [] else w_cwd h.

(** The location components [cs] of path [p] lead to. *)
Definition resolve_as (cs : list bytes) (h : world) (p : bytes) : Z + loc :=
  if bool_decide (p = []) then inl ENOENT
  else if PATH_MAX <=? len p then inl ENAMETOOLONG
  else walk (w_nmax h) (w_tree h) (start h p) cs.

(** A path that ends in a slash must lead to a directory... *)
Definition resolve (h : world) (p : bytes) : Z + loc := resolve_as (components p) h p.

(** ...unless it names an entry that is created or renamed. *)
Definition entry (h : world) (p : bytes) : Z + loc := resolve_as (strip (components p)) h p.

(** What a path names. *)
Definition named (h : world) (p : bytes) : Z + node :=
  match resolve h p with
  | inl e => inl e
  | inr l => match w_tree h !! l with None => inl ENOENT | Some n => inr n end
  end.

(** Where [path_ensure_parent_dirs] and [open] put the file [p]. *)
Notation stores h p := (store (w_nmax h) (w_tree h) (start h p) (components p)).

(** [rename] of [s] to [d]: the tree it leaves, if it can be done. *)
Definition renamed (h : world) (s d : bytes) : option tree :=
  if proper_last (components s) && proper_last (components d) then
    match entry h s, entry h d with
    | inr ls, inr ld => rename_at (w_tree h) ls ld (slashed (components s) || slashed (components d))
    | _, _ => None
    end
  else None.

(** The call made no progress, which happens finitely often. *)
Definition stall (h h' : world) : Prop :=
  exists n, w_budget h = S n /\ h' = set_budget n h.

(** The position [fseek] computes, from the length of the file. *)
Definition seek_target (n off : Z) (w : whence) : Z :=
  match w with SEEK_SET => off | SEEK_END => n + off end.

(** [write] of [data] at [off] into a file. *)
Definition splice (b : bytes) (off : Z) (data : bytes) : bytes :=
  take (Z.to_nat off) b ++ data ++ drop (Z.to_nat off + length data) b.

(** [strerror] messages fit a reply line. *)
Definition message (s : bytes) : Prop :=
  no_nul s /\ Forall (fun c => c <> CR /\ c <> LF) s /\ len s <= 256.

(** [faulty] says whether the environment may fail for reasons other than the
    names of files: permissions, exhausted resources, I/O errors, allocation,
    locking, a client that disconnects, the stop signal. *)
Section contract.
Context (faulty : bool).

(** A failed call: EINTR stalls, any other error changes nothing. *)
Definition failed (e : Z) (h h' : world) : Prop :=
  if e =? EINTR then stall h h' else faulty = true /\ e <> ENOENT /\ h' = h.

(** A call that fails with [e] because of what path [p] names, or for another
    reason; ENOENT is reported exactly when the path names nothing. *)
Definition unnamed (e : Z) (h : world) (p : bytes) : Prop :=
  if e =? ENOENT then named h p = inl ENOENT
  else (exists e', named h p = inl e' /\ e' <> ENOENT) \/ faulty = true.

(** [open] with [O_CREAT], [fopen] for appending: the location to be used. *)
Definition usable (h : world) (p : bytes) : option loc :=
  match resolve h p with
  | inl _ => None
  | inr l => if is_dir (w_tree h !! l) then None else Some l
  end.

(** Stream [fp] may write to its file (what was printed to it, now or when it
    is closed), at the end. *)
Definition appends (fp : Z) (h h' : world) : Prop :=
  exists l pos b x, w_fps h !! fp = Some (l, pos) /\ w_tree h !! l = Some (File b) /\
    h' = set_tree (<[l := File (b ++ x)]> (w_tree h)) h.

Definition post (e : event) : ans e -> world -> world -> Prop :=
  match e return ans e -> world -> world -> Prop with
  | EOpen p O_RDONLY => fun r h h' =>
      match r with
      | inl e => h' = h /\ unnamed e h p
      | inr f => w_fds h !! f = None /\
          exists l, resolve h p = inr l /\ is_Some (w_tree h !! l) /\
                    h' = set_fds (<[f := (l, 0)]> (w_fds h)) h
      end
  | EOpen p O_WRONLY_CREAT_TRUNC => fun r h h' =>
      match r with
      | inl _ => h' = h /\ (usable h p = None \/ faulty = true)
      | inr f => w_fds h !! f = None /\
          exists l, usable h p = Some l /\
                    h' = set_tree (<[l := File []]> (w_tree h)) (set_fds (<[f := (l, 0)]> (w_fds h)) h)
      end
  | EFstat f => fun r h h' =>
      h' = h /\
      match r with
      | inl e => faulty = true /\ e <> ENOENT
      | inr st => forall l off b, w_fds h !! f = Some (l, off) -> w_tree h !! l = Some (File b) -> st_size st = len b
      end
  | ERead f n => fun r h h' =>
      match r with
      | inl e => failed e h h' \/
                 e = EISDIR /\ h' = h /\ exists l off, w_fds h !! f = Some (l, off) /\ w_tree h !! l = Some Dir
      | inr bs => exists l off b, w_fds h !! f = Some (l, off) /\ w_tree h !! l = Some (File b) /\
          bs `prefix_of` drop (Z.to_nat off) b /\ len bs <= n /\
          (bs = [] -> len b <= off) /\
          h' = set_fds (<[f := (l, off + len bs)]> (w_fds h)) h
      end
  | EWrite f data => fun r h h' =>
      match r with
      | inl e => failed e h h'
      | inr k => exists l off b, w_fds h !! f = Some (l, off) /\ w_tree h !! l = Some (File b) /\
          0 <= k <= len data /\
          if k =? 0 then stall h h'
          else h' = set_tree (<[l := File (splice b off (take (Z.to_nat k) data))]> (w_tree h))
                      (set_fds (<[f := (l, off + k)]> (w_fds h)) h)
      end
  | EFsync _ => fun r h h' => h' = h /\ match r with inl _ => faulty = true | inr _ => True end
  | EClose f => fun r h h' =>
      h' = set_fds (delete f (w_fds h)) h /\
      match r with inl e => faulty = true /\ e <> ENOENT | inr _ => True end
  | EUnlink p => fun r h h' =>
      match r with
      | inl e => h' = h /\ (unnamed e h p \/ e <> ENOENT /\ named h p = inr Dir)
      | inr _ => exists l b, resolve h p = inr l /\ w_tree h !! l = Some (File b) /\
                             h' = set_tree (delete l (w_tree h)) h
      end
  | ERename s d => fun r h h' =>
      match r with
      | inl _ => h' = h /\ (renamed h s d = None \/ faulty = true)
      | inr _ => exists t, renamed h s d = Some t /\ h' = set_tree t h
      end
  | EMkdir p => fun r h h' =>
      match r with
      | inl e => h' = h /\
          if e =? EEXIST then exists l, entry h p = inr l /\ is_Some (w_tree h !! l)
          else (exists e', entry h p = inl e') \/ faulty = true \/
               slashed (components p) = true /\ exists l b, entry h p = inr l /\ w_tree h !! l = Some (File b)
      | inr _ => exists l, entry h p = inr l /\ w_tree h !! l = None /\
                           h' = set_tree (<[l := Dir]> (w_tree h)) h
      end
  | EStat p => fun r h h' =>
      h' = h /\
      match r with
      | inl e => unnamed e h p
      | inr st => exists n, named h p = inr n /\ forall b, n = File b -> st_size st = len b
      end
  | EFopen p false => fun r h h' =>
      match r with
      | inl e => h' = h /\ unnamed e h p
      | inr fp => w_fps h !! fp = None /\
          exists l, resolve h p = inr l /\ is_Some (w_tree h !! l) /\
                    h' = set_fps (<[fp := (l, 0)]> (w_fps h)) h
      end
  | EFopen p true => fun r h h' =>
      match r with
      | inl _ => h' = h /\ (usable h p = None \/ faulty = true)
      | inr fp => w_fps h !! fp = None /\
          exists l b, usable h p = Some l /\
            (w_tree h !! l = Some (File b) \/ w_tree h !! l = None /\ b = []) /\
            h' = set_tree (<[l := File b]> (w_tree h)) (set_fps (<[fp := (l, 0)]> (w_fps h)) h)
      end
  | EFseek fp off w => fun r h h' =>
      match r with
      | inl _ => h' = h /\ faulty = true
      | inr _ => exists l pos b, w_fps h !! fp = Some (l, pos) /\ w_tree h !! l = Some (File b) /\
          0 <= seek_target (len b) off w /\
          h' = set_fps (<[fp := (l, seek_target (len b) off w)]> (w_fps h)) h
      end
  | EFtell fp => fun r h h' =>
      h' = h /\ match r with inl _ => faulty = true | inr n => exists l, w_fps h !! fp = Some (l, n) end
  | EFread fp n => fun r h h' =>
      exists l pos b, w_fps h !! fp = Some (l, pos) /\ w_tree h !! l = Some (File b) /\ h' = h /\
        let all := take (Z.to_nat n) (drop (Z.to_nat pos) b) in
        r `prefix_of` all /\ (r = all \/ faulty = true)
  | EFprintf fp _ => fun _ h h' => appends fp h h'
  | EFclose fp => fun _ h h' =>
      exists h1, appends fp h h1 /\ h' = set_fps (delete fp (w_fps h1)) h1
  | EMalloc _ | ERwInit => fun r h h' => h' = h /\ (r = true \/ faulty = true)
  | EStrerror _ => fun r h h' => h' = h /\ message r
  | ERecv _ n => fun r h h' =>
      match r with
      | inl e => failed e h h'
      | inr bs => len bs <= n /\ (bs = [] -> w_in h = []) /\
                  exists rest, w_in h = bs ++ rest /\ h' = set_in rest h
      end
  | ESend _ data => fun r h h' =>
      match r with
      | inl e => if e =? EINTR then stall h h' else faulty = true /\ h' = set_gone h
      | inr k => 0 <= k <= len data /\
                 if k =? 0 then stall h h' else h' = set_out (w_out h ++ take (Z.to_nat k) data) h
      end
  | ERdLock _ | EWrLock _ => fun r h h' => h' = h /\ (r = 0 \/ faulty = true)
  | EStop => fun r h h' => h' = h /\ (r = false \/ faulty = true)
  | _ => fun _ h h' => h' = h
  end.

(** What the calls rely on: descriptors and streams are open on existing files,
    seeks stay inside, transfers are not empty, and what is removed or renamed
    is not open. *)
Definition open_on (t : gmap Z (loc * Z)) (h : world) (f : Z) : Prop :=
  exists l off b, t !! f = Some (l, off) /\ w_tree h !! l = Some (File b).

Definition unopened (h : world) (l : loc) : Prop :=
  map_Forall (fun _ x => ~ l `prefix_of` x.1) (w_fds h) /\ map_Forall (fun _ x => ~ l `prefix_of` x.1) (w_fps h).

Definition pre (e : event) (h : world) : Prop :=
  match e with
  | ERead f n => 0 < n /\ exists l off nd, w_fds h !! f = Some (l, off) /\ w_tree h !! l = Some nd /\ 0 <= off
  | EWrite f data => data <> [] /\ open_on (w_fds h) h f
  | EUnlink p => forall l, resolve h p = inr l -> unopened h l
  | ERename s d => forall l, entry h s = inr l \/ entry h d = inr l -> unopened h l
  | EFseek fp off w => exists l pos b, w_fps h !! fp = Some (l, pos) /\ w_tree h !! l = Some (File b) /\
                         0 <= seek_target (len b) off w
  | EFtell fp | EFread fp _ | EFprintf fp _ | EFclose fp => open_on (w_fps h) h fp
  | ERecv _ n => 0 < n
  | ESend _ data => data <> []
  | _ => True
  end.

(** Calls that rely on nothing. *)
Definition pre_free (e : event) : bool :=
  match e with
  | ERead _ _ | EWrite _ _ | EUnlink _ | ERename _ _ | EFseek _ _ _ | EFtell _ | EFread _ _
  | EFprintf _ _ | EFclose _ | ERecv _ _ | ESend _ _ => false
  | _ => true
  end.

Definition posix : contract world := mk_contract _ pre post.
End contract.


(** * Proof rules *)

(** What calls on files leave alone. *)
Definition frame (h : world) := (w_cwd h, w_nmax h, w_fds h, w_fps h, w_in h, w_out h, w_gone h).

(** Nothing but the tree, now [t], and the budget of stalls changed. *)
Definition did (t : tree) (h h' : world) : Prop :=
  w_tree h' = t /\ frame h' = frame h /\ (w_budget h' <= w_budget h)%nat.

Definition calm (h h' : world) : Prop := did (w_tree h) h h'.

(** The same but for descriptor [f]. *)
Definition frame_fd (f : Z) (h : world) :=
  (w_cwd h, w_nmax h, delete f (w_fds h), w_fps h, w_in h, w_out h, w_gone h).

Definition did_fd (f : Z) (t : tree) (h h' : world) : Prop :=
  w_tree h' = t /\ frame_fd f h' = frame_fd f h /\ (w_budget h' <= w_budget h)%nat.

Definition calm_fd (f : Z) (h h' : world) : Prop := did_fd f (w_tree h) h h'.

Lemma did_trans t1 t2 h1 h2 h3 : did t1 h1 h2 -> did t2 h2 h3 -> did t2 h1 h3.
Proof. intros (? & ? & ?) (? & ? & ?). split_and!; [done|congruence|lia]. Qed.

Lemma did_refl h : did (w_tree h) h h.
Proof. by split_and!. Qed.

Lemma did_set t h : did t h (set_tree t h).
Proof. split_and!; simpl; (done || lia). Qed.

#[global] Instance calm_preorder : PreOrder calm.
Proof.
  split.
  - intros h. split_and!; (done || lia).
  - intros h1 h2 h3 (E & ? & ?) (? & ? & ?). split_and!; [congruence..|lia].
Qed.

Lemma calm_stall h h' : stall h h' -> calm h h'.
Proof. intros (n & Hn & ->). split_and!; simpl; (done || lia). Qed.

Lemma did_fd_trans f t1 t2 h1 h2 h3 : did_fd f t1 h1 h2 -> did_fd f t2 h2 h3 -> did_fd f t2 h1 h3.
Proof. intros (? & ? & ?) (? & ? & ?). split_and!; [done|congruence|lia]. Qed.

#[global] Instance calm_fd_preorder f : PreOrder (calm_fd f).
Proof.
  split.
  - intros h. split_and!; (done || lia).
  - intros h1 h2 h3 (E & ? & ?) (? & ? & ?). split_and!; [congruence..|lia].
Qed.

Lemma did_did_fd f t h h' : did t h h' -> did_fd f t h h'.
Proof. intros (? & E & ?). split_and!; [done| |done]. unfold frame, frame_fd in *. injection E. intros. congruence. Qed.

Lemma did_fd_set f x t h : did_fd f t h (set_tree t (set_fds (<[f := x]> (w_fds h)) h)).
Proof. split_and!; [done| |simpl; lia]. unfold frame_fd. simpl. by rewrite delete_insert_eq. Qed.

Lemma calm_fd_set f x h : calm_fd f h (set_fds (<[f := x]> (w_fds h)) h).
Proof. split_and!; [done| |simpl; lia]. unfold frame_fd. simpl. by rewrite delete_insert_eq. Qed.

(** Closing [f] again. *)
Lemma did_fd_close f t h h' :
  w_fds h !! f = None -> did_fd f t h h' -> did t h (set_fds (delete f (w_fds h')) h').
Proof.
  intros Hf (? & E & ?). split_and!; [done| |done]. unfold frame, frame_fd in *. simpl.
  injection E as -> -> -> -> -> -> ->. by rewrite delete_id.
Qed.

Lemma did_fd_lookup f t h h' g : g <> f -> did_fd f t h h' -> w_fds h' !! g = w_fds h !! g.
Proof.
  intros Hg (_ & E & _). unfold frame_fd in E. injection E as _ _ E _ _ _ _.
  apply (f_equal (lookup g)) in E. by rewrite !lookup_delete_ne in E by done.
Qed.

Section rules.
Context (faulty : bool).

Notation WP := (wpm true (posix faulty)).

(** A call that relies on something leaves it to prove. *)
Definition given (e : event) (h : world) (K : Prop) : Prop :=
  if pre_free e then K else pre e h /\ K.

Lemma given_pre e h K : given e h K -> pre e h /\ K.
Proof. unfold given. by destruct e. Qed.

Lemma wpm_call_posix e en h (Q : Z -> ans e -> world -> Prop) :
  given e h (forall r h', post faulty e r h h' -> Q en r h') -> WP (call e) en h Q.
Proof. intros [? ?]%given_pre. by apply wpm_call. Qed.

Lemma wpm_sys_posix {A} e (conv : ans e -> res A) en h (Q : Z -> res A -> world -> Prop) :
  given e h (forall r h', post faulty e r h h' ->
     match conv r with inl e' => Q e' (inl e') h' | inr a => Q en (inr a) h' end) ->
  WP (sys e conv) en h Q.
Proof. intros [? ?]%given_pre. by apply wpm_sys. Qed.

Lemma wpm_malloc n en h (Q : Z -> bool -> world -> Prop) :
  Q en true h -> (faulty = true -> Q ENOMEM false h) -> WP (malloc n) en h Q.
Proof.
  intros Ht Hf. apply wpm_bind, wpm_call_posix. intros [] h' [-> Hr]; [by apply wpm_ret|].
  apply wpm_bind, wpm_set_errno, wpm_ret. apply Hf. by destruct Hr.
Qed.

(** * Sending *)

(** What sending leaves alone. *)
Definition frame_out (h : world) := (w_tree h, w_cwd h, w_nmax h, w_fds h, w_fps h, w_in h).

(** [buf] was sent and nothing else happened, or the client went away. *)
Definition sent (buf : bytes) (h : world) (r : Z) (h' : world) : Prop :=
  frame_out h' = frame_out h /\ (w_budget h' <= w_budget h)%nat /\
  (r = 0 /\ w_out h' = w_out h ++ buf /\ w_gone h' = w_gone h \/
   r = -1 /\ w_gone h' = true /\ faulty = true).

Lemma sent_stall buf h h1 r h2 : stall h h1 -> sent buf h1 r h2 -> sent buf h r h2.
Proof. intros (n & ? & ->) (? & ? & ?). split_and!; simpl in *; (done || lia). Qed.

Lemma sent_nil h : sent [] h 0 h.
Proof. split_and!; [done|lia|]. left. by rewrite app_nil_r. Qed.

Lemma sent_out buf buf' h r h' :
  sent buf' (set_out (w_out h ++ buf) h) r h' -> sent (buf ++ buf') h r h'.
Proof.
  intros (? & ? & Hs). split_and!; [done..|]. simpl in Hs. by rewrite <- app_assoc in Hs.
Qed.

Lemma wpm_send_all n fd buf en h :
  len buf + Z.of_nat (w_budget h) <= Z.of_nat n ->
  WP (send_all n fd buf) en h (fun _ r h' => sent buf h r h').
Proof.
  revert buf en h. induction n as [|n IH]; intros buf en h Hn.
  { destruct buf; [|simpl in Hn; lia]. apply wpm_ret, sent_nil. }
  destruct buf as [|c buf]; [apply wpm_ret, sent_nil|].
  simpl. apply wpm_bind, wpm_sys_posix. split; [done|]. intros [e|k] h1 Hp; simpl in Hp |- *.
  - destruct (e =? EINTR).
    + assert (Hp' := Hp). destruct Hp as (m & Hm & ->).
      eapply wpm_mono; [apply IH; simpl in *; lia|]. intros. by eapply sent_stall.
    + destruct Hp as [? ->]. apply wpm_ret. split_and!; [done|simpl; lia|]. by right.
  - destruct Hp as [Hk Hp]. destruct (Z.eqb_spec k 0) as [->|Hk0].
    + assert (Hp' := Hp). destruct Hp as (m & Hm & ->).
      eapply wpm_mono; [apply IH; simpl in *; lia|]. intros. by eapply sent_stall.
    + rewrite Hp. eapply wpm_mono; [apply IH|].
      * rewrite length_drop. simpl in *. lia.
      * intros en' r h' Hs. apply sent_out in Hs. by rewrite take_drop in Hs.
Qed.

(** * Replies *)

Inductive reply :=
  | RSimple (msg : bytes)
  | RError (msg : bytes)
  | RInt (n : Z)
  | RBulk (data : bytes)
  | RNull.

(** The RESP encoding of a reply. *)
Definition encode (r : reply) : bytes :=
  match r with
  | RSimple msg => L"+" ++ msg ++ CRLF
  | RError msg => L"-ERR " ++ msg ++ CRLF
  | RInt n => L":" ++ print_d n ++ CRLF
  | RBulk data => L"$" ++ print_u 10 (len data) ++ CRLF ++ data ++ CRLF
  | RNull => L"$-1" ++ CRLF
  end.

Lemma wpm_reply_line fuel fd size text en h :
  0 < size <= INT_MAX -> len text < size -> len text + Z.of_nat (w_budget h) <= Z.of_nat fuel ->
  WP (reply_line fuel fd size text) en h (fun _ r h' => sent text h r h').
Proof.
  intros Hs Ht Hf. unfold reply_line, snprintf.
  destruct (Z.leb_spec (len text) INT_MAX); [|lia].
  destruct (Z.ltb_spec (len text) 0), (Z.leb_spec size (len text)), (Z.eqb_spec size 0); try lia. simpl.
  rewrite take_ge by lia. by apply wpm_send_all.
Qed.

Lemma wpm_reply_simple fuel fd msg en h :
  len msg <= 252 -> 256 + Z.of_nat (w_budget h) <= Z.of_nat fuel ->
  WP (resp_reply_simple fuel fd msg) en h (fun _ r h' => sent (encode (RSimple msg)) h r h').
Proof.
  intros Hm Hf. apply (wpm_reply_line _ _ 256 (L"+" ++ msg ++ CRLF)); [unfold INT_MAX; lia|..];
    rewrite !length_app; simpl; lia.
Qed.

Lemma wpm_reply_error fuel fd msg en h :
  len msg <= 500 -> 512 + Z.of_nat (w_budget h) <= Z.of_nat fuel ->
  WP (resp_reply_error fuel fd msg) en h (fun _ r h' => sent (encode (RError msg)) h r h').
Proof.
  intros Hm Hf. apply (wpm_reply_line _ _ 512 (L"-ERR " ++ msg ++ CRLF)); [unfold INT_MAX; lia|..];
    rewrite !length_app; simpl; lia.
Qed.

Lemma wpm_reply_null fuel fd en h :
  5 + Z.of_nat (w_budget h) <= Z.of_nat fuel ->
  WP (resp_reply_null_bulk fuel fd) en h (fun _ r h' => sent (encode RNull) h r h').
Proof. intros Hf. by apply wpm_send_all. Qed.

Lemma wpm_reply_int fuel fd n en h :
  n = 0 \/ n = 1 -> 5 + Z.of_nat (w_budget h) <= Z.of_nat fuel ->
  WP (resp_reply_integer fuel fd n) en h (fun _ r h' => sent (encode (RInt n)) h r h').
Proof.
  intros [->| ->] Hf.
  - apply (wpm_reply_line _ _ 128 (L":0" ++ CRLF)); [unfold INT_MAX; lia|done|simpl; lia].
  - apply (wpm_reply_line _ _ 128 (L":1" ++ CRLF)); [unfold INT_MAX; lia|done|simpl; lia].
Qed.

Lemma sent_app b1 b2 h h1 r h2 :
  sent b1 h 0 h1 -> sent b2 h1 r h2 -> sent (b1 ++ b2) h r h2.
Proof.
  intros (? & ? & [(_ & Ho & Hg)|[? _]]) (? & ? & Hs); [|done].
  split_and!; [congruence|lia|]. rewrite Ho, Hg, <- app_assoc in Hs. done.
Qed.

Lemma sent_gone b1 b h r h1 : r <> 0 -> sent b1 h r h1 -> sent b h (-1) h1.
Proof.
  intros Hr (? & ? & [(-> & _)|(_ & ? & ?)]); [done|].
  split_and!; [done..|]. by right.
Qed.

(** The decimal digits of a [size_t] fit the header of a bulk reply. *)
Lemma digits_length k f n acc :
  0 <= n < 10 ^ Z.of_nat (S k) -> (length (digits f 10 n acc) <= S k + length acc)%nat.
Proof.
  revert f n acc. induction k as [|k IH]; intros [|f] n acc Hn; simpl; try lia;
    destruct (Z.ltb_spec n 10); simpl; try lia.
  etransitivity; [apply IH|simpl; lia].
  rewrite (Nat2Z.inj_succ (S k)), Z.pow_succ_r in Hn by lia.
  split; [apply Z.div_pos; lia|]. apply Z.div_lt_upper_bound; lia.
Qed.

Lemma print_u_length n : 0 <= n < 2 ^ 64 -> len (print_u 10 n) <= 20.
Proof.
  intros Hn. unfold print_u. assert (length (digits 64 10 n []) <= 20)%nat; [|lia].
  apply (digits_length 19). change (10 ^ Z.of_nat 20) with (10 ^ 20). lia.
Qed.

Lemma wpm_reply_bulk fuel fd data en h :
  len data < 2 ^ 64 -> len data + 32 + Z.of_nat (w_budget h) <= Z.of_nat fuel ->
  WP (resp_reply_bulk fuel fd data) en h (fun _ r h' => sent (encode (RBulk data)) h r h').
Proof.
  intros Hd Hf. pose proof (print_u_length (len data) ltac:(lia)).
  unfold resp_reply_bulk, snprintf. set (hd := L"$" ++ print_u 10 (len data) ++ CRLF).
  assert (len hd <= 23) by (unfold hd; rewrite !length_app; simpl; lia).
  destruct (Z.leb_spec (len hd) INT_MAX); [|unfold INT_MAX in *; lia].
  destruct (Z.ltb_spec (len hd) 0), (Z.leb_spec 64 (len hd)); try lia. cbn [orb].
  change (64 =? 0) with false. cbn iota. rewrite take_ge by lia.
  replace (encode (RBulk data)) with (hd ++ data ++ CRLF)
    by (unfold hd, encode; by rewrite <- !app_assoc).
  clearbody hd. apply wpm_bind. eapply wpm_mono; [apply wpm_send_all; lia|]. intros en1 r h1 Hs1.
  destruct (Z.eqb_spec r 0) as [->|Hr]; simpl; [|apply wpm_ret; eapply sent_gone; [exact Hr|exact Hs1]].
  assert (w_budget h1 <= w_budget h)%nat by apply Hs1.
  apply wpm_bind. eapply (wpm_mono _ _ _ (fun _ r h' => sent data h1 r h')).
  { destruct (Z.ltb_spec 0 (len data)); [apply wpm_send_all; lia|].
    destruct data; [|simpl in *; lia]. apply wpm_ret, sent_nil. }
  intros en2 r2 h2 Hs2. destruct (Z.eqb_spec r2 0) as [->|Hr2]; simpl.
  - assert (w_budget h2 <= w_budget h1)%nat by apply Hs2.
    eapply wpm_mono; [apply wpm_send_all; simpl; lia|]. intros en3 r3 h3 Hs3.
    eapply sent_app; [exact Hs1|]. eapply sent_app; [exact Hs2|exact Hs3].
  - apply wpm_ret. eapply sent_gone; [exact Hr2|]. eapply sent_app; [exact Hs1|exact Hs2].
Qed.


(** * Reading *)

(** The bytes of [b] before [off]. *)
Notation upto off b := (take (Z.to_nat off) b).

Lemma take_prefix_more {A} (b bs : list A) off :
  0 <= off -> bs `prefix_of` drop (Z.to_nat off) b ->
  upto (off + len bs) b = upto off b ++ bs.
Proof.
  intros Hoff [k Hk]. rewrite Z2Nat.inj_add, Nat2Z.id, <- take_take_drop by lia.
  by rewrite Hk, take_app_length.
Qed.

(** [read_loop] collects the whole file when its size was read off correctly. *)
Lemma wpm_read_loop n f l b off en h :
  w_fds h !! f = Some (l, off) -> w_tree h !! l = Some (File b) -> 0 <= off <= len b ->
  len b - off + Z.of_nat (w_budget h) <= Z.of_nat n ->
  WP (read_loop n f (len b) (upto off b)) en h
    (fun en' r h' => calm_fd f h h' /\
       (r = Some b \/ r = None /\ faulty = true /\ en' <> ENOENT)).
Proof.
  revert off en h. induction n as [|n IH]; intros off en h Hf Hb Hoff Hn;
    cbn [read_loop]; rewrite length_take;
    replace (Z.of_nat (Z.to_nat off `min` length b)) with off by lia.
  - destruct (Z.ltb_spec off (len b)); [lia|]. apply wpm_ret. split; [done|]. left.
    by rewrite take_ge by lia.
  - destruct (Z.ltb_spec off (len b)) as [Hlt|].
    2: { apply wpm_ret. split; [done|]. left. by rewrite take_ge by lia. }
    apply wpm_bind, wpm_sys_posix. split; [split; [lia|exists l, off, (File b); split_and!; (done || lia)]|].
    intros [e|bs] h1 Hpost; simpl in Hpost; cbn [id].
    + destruct Hpost as [Hpost|(_ & _ & l' & off' & Hl & Hd)]; [|congruence].
      unfold failed in Hpost. destruct (e =? EINTR).
      * pose proof (calm_stall _ _ Hpost) as Hc. destruct Hpost as (m & Hm & ->).
        eapply wpm_mono; [apply IH; simpl in *; (done || lia)|].
        intros en' r h' [Hc' Hr]. split; [|done]. by transitivity (set_budget m h); [apply did_did_fd|].
      * destruct Hpost as (? & ? & ->). apply wpm_ret. split; [done|]. by right.
    + destruct Hpost as (l' & off' & b' & Hf' & Hb' & Hpre & Hlen & Hnil & ->).
      simplify_eq. destruct bs as [|c bs]; [specialize (Hnil eq_refl); lia|].
      rewrite <- take_prefix_more by (done || lia).
      assert (len (c :: bs) <= len b - off).
      { apply prefix_length in Hpre. rewrite length_drop in Hpre. lia. }
      eapply wpm_mono; [apply IH; simpl in *; [apply lookup_insert_eq|done|lia|lia]|].
      intros en' r h' [Hc' Hr]. split; [|done]. etransitivity; [apply calm_fd_set|done].
Qed.

(** On a directory it reads nothing, or fails. *)
Lemma wpm_read_loop_dir n f l off sz en h :
  w_fds h !! f = Some (l, off) -> w_tree h !! l = Some Dir -> 0 <= off ->
  1 + Z.of_nat (w_budget h) <= Z.of_nat n ->
  WP (read_loop n f sz []) en h
    (fun en' r h' => calm_fd f h h' /\ (r = Some [] \/ r = None /\ en' <> ENOENT)).
Proof.
  revert en h. induction n as [|n IH]; intros en h Hf Hd Hoff Hn; [lia|]. cbn [read_loop]. change (len (@nil Z)) with 0.
  destruct (Z.ltb_spec 0 sz); [|apply wpm_ret; by split; [|left]].
  apply wpm_bind, wpm_sys_posix. split; [split; [lia|exists l, off, Dir; by split_and!]|].
  intros [e|bs] h1 Hpost; simpl in Hpost; cbn [id].
  - destruct Hpost as [Hpost|(-> & -> & _)]; [|apply wpm_ret; split; [done|by right]].
    unfold failed in Hpost. destruct (e =? EINTR).
    + pose proof (calm_stall _ _ Hpost) as Hc. destruct Hpost as (m & Hm & ->).
      eapply wpm_mono; [apply IH; simpl in *; (done || lia)|].
      intros en' r h' [Hc' Hr]. split; [|done]. by transitivity (set_budget m h); [apply did_did_fd|].
    + destruct Hpost as (? & ? & ->). apply wpm_ret. split; [done|]. by right.
  - destruct Hpost as (l' & off' & b' & Hf' & Hb' & _). congruence.
Qed.

(** What [read_all_file] may load: a file, or nothing from a directory that
    reports no size. *)
Definition loads (n : node) (b : bytes) : Prop := n = File b \/ n = Dir /\ b = [].

(** What [read_all_file] reports about [p]. *)
Definition read_result (p : bytes) (h : world) (en : Z) (r : option bytes) : Prop :=
  match r with
  | Some b => exists n, named h p = inr n /\ loads n b /\ len b <= MAX_FILE_SIZE
  | None =>
      en = ENOENT /\ named h p = inl ENOENT \/
      en <> ENOENT /\
        ((exists e, named h p = inl e /\ e <> ENOENT) \/ named h p = inr Dir \/
         (exists b, named h p = inr (File b) /\ MAX_FILE_SIZE < len b) \/ faulty = true)
  end.

Lemma wpm_close_did f t h h1 en (Q : Z -> res unit -> world -> Prop) :
  w_fds h !! f = None -> did_fd f t h h1 ->
  (forall h', did t h h' -> Q en (inr tt) h') ->
  (forall e h', faulty = true -> e <> ENOENT -> did t h h' -> Q e (inl e) h') ->
  WP (close f) en h1 Q.
Proof.
  intros Hf Hc HQ HQe. apply wpm_sys_posix. intros r h2 [-> Hr].
  pose proof (did_fd_close f t h h1 Hf Hc). destruct r as [e|[]]; simpl; [|by apply HQ].
  destruct Hr. by apply HQe.
Qed.

(** Closing after a failure that is not ENOENT. *)
Lemma wpm_close_fail {A} f t h h1 en (a : A) (Q : Z -> A -> world -> Prop) :
  w_fds h !! f = None -> did_fd f t h h1 -> en <> ENOENT ->
  (forall en' h', en' <> ENOENT -> did t h h' -> Q en' a h') ->
  WP (close f;; mret a) en h1 Q.
Proof.
  intros Hf Hc Hen HQ. apply wpm_bind. eapply wpm_close_did; [done..| |]; intros; apply wpm_ret; by apply HQ.
Qed.

Lemma unnamed_result e h p : unnamed faulty e h p -> read_result p h e None.
Proof.
  unfold unnamed. simpl. destruct (Z.eqb_spec e ENOENT); [by left|].
  intros [?|?]; right; (split; [done|]); auto.
Qed.

Lemma wpm_read_all_file fuel p en h :
  1 + Z.of_nat (w_budget h) <= Z.of_nat fuel ->
  (forall b, named h p = inr (File b) -> len b + Z.of_nat (w_budget h) <= Z.of_nat fuel) ->
  WP (read_all_file fuel p) en h (fun en' r h' => calm h h' /\ read_result p h en' r).
Proof.
  intros Hf1 Hfuel. apply wpm_bind, wpm_sys_posix. intros [e|f] h1 Hpost; simpl in Hpost; cbn [id].
  { destruct Hpost as [-> He]. apply wpm_ret. split; [done|]. by apply unnamed_result. }
  destruct Hpost as (Hnone & l & Hl & [n Hn] & ->). set (h1 := set_fds _ h).
  assert (named h p = inr n) as Hnm by (unfold named; by rewrite Hl, Hn).
  assert (calm_fd f h h1) as Hc1 by apply calm_fd_set.
  assert (forall en' h2, calm_fd f h h2 -> (faulty = true \/ n = Dir) -> en' <> ENOENT ->
    WP (close f;; mret (None (A := bytes))) en' h2 (fun en'' r h' => calm h h' /\ read_result p h en'' r)) as Hfail.
  { intros en' h2 Hc2 Hw Hen. eapply wpm_close_fail; [done|exact Hc2|done|]. intros en'' h' Hen' Hd. split; [done|].
    right. split; [done|]. destruct Hw as [?|E]; [auto|]. subst n. auto. }
  apply wpm_bind, wpm_sys_posix. intros [e|st] h2 [-> Hst]; cbn [id].
  { destruct Hst. by apply Hfail; auto. }
  destruct ((st_size st <? 0) || (MAX_FILE_SIZE <? st_size st)) eqn:Hbig.
  { apply wpm_bind. eapply wpm_close_did; [done|exact Hc1|..]; intros;
      apply wpm_bind, wpm_set_errno, wpm_ret; (split; [done|]); right; (split; [done|]).
    all: destruct n as [|b]; [by auto|]; right; right; left; exists b; (split; [done|]);
      rewrite (Hst l 0 b (lookup_insert_eq _ _ _) Hn) in Hbig; lia. }
  apply wpm_bind, wpm_malloc; cbn [negb].
  2: { intros Hft. apply wpm_bind. eapply wpm_close_did; [done|exact Hc1|..]; intros;
      apply wpm_bind, wpm_set_errno, wpm_ret; (split; [done|]); right; auto. }
  apply wpm_bind. destruct n as [|b].
  - eapply wpm_mono.
    { eapply (wpm_read_loop_dir fuel f l 0); [apply lookup_insert_eq|done|lia|simpl; lia]. }
    intros en2 r h2 [Hc2 Hr]. assert (calm_fd f h h2) by (by transitivity h1).
    destruct Hr as [->|(-> & ?)]; [|by apply Hfail; auto].
    apply wpm_bind. eapply wpm_close_did; [done|done|..]; intros; apply wpm_ret; (split; [done|]);
      exists Dir; (split; [done|]); (split; [by right|]); simpl; unfold MAX_FILE_SIZE, Rle.MAX_FILE_SIZE; lia.
  - specialize (Hst l 0 b (lookup_insert_eq _ _ _) Hn). rewrite Hst in *. specialize (Hfuel b Hnm).
    eapply wpm_mono.
    { eapply (wpm_read_loop fuel f l b 0); [apply lookup_insert_eq|done|lia|simpl; lia]. }
    intros en2 r h2 [Hc2 Hr]. assert (calm_fd f h h2) by (by transitivity h1).
    destruct Hr as [->|(-> & ? & ?)]; [|by apply Hfail; auto].
    apply wpm_bind. eapply wpm_close_did; [done|done|..]; intros; apply wpm_ret; (split; [done|]);
      exists (File b); (split; [done|]); (split; [by left|lia]).
Qed.

(** * Directories *)

Lemma start_app h p q : p <> [] -> start h (p ++ q) = start h p.
Proof. by destruct p. Qed.

Lemma resolve_as_walk cs h p :
  p <> [] -> len p < PATH_MAX -> resolve_as cs h p = walk (w_nmax h) (w_tree h) (start h p) cs.
Proof.
  intros Hp Hl. unfold resolve_as. rewrite bool_decide_eq_false_2 by done. by destruct (Z.leb_spec PATH_MAX (len p)); [lia|].
Qed.

Lemma slashed_snoc_nil cs : slashed (cs ++ [[]]) = true.
Proof.
  unfold slashed. apply bool_decide_eq_true_2. rewrite strip_snoc_nil. intros E.
  pose proof (strip_length cs) as Hl.
  rewrite E, length_app in Hl. simpl in Hl. lia.
Qed.

(** A file stands where a directory should be: no later [mkdir] changes that. *)
Definition stuck_at (t : tree) (nmax : Z) (s : loc) (cs : list bytes) : Prop :=
  (exists e, walk nmax t s cs = inl e) /\
  match walk nmax t s (strip cs) with inl _ => True | inr l => exists b, t !! l = Some (File b) end.

Lemma wpm_ensure_stuck done rest cs cur en h :
  done <> [] -> len (done ++ rest) < PATH_MAX -> components done = cs ++ [cur] ->
  stuck_at (w_tree h) (w_nmax h) (start h done) cs ->
  WP (ensure_dirs done rest) en h (fun _ r h' => h' = h /\ (r = 0 \/ r = -1)).
Proof.
  revert done cs cur en. induction rest as [|c rest IH]; intros done cs cur en Hne Hl Hcs Hst; simpl;
    [by apply wpm_ret; auto|].
  assert (len done < PATH_MAX) by (rewrite length_app in Hl; lia).
  assert (len ((done ++ [c]) ++ rest) < PATH_MAX) by (by rewrite <- app_assoc).
  assert (done ++ [c] <> []) by (by destruct done).
  pose proof (components_app done [c] cs cur Hcs) as Hsn. simpl in Hsn.
  destruct (Z.eqb_spec c SLASH) as [->|Hc]; cbn [negb].
  2: { eapply IH; [done|done|exact Hsn|]. by rewrite start_app. }
  assert (stuck_at (w_tree h) (w_nmax h) (start h (done ++ [SLASH])) (cs ++ [cur]) -> forall en',
    WP (ensure_dirs (done ++ [SLASH]) rest) en' h (fun _ r h' => h' = h /\ (r = 0 \/ r = -1))) as Hgo.
  { intros Hst' en'. eapply IH; [done|done| |exact Hst']. by rewrite Hsn, <- app_assoc. }
  rewrite start_app in Hgo by done. destruct Hst as [[e0 He0] Hst].
  apply wpm_bind, wpm_sys_posix. unfold post, entry. rewrite Hcs, resolve_as_walk by done.
  destruct (decide (cur = [])) as [->|Hcur].
  - rewrite strip_snoc_nil. intros [e|[]] h1 Hpost; cbn [id].
    + destruct Hpost as [-> _]. destruct (Z.eqb_spec e EEXIST); cbn [negb]; [|apply wpm_ret; auto].
      apply Hgo. split; [exists e0; by rewrite walk_app, He0|]. by rewrite strip_snoc_nil.
    + destruct Hpost as (l & Hw & Hn & ->). rewrite Hw in Hst. destruct Hst. congruence.
  - rewrite strip_snoc, walk_app, He0 by done. intros [e|[]] h1 Hpost; cbn [id].
    + destruct Hpost as [-> Hr]. destruct (Z.eqb_spec e EEXIST); cbn [negb]; [|apply wpm_ret; auto].
      by destruct Hr as (? & ? & _).
    + by destruct Hpost as (? & ? & _).
Qed.

(** The loop of [path_ensure_parent_dirs]: the directories of the remaining
    components were made, or a name stood in the way, or a call failed. *)
Definition made (t : tree) (r : Z) (h : world) (l : loc) (cs : list bytes) : Prop :=
  t = (mkdirs (w_nmax h) (w_tree h) l (removelast cs)).1 /\
    (r = 0 \/ r = -1 /\ (mkdirs (w_nmax h) (w_tree h) l (removelast cs)).2 = None) \/
  r = -1 /\ faulty = true /\ grown (l ++ names cs) (w_tree h) t.

(** The loop on [rest], with [done] before it. *)
Definition ensures (rest : bytes) : Prop := forall done cs cur l en h,
  done <> [] -> len (done ++ rest) < PATH_MAX -> components done = cs ++ [cur] ->
  no_up (components_aux cur rest) ->
  walk (w_nmax h) (w_tree h) (start h done) cs = inr l -> is_Some (w_tree h !! l) ->
  WP (ensure_dirs done rest) en h (fun _ r h' => exists t,
    h' = set_tree t h /\ made t r h l (components_aux cur rest)).

(** At a slash: [mkdir] of what is before it. *)
Section at_slash.
Context (done rest : bytes) (cs : list bytes) (cur : bytes) (l : loc) (h : world).
Hypothesis loop : ensures rest.
Hypothesis done_ne : done <> [].
Hypothesis done_short : len ((done ++ [SLASH]) ++ rest) < PATH_MAX.
Hypothesis done_cs : components done = cs ++ [cur].
Hypothesis cur_up : cur <> L"..".
Hypothesis rest_up : no_up (components_aux [] rest).
Hypothesis at_l : walk (w_nmax h) (w_tree h) (start h done) cs = inr l.
Hypothesis l_there : is_Some (w_tree h !! l).

Notation X := (components_aux [] rest).
Notation goal := (fun _ r h' => exists t, h' = set_tree t h /\ made t r h l (cur :: X)).

Lemma done_slash : components (done ++ [SLASH]) = (cs ++ [cur]) ++ [[]].
Proof using done_cs. rewrite (components_app done [SLASH] cs cur done_cs). simpl. by rewrite <- app_assoc. Qed.

Lemma mkdirs_cur t0 m :
  t0 = (if decide (w_tree h !! m = None) then <[m := Dir]> (w_tree h) else w_tree h) ->
  step (w_nmax h) (w_tree h) l cur = inr m ->
  mkdirs (w_nmax h) (w_tree h) l (removelast (cur :: X)) = mkdirs (w_nmax h) t0 m (removelast X).
Proof using done.
  intros Ht0 Hm. rewrite removelast_cons by apply components_aux_ne. simpl. rewrite Hm. subst t0.
  by destruct (w_tree h !! m); rewrite ?decide_True, ?decide_False by done.
Qed.

(** The directory is there, now or before: on to the rest. *)
Lemma ensure_go t0 m en' :
  t0 = (if decide (w_tree h !! m = None) then <[m := Dir]> (w_tree h) else w_tree h) ->
  step (w_nmax h) (w_tree h) l cur = inr m ->
  WP (ensure_dirs (done ++ [SLASH]) rest) en' (set_tree t0 h) goal.
Proof using All.
  intros Ht0 Hm. assert (keeps_dirs (w_tree h) t0) as Hk.
  { subst t0. destruct (decide _) as [E|]; [apply keeps_dirs_insert; by rewrite E|apply keeps_dirs_refl]. }
  eapply wpm_mono; [eapply (loop (done ++ [SLASH]) (cs ++ [cur]) [] m)|].
  - by destruct done.
  - done.
  - apply done_slash.
  - done.
  - change (start (set_tree t0 h) (done ++ [SLASH])) with (start h (done ++ [SLASH])).
    rewrite start_app, walk_app by done. simpl w_nmax. simpl w_tree.
    rewrite (walk_mono _ _ t0 _ _ _ Hk at_l). simpl. by rewrite (step_mono _ _ t0 _ _ _ Hk Hm).
  - simpl. subst t0. destruct (decide _) as [E|E]; [rewrite lookup_insert_eq; by eexists|].
    destruct (w_tree h !! m); [by eexists|done].
  - intros en2 r h2 (t & -> & Hmade). exists t. split; [by destruct h|].
    destruct Hmade as [Hr|(-> & Hft & Hg)]; [left; by rewrite (mkdirs_cur t0 m)|right].
    apply step_loc in Hm as (-> & _); [|done]. simpl in Hg. split_and!; [done..|].
    rewrite (names_cons cur X), app_assoc. eapply grown_trans; [|exact Hg].
    subst t0. destruct (decide _); [|apply grown_refl]. apply grown_insert; [done|by apply prefix_app_r].
Qed.

Lemma ensure_there m en' n :
  step (w_nmax h) (w_tree h) l cur = inr m -> w_tree h !! m = Some n ->
  WP (ensure_dirs (done ++ [SLASH]) rest) en' h goal.
Proof using All.
  intros Hm Hn. assert (set_tree (w_tree h) h = h) as Hid by (by destruct h).
  pose proof (ensure_go (w_tree h) m en') as Hgo. rewrite Hid in Hgo. apply Hgo; [|done]. by rewrite decide_False by (rewrite Hn; done).
Qed.

Lemma ensure_fail en' :
  (exists e, step (w_nmax h) (w_tree h) l cur = inl e) \/ faulty = true -> WP (mret (-1)) en' h goal.
Proof using All.
  intros Hwhy. apply wpm_ret. exists (w_tree h). split; [by destruct h|]. destruct Hwhy as [[e He]|?].
  - left. rewrite removelast_cons by apply components_aux_ne. simpl. by rewrite He; auto.
  - right. split_and!; [done..|apply grown_refl].
Qed.

(** After another slash: the directory was made before, unless it is a file. *)
Lemma ensure_slashes n en' :
  cur = [] -> w_tree h !! l = Some n -> WP (ensure_dirs (done ++ [SLASH]) rest) en' h goal.
Proof using All.
  intros Hc Hn. assert (start h (done ++ [SLASH]) = start h done) as Hst by (by apply start_app).
  pose proof done_slash as Hds. rewrite Hc in Hds. destruct n as [|b].
  - apply (ensure_there l en' Dir); [|done]. rewrite Hc. unfold step. by rewrite Hn.
  - eapply wpm_mono; [eapply (wpm_ensure_stuck (done ++ [SLASH]) rest (cs ++ [[]]) []); [by destruct done|done|done|]|].
    + rewrite Hst. split; [|rewrite strip_snoc_nil, (walk_strip _ _ _ _ _ at_l); by exists b].
      exists ENOTDIR. rewrite walk_app, at_l. simpl. unfold step. by rewrite Hn.
    + intros en2 r h2 [-> Hr2]. exists (w_tree h). split; [by destruct h|]. left.
      rewrite Hc, removelast_cons by apply components_aux_ne. simpl. unfold step. rewrite Hn. simpl. destruct Hr2; auto.
Qed.

Lemma ensure_slash en :
  WP (r ← mkdir done;
      match r with
      | inl e => if negb (e =? EEXIST) then mret (-1) else ensure_dirs (done ++ [SLASH]) rest
      | inr _ => ensure_dirs (done ++ [SLASH]) rest
      end) en h goal.
Proof using All.
  assert (len done < PATH_MAX) by (rewrite !length_app in done_short; lia).
  apply wpm_bind, wpm_sys_posix. unfold post, entry. rewrite done_cs, resolve_as_walk by done.
  assert (l_ex := l_there). destruct l_ex as [n Hn]. destruct (decide (cur = [])) as [Hc|Hcur].
  - assert (strip (cs ++ [cur]) = strip cs) as -> by (rewrite Hc; apply strip_snoc_nil).
    rewrite (walk_strip _ _ _ _ _ at_l). intros [e|[]] h1 Hpost; cbn [id].
    + destruct Hpost as [-> Hr]. destruct (Z.eqb_spec e EEXIST); cbn [negb]; [by eapply ensure_slashes|].
      apply ensure_fail. destruct Hr as [[e' ?]|[?|(_ & l' & b & [= <-] & Hb)]]; [done|by right|].
      left. exists ENOTDIR. unfold step. by rewrite Hb.
    + destruct Hpost as (l' & [= <-] & Hnone & _). congruence.
  - rewrite strip_snoc, walk_app, at_l by done. cbn [walk]. intros [e|[]] h1 Hpost; cbn [id].
    + destruct Hpost as [-> Hr]. destruct (Z.eqb_spec e EEXIST); cbn [negb].
      * destruct Hr as (m & Hm & [k Hk]). destruct (step (w_nmax h) (w_tree h) l cur) as [|m'] eqn:E; [done|].
        injection Hm as ->. by eapply ensure_there.
      * apply ensure_fail. destruct Hr as [[e' He]|[?|(Hsl & _)]]; [left|by right|].
        -- destruct (step (w_nmax h) (w_tree h) l cur); [by eexists|done].
        -- exfalso. unfold slashed in Hsl. apply bool_decide_eq_true_1 in Hsl. by rewrite strip_snoc in Hsl.
    + destruct Hpost as (m & Hm & Hnone & ->). destruct (step (w_nmax h) (w_tree h) l cur) as [|m'] eqn:E; [done|].
      injection Hm as ->. apply (ensure_go _ m); [|done]. by rewrite decide_True.
Qed.
End at_slash.

Lemma wpm_ensure_dirs rest : ensures rest.
Proof.
  induction rest as [|c rest IH]; intros done cs cur l en h Hne Hl Hcs Hup Hw Hs.
  { simpl. apply wpm_ret. exists (w_tree h). split; [by destruct h|]. by left; auto. }
  cbn [ensure_dirs components_aux] in *.
  assert (len ((done ++ [c]) ++ rest) < PATH_MAX) by (by rewrite <- app_assoc).
  destruct (Z.eqb_spec c SLASH) as [->|Hc]; cbn [negb].
  - apply no_up_cons in Hup as [Hcu Hup]. by eapply ensure_slash.
  - assert (components (done ++ [c]) = cs ++ [cur ++ [c]]) as Hsn.
    { rewrite (components_app done [c] cs cur Hcs). simpl. by destruct (Z.eqb_spec c SLASH). }
    eapply IH; [by destruct done|done|exact Hsn|done| |done]. by rewrite start_app.
Qed.

Lemma wpm_ensure_parents p en h :
  p <> [] -> len p < PATH_MAX -> no_up (components p) -> w_tree h !! start h p = Some Dir ->
  WP (path_ensure_parent_dirs p) en h (fun _ r h' => exists t,
    h' = set_tree t h /\ made t r h (start h p) (components p)).
Proof.
  intros Hp Hl Hup Hd. unfold path_ensure_parent_dirs, snprintf.
  destruct (Z.leb_spec (len p) INT_MAX); [|unfold PATH_MAX, INT_MAX in *; lia].
  destruct (Z.ltb_spec (len p) 0), (Z.leb_spec PATH_MAX (len p)); try lia.
  cbn [orb]. change (PATH_MAX =? 0) with false. cbn iota. rewrite take_ge by (unfold PATH_MAX in *; lia).
  destruct p as [|c rest]; [done|]. destruct (Z.eqb_spec c SLASH) as [->|Hc].
  - change (components (SLASH :: rest)) with ([] :: components_aux [] rest) in *.
    apply no_up_cons in Hup as [_ Hup]. change (start h (SLASH :: rest)) with (@nil bytes) in *.
    assert (step (w_nmax h) (w_tree h) [] [] = inr []) as Hst by (unfold step; by rewrite Hd).
    eapply wpm_mono; [eapply (wpm_ensure_dirs rest [SLASH] [[]] [] []); [done|done|done|done| |by rewrite Hd]|].
    + change (start h [SLASH]) with (@nil bytes). simpl. by rewrite Hst.
    + intros en' r h' (t & -> & Hm). exists t. split; [done|]. unfold made in *.
      rewrite removelast_cons by apply components_aux_ne. cbn [mkdirs]. rewrite Hst, Hd. exact Hm.
  - assert (components (c :: rest) = components_aux [c] rest) as E.
    { unfold components. simpl. by destruct (Z.eqb_spec c SLASH). }
    rewrite E in *. assert (start h (c :: rest) = start h [c]) as Es by done. rewrite Es in *.
    eapply (wpm_ensure_dirs rest [c] [] [c] (start h [c])); [done|done| |done|done|by rewrite Hd].
    unfold components. simpl. by destruct (Z.eqb_spec c SLASH).
Qed.

(** * Writing *)

Lemma splice_end b data : splice b (len b) data = b ++ data.
Proof.
  unfold splice. rewrite Nat2Z.id, take_ge, drop_ge by lia. by rewrite app_nil_r.
Qed.

Lemma did_fd_id f l b h : w_tree h !! l = Some (File b) -> did_fd f (put l b (w_tree h)) h h.
Proof. intros Hb. split_and!; [by rewrite insert_id|done|lia]. Qed.

Lemma did_fd_put f l x y h1 h2 h3 :
  did_fd f (put l x (w_tree h1)) h1 h2 -> did_fd f (put l y (w_tree h2)) h2 h3 ->
  did_fd f (put l y (w_tree h1)) h1 h3.
Proof.
  intros (E & ? & ?) (E' & ? & ?). split_and!; [|congruence|lia]. by rewrite E', E, insert_insert_eq.
Qed.

Lemma did_fd_calm_l f l x h1 h2 h3 :
  calm_fd f h1 h2 -> did_fd f (put l x (w_tree h2)) h2 h3 -> did_fd f (put l x (w_tree h1)) h1 h3.
Proof. intros (E & ? & ?) (E' & ? & ?). split_and!; [by rewrite E', E|congruence|lia]. Qed.

(** Appending [data] to a file open at its end: the loop that [write_loop] and
    [copy_write] share, on the answer of one [write]. *)
Lemma write_progress f l b data k h h' :
  w_fds h !! f = Some (l, len b) -> w_tree h !! l = Some (File b) ->
  post faulty (EWrite f data) (inr k) h h' ->
  0 <= k <= len data /\ did_fd f (put l (b ++ take (Z.to_nat k) data) (w_tree h)) h h' /\
  w_fds h' !! f = Some (l, len (b ++ take (Z.to_nat k) data)) /\
  w_tree h' !! l = Some (File (b ++ take (Z.to_nat k) data)) /\
  len (drop (Z.to_nat k) data) + Z.of_nat (w_budget h') < len data + Z.of_nat (w_budget h).
Proof.
  intros Hf Hb (l' & off & b' & Hf' & Hb' & Hk & Hs). simplify_eq.
  split; [done|]. destruct (Z.eqb_spec k 0) as [->|Hk0].
  - simpl. rewrite app_nil_r. destruct Hs as (n & Hn & ->).
    split; [|split; [done|split; [done|simpl; rewrite length_drop; lia]]].
    split_and!; simpl; [by rewrite insert_id|done|lia].
  - rewrite splice_end in Hs. rewrite Hs. split; [apply did_fd_set|].
    split; [|split; [apply lookup_insert_eq|rewrite length_drop; simpl; lia]].
    simpl. rewrite lookup_insert_eq, length_app, length_take. do 2 f_equal. lia.
Qed.

Lemma wpm_write_loop n f l b data en h :
  w_fds h !! f = Some (l, len b) -> w_tree h !! l = Some (File b) ->
  len data + Z.of_nat (w_budget h) <= Z.of_nat n ->
  WP (write_loop n f data) en h
    (fun en' r h' => exists x, did_fd f (put l x (w_tree h)) h h' /\
       (r = true /\ x = b ++ data \/ r = false /\ faulty = true)).
Proof.
  revert b data en h. induction n as [|n IH]; intros b data en h Hf Hb Hn.
  { destruct data; [|simpl in Hn; lia]. apply wpm_ret. exists b. rewrite app_nil_r.
    split; [by apply did_fd_id|by left]. }
  destruct data as [|c data].
  { apply wpm_ret. exists b. rewrite app_nil_r. split; [by apply did_fd_id|by left]. }
  cbn [write_loop]. set (d := c :: data) in *. apply wpm_bind, wpm_sys_posix.
  split; [split; [done|exists l, (len b), b; split_and!; (done || lia)]|].
  intros [e|k] h1 Hpost; cbn [id].
  - simpl in Hpost. unfold failed in Hpost. destruct (e =? EINTR).
    + pose proof (calm_stall _ _ Hpost) as Hc. destruct Hpost as (m & Hm & ->).
      eapply wpm_mono; [apply (IH b d); simpl in *; (done || lia)|].
      intros en' r h' (x & Hx & Hr). exists x. split; [|done].
      eapply did_fd_calm_l; [apply did_did_fd, Hc|done].
    + destruct Hpost as (? & ? & ->). apply wpm_ret. exists b. split; [by apply did_fd_id|by right].
  - apply (write_progress f l b d) in Hpost as (Hk & Hput & Hf1 & Hb1 & Hlt); [|done..].
    eapply wpm_mono; [apply (IH _ _ _ h1 Hf1 Hb1); lia|].
    intros en' r h' (x & Hx & Hr). exists x. split; [by eapply did_fd_put|].
    destruct Hr as [[-> ->]|?]; [left|by right]. split; [done|]. by rewrite <- app_assoc, take_drop.
Qed.

(** A failed write to [l] may have made directories on the way and have left
    anything in the file. *)
Definition spoiled (l : loc) (t t' : tree) : Prop :=
  exists t1, grown l t t1 /\ (t' = t1 \/ t1 !! l <> Some Dir /\ exists x, t' = put l x t1).

Lemma usable_store t h p :
  p <> [] -> len p < PATH_MAX ->
  t = (mkdirs (w_nmax h) (w_tree h) (start h p) (removelast (components p))).1 ->
  stores h p = (t, usable (set_tree t h) p).
Proof.
  intros Hp Hl ->. unfold store, usable, resolve. rewrite resolve_as_walk by done. simpl.
  destruct (mkdirs (w_nmax h) (w_tree h) (start h p) (removelast (components p))) as [t [m|]] eqn:E; [done|].
  simpl. f_equal. destruct (removelast_last_list (components p) (components_aux_ne _ _)) as [x Hx].
  destruct (mkdirs_none_walk _ _ _ _ _ [x] E) as [e He]. rewrite Hx.
  change (start (set_tree t h) p) with (start h p). by rewrite He.
Qed.

Lemma wpm_write_all_file fuel p data en h :
  p <> [] -> len p < PATH_MAX -> no_up (components p) -> w_tree h !! start h p = Some Dir ->
  len data + Z.of_nat (w_budget h) <= Z.of_nat fuel ->
  WP (write_all_file fuel p data) en h (fun _ r h' =>
    match stores h p with
    | (t, Some l) => r = 0 /\ did (put l data t) h h'
    | (t, None) => r = -1 /\ did t h h'
    end \/
    r = -1 /\ faulty = true /\ exists t, spoiled (start h p ++ names (components p)) (w_tree h) t /\ did t h h').
Proof.
  intros Hp Hl Hup Hd Hfuel. set (dst := start h p ++ names (components p)).
  apply wpm_bind. eapply wpm_mono; [by apply wpm_ensure_parents|]. fold dst.
  intros en1 r h1 (t & -> & [[Ht Hr]|(-> & Hft & Hg)]).
  2: { apply wpm_ret. right. split_and!; [done..|]. exists t. split; [exists t; auto|apply did_set]. }
  pose proof (usable_store t h p Hp Hl Ht) as Hst. rewrite Hst.
  destruct (store_facts _ _ _ _ _ _ Hup Hst) as [Hg Hat]. fold dst in Hg, Hat.
  destruct Hr as [->|[-> Hnone]]; simpl negb; cbn iota.
  2: { apply wpm_ret. left. unfold store in Hst.
       destruct (mkdirs (w_nmax h) (w_tree h) (start h p) (removelast (components p))) as [t' o]. simpl in Hnone, Ht.
       subst t' o. injection Hst as <-. split; [done|apply did_set]. }
  apply wpm_bind, wpm_sys_posix. intros [e|f] h1 Hpost; simpl in Hpost; cbn [id].
  { destruct Hpost as [-> [E|Hft]]; apply wpm_ret; [rewrite E; left; split; [done|apply did_set]|].
    right. split_and!; [done..|]. exists t. split; [exists t; auto|apply did_set]. }
  destruct Hpost as (Hnone & l & Hu & ->). rewrite Hu. set (h1 := set_tree _ _).
  assert (did_fd f (put l [] t) h h1) as Hput1.
  { split_and!; [done| |simpl; lia]. unfold frame_fd. simpl. by rewrite delete_insert_eq. }
  destruct (Hat l Hu) as [-> Hnd].
  assert (forall en' h2 x, faulty = true -> did_fd f (put dst x t) h h2 ->
    WP (close f;; mret (-1)) en' h2 (fun _ r h' => r = 0 /\ did (put dst data t) h h' \/
      r = -1 /\ faulty = true /\ exists t, spoiled dst (w_tree h) t /\ did t h h')) as Hfail.
  { intros en' h2 x Hft Hx. apply wpm_bind.
    eapply wpm_close_did; [done..| |]; intros; apply wpm_ret; right; (split_and!; [done..|]);
      exists (put dst x t); (split; [|done]); exists t; (split; [done|]); right; eauto. }
  apply wpm_bind. eapply wpm_mono.
  { apply (wpm_write_loop fuel f dst []); [apply lookup_insert_eq|apply lookup_insert_eq|simpl; lia]. }
  intros en2 ok h2 (x & Hx & Hok). simpl in Hx. rewrite insert_insert_eq in Hx.
  assert (did_fd f (put dst x t) h h2) by (by eapply did_fd_trans).
  destruct Hok as [[-> ->]|[-> ?]]; cbn [negb]; [|by eapply Hfail].
  apply wpm_bind, wpm_sys_posix. intros [e|[]] h3 [-> Hs]; cbn [id]; [by eapply Hfail|].
  apply wpm_bind. eapply wpm_close_did; [done..| |]; intros; apply wpm_ret; [by left|].
  right. split_and!; [done..|]. exists (put dst data t). split; [|done]. exists t. split; [done|]. right. eauto.
Qed.

(** * Logging and locking *)

Definition log_name : bytes := L"operations.log".

(** Where the log is. *)
Definition log_loc (base : loc) : loc := base ++ [log_name].

(** The server's data directory [dir] exists, at [base]; its path does not go
    up.  The log in it, if it exists, is a file.  [NAME_MAX] is at least what
    POSIX requires. *)
Record based (dir : bytes) (base : loc) (h : world) : Prop := mk_based {
  bs_dir : dir <> [];
  bs_up : no_up (components dir);
  bs_short : len (dir ++ L"/operations.log") < PATH_MAX;
  bs_walk : walk (w_nmax h) (w_tree h) (start h dir) (components dir) = inr base;
  bs_base : w_tree h !! base = Some Dir;
  bs_nmax : 14 <= w_nmax h;
  bs_log : w_tree h !! log_loc base <> Some Dir;
}.

(** The log may have grown. *)
Definition logged (base : loc) (t t' : tree) : Prop :=
  t' = t \/ exists b x, (t !! log_loc base = Some (File b) \/ t !! log_loc base = None /\ b = []) /\
                        t' = put (log_loc base) (b ++ x) t.

Lemma logged_trans base t1 t2 t3 : logged base t1 t2 -> logged base t2 t3 -> logged base t1 t3.
Proof.
  intros [->|(b & x & Hb & ->)] H2; [done|]. destruct H2 as [->|(b' & y & Hb' & ->)]; [right; eauto|].
  right. rewrite lookup_insert_eq in Hb'. destruct Hb' as [[= <-]|[? _]]; [|done].
  exists b, (x ++ y). split; [done|]. by rewrite insert_insert_eq, app_assoc.
Qed.

Lemma logged_other base t t' k : logged base t t' -> k <> log_loc base -> t' !! k = t !! k.
Proof. intros [->|(b & x & _ & ->)] Hk; [done|]. by rewrite lookup_insert_ne. Qed.

Lemma logged_not_dir base t t' :
  logged base t t' -> t !! log_loc base <> Some Dir -> t' !! log_loc base <> Some Dir.
Proof. intros [->|(b & x & _ & ->)] Hd; [done|]. by rewrite lookup_insert_eq. Qed.

Lemma log_not_base base k : k `prefix_of` base -> k <> log_loc base.
Proof. intros [x ->] E. apply (f_equal length) in E. unfold log_loc in E. rewrite !length_app in E. simpl in E. lia. Qed.

(** Walks see only what is above where they lead. *)
Lemma walk_agree nmax t t' l cs l' :
  no_up cs -> walk nmax t l cs = inr l' ->
  (forall k, k `prefix_of` l' -> t !! k = Some Dir -> t' !! k = Some Dir) -> walk nmax t' l cs = inr l'.
Proof.
  revert l. induction cs as [|c cs IH]; intros l; simpl; [done|].
  rewrite no_up_cons. intros [Hc Hcs]. destruct (step nmax t l c) as [e|m] eqn:E; [done|]. intros Hw Hk.
  pose proof (walk_loc _ _ _ _ _ Hcs Hw) as Hl'. pose proof (step_loc _ _ _ _ _ Hc E) as (Hm & Hd & _).
  assert (t' !! l = Some Dir) as Hd'.
  { apply Hk; [|done]. rewrite Hl', Hm, <- app_assoc. by apply prefix_app_r. }
  assert (step nmax t' l c = inr m) as ->; [|by apply IH].
  unfold step in *. by rewrite Hd' , Hd in *.
Qed.

Lemma based_did dir base h t h' :
  based dir base h -> did t h h' ->
  (forall k, k `prefix_of` base -> w_tree h !! k = Some Dir -> t !! k = Some Dir) ->
  t !! log_loc base <> Some Dir -> based dir base h'.
Proof.
  intros [? ? ? Hw Hb ? ?] (Ht & Hf & _) Hk Hl. unfold frame in Hf. injection Hf as Hc Hn _ _ _ _ _.
  assert (start h' dir = start h dir) as Hs by (unfold start; by rewrite Hc).
  constructor; rewrite ?Hs, ?Ht, ?Hn; try done.
  - by eapply walk_agree.
  - by apply Hk.
Qed.

Lemma based_logged dir base h t h' : based dir base h -> logged base (w_tree h) t -> did t h h' -> based dir base h'.
Proof.
  intros Hb Hl Hd. eapply based_did; [done|done| |].
  - intros k Hk Hkd. rewrite (logged_other _ _ _ _ Hl); [done|]. by apply log_not_base.
  - eapply logged_not_dir; [done|apply Hb].
Qed.

Lemma logger_init_short dir : len (dir ++ L"/operations.log") < PATH_MAX -> logger_init dir = dir ++ L"/operations.log".
Proof. intros Hl. unfold logger_init, snprintf. apply take_ge. unfold PATH_MAX in Hl. lia. Qed.

Lemma resolve_log dir base h : based dir base h -> resolve h (logger_init dir) = inr (log_loc base).
Proof.
  intros [Hd Hu Hs Hw Hb Hn _]. rewrite logger_init_short by done. unfold resolve.
  rewrite resolve_as_walk; [|by destruct dir|done].
  change (L"/operations.log") with ([SLASH] ++ log_name). rewrite components_slash, start_app, walk_app, Hw by done.
  change (components log_name) with [log_name]. cbn [walk]. unfold step. rewrite Hb. simpl orb. cbn iota.
  rewrite bool_decide_eq_false_2 by done. change (len log_name) with 14. by destruct (Z.ltb_spec (w_nmax h) 14); [lia|].
Qed.

Lemma appends_logged base fp pos h h' :
  w_fps h !! fp = Some (log_loc base, pos) -> (exists b, w_tree h !! log_loc base = Some (File b)) ->
  appends fp h h' -> exists t, logged base (w_tree h) t /\ h' = set_tree t h /\ exists b, t !! log_loc base = Some (File b).
Proof.
  intros Hf _ (l & pos' & b & x & Hl & Hb & ->). rewrite Hf in Hl. injection Hl as <- <-.
  exists (put (log_loc base) (b ++ x) (w_tree h)). split; [right; eauto|]. split; [done|].
  rewrite lookup_insert_eq. by eexists.
Qed.

Lemma wpm_log dir base client cmd target status detail en h :
  based dir base h ->
  WP (log (logger_init dir) client cmd target status detail) en h (fun _ _ h' =>
    exists t, logged base (w_tree h) t /\ did t h h').
Proof.
  intros Hbs. pose proof (resolve_log _ _ _ Hbs) as Hr.
  assert (exists t, logged base (w_tree h) t /\ did t h h) as Hnone.
  { exists (w_tree h). split; [by left|]. by split_and!. }
  apply wpm_bind, wpm_call_posix. intros ts h0 Hh0. simpl in Hh0. subst h0.
  apply wpm_bind, wpm_call_posix. intros ? h1 Hh1. simpl in Hh1. subst h1.
  apply wpm_bind, wpm_sys_posix. intros [e|fp] h2 Hh2; simpl in Hh2; cbn [id].
  { destruct Hh2 as [-> _]. apply wpm_call_posix. intros ? h3 Hh3. simpl in Hh3. by subst h3. }
  destruct Hh2 as (Hfp & l & b & Hu & Hb & ->). unfold usable in Hu. rewrite Hr in Hu.
  destruct (is_dir _); [done|]. injection Hu as <-. set (h2 := set_tree _ _).
  assert (logged base (w_tree h) (w_tree h2)) as Hl2.
  { right. exists b, []. rewrite app_nil_r. auto. }
  assert (w_fps h2 !! fp = Some (log_loc base, 0)) as Hf2 by apply lookup_insert_eq.
  assert (exists b, w_tree h2 !! log_loc base = Some (File b)) as Hx2 by (exists b; apply lookup_insert_eq).
  apply wpm_bind, wpm_call_posix. split; [destruct Hx2 as [b2 ?]; by exists (log_loc base), 0, b2|].
  intros ? h3 (t3 & Hl3 & -> & Hx3)%(appends_logged base fp 0); [|done..].
  apply wpm_bind, wpm_call_posix. split; [destruct Hx3 as [b3 ?]; by exists (log_loc base), 0, b3|].
  intros ? h4 (h4' & (t4 & Hl4 & -> & _)%(appends_logged base fp 0) & ->); [|done..].
  apply wpm_call_posix. intros ? h5 Hh5. simpl in Hh5. subst h5.
  exists t4. split; [|split_and!; [done| |simpl; lia]].
  - eapply logged_trans; [exact Hl2|]. by eapply logged_trans.
  - unfold frame. simpl. by rewrite delete_insert_id.
Qed.

(** Only the lock calls can fail, and nothing else happens. *)
Lemma wpm_get_or_create p en h (Q : Z -> option file_lock_entry -> world -> Prop) :
  (forall en' x, Q en' (Some x) h) -> (faulty = true -> forall en', Q en' None h) ->
  WP (get_or_create_lock p) en h Q.
Proof.
  intros Hs Hn. unfold get_or_create_lock.
  apply wpm_bind, wpm_call_posix. intros ? h1 Hh1. simpl in Hh1. subst h1.
  apply wpm_bind, wpm_call_posix. intros m h1 Hh1. simpl in Hh1. subst h1.
  assert (forall en' r, Q en' r h -> WP (call (EMutexUnlock MapMutex);; mret r) en' h Q) as Hu.
  { intros en' o HQ. apply wpm_bind, wpm_call_posix. intros ? h1 Hh1. simpl in Hh1. subst h1.
    by apply wpm_ret. }
  destruct (find_entry m p); [by apply Hu|].
  apply wpm_bind, wpm_malloc; cbn [negb]; [|intros; apply Hu; auto].
  apply wpm_bind, wpm_malloc; cbn [negb]; [|intros; apply Hu; auto].
  apply wpm_bind, wpm_call_posix. intros [] h1 [-> Hok]; cbn [negb].
  - apply wpm_bind, wpm_call_posix. intros l h1 Hh1. simpl in Hh1. subst h1. by apply Hu.
  - apply Hu. destruct Hok; [done|auto].
Qed.

Lemma wpm_lock_read p en h (Q : Z -> option Z -> world -> Prop) :
  (forall en' l, Q en' (Some l) h) -> (faulty = true -> forall en', Q en' None h) ->
  WP (locks_acquire_read p) en h Q.
Proof.
  intros Hs Hn. apply wpm_bind, wpm_get_or_create; [|intros; by apply wpm_ret; auto].
  intros en' x. apply wpm_bind, wpm_call_posix. intros r h1 [-> Hr]. apply wpm_ret.
  destruct (Z.eqb_spec r 0); simpl; [apply Hs|]. destruct Hr; [done|auto].
Qed.

Lemma wpm_lock_write p en h (Q : Z -> option Z -> world -> Prop) :
  (forall en' l, Q en' (Some l) h) -> (faulty = true -> forall en', Q en' None h) ->
  WP (locks_acquire_write p) en h Q.
Proof.
  intros Hs Hn. apply wpm_bind, wpm_get_or_create; [|intros; by apply wpm_ret; auto].
  intros en' x. apply wpm_bind, wpm_call_posix. intros r h1 [-> Hr]. apply wpm_ret.
  destruct (Z.eqb_spec r 0); simpl; [apply Hs|]. destruct Hr; [done|auto].
Qed.

Lemma wpm_unlock_any l en h (Q : Z -> unit -> world -> Prop) :
  Q en tt h -> WP (call (EUnlock l)) en h Q.
Proof. intros HQ. apply wpm_call_posix. intros [] h1 Hh1. simpl in Hh1. by subst h1. Qed.

Lemma wpm_lock_two p q en h (Q : Z -> option (Z * Z * bool) -> world -> Prop) :
  (forall en' ls, Q en' (Some ls) h) -> (faulty = true -> forall en', Q en' None h) ->
  WP (locks_acquire_two_write p q) en h Q.
Proof.
  intros Hs Hn. unfold locks_acquire_two_write. destruct (strcmp p q =? 0).
  - apply wpm_bind, wpm_lock_write; intros; apply wpm_ret; auto.
  - cbv zeta. apply wpm_bind, wpm_lock_write; [|intros; apply wpm_ret; auto].
    intros en1 l1. apply wpm_bind, wpm_lock_write; [intros; apply wpm_ret; auto|].
    intros Hft en2. apply wpm_bind, wpm_unlock_any. apply wpm_ret; auto.
Qed.

Lemma wpm_release_any ls en h (Q : Z -> unit -> world -> Prop) :
  Q en tt h -> WP (locks_release_two ls) en h Q.
Proof.
  intros HQ. destruct ls as [[la lb] []]; simpl; [by apply wpm_unlock_any|].
  apply wpm_bind, wpm_unlock_any. by apply wpm_unlock_any.
Qed.

End rules.

End Posix.
