(* ===== verification/SrvRefine.v ===== *)
(** The command handlers of the file server refine an abstract specification
    over the tree of files: under the POSIX contract of [SrvPosix] every handler
    terminates, sends exactly one well-formed reply (or the client is gone), and
    the reply and the new tree are those the specification allows; beyond that
    only the log changes, which grows.  Without faults every reply is determined
    by what the paths of the request name. *)

From S2P Require Import Prelude Libc Rle SrvEvents SrvPath SrvTree SrvResp SrvLocks SrvFileOps SrvServer SrvPosix.
Import Libc Path Tree Resp Locks Logger FileOps Server Posix.

Module Refine.

(** * The specification *)

(** Commands, on the paths clients send. *)
Inductive command :=
  | CGet (p : bytes)
  | CSet (p data : bytes)
  | CDel (p : bytes)
  | CRename (s d : bytes)
  | CCopy (s d : bytes)
  | CStat (p : bytes)
  | CCompress (s d : bytes)
  | CDecompress (s d : bytes).

Definition OK : reply := RSimple (L"OK").

(** [base] is the data directory, [nmax] is [NAME_MAX]. *)
Section spec.
Context (faulty : bool) (nmax : Z) (base : loc).

Notation lookup_path t p := (find nmax t base (components p)).
Notation store_path t p := (store nmax t base (components p)).

(** The location of a client's path. *)
Definition at_path (p : bytes) : loc := base ++ names (components p).

(** The path leads nowhere, though not for want of an entry. *)
Definition misnamed (t : tree) (p : bytes) : Prop :=
  exists e, lookup_path t p = inl e /\ e <> ENOENT.

(** It does, or it names what cannot be loaded: a directory, a file that is too
    large. *)
Definition unreadable (t : tree) (p : bytes) : Prop :=
  misnamed t p \/ lookup_path t p = inr Dir \/
  exists b, lookup_path t p = inr (File b) /\ MAX_FILE_SIZE < len b.

(** [p] can be loaded and its contents are [b]. *)
Definition contents (t : tree) (p b : bytes) : Prop :=
  exists n, lookup_path t p = inr n /\ loads n b /\ len b <= MAX_FILE_SIZE.

(** [x] was stored at [p], with the directories on the way. *)
Definition stored (t : tree) (p x : bytes) (t' : tree) : Prop :=
  exists t1 l, store_path t p = (t1, Some l) /\ t' = put l x t1.

(** Nothing can be stored at [p]; directories on the way may have been made. *)
Definition not_stored (t : tree) (p : bytes) (t' : tree) : Prop := store_path t p = (t', None).

(** A failed call on the way to storing something at [p]. *)
Definition botched (t : tree) (p : bytes) (t' : tree) : Prop := faulty = true /\ spoiled (at_path p) t t'.

(** RENAMEFILE makes the directories of the new path, then renames. *)
Definition spec_rename (s d : bytes) (t : tree) (r : reply) (t' : tree) : Prop :=
  let '(t1, o) := mkdirs nmax t base (removelast (components d)) in
  let moved := rename_path nmax t1 base (components s) base (components d) in
  match r with
  | RSimple m => m = L"OK" /\ moved = Some t'
  | RError _ => t' = t1 /\ (o = None \/ moved = None) \/ faulty = true /\ grown (at_path d) t t'
  | _ => False
  end.

(** [spec c t r t']: command [c] on files [t] may answer [r] and leave [t']. *)
Definition spec (c : command) (t : tree) (r : reply) (t' : tree) : Prop :=
  match c, r with
  | CGet p, RBulk b => contents t p b /\ t' = t
  | CGet p, RNull => lookup_path t p = inl ENOENT /\ t' = t
  | CGet p, RError _ => (unreadable t p \/ faulty = true) /\ t' = t
  | CSet p data, RSimple m => m = L"OK" /\ stored t p data t'
  | CSet p _, RError _ => not_stored t p t' \/ botched t p t'
  | CDel p, RInt n =>
      n = 1 /\ (exists l b, walk nmax t base (components p) = inr l /\ t !! l = Some (File b) /\ t' = delete l t) \/
      n = 0 /\ lookup_path t p = inl ENOENT /\ t' = t
  | CDel p, RError _ => (misnamed t p \/ lookup_path t p = inr Dir \/ faulty = true) /\ t' = t
  | CRename s d, r => spec_rename s d t r t'
  | CCopy s d, RSimple m =>
      m = L"OK" /\ exists ls b t1 l, walk nmax t base (components s) = inr ls /\ t !! ls = Some (File b) /\
        store_path t d = (t1, Some l) /\ t' = put l (if bool_decide (ls = l) then [] else b) t1
  | CCopy s d, RError _ =>
      (exists e, lookup_path t s = inl e) /\ t' = t \/
      (exists n, lookup_path t s = inr n) /\ not_stored t d t' \/
      lookup_path t s = inr Dir /\ stored t d [] t' \/
      faulty = true /\ t' = t \/ botched t d t'
  | CStat p, RBulk m =>
      (exists n st, lookup_path t p = inr n /\ m = stat_text st /\ forall b, n = File b -> st_size st = len b) /\ t' = t
  | CStat p, RNull => lookup_path t p = inl ENOENT /\ t' = t
  | CStat p, RError _ => (misnamed t p \/ faulty = true) /\ t' = t
  | CCompress s d, RSimple m =>
      m = L"OK" /\ exists b o, contents t s b /\ Rle.rle_enc b o /\ stored t d (Rle.header ++ o) t'
  | CCompress s d, RError _ =>
      (lookup_path t s = inl ENOENT \/ unreadable t s \/ faulty = true) /\ t' = t \/
      (exists b, contents t s b) /\ not_stored t d t' \/ botched t d t'
  | CDecompress s d, RSimple m =>
      m = L"OK" /\ exists b x, contents t s b /\ Rle.decode (fun _ => true) b = Rle.CBuf x /\ stored t d x t'
  | CDecompress s d, RError _ =>
      (lookup_path t s = inl ENOENT \/ unreadable t s \/ faulty = true \/
       exists b e, contents t s b /\ Rle.decode (fun _ => true) b = Rle.CErr e) /\ t' = t \/
      (exists b, contents t s b) /\ not_stored t d t' \/ botched t d t'
  | _, _ => False
  end.

(** A client path that [path_build] refuses is answered with an error. *)
Definition spec_path (dir rel : bytes) (c : bytes -> command) (t : tree) (r : reply) (t' : tree) : Prop :=
  match path_build dir rel PATH_MAX with
  | None => r = RError (L"invalid path") /\ t' = t
  | Some _ => spec (c rel) t r t'
  end.

Definition spec_two (dir src dst : bytes) (c : bytes -> bytes -> command) (t : tree) (r : reply) (t' : tree) : Prop :=
  match build_two dir src dst with
  | None => r = RError (L"invalid path") /\ t' = t
  | Some _ => spec (c src dst) t r t'
  end.
End spec.

(** * Full paths *)

(** A path of a client, below the data directory. *)
Section full_path.
Context (dir : bytes) (base : loc).

(** The path does not name the log or something below it. *)
Definition not_log (rel : bytes) : Prop := head (names (components rel)) <> Some log_name.

Section one_path.
Context (rel p : bytes) (h : world).
Hypothesis built : path_build dir rel PATH_MAX = Some p.
Hypothesis h_based : based dir base h.

Lemma built_facts : is_path_safe rel = true /\ p = dir ++ [SLASH] ++ rel /\ p <> [] /\ len p < PATH_MAX.
Proof using built.
  clear h_based. apply path_build_Some in built as (? & -> & Hl); [|unfold PATH_MAX, INT_MAX; lia].
  split_and!; [done|done|by destruct dir|done].
Qed.

Lemma components_built : components p = components dir ++ components rel.
Proof using built. destruct built_facts as (_ & -> & _). apply components_slash. Qed.

Lemma start_built : start h p = start h dir.
Proof using built h_based. destruct built_facts as (_ & -> & _). apply start_app, h_based. Qed.

Lemma no_up_rel : no_up (components rel).
Proof using built. destruct built_facts as (? & _). by apply safe_no_up. Qed.

Lemma no_up_built : no_up (components p).
Proof using built h_based. rewrite components_built. apply no_up_app. split; [apply h_based|apply no_up_rel]. Qed.

Lemma walk_built cs :
  walk (w_nmax h) (w_tree h) (start h p) (components dir ++ cs) = walk (w_nmax h) (w_tree h) base cs.
Proof using built h_based. rewrite start_built, walk_app. destruct h_based as [? ? ? ->]. done. Qed.

Lemma resolve_built : resolve h p = walk (w_nmax h) (w_tree h) base (components rel).
Proof using built h_based.
  destruct built_facts as (_ & _ & ? & ?). unfold resolve. by rewrite resolve_as_walk, components_built, walk_built.
Qed.

Lemma named_built : named h p = find (w_nmax h) (w_tree h) base (components rel).
Proof using built h_based. unfold named. by rewrite resolve_built. Qed.

Lemma start_dir : w_tree h !! start h p = Some Dir.
Proof using built h_based.
  rewrite start_built. destruct h_based as [? _ _ Hw _ _ _].
  destruct (components dir) as [|c cs] eqn:E; [by apply components_aux_ne in E|]. simpl in Hw.
  destruct (step (w_nmax h) (w_tree h) (start h dir) c) eqn:Es; [done|]. by eapply step_dir.
Qed.

Lemma at_built : start h p ++ names (components p) = at_path base rel.
Proof using built h_based.
  rewrite components_built, start_built, names_app, app_assoc.
  destruct h_based as [? Hu ? Hw ? ? ?]. by rewrite <- (walk_loc _ _ _ _ _ Hu Hw).
Qed.

Lemma mkdirs_built :
  mkdirs (w_nmax h) (w_tree h) (start h p) (removelast (components p)) =
  mkdirs (w_nmax h) (w_tree h) base (removelast (components rel)).
Proof using built h_based.
  rewrite components_built, removelast_app by apply components_aux_ne. rewrite mkdirs_app, start_built.
  destruct h_based as [? ? ? Hw Hb ? ?]. by rewrite (mkdirs_exists _ _ _ _ _ Hw) by (by rewrite Hb).
Qed.

Lemma stores_built : stores h p = store (w_nmax h) (w_tree h) base (components rel).
Proof using built h_based.
  unfold store. rewrite mkdirs_built.
  destruct (mkdirs (w_nmax h) (w_tree h) base (removelast (components rel))) as [t [l|]] eqn:E; [|done].
  f_equal. unfold slot. rewrite components_built, walk_app, start_built.
  destruct (mkdirs_walk (w_nmax h) (w_tree h) base (removelast (components rel))) as (_ & Hk & _). rewrite E in Hk. simpl in Hk.
  destruct h_based as [? ? ? Hw ? ? ?]. by rewrite (walk_mono _ _ _ _ _ _ Hk Hw).
Qed.

(** The first component of a safe path is a name, so the path has one. *)
Lemma strip_rel : strip (components rel) <> [].
Proof using built.
  destruct built_facts as (Hs & _). clear built. apply is_path_safe_spec in Hs as (Hne & Hhd & _).
  destruct rel as [|c rel']; [done|]. unfold components. simpl. destruct (Z.eqb_spec c SLASH) as [->|]; [done|].
  assert (exists x cs, components_aux [c] rel' = x :: cs /\ x <> []) as (x & cs & -> & Hx).
  { clear. assert ([c] <> []) as Hc by done. revert Hc. generalize [c]. induction rel' as [|d r IH]; intros cur Hc; simpl.
    - by exists cur, [].
    - destruct (d =? SLASH); [by exists cur, (components_aux [] r)|]. apply IH. by destruct cur. }
  by apply strip_cons_ne.
Qed.

Lemma entry_built : entry h p = walk (w_nmax h) (w_tree h) base (strip (components rel)).
Proof using built h_based.
  destruct built_facts as (_ & _ & ? & ?). unfold entry.
  rewrite resolve_as_walk, components_built, strip_app by (done || apply strip_rel). apply walk_built.
Qed.

Lemma last_built : proper_last (components p) = proper_last (components rel) /\
  slashed (components p) = slashed (components rel).
Proof using built.
  unfold proper_last, slashed. rewrite components_built, strip_app by apply strip_rel. split.
  - rewrite last_app. destruct (last (strip (components rel))) eqn:E; [done|]. by apply last_None, strip_rel in E.
  - apply bool_decide_ext. split; intros H E; apply H; [by rewrite E|by apply app_inv_head in E].
Qed.

(** Where a client's path leads, if it leads somewhere. *)
Lemma walk_at t l : walk (w_nmax h) t base (components rel) = inr l -> l = at_path base rel.
Proof using built. intros Hw. apply walk_loc in Hw; [done|apply no_up_rel]. Qed.

End one_path.

Lemma renamed_built s d ps pd h :
  path_build dir s PATH_MAX = Some ps -> path_build dir d PATH_MAX = Some pd -> based dir base h ->
  renamed h ps pd = rename_path (w_nmax h) (w_tree h) base (components s) base (components d).
Proof.
  intros Hs Hd Hb. unfold renamed, rename_path.
  destruct (last_built s ps Hs) as [-> ->], (last_built d pd Hd) as [-> ->].
  by rewrite (entry_built s ps h Hs Hb), (entry_built d pd h Hd Hb).
Qed.

End full_path.

(** * Logging and answering *)

Section refine.
Context (faulty : bool) (fuel : nat) (N : Z) (dir : bytes) (base : loc).

Notation WP := (wpm true (posix faulty)).
Notation lp := (logger_init dir).

(** Exactly the reply [rep] was sent, or the client is gone. *)
Definition replied (rep : reply) (h h' : world) : Prop :=
  w_out h' = w_out h ++ encode rep /\ w_gone h' = w_gone h \/ w_gone h' = true /\ faulty = true.

(** What a request leaves alone. *)
Definition frame_request (h : world) := (w_cwd h, w_nmax h, w_fds h, w_fps h, w_in h).

(** The log may have grown and [rep] was sent. *)
Definition calm_replied (rep : reply) (h h' : world) : Prop :=
  logged base (w_tree h) (w_tree h') /\ frame_request h' = frame_request h /\
  (w_budget h' <= w_budget h)%nat /\ replied rep h h'.

(** The request was answered as [S] allows; the log may have grown, and
    descriptors, streams and the client's input are as before. *)
Definition answers (S : tree -> reply -> tree -> Prop) (h h' : world) : Prop :=
  frame_request h' = frame_request h /\ (w_budget h' <= w_budget h)%nat /\
  exists rep t, S (w_tree h) rep t /\ logged base t (w_tree h') /\ replied rep h h'.

(** The server can take a request: its directory is there, with files of at most
    [N] bytes apart from the log and none of them open, and [fuel] covers moving
    the largest one (128 bytes out for each byte in, when decompressing) and all
    stalls. *)
Record serving (h : world) : Prop := mk_serving {
  sv_based : based dir base h;
  sv_sized : forall k b, base `prefix_of` k -> k <> log_loc base -> w_tree h !! k = Some (File b) ->
               len b <= N /\ Forall is_byte b;
  sv_closed : unopened h base;
  sv_fuel : 256 * N + 16384 + Z.of_nat (w_budget h) <= Z.of_nat fuel;
}.

(** It can log and reply. *)
Definition ready (h : world) : Prop :=
  based dir base h /\ 4096 + Z.of_nat (w_budget h) <= Z.of_nat fuel.

(** The data directory and the log survive the change of the tree. *)
Definition fits (t t' : tree) : Prop :=
  (forall k, k `prefix_of` base -> t !! k = Some Dir -> t' !! k = Some Dir) /\ t' !! log_loc base <> Some Dir.

Lemma fits_refl h : based dir base h -> fits (w_tree h) (w_tree h).
Proof. intros Hb. split; [done|apply Hb]. Qed.

Lemma fits_put t t1 l x : fits t t1 -> t1 !! l <> Some Dir -> fits t (put l x t1).
Proof.
  intros [Hk Hl] Hd. split.
  - intros k Hp Ht. rewrite lookup_insert_ne; [by apply Hk|]. intros ->. by apply Hd, Hk.
  - destruct (decide (l = log_loc base)) as [->|]; [by rewrite lookup_insert_eq|by rewrite lookup_insert_ne].
Qed.

Lemma fits_delete t l : t !! l <> Some Dir -> t !! log_loc base <> Some Dir -> fits t (delete l t).
Proof.
  intros Hd Hl. split.
  - intros k _ Ht. rewrite lookup_delete_ne; [done|]. by intros ->.
  - intros [_ ?]%lookup_delete_Some. done.
Qed.

Lemma log_at p : log_loc base `prefix_of` at_path base p -> ~ not_log p.
Proof.
  unfold log_loc, at_path. intros H%prefix_app_inv Hn. apply Hn. destruct H as [k ->]. done.
Qed.

Lemma fits_grown t t1 p : not_log p -> t !! log_loc base <> Some Dir -> grown (at_path base p) t t1 -> fits t t1.
Proof.
  intros Hn Hl Hg. split; [intros k _; by eapply grown_keeps|].
  destruct (Hg (log_loc base)) as [->|(_ & _ & Hp)]; [done|]. by apply log_at in Hp.
Qed.

Lemma fits_spoiled t t1 p : not_log p -> t !! log_loc base <> Some Dir -> spoiled (at_path base p) t t1 -> fits t t1.
Proof.
  intros Hn Hl (t0 & Hg & Ht). pose proof (fits_grown _ _ _ Hn Hl Hg) as Hf.
  destruct Ht as [->|(Hd & x & ->)]; [done|by apply fits_put].
Qed.

Lemma ready_did t h h1 : ready h -> did t h h1 -> fits (w_tree h) t -> ready h1.
Proof.
  intros [Hb Hf] Hd [Hk Hl]. split; [by eapply based_did|]. destruct Hd as (_ & _ & ?). lia.
Qed.

Lemma ready_calm h h1 : ready h -> calm h h1 -> ready h1.
Proof. intros Hr Hc. eapply ready_did; [done|exact Hc|]. by apply fits_refl, Hr. Qed.

Lemma serving_ready h : serving h -> 0 <= N -> ready h.
Proof. intros [? _ _ ?] HN. split; [done|lia]. Qed.

Lemma sent_replied rep h r h' : sent faulty (encode rep) h r h' -> calm_replied rep h h'.
Proof.
  intros (E & ? & Hs). unfold frame_out in E. injection E as Ht Hc Hn Hf Hp Hi.
  split; [left; done|]. split; [unfold frame_request; congruence|]. split; [done|].
  destruct Hs as [(_ & ? & ?)|(_ & ? & ?)]; [by left|by right].
Qed.

(** Log, then reply; reply, then log. *)
Lemma logged_calm_replied rep h t h1 h2 :
  logged base (w_tree h) t -> did t h h1 -> calm_replied rep h1 h2 -> calm_replied rep h h2.
Proof.
  intros Hl (Ht & Hf & ?) (Hl2 & Hf2 & ? & Hr). unfold frame in Hf. injection Hf as ? ? ? ? ? Ho Hg.
  split; [eapply logged_trans; [exact Hl|by rewrite <- Ht]|]. unfold frame_request in *.
  split; [congruence|]. split; [lia|]. unfold replied in *. by rewrite <- Ho, <- Hg.
Qed.

Lemma calm_replied_logged rep h t h1 h2 :
  calm_replied rep h h1 -> logged base (w_tree h1) t -> did t h1 h2 -> calm_replied rep h h2.
Proof.
  intros (Hl & Hf & ? & Hr) Hl2 (Ht & Hf2 & ?). unfold frame in Hf2. injection Hf2 as ? ? ? ? ? Ho Hg.
  split; [rewrite Ht; by eapply logged_trans|]. unfold frame_request in *.
  split; [congruence|]. split; [lia|]. unfold replied in *. by rewrite Ho, Hg.
Qed.

Lemma answers_did (S : tree -> reply -> tree -> Prop) rep t h h1 h' :
  did t h h1 -> S (w_tree h) rep t -> calm_replied rep h1 h' -> answers S h h'.
Proof.
  intros (Ht & Hf & ?) HS (Hl & Hf2 & ? & Hr). unfold frame in Hf. injection Hf as ? ? ? ? ? Ho Hg.
  unfold answers, frame_request in *. split; [congruence|]. split; [lia|]. exists rep, t. split; [done|].
  split; [by rewrite <- Ht|]. unfold replied in *. by rewrite <- Ho, <- Hg.
Qed.

Lemma based_replied rep h h' : based dir base h -> calm_replied rep h h' -> based dir base h'.
Proof.
  intros [? ? ? Hw Hb ? Hlog] (Hl & Hf & _ & _). unfold frame_request in Hf. injection Hf as Ec En Ef Ep Ei.
  assert (start h' dir = start h dir) as Es by (unfold start; by rewrite Ec).
  assert (forall k, k `prefix_of` base -> w_tree h' !! k = w_tree h !! k) as Hk.
  { intros k Hk. apply (logged_other _ _ _ _ Hl). by apply log_not_base. }
  constructor; rewrite ?Es, ?En; try done.
  - eapply walk_agree; [done|exact Hw|]. intros k Hp Hd. by rewrite Hk.
  - by rewrite Hk.
  - by eapply logged_not_dir.
Qed.

(** Log, then send a reply. *)
Lemma wpm_log_reply rep client cmd target status detail (m : M Z) en h :
  ready h ->
  (forall en' h1, ready h1 -> WP m en' h1 (fun _ r h' => sent faulty (encode rep) h1 r h')) ->
  WP (log lp client cmd target status detail;; m) en h (fun _ _ h' => calm_replied rep h h').
Proof.
  intros [Hb Hf] Hm. apply wpm_bind. wmono (by apply (wpm_log faulty dir base)). intros en1 ? h1 (t & Hl & Hd).
  assert (ready h1) by (split; [by eapply based_logged|destruct Hd as (_ & _ & ?); lia]).
  wmono (by apply Hm). intros en2 r h2 Hs. eapply logged_calm_replied; [done|done|]. by eapply sent_replied.
Qed.

Lemma wpm_fail_with fd client cmd target detail msg en h :
  ready h -> len msg <= 500 ->
  WP (fail_with fuel lp fd client cmd target detail msg) en h
    (fun _ _ h' => calm_replied (RError msg) h h').
Proof.
  intros Hr Hm. apply wpm_log_reply; [done|]. intros en' h1 [_ ?]. apply wpm_reply_error; lia.
Qed.

Lemma wpm_fail_errno fd client cmd target e en h :
  ready h ->
  WP (fail_errno fuel lp fd client cmd target e) en h
    (fun _ _ h' => exists m, calm_replied (RError m) h h').
Proof.
  intros [Hb Hf]. apply wpm_bind, wpm_call_posix. intros d h1 [-> Hd].
  apply wpm_bind. wmono (by apply (wpm_log faulty dir base)). intros en1 ? h1 (t & Hl & Hdid).
  apply wpm_bind, wpm_call_posix. intros m h2 [-> (_ & _ & Hm)].
  assert (w_budget h1 <= w_budget h)%nat by apply Hdid.
  wmono (apply wpm_reply_error; lia). intros en2 r h2 Hs.
  exists m. eapply logged_calm_replied; [done|done|]. by eapply sent_replied.
Qed.

(** The answer once the files are as [t]. *)
Ltac ans t := eapply (answers_did _ _ t); [first [eassumption|apply did_refl]| |eassumption].

Section handlers.
Context (client : bytes) (fd : Z).
Hypothesis N_nonneg : 0 <= N.

(** A file of a client, in bounds. *)
Lemma sized_file h rel b :
  serving h -> no_up (components rel) -> not_log rel ->
  find (w_nmax h) (w_tree h) base (components rel) = inr (File b) -> len b <= N /\ Forall is_byte b.
Proof.
  intros [Hb Hsz _ _] Hu Hn Hf. unfold find in Hf.
  destruct (walk (w_nmax h) (w_tree h) base (components rel)) as [|l] eqn:E; [done|].
  destruct (w_tree h !! l) as [n|] eqn:El; [|done]. injection Hf as ->. eapply Hsz; [| |exact El].
  - apply walk_loc in E as ->; [|done]. by apply prefix_app_r.
  - intros ->. apply walk_loc in E; [|done]. eapply (log_at rel); [|done]. unfold at_path. by rewrite <- E.
Qed.

Section one_path.
Context (rel p : bytes) (h : world).
Hypothesis built : path_build dir rel PATH_MAX = Some p.
Hypothesis rel_ok : not_log rel.
Hypothesis h_serving : serving h.

Lemma wpm_read_built en :
  WP (read_all_file fuel p) en h (fun en' r h' => calm h h' /\ read_result faulty p h en' r).
Proof using built rel_ok h_serving N_nonneg.
  pose proof h_serving as [Hb _ _ Hf]. apply wpm_read_all_file; [lia|]. intros b Hn.
  rewrite (named_built dir base rel p h built Hb) in Hn.
  destruct (sized_file h rel b h_serving (no_up_rel dir rel p built) rel_ok Hn). lia.
Qed.

(** What was read is what the specification says can be read. *)
Lemma read_result_contents en b :
  read_result faulty p h en (Some b) -> contents (w_nmax h) base (w_tree h) rel b /\ (len b <= N /\ Forall is_byte b).
Proof using built rel_ok h_serving N_nonneg.
  intros (n & Hn & Hl & Hm). rewrite (named_built dir base rel p h built (sv_based h h_serving)) in Hn.
  split; [by exists n|]. destruct Hl as [->|[_ ->]]; [|by split; [simpl; lia|constructor]].
  eapply sized_file; [done|by eapply no_up_rel|done|done].
Qed.

Lemma read_result_none en :
  read_result faulty p h en None ->
  en = ENOENT /\ find (w_nmax h) (w_tree h) base (components rel) = inl ENOENT \/
  en <> ENOENT /\ (unreadable (w_nmax h) base (w_tree h) rel \/ faulty = true).
Proof using built h_serving.
  pose proof (named_built dir base rel p h built (sv_based h h_serving)) as Hn. unfold read_result, unreadable, misnamed.
  rewrite Hn. tauto.
Qed.

Lemma unnamed_built e :
  unnamed faulty e h p ->
  if e =? ENOENT then find (w_nmax h) (w_tree h) base (components rel) = inl ENOENT
  else misnamed (w_nmax h) base (w_tree h) rel \/ faulty = true.
Proof using built h_serving.
  pose proof (named_built dir base rel p h built (sv_based h h_serving)) as Hn. unfold unnamed, misnamed. by rewrite Hn.
Qed.

Lemma wpm_write_built data en :
  len data + Z.of_nat (w_budget h) <= Z.of_nat fuel ->
  WP (write_all_file fuel p data) en h (fun _ r h' => exists t, did t h h' /\ fits (w_tree h) t /\
    (r = 0 /\ stored (w_nmax h) base (w_tree h) rel data t \/
     r = -1 /\ (not_stored (w_nmax h) base (w_tree h) rel t \/ botched faulty base (w_tree h) rel t))).
Proof using built rel_ok h_serving.
  intros Hf. pose proof (sv_based h h_serving) as Hb. destruct (built_facts dir rel p built) as (_ & _ & Hp & Hl).
  wmono (apply wpm_write_all_file; [done|done|by eapply no_up_built|by eapply start_dir|done]).
  intros en' r h'. rewrite (stores_built dir base rel p h built Hb), (at_built dir base rel p h built Hb).
  pose proof (bs_log _ _ _ Hb) as Hlog. intros [Hst|(-> & Hft & t & Hsp & Hd)].
  - destruct (store (w_nmax h) (w_tree h) base (components rel)) as [t o] eqn:E.
    destruct (store_facts _ _ _ _ _ _ (no_up_rel dir rel p built) E) as [Hg Hnd].
    pose proof (fits_grown _ _ _ rel_ok Hlog Hg) as Hfit.
    destruct o as [l|]; destruct Hst as [-> Hd].
    + exists (put l data t). split; [done|]. split; [apply fits_put; [done|by apply Hnd]|]. left. split; [done|]. by exists t, l.
    + exists t. split; [done|]. split; [done|]. right. split; [done|]. by left.
  - exists t. split; [done|]. split; [by eapply fits_spoiled|]. right. split; [done|]. by right.
Qed.

End one_path.

(** * Single-file commands *)

(** The prologue of the single-file handlers: build the path, take its lock. *)
Section prologue.
Context (rel cmd : bytes) (c : bytes -> command) (body : bytes -> Z -> M Z).
Context (acquire : bytes -> M (option Z)).
Hypothesis c_error : forall nmax t m, faulty = true -> spec faulty nmax base (c rel) t (RError m) t.
Hypothesis acquire_ok : forall p en h (Q : Z -> option Z -> world -> Prop),
  (forall en' l, Q en' (Some l) h) -> (faulty = true -> forall en', Q en' None h) ->
  WP (acquire p) en h Q.

Lemma refine_path en h :
  serving h ->
  (forall p l en', path_build dir rel PATH_MAX = Some p ->
     WP (body p l) en' h (fun _ _ h' => answers (spec faulty (w_nmax h) base (c rel)) h h')) ->
  WP (match path_build dir rel PATH_MAX with
      | None => fail_with fuel lp fd client cmd rel (L"invalid path") (L"invalid path")
      | Some full =>
          lock ← acquire full;
          match lock with
          | None => fail_with fuel lp fd client cmd rel (L"lock failure") (L"internal lock error")
          | Some lock => body full lock
          end
      end) en h (fun _ _ h' => answers (spec_path faulty (w_nmax h) base dir rel c) h h').
Proof using N_nonneg c_error acquire_ok.
  intros Hsv Hbody. pose proof (serving_ready h Hsv N_nonneg) as Hr. unfold spec_path.
  destruct (path_build dir rel PATH_MAX) as [p|] eqn:Hp.
  2: { wmono (by apply wpm_fail_with). intros. by ans (w_tree h). }
  apply wpm_bind, acquire_ok; [by auto|].
  intros Hft en'. wmono (by apply wpm_fail_with). intros. ans (w_tree h). by apply c_error.
Qed.
End prologue.

Lemma refine_getfile rel en h :
  serving h -> not_log rel ->
  WP (op_getfile fuel lp fd dir client rel) en h
    (fun _ _ h' => answers (spec_path faulty (w_nmax h) base dir rel CGet) h h').
Proof.
  intros Hsv Hnl. apply refine_path; [by simpl; auto|apply wpm_lock_read|done|].
  intros p l en1 Hp. pose proof (serving_ready h Hsv N_nonneg) as Hr.
  apply wpm_bind. wmono (by eapply wpm_read_built).
  intros en2 r h1 [Hc Hres]. pose proof (ready_calm _ _ Hr Hc) as Hr1. destruct r as [b|].
  - destruct (read_result_contents _ _ _ Hp Hnl Hsv _ _ Hres) as [Hcon [HbN _]].
    apply wpm_bind, wpm_unlock_any. apply wpm_bind.
    assert (w_budget h1 <= w_budget h)%nat by apply Hc. assert (len b <= MAX_FILE_SIZE) by (destruct Hcon as (? & ? & ? & ?); lia).
    wmono (apply wpm_reply_bulk; [unfold MAX_FILE_SIZE, Rle.MAX_FILE_SIZE in *; lia|destruct Hsv; lia]).
    intros en3 rc h2 Hs%sent_replied. assert (based dir base h2) as Hb2 by (by eapply based_replied, Hs; apply Hr1).
    apply wpm_bind. wmono (by apply (wpm_log faulty dir base)). intros en4 ? h3 (t & Hl & Hd).
    apply wpm_ret. eapply (answers_did _ (RBulk b)); [exact Hc|by split|]. by eapply calm_replied_logged.
  - apply wpm_bind, wpm_get_errno. apply wpm_bind, wpm_unlock_any.
    destruct (read_result_none _ _ _ Hp Hsv _ Hres) as [[-> Hno]|[Hne Herr]].
    + rewrite Z.eqb_refl.
      wmono (apply (wpm_log_reply RNull); [done|]; intros en' h2 [_ ?]; apply wpm_reply_null; lia).
      intros. by ans (w_tree h).
    + destruct (Z.eqb_spec en2 ENOENT); [done|]. destruct (en2 =? EFBIG).
      * wmono (by apply wpm_fail_with). intros. by ans (w_tree h).
      * wmono (by apply wpm_fail_errno). intros en3 ? h2 [m Hm]. by ans (w_tree h).
Qed.

(** Log success and answer OK. *)
Lemma wpm_log_ok cmd target msg en h :
  ready h ->
  WP (log lp client cmd target (L"OK") msg;; resp_reply_simple fuel fd (L"OK")) en h
    (fun _ _ h' => calm_replied OK h h').
Proof.
  intros Hr. apply (wpm_log_reply OK); [done|]. intros en' h1 [_ ?]. apply wpm_reply_simple; [done|lia].
Qed.

Lemma refine_setfile rel data en h :
  serving h -> not_log rel -> len data <= N ->
  WP (op_setfile fuel lp fd dir client rel data) en h
    (fun _ _ h' => answers (spec_path faulty (w_nmax h) base dir rel (fun p => CSet p data)) h h').
Proof.
  intros Hsv Hnl Hd. apply refine_path.
  { intros nmax t m Hft. right. split; [done|]. exists t. split; [apply grown_refl|by left]. }
  { apply wpm_lock_write. } { done. }
  intros p l en1 Hp. pose proof (serving_ready h Hsv N_nonneg) as Hr.
  apply wpm_bind. wmono (eapply wpm_write_built; [done|done|done|destruct Hsv; lia]).
  intros en2 r h1 (t & Hdid & Hfit & Hres). pose proof (ready_did _ _ _ Hr Hdid Hfit) as Hr1.
  destruct Hres as [[-> Hst]|[-> Hno]]; simpl.
  - apply wpm_bind, wpm_unlock_any. wmono (by apply wpm_log_ok). intros. by ans t.
  - apply wpm_bind, wpm_get_errno. apply wpm_bind, wpm_unlock_any.
    wmono (by apply wpm_fail_errno). intros en3 ? h2 [m Hm]. by ans t.
Qed.

Lemma unopened_below h l k : l `prefix_of` k -> unopened h l -> unopened h k.
Proof.
  intros Hp [H1 H2]. split; eapply map_Forall_impl; [exact H1| |exact H2|]; simpl; intros _ x Hx Hk; apply Hx; by etransitivity.
Qed.

Lemma refine_delfile rel en h :
  serving h -> not_log rel ->
  WP (op_delfile fuel lp fd dir client rel) en h
    (fun _ _ h' => answers (spec_path faulty (w_nmax h) base dir rel CDel) h h').
Proof.
  intros Hsv Hnl. apply refine_path; [by simpl; auto|apply wpm_lock_write|done|].
  intros p l en1 Hp. pose proof (serving_ready h Hsv N_nonneg) as Hr. pose proof (sv_based h Hsv) as Hb.
  apply wpm_bind, wpm_sys_posix. split.
  { simpl. intros l' Hl'. rewrite (resolve_built dir base rel p h Hp Hb) in Hl'.
    apply (walk_at dir base rel p h Hp) in Hl' as ->. eapply unopened_below; [|by apply Hsv]. by apply prefix_app_r. }
  intros [e|[]] h1 Hpost; simpl in Hpost; cbn [id].
  - destruct Hpost as [-> He]. apply wpm_bind, wpm_unlock_any. destruct (Z.eqb_spec e ENOENT) as [->|Hne].
    + wmono (apply (wpm_log_reply (RInt 0)); [done|]; intros en' h2 [_ ?]; apply wpm_reply_int; [by left|lia]).
      intros. ans (w_tree h). right. split; [done|]. split; [|done].
      destruct He as [He|[? _]]; [|done]. by apply (unnamed_built rel p h Hp Hsv) in He.
    + wmono (by apply wpm_fail_errno). intros en3 ? h2 [m Hm]. ans (w_tree h). split; [|done].
      destruct He as [He|[_ He]].
      * apply (unnamed_built rel p h Hp Hsv) in He. destruct (Z.eqb_spec e ENOENT); [done|]. tauto.
      * rewrite (named_built dir base rel p h Hp Hb) in He. auto.
  - destruct Hpost as (l' & b & Hl' & Hbf & ->). rewrite (resolve_built dir base rel p h Hp Hb) in Hl'.
    apply wpm_bind, wpm_unlock_any.
    assert (ready (set_tree (delete l' (w_tree h)) h)).
    { eapply ready_did; [done|apply did_set|]. apply fits_delete; [by rewrite Hbf|apply Hb]. }
    wmono (apply (wpm_log_reply (RInt 1)); [done|]; intros en' h2 [_ ?]; apply wpm_reply_int; [by right|lia]).
    intros. eapply answers_did; [apply did_set| |eassumption]. left. split; [done|]. by exists l', b.
Qed.

(** The text of STATFILE always fits its buffer. *)
Lemma print_any_length f b n acc : (length (digits f b n acc) <= f + length acc)%nat.
Proof.
  revert n acc. induction f as [|f IH]; intros n acc; simpl; [lia|].
  destruct (n <? b); simpl; [lia|]. specialize (IH (n / b) (digit (n mod b) :: acc)). simpl in IH. lia.
Qed.

Lemma print_d_length n : len (print_d n) <= 65.
Proof.
  unfold print_d. destruct (n <? 0); unfold print_u.
  - pose proof (print_any_length 64 10 (- n) []). cbn [length] in *. lia.
  - pose proof (print_any_length 64 10 n []). cbn [length] in *. lia.
Qed.

Lemma stat_text_length st : len (stat_text st) < 512.
Proof.
  unfold stat_text. rewrite !length_app.
  pose proof (print_d_length (st_size st)). pose proof (print_d_length (st_atime st)).
  pose proof (print_d_length (st_mtime st)). pose proof (print_d_length (st_ctime st)).
  pose proof (print_any_length 64 8 (Z.land (st_mode st) 511) []).
  pose proof (print_any_length 64 10 (st_uid st) []).
  pose proof (print_any_length 64 10 (st_gid st) []).
  fold (print_u 8 (Z.land (st_mode st) 511)) in *. fold (print_u 10 (st_uid st)) in *.
  fold (print_u 10 (st_gid st)) in *.
  change (length (L"size=")) with 5%nat. change (length (L" mode=")) with 6%nat.
  change (length (L" uid=")) with 5%nat. change (length (L" gid=")) with 5%nat.
  change (length (L" atime=")) with 7%nat. change (length (L" mtime=")) with 7%nat.
  change (length (L" ctime=")) with 7%nat. cbn [length] in *. lia.
Qed.

Lemma refine_statfile rel en h :
  serving h -> not_log rel ->
  WP (op_statfile fuel lp fd dir client rel) en h
    (fun _ _ h' => answers (spec_path faulty (w_nmax h) base dir rel CStat) h h').
Proof.
  intros Hsv Hnl. apply refine_path; [by simpl; auto|apply wpm_lock_read|done|].
  intros p l en1 Hp. pose proof (serving_ready h Hsv N_nonneg) as Hr. pose proof (sv_based h Hsv) as Hb.
  apply wpm_bind, wpm_sys_posix. intros [e|st] h1 [-> Hpost]; cbn [id].
  - apply wpm_bind, wpm_unlock_any. apply (unnamed_built rel p h Hp Hsv) in Hpost. destruct (e =? ENOENT).
    + wmono (apply (wpm_log_reply RNull); [done|]; intros en' h2 [_ ?]; apply wpm_reply_null; lia).
      intros. by ans (w_tree h).
    + wmono (by apply wpm_fail_errno). intros en3 ? h2 [m Hm]. by ans (w_tree h).
  - apply wpm_bind, wpm_unlock_any. unfold snprintf. pose proof (stat_text_length st) as Hl.
    destruct (Z.leb_spec (len (stat_text st)) INT_MAX); [|unfold INT_MAX in *; lia].
    destruct (Z.ltb_spec (len (stat_text st)) 0), (Z.leb_spec 512 (len (stat_text st))); try lia.
    cbn [orb]. change (512 =? 0) with false. cbn iota. rewrite take_ge by lia.
    wmono (apply (wpm_log_reply (RBulk (stat_text st))); [done|]; intros en' h2 [_ ?]; apply wpm_reply_bulk; lia).
    intros. ans (w_tree h). split; [|done]. destruct Hpost as (n & Hn & Hst).
    rewrite (named_built dir base rel p h Hp Hb) in Hn. by exists n, st.
Qed.

(** * Two-file commands *)

Section prologue_two.
Context (src dst cmd t1 t2 : bytes) (c : bytes -> bytes -> command) (body : bytes -> bytes -> Z * Z * bool -> M Z).
Hypothesis c_error : forall nmax t m, faulty = true -> spec faulty nmax base (c src dst) t (RError m) t.

Lemma refine_two en h :
  serving h ->
  (forall s d ls en', path_build dir src PATH_MAX = Some s -> path_build dir dst PATH_MAX = Some d ->
     WP (body s d ls) en' h (fun _ _ h' => answers (spec faulty (w_nmax h) base (c src dst)) h h')) ->
  WP (match build_two dir src dst with
      | None => fail_with fuel lp fd client cmd t1 (L"invalid path") (L"invalid path")
      | Some (s, d) =>
          locks ← locks_acquire_two_write s d;
          match locks with
          | None => fail_with fuel lp fd client cmd t2 (L"lock failure") (L"internal lock error")
          | Some locks => body s d locks
          end
      end) en h (fun _ _ h' => answers (spec_two faulty (w_nmax h) base dir src dst c) h h').
Proof using N_nonneg c_error.
  intros Hsv Hbody. pose proof (serving_ready h Hsv N_nonneg) as Hr. unfold spec_two, build_two.
  destruct (path_build dir src PATH_MAX) as [s|] eqn:Hs.
  2: { wmono (by apply wpm_fail_with). intros. by ans (w_tree h). }
  destruct (path_build dir dst PATH_MAX) as [d|] eqn:Hd.
  2: { wmono (by apply wpm_fail_with). intros. by ans (w_tree h). }
  apply wpm_bind, wpm_lock_two; [by auto|].
  intros Hft en'. wmono (by apply wpm_fail_with). intros. ans (w_tree h). by apply c_error.
Qed.
End prologue_two.

(** Making the directories of a client's path. *)
Lemma wpm_ensure_built rel p en h :
  path_build dir rel PATH_MAX = Some p -> based dir base h -> not_log rel ->
  WP (path_ensure_parent_dirs p) en h (fun _ r h' => exists t, h' = set_tree t h /\ fits (w_tree h) t /\
    grown (at_path base rel) (w_tree h) t /\
    let '(t1, o) := mkdirs (w_nmax h) (w_tree h) base (removelast (components rel)) in
    t = t1 /\ (r = 0 \/ r = -1 /\ o = None) \/ r = -1 /\ faulty = true).
Proof.
  intros Hp Hb Hnl. destruct (built_facts dir rel p Hp) as (_ & _ & Hne & Hl).
  wmono (apply wpm_ensure_parents; [done|done|by eapply no_up_built|by eapply start_dir]).
  intros en' r h' (t & -> & Hm). exists t. split; [done|]. unfold made in Hm.
  rewrite (at_built dir base rel p h Hp Hb), (mkdirs_built dir base rel p h Hp Hb) in Hm.
  assert (grown (at_path base rel) (w_tree h) t) as Hg.
  { destruct Hm as [[-> _]|(_ & _ & ?)]; [|done].
    apply mkdirs_parents_grown. by eapply no_up_rel. }
  split; [by eapply fits_grown, Hg; [|apply Hb]|]. split; [done|].
  destruct (mkdirs (w_nmax h) (w_tree h) base (removelast (components rel))) as [t1 o].
  destruct Hm as [[-> ?]|(? & ? & _)]; auto.
Qed.

(** The locations [rename] changes are below the data directory, and the log is
    not below them. *)
Lemma walk_strip_below nmax t rel l :
  no_up (components rel) -> not_log rel -> proper_last (components rel) = true ->
  walk nmax t base (strip (components rel)) = inr l ->
  base `prefix_of` l /\ l <> base /\ ~ l `prefix_of` log_loc base.
Proof.
  intros Hup Hnl Hpl%proper_last_names Hw. apply walk_loc in Hw as ->; [|by intros H%strip_elem].
  rewrite strip_names. split; [by apply prefix_app_r|]. split.
  - intros E. apply Hpl. apply (app_inv_head base). by rewrite app_nil_r.
  - unfold log_loc. intros [k Hk]%prefix_app_inv. destruct (names (components rel)) as [|n0 ns] eqn:E; [done|].
    injection Hk as <- Hk. apply Hnl. by rewrite E.
Qed.

Lemma rename_fits nmax t s d t' :
  no_up (components s) -> not_log s -> no_up (components d) -> not_log d ->
  t !! log_loc base <> Some Dir ->
  rename_path nmax t base (components s) base (components d) = Some t' -> fits t t'.
Proof.
  intros Hus Hns Hud Hnd Hlog Hr. unfold rename_path in Hr.
  destruct (proper_last (components s)) eqn:Hps; [|done]. destruct (proper_last (components d)) eqn:Hpd; [|done]. simpl in Hr.
  destruct (walk nmax t base (strip (components s))) as [|ls] eqn:Es; [done|].
  destruct (walk nmax t base (strip (components d))) as [|ld] eqn:Ed; [done|].
  destruct (walk_strip_below _ _ _ _ Hus Hns Hps Es) as (Hs1 & Hs2 & Hs3).
  destruct (walk_strip_below _ _ _ _ Hud Hnd Hpd Ed) as (Hd1 & Hd2 & Hd3).
  assert (forall l k, base `prefix_of` l -> l <> base -> k `prefix_of` base -> ~ l `prefix_of` k) as Hlow.
  { intros l k Hl Hne Hk Hlk. apply Hne. apply (anti_symm prefix); [by etransitivity|done]. }
  split; [intros k Hk Hkd|]; rewrite (rename_at_other _ _ _ _ _ _ Hr); eauto.
Qed.

Lemma refine_renamefile src dst en h :
  serving h -> not_log src -> not_log dst ->
  WP (op_renamefile fuel lp fd dir client src dst) en h
    (fun _ _ h' => answers (spec_two faulty (w_nmax h) base dir src dst CRename) h h').
Proof.
  intros Hsv Hns Hnd. apply refine_two; [|done|].
  { intros nmax t m Hft. simpl. unfold spec_rename. destruct (mkdirs _ _ _ _). right. split; [done|apply grown_refl]. }
  intros s d ls en1 Hs Hd. pose proof (serving_ready h Hsv N_nonneg) as Hr. pose proof (sv_based h Hsv) as Hb.
  apply wpm_bind. wmono (by eapply wpm_ensure_built). intros en2 r h1 (t & -> & Hfit & Hg & Hm).
  pose proof (ready_did _ _ _ Hr (did_set t h) Hfit) as Hr1.
  assert (forall en' e, (forall m, spec_rename faulty (w_nmax h) base src dst (w_tree h) (RError m) t) ->
    WP (locks_release_two ls;; fail_errno fuel lp fd client (L"RENAMEFILE") src e) en' (set_tree t h)
      (fun _ _ h' => answers (spec faulty (w_nmax h) base (CRename src dst)) h h')) as Hfail.
  { intros en' e Hwhy. apply wpm_bind, wpm_release_any. wmono (by apply wpm_fail_errno). intros en3 ? h2 [m Hrep].
    eapply (answers_did _ _ t); [apply did_set|by apply Hwhy|exact Hrep]. }
  unfold spec_rename in Hfail.
  destruct (mkdirs (w_nmax h) (w_tree h) base (removelast (components dst))) as [t1 o] eqn:Emk.
  destruct Hm as [[-> Hm]|[-> Hft]]; [|apply wpm_bind, wpm_get_errno; apply Hfail; auto].
  destruct Hm as [->|[-> ->]]; simpl negb; cbn iota; [|apply wpm_bind, wpm_get_errno; apply Hfail; auto].
  assert (based dir base (set_tree t1 h)) as Hb1 by apply Hr1.
  apply wpm_bind, wpm_sys_posix. split.
  { intros l Hl. eapply (unopened_below _ base); [|by apply Hsv].
    destruct Hl as [Hl|Hl]; [rewrite (entry_built _ _ _ _ _ Hs Hb1) in Hl|rewrite (entry_built _ _ _ _ _ Hd Hb1) in Hl];
      (apply walk_loc in Hl as ->; [by apply prefix_app_r|]); intros H%strip_elem;
      [by apply (no_up_rel dir src s Hs)|by apply (no_up_rel dir dst d Hd)]. }
  intros [e|[]] h1 Hpost; cbn [id]; simpl in Hpost; rewrite (renamed_built _ _ _ _ _ _ _ Hs Hd Hb1) in Hpost; simpl in Hpost.
  - destruct Hpost as [-> [Hno|Hft]]; apply Hfail; auto.
  - destruct Hpost as (t2 & Ht2 & ->). apply wpm_bind, wpm_release_any.
    assert (ready (set_tree t2 (set_tree t1 h))).
    { eapply ready_did; [exact Hr1|apply did_set|]. simpl. eapply rename_fits; [| | | | |exact Ht2]; try done.
      - by eapply no_up_rel.
      - by eapply no_up_rel.
      - apply Hb1. }
    wmono (by apply wpm_log_ok). intros en3 ? h2 Hrep.
    eapply (answers_did _ _ t2); [apply (did_trans t1 _ _ (set_tree t1 h)); apply did_set| |exact Hrep].
    simpl. unfold spec_rename. by rewrite Emk.
Qed.

(** What a transformation returns: [T] of the input, or failure on [E] inputs. *)
Definition transforms (t : bytes -> M (option bytes)) (T : bytes -> bytes -> Prop) (E : bytes -> Prop) : Prop :=
  forall b en h, len b <= MAX_FILE_SIZE -> Forall is_byte b ->
    WP (t b) en h (fun _ r h' => h' = h /\
      match r with
      | Some x => T b x /\ len x <= 128 * len b + 4
      | None => E b \/ faulty = true
      end).

Lemma rle_compress_transforms :
  transforms rle_compress (fun b x => exists o, Rle.rle_enc b o /\ x = Rle.header ++ o) (fun _ => False).
Proof.
  intros b en h Hl Hb. apply wpm_bind, wpm_malloc.
  - destruct (Rle.rle_compress_ok (fun _ => true) b Hl eq_refl) as (o & -> & Ho).
    apply wpm_ret. split; [done|]. split; [by exists o|].
    pose proof (Rle.rle_enc_length _ _ Ho). rewrite length_app. change (length Rle.header) with 4%nat. lia.
  - intros Hft. apply wpm_bind, wpm_set_errno, wpm_ret. auto.
Qed.

Lemma expand_length_bound o : Forall is_byte o -> len (Rle.expand o) <= 128 * len o.
Proof.
  intros Ho. rewrite Rle.expand_len_length by done.
  induction o as [| |r v o IH] using Rle.two_step_ind; simpl; [lia..|].
  inversion Ho as [|? ? Hr Ho']; inversion Ho' as [|? ? _ Ho'']; simplify_eq.
  specialize (IH Ho''). unfold is_byte in Hr. lia.
Qed.

Lemma decode_length b x :
  Forall is_byte b -> Rle.decode (fun _ => true) b = Rle.CBuf x -> len x <= 128 * len b.
Proof.
  intros Hb Hd. unfold Rle.decode in Hd. cbv zeta in Hd. repeat case_match; simplify_eq.
  pose proof (expand_length_bound (drop 4 b) (Forall_drop _ _ _ Hb)). rewrite length_drop in *. lia.
Qed.

Lemma rle_decompress_transforms :
  transforms rle_decompress (fun b x => Rle.decode (fun _ => true) b = Rle.CBuf x)
    (fun b => exists e, Rle.decode (fun _ => true) b = Rle.CErr e).
Proof.
  intros b en h Hl Hb. unfold rle_decompress.
  pose proof (Rle.rle_decompress_decode (fun _ => true) b Hb) as Hd.
  destruct (Rle.rle_decompress_check b) as [e|total] eqn:Hc.
  - apply wpm_bind, wpm_set_errno, wpm_ret. split; [done|]. left. exists e. rewrite <- Hd.
    unfold Rle.rle_decompress_bytes. by rewrite Hc.
  - apply wpm_bind, wpm_malloc.
    + rewrite Hd. destruct (Rle.decode (fun _ => true) b) as [x|e|] eqn:Hx; simpl.
      * apply wpm_ret. split; [done|]. split; [done|]. pose proof (decode_length b x Hb Hx). lia.
      * apply wpm_bind, wpm_set_errno, wpm_ret. split; [done|]. left. by exists e.
      * exfalso. unfold Rle.decode in Hx. cbv zeta in Hx. by repeat case_match.
    + intros Hft. unfold Rle.rle_decompress_bytes. rewrite Hc. simpl.
      apply wpm_bind, wpm_set_errno, wpm_ret. auto.
Qed.

Lemma serving_calm h h' : serving h -> calm h h' -> serving h'.
Proof.
  intros [Hb Hs Hc Hf] Hcalm. assert (Hcalm' := Hcalm). destruct Hcalm as (Ht & E & ?). unfold frame in E. injection E as ? ? Ef Ep ? ? ?.
  split.
  - eapply based_did; [done|exact Hcalm'|done|apply Hb].
  - by rewrite Ht.
  - unfold unopened in *. by rewrite Ef, Ep.
  - lia.
Qed.

(** The part of COMPRESS and DECOMPRESS under the locks. *)
Lemma refine_transform tr T E cmd okmsg (c : bytes -> bytes -> command) src dst en h :
  let spec := spec faulty (w_nmax h) base (c src dst) in
  let can_read b := contents (w_nmax h) base (w_tree h) src b in
  transforms tr T E ->
  (forall nmax t m, faulty = true -> Refine.spec faulty nmax base (c src dst) t (RError m) t) ->
  (forall m, find (w_nmax h) (w_tree h) base (components src) = inl ENOENT \/
             unreadable (w_nmax h) base (w_tree h) src -> spec (w_tree h) (RError m) (w_tree h)) ->
  (forall m b, can_read b -> E b -> spec (w_tree h) (RError m) (w_tree h)) ->
  (forall m b t', can_read b -> not_stored (w_nmax h) base (w_tree h) dst t' -> spec (w_tree h) (RError m) t') ->
  (forall m t', botched faulty base (w_tree h) dst t' -> spec (w_tree h) (RError m) t') ->
  (forall b x t', can_read b -> T b x -> stored (w_nmax h) base (w_tree h) dst x t' -> spec (w_tree h) OK t') ->
  serving h -> not_log src -> not_log dst ->
  WP (op_transform fuel lp tr cmd okmsg fd dir client src dst) en h
    (fun _ _ h' => answers (spec_two faulty (w_nmax h) base dir src dst c) h h').
Proof.
  intros sp can_read Ht He0 He1 He2 He3 He4 Hok Hsv Hns Hnd. apply refine_two; [done|done|].
  intros s d ls en1 Hs Hd. pose proof (serving_ready h Hsv N_nonneg) as Hr.
  assert (forall h1 t en' e target, did t h h1 -> fits (w_tree h) t -> (forall m, sp (w_tree h) (RError m) t) ->
    WP (locks_release_two ls;; fail_errno fuel lp fd client cmd target e) en' h1
      (fun _ _ h' => answers sp h h')) as Hfail.
  { intros h1 t en' e target Hdid Hfit Hsp. apply wpm_bind, wpm_release_any. pose proof (ready_did _ _ _ Hr Hdid Hfit).
    wmono (by apply wpm_fail_errno). intros en3 ? h2 [m Hrep]. by ans t. }
  assert (fits (w_tree h) (w_tree h)) as Hfr by (apply (fits_refl h), Hsv).
  apply wpm_bind. wmono (by eapply wpm_read_built). intros en2 r h1 [Hc Hres]. destruct r as [b|].
  2: { apply wpm_bind, wpm_get_errno. eapply Hfail; [exact Hc|done|]. intros m.
       destruct (read_result_none _ _ _ Hs Hsv _ Hres) as [[_ ?]|[_ [?|?]]]; auto. by apply He0. }
  destruct (read_result_contents _ _ _ Hs Hns Hsv _ _ Hres) as [Hcon [HbN Hby]].
  assert (len b <= MAX_FILE_SIZE) by (destruct Hcon as (? & ? & ? & ?); lia).
  apply wpm_bind. wmono (by apply Ht). intros en3 r h2 [-> Hx]. destruct r as [x|].
  2: { apply wpm_bind, wpm_get_errno. eapply Hfail; [exact Hc|done|]. intros m.
       destruct Hx as [?|?]; [by eapply He2|by apply He0]. }
  destruct Hx as [HT Hx]. apply wpm_bind. pose proof (serving_calm _ _ Hsv Hc) as Hsv1.
  assert (w_budget h1 <= w_budget h)%nat by apply Hc.
  wmono (eapply (wpm_write_built dst d); [done|done|done|destruct Hsv; lia]).
  assert (w_tree h1 = w_tree h /\ w_nmax h1 = w_nmax h) as [Et En].
  { destruct Hc as (Et & Ef & _). unfold frame in Ef. by injection Ef as _ En _ _ _ _ _. }
  rewrite Et, En. intros en4 r h3 (t & Hdid & Hfit & Hw).
  assert (did t h h3) as Hdid' by (by eapply did_trans). destruct Hw as [[-> Hst]|[-> Hno]]; simpl.
  - apply wpm_bind, wpm_release_any. pose proof (ready_did _ _ _ Hr Hdid' Hfit).
    wmono (by apply wpm_log_ok). intros. ans t. by eapply Hok.
  - apply wpm_bind, wpm_get_errno. eapply Hfail; [done|done|]. intros m.
    destruct Hno as [?|?]; [by eapply He3|by apply He4].
Qed.

Lemma refine_compress src dst en h :
  serving h -> not_log src -> not_log dst ->
  WP (op_compress fuel lp fd dir client src dst) en h
    (fun _ _ h' => answers (spec_two faulty (w_nmax h) base dir src dst CCompress) h h').
Proof.
  apply (refine_transform _ _ _ _ _ _ _ _ _ _ rle_compress_transforms); simpl.
  - auto.
  - tauto.
  - done.
  - eauto.
  - auto.
  - intros b x t' Hb (o & Ho & ->) Hst. split; [done|]. by exists b, o.
Qed.

Lemma refine_decompress src dst en h :
  serving h -> not_log src -> not_log dst ->
  WP (op_decompress fuel lp fd dir client src dst) en h
    (fun _ _ h' => answers (spec_two faulty (w_nmax h) base dir src dst CDecompress) h h').
Proof.
  apply (refine_transform _ _ _ _ _ _ _ _ _ _ rle_decompress_transforms); simpl.
  - intros nmax t m Hft. left. split; [|done]. auto.
  - intros m Hm. left. split; [|done]. destruct Hm; auto.
  - intros m b Hb [e He]. left. split; [|done]. right. right. right. by exists b, e.
  - intros m b t' Hb Hno. right. left. split; [by exists b|done].
  - auto.
  - intros b x t' Hb Hx Hst. split; [done|]. by exists b, x.
Qed.

(** * COPYFILE *)

Lemma wpm_copy_write n f l b data en h :
  w_fds h !! f = Some (l, len b) -> w_tree h !! l = Some (File b) ->
  len data + Z.of_nat (w_budget h) <= Z.of_nat n ->
  WP (copy_write n f data) en h
    (fun _ r h' => exists x, did_fd f (put l x (w_tree h)) h h' /\
       (r = None /\ x = b ++ data /\ w_fds h' !! f = Some (l, len x) \/
        (exists e, r = Some e) /\ faulty = true)).
Proof.
  revert b data en h. induction n as [|n IH]; intros b data en h Hf Hb Hn.
  { destruct data; [|simpl in Hn; lia]. apply wpm_ret. exists b. rewrite app_nil_r.
    split; [by apply did_fd_id|by left]. }
  destruct data as [|c data].
  { apply wpm_ret. exists b. rewrite app_nil_r. split; [by apply did_fd_id|by left]. }
  cbn [copy_write]. set (d := c :: data) in *. apply wpm_bind, wpm_sys_posix.
  split; [split; [done|exists l, (len b), b; split_and!; (done || lia)]|].
  intros [e|k] h1 Hpost; cbn [id].
  - simpl in Hpost. unfold failed in Hpost. destruct (e =? EINTR).
    + pose proof (calm_stall _ _ Hpost) as Hc. destruct Hpost as (m & Hm & ->).
      wmono (apply (IH b d); simpl in *; (done || lia)).
      intros en' r h' (x & Hx & Hr). exists x. split; [|done].
      eapply did_fd_calm_l; [apply did_did_fd, Hc|done].
    + destruct Hpost as (? & ? & ->). apply wpm_ret. exists b. split; [by apply did_fd_id|]. eauto.
  - apply (write_progress faulty f l b d) in Hpost as (Hk & Hput & Hf1 & Hb1 & Hlt); [|done..].
    wmono (apply (IH _ _ _ h1 Hf1 Hb1); lia).
    intros en' r h' (x & Hx & Hr). exists x. split; [by eapply did_fd_put|].
    destruct Hr as [(-> & -> & ?)|?]; [left|by right]. split; [done|].
    split; [|done]. by rewrite <- app_assoc, take_drop.
Qed.

(** The tree is now [t]; beyond that only two descriptors and the budget
    changed. *)
Definition frame_fd2 (f1 f2 : Z) (h : world) :=
  (w_cwd h, w_nmax h, delete f1 (delete f2 (w_fds h)), w_fps h, w_in h, w_out h, w_gone h).

Definition did_fd2 (f1 f2 : Z) (t : tree) (h h' : world) : Prop :=
  w_tree h' = t /\ frame_fd2 f1 f2 h' = frame_fd2 f1 f2 h /\ (w_budget h' <= w_budget h)%nat.

Lemma did_fd2_trans f1 f2 t1 t2 h1 h2 h3 : did_fd2 f1 f2 t1 h1 h2 -> did_fd2 f1 f2 t2 h2 h3 -> did_fd2 f1 f2 t2 h1 h3.
Proof. intros (? & ? & ?) (? & ? & ?). split_and!; [done|congruence|lia]. Qed.

Lemma did_fd2_second f1 f2 t h1 h2 : did_fd f2 t h1 h2 -> did_fd2 f1 f2 t h1 h2.
Proof.
  intros (? & E & ?). split_and!; [done| |done]. unfold frame_fd, frame_fd2 in *. by injection E as -> -> -> -> -> -> ->.
Qed.

Lemma did_fd2_first f1 f2 t h1 h2 : did_fd f1 t h1 h2 -> did_fd2 f1 f2 t h1 h2.
Proof.
  intros (? & E & ?). split_and!; [done| |done]. unfold frame_fd, frame_fd2 in *. injection E as -> -> E -> -> -> ->.
  by rewrite (delete_delete _ f1 f2), E, (delete_delete _ f2 f1).
Qed.

Lemma wpm_copy_loop n f1 f2 ls l b off acc en h :
  f1 <> f2 ->
  w_fds h !! f1 = Some (ls, off) -> w_tree h !! ls = Some (File b) -> 0 <= off <= len b ->
  w_fds h !! f2 = Some (l, len acc) -> w_tree h !! l = Some (File acc) ->
  (ls = l -> len b <= off) ->
  len b - off + 1 + Z.of_nat (w_budget h) <= Z.of_nat n ->
  COPY_BUF_SIZE + len b + Z.of_nat (w_budget h) <= Z.of_nat fuel ->
  WP (copy_loop fuel n f1 f2) en h
    (fun _ r h' => exists x, did_fd2 f1 f2 (put l x (w_tree h)) h h' /\
       (r = CopyDone /\ x = acc ++ drop (Z.to_nat off) b \/ r <> CopyDone /\ faulty = true)).
Proof.
  intros Hff. revert off acc en h.
  induction n as [|n IH]; intros off acc en h Hf1 Hb Hoff Hf2 Hacc Hsd Hn Hfuel; [lia|].
  cbn [copy_loop]. apply wpm_bind, wpm_sys_posix.
  split; [split; [unfold COPY_BUF_SIZE; lia|exists ls, off, (File b); split_and!; (done || lia)]|].
  assert (did_fd2 f1 f2 (put l acc (w_tree h)) h h) as Hid by (by apply did_fd2_second, did_fd_id).
  intros [e|bs] h1 Hpost; simpl in Hpost; cbn [id].
  - destruct Hpost as [Hpost|(_ & _ & l' & off' & Hl & Hdir)]; [|congruence].
    unfold failed in Hpost. destruct (e =? EINTR).
    + pose proof (calm_stall _ _ Hpost) as Hc. destruct Hpost as (m & Hm & ->).
      wmono (apply (IH off acc); simpl in *; (done || lia)).
      intros en' r h' (x & Hx & Hr). exists x. split; [|done].
      eapply did_fd2_trans; [apply did_fd2_first, did_did_fd, Hc|done].
    + destruct Hpost as (? & ? & ->). apply wpm_ret. exists acc. split; [done|by right].
  - destruct Hpost as (l' & off' & b' & Hf' & Hb' & Hpre & Hlen & Hnil & ->). simplify_eq.
    pose proof (prefix_length _ _ Hpre) as Hpl. rewrite length_drop in Hpl.
    destruct bs as [|c0 bs0].
    { apply wpm_ret. exists acc. split.
      - rewrite insert_id by done. apply did_fd2_first, calm_fd_set.
      - left. split; [done|]. rewrite drop_ge by (specialize (Hnil eq_refl); lia). by rewrite app_nil_r. }
    set (bs := c0 :: bs0) in *. assert (0 < len bs) by (simpl; lia).
    set (h1 := set_fds _ h). apply wpm_bind.
    wmono (apply (wpm_copy_write fuel f2 l acc bs); [simpl; by rewrite lookup_insert_ne|done|];
           change (w_budget h1) with (w_budget h); lia).
    intros en2 r h2 (x & Hx & Hr). assert (w_budget h2 <= w_budget h)%nat by apply Hx.
    assert (did_fd2 f1 f2 (put l x (w_tree h)) h h2) as Hx2
      by (eapply did_fd2_trans; [apply did_fd2_first, calm_fd_set|by apply did_fd2_second]).
    destruct Hr as [(-> & -> & Hf2')|[[e ->] Hft]]; [|apply wpm_ret; exists x; split; [done|by right]].
    assert (ls <> l) by (intros ->; specialize (Hsd eq_refl); lia).
    assert (w_tree h2 = put l (acc ++ bs) (w_tree h)) as Et by apply Hx.
    wmono (apply (IH (off + len bs) (acc ++ bs)); [|by rewrite Et, lookup_insert_ne|lia|done|by rewrite Et, lookup_insert_eq|done|lia|lia];
           rewrite (did_fd_lookup _ _ _ _ _ Hff Hx); apply lookup_insert_eq).
    intros en3 r h3 (y & Hy & Hr). rewrite Et, insert_insert_eq in Hy. exists y. split; [by eapply did_fd2_trans|].
    destruct Hr as [[-> ->]|?]; [left|by right]. split; [done|].
    destruct Hpre as [k Hk]. rewrite Z2Nat.inj_add, <- drop_drop, Nat2Z.id, Hk by lia.
    by rewrite drop_app_length, <- app_assoc.
Qed.

(** A directory cannot be read. *)
Lemma wpm_copy_loop_dir n f1 f2 ls off en h :
  w_fds h !! f1 = Some (ls, off) -> w_tree h !! ls = Some Dir -> 0 <= off ->
  1 + Z.of_nat (w_budget h) <= Z.of_nat n ->
  WP (copy_loop fuel n f1 f2) en h (fun _ r h' => calm h h' /\ r <> CopyDone).
Proof.
  revert en h. induction n as [|n IH]; intros en h Hf Hd Hoff Hn; [lia|].
  cbn [copy_loop]. apply wpm_bind, wpm_sys_posix.
  split; [split; [unfold COPY_BUF_SIZE; lia|exists ls, off, Dir; by split_and!]|].
  intros [e|bs] h1 Hpost; simpl in Hpost; cbn [id].
  - destruct Hpost as [Hpost|(-> & -> & _)]; [|apply wpm_ret; by split].
    unfold failed in Hpost. destruct (e =? EINTR).
    + pose proof (calm_stall _ _ Hpost) as Hc. destruct Hpost as (m & Hm & ->).
      wmono (apply IH; simpl in *; (done || lia)). intros en' r h' [Hc' ?]. split; [|done].
      by transitivity (set_budget m h).
    + destruct Hpost as (? & ? & ->). apply wpm_ret. by split.
  - destruct Hpost as (l' & off' & b' & Hf' & Hb' & _). congruence.
Qed.

(** Closing both files and releasing the locks. *)
Lemma wpm_copy_end f1 f2 t ls (m : M Z) h h1 en Q :
  w_fds h !! f1 = None -> w_fds h !! f2 = None -> did_fd2 f1 f2 t h h1 ->
  (forall en' h2, did t h h2 -> WP m en' h2 Q) ->
  WP (close f1;; close f2;; locks_release_two ls;; m) en h1 Q.
Proof.
  intros Hn1 Hn2 (Et & Ef & ?) HQ.
  apply wpm_bind, wpm_sys_posix. intros r1 h2 [-> _].
  set (h2 := set_fds _ h1). assert (forall en', WP (close f2;; locks_release_two ls;; m) en' h2 Q) as Hrest.
  { intros en'. apply wpm_bind, wpm_sys_posix. intros r2 h3 [-> _].
    assert (did t h (set_fds (delete f2 (w_fds h2)) h2)).
    { split_and!; [done| |done]. unfold frame. simpl. unfold frame_fd2 in Ef. injection Ef as -> -> Ef -> -> -> ->.
      rewrite delete_delete, Ef. rewrite (delete_id (w_fds h) f2), delete_id by done. done. }
    destruct r2; simpl; apply wpm_bind, wpm_release_any; by apply HQ. }
  destruct r1; simpl; apply Hrest.
Qed.

(** Opening the destination once its directories were made. *)
Lemma wpm_create_built rel p t en h Q :
  path_build dir rel PATH_MAX = Some p -> based dir base h ->
  t = (mkdirs (w_nmax h) (w_tree h) base (removelast (components rel))).1 ->
  (forall e, not_stored (w_nmax h) base (w_tree h) rel t \/ faulty = true -> Q e (inl e) (set_tree t h)) ->
  (forall f l, w_fds h !! f = None -> store (w_nmax h) (w_tree h) base (components rel) = (t, Some l) ->
     t !! l <> Some Dir -> Q en (inr f) (set_tree (put l [] t) (set_fds (<[f := (l, 0)]> (w_fds h)) h))) ->
  WP (open p O_WRONLY_CREAT_TRUNC) en (set_tree t h) Q.
Proof.
  intros Hp Hb Ht Hno Hyes. destruct (built_facts dir rel p Hp) as (_ & _ & Hne & Hl).
  rewrite <- (mkdirs_built dir base rel p h Hp Hb) in Ht. pose proof (usable_store t h p Hne Hl Ht) as Hst.
  rewrite (stores_built dir base rel p h Hp Hb) in Hst.
  apply wpm_sys_posix. intros [e|f] h1 Hpost; simpl in Hpost; cbn [id].
  - destruct Hpost as [-> [E|?]]; apply Hno; [|by right]. left. unfold not_stored. by rewrite Hst, E.
  - destruct Hpost as (Hn & l & Hu & ->). apply Hyes; [done|by rewrite Hst, Hu|].
    unfold usable in Hu. destruct (resolve _ _) as [|l']; [done|]. simpl in Hu.
    destruct (is_dir (t !! l')) eqn:Ed; [done|]. injection Hu as <-. intros E. unfold is_dir in Ed.
    by rewrite bool_decide_eq_true_2 in Ed.
Qed.

(** From the open source and destination on. *)
Lemma wpm_copy_body f1 f2 ls l n t en h h2 :
  f1 <> f2 -> w_fds h2 !! f1 = Some (ls, 0) -> w_fds h2 !! f2 = Some (l, 0) ->
  w_tree h2 = put l [] t -> t !! ls = Some n -> t !! l <> Some Dir ->
  (forall b, n = File b -> len b <= N) -> 256 * N + 16384 + Z.of_nat (w_budget h) <= Z.of_nat fuel ->
  did_fd2 f1 f2 (put l [] t) h h2 ->
  WP (copy_loop fuel fuel f1 f2) en h2 (fun _ r h' => exists x, did_fd2 f1 f2 (put l x t) h h' /\
    (r = CopyDone /\ (exists b, n = File b /\ x = if bool_decide (ls = l) then [] else b) \/
     r <> CopyDone /\ (n = Dir /\ x = [] \/ faulty = true))).
Proof using N_nonneg.
  intros Hff Hf1 Hf2 Et Hls Hl Hsz Hfuel Hd2. assert (w_budget h2 <= w_budget h)%nat by apply Hd2.
  destruct n as [|b].
  - assert (ls <> l) by (intros ->; congruence).
    wmono (eapply (wpm_copy_loop_dir _ f1 f2 ls 0); [done|by rewrite Et, lookup_insert_ne|done|lia]).
    intros en' r h' [Hc Hr]. exists []. split; [|by right; auto]. rewrite <- Et.
    eapply did_fd2_trans; [exact Hd2|]. by apply did_fd2_first, did_did_fd.
  - specialize (Hsz b eq_refl). set (b' := if bool_decide (ls = l) then [] else b).
    assert (w_tree h2 !! ls = Some (File b')) as Hb2.
    { rewrite Et. unfold b'. case_bool_decide as E; [subst l; apply lookup_insert_eq|]. by rewrite lookup_insert_ne. }
    assert (len b' <= N) by (unfold b'; case_bool_decide; simpl; lia).
    wmono (apply (wpm_copy_loop fuel f1 f2 ls l b' 0 []);
           [done|done|exact Hb2|lia|done|rewrite Et; apply lookup_insert_eq
           |intros ->; unfold b'; by rewrite bool_decide_eq_true_2|lia|unfold COPY_BUF_SIZE; lia]).
    intros en3 r h3 (x & Hx & Hr). rewrite Et, insert_insert_eq in Hx. exists x.
    split; [by eapply did_fd2_trans|]. destruct Hr as [[-> ->]|[? ?]]; [left|right; auto].
    split; [done|]. exists b. by rewrite drop_0.
Qed.

Section copy.
Context (src dst s d : bytes) (ls : Z * Z * bool) (h : world).
Hypothesis built_s : path_build dir src PATH_MAX = Some s.
Hypothesis built_d : path_build dir dst PATH_MAX = Some d.
Hypothesis h_serving : serving h.
Hypothesis src_ok : not_log src.
Hypothesis dst_ok : not_log dst.

Notation sp := (spec faulty (w_nmax h) base (CCopy src dst)).
Notation lookup_path t p := (find (w_nmax h) t base (components p)).

Section opened.
Context (f1 : Z) (lsrc : loc) (n : node).
Hypothesis f1_fresh : w_fds h !! f1 = None.
Hypothesis src_at : walk (w_nmax h) (w_tree h) base (components src) = inr lsrc.
Hypothesis src_is : w_tree h !! lsrc = Some n.

Let h1 := set_fds (<[f1 := (lsrc, 0)]> (w_fds h)) h.

Lemma src_found : lookup_path (w_tree h) src = inr n.
Proof using src_at src_is. unfold find. by rewrite src_at, src_is. Qed.

Lemma copy_ready : ready h.
Proof using h_serving N_nonneg. by apply serving_ready. Qed.

(** Failure before the destination is open. *)
Lemma wpm_copy_fail t en e target :
  fits (w_tree h) t -> (forall m, sp (w_tree h) (RError m) t) ->
  WP (close f1;; locks_release_two ls;; fail_errno fuel lp fd client (L"COPYFILE") target e) en (set_tree t h1)
     (fun _ _ h' => answers sp h h').
Proof using N_nonneg h_serving f1_fresh.
  intros Hfit Hsp. apply wpm_bind. eapply (wpm_close_did _ f1 t h); [done|apply did_fd_set|..];
    intros; apply wpm_bind, wpm_release_any;
    (wmono (eapply wpm_fail_errno, ready_did; [apply copy_ready|done|done])); intros en4 ? h4 [m Hm]; by ans t.
Qed.

Section created.
Context (f2 : Z) (l : loc) (t : tree).
Hypothesis f2_fresh : w_fds h !! f2 = None.
Hypothesis f1_f2 : f1 <> f2.
Hypothesis dst_at : store (w_nmax h) (w_tree h) base (components dst) = (t, Some l).
Hypothesis dst_file : t !! l <> Some Dir.
Hypothesis t_fits : fits (w_tree h) t.
Hypothesis t_grown : grown (at_path base dst) (w_tree h) t.
Hypothesis src_kept : t !! lsrc = Some n.

Lemma dst_at_path : l = at_path base dst.
Proof using dst_at dst_file built_d.
  by eapply store_facts; [eapply no_up_rel| |].
Qed.

(** Failure afterwards. *)
Lemma wpm_copy_fail2 x h3 en e target :
  did_fd2 f1 f2 (put l x t) h h3 -> (n = Dir /\ x = [] \/ faulty = true) ->
  WP (close f1;; close f2;; locks_release_two ls;;
      fail_errno fuel lp fd client (L"COPYFILE") target e) en h3 (fun _ _ h' => answers sp h h').
Proof using N_nonneg h_serving f1_fresh f2_fresh dst_at dst_file t_fits t_grown built_d src_at src_is.
  intros Hx Hwhy. eapply wpm_copy_end; [exact f1_fresh|exact f2_fresh|exact Hx|].
  intros en4 h4 Hput. wmono (eapply wpm_fail_errno, ready_did; [apply copy_ready|exact Hput|by apply fits_put]).
  intros en5 ? h5 [m Hm]. ans (put l x t). destruct Hwhy as [[En ->]|Hft].
  - right; right; left. split; [by rewrite src_found, En|]. by exists t, l.
  - right; right; right; right. split; [done|]. exists t. split; [done|]. right. rewrite <- dst_at_path. split; [done|by exists x].
Qed.

Lemma wpm_copy_opened en :
  WP (c ← copy_loop fuel fuel f1 f2;
      match c with
      | CopyReadErr e =>
          close f1;; close f2;; locks_release_two ls;; fail_errno fuel lp fd client (L"COPYFILE") src e
      | CopyWriteErr e =>
          close f1;; close f2;; locks_release_two ls;; fail_errno fuel lp fd client (L"COPYFILE") dst e
      | CopyDone =>
          s ← fsync f2;
          match s with
          | inl e => close f1;; close f2;; locks_release_two ls;; fail_errno fuel lp fd client (L"COPYFILE") dst e
          | inr _ =>
              close f1;; close f2;; locks_release_two ls;;
              log lp client (L"COPYFILE") src (L"OK") (L"copied");; resp_reply_simple fuel fd (L"OK")
          end
      end) en (set_tree (put l [] t) (set_fds (<[f2 := (l, 0)]> (w_fds h1)) h1))
    (fun _ _ h' => answers sp h h').
Proof using All.
  set (h2 := set_tree _ _).
  assert (did_fd2 f1 f2 (put l [] t) h h2) as Hp2.
  { split_and!; [done| |simpl; lia]. unfold frame_fd2. simpl.
    by rewrite delete_insert_eq, (delete_delete _ f1 f2), delete_insert_eq, (delete_delete _ f2 f1). }
  apply wpm_bind. wmono (apply (wpm_copy_body f1 f2 lsrc l n t _ h h2 f1_f2); [simpl; rewrite lookup_insert_ne by done; apply lookup_insert_eq
    |apply lookup_insert_eq|done|done|done| |apply h_serving|done]).
  { intros b En. eapply sized_file; [done|exact (no_up_rel dir src s built_s)|exact src_ok|by rewrite src_found, En]. }
  intros en3 r h3 (x & Hx & Hr).
  destruct r as [|e|e]; [|destruct Hr as [[? _]|[_ ?]]; [done|by eapply wpm_copy_fail2]..].
  destruct Hr as [[_ (b & Hb & ->)]|[? _]]; [|done].
  apply wpm_bind, wpm_sys_posix. intros [e|[]] h4 [-> Hs4]; cbn [id]; [eapply wpm_copy_fail2; [exact Hx|by right]|].
  eapply wpm_copy_end; [exact f1_fresh|exact f2_fresh|exact Hx|]. intros en4 h5 Hput.
  wmono (eapply wpm_log_ok, ready_did; [apply copy_ready|exact Hput|by apply fits_put]). intros en5 ? h6 Hrep.
  ans (put l (if bool_decide (lsrc = l) then [] else b) t). split; [done|]. exists lsrc, b, t, l. by rewrite src_is, Hb.
Qed.
End created.

(** From the open source on. *)
Lemma wpm_copy_source en (k : Z -> M Z) :
  (forall f2 l t en', w_fds h !! f2 = None -> f1 <> f2 ->
     store (w_nmax h) (w_tree h) base (components dst) = (t, Some l) -> t !! l <> Some Dir ->
     fits (w_tree h) t -> grown (at_path base dst) (w_tree h) t -> t !! lsrc = Some n ->
     WP (k f2) en' (set_tree (put l [] t) (set_fds (<[f2 := (l, 0)]> (w_fds h1)) h1)) (fun _ _ h' => answers sp h h')) ->
  WP (r ← path_ensure_parent_dirs d;
      if negb (r =? 0) then
        e ← get_errno;
        close f1;; locks_release_two ls;; fail_errno fuel lp fd client (L"COPYFILE") dst e
      else
        o ← open d O_WRONLY_CREAT_TRUNC;
        match o with
        | inl e => close f1;; locks_release_two ls;; fail_errno fuel lp fd client (L"COPYFILE") dst e
        | inr f2 => k f2
        end) en h1 (fun _ _ h' => answers sp h h').
Proof using All.
  intros Hk. assert (based dir base h1) as Hb1 by (destruct (sv_based h h_serving); by constructor).
  apply wpm_bind. wmono (by eapply wpm_ensure_built). intros en2 r h2 (t & -> & Hfit & Hg & Hm).
  change (w_tree h1) with (w_tree h) in *. change (w_nmax h1) with (w_nmax h) in *.
  assert (faulty = true -> forall m, sp (w_tree h) (RError m) t) as Hbot.
  { intros Hft m. right; right; right; right. split; [done|]. exists t. split; [done|by left]. }
  destruct (mkdirs (w_nmax h) (w_tree h) base (removelast (components dst))) as [t1 o] eqn:Emk.
  destruct Hm as [[-> Hm]|[-> Hft]]; [|apply wpm_bind, wpm_get_errno; by eapply wpm_copy_fail, Hbot].
  destruct Hm as [->|[-> ->]]; simpl negb; cbn iota.
  2: { apply wpm_bind, wpm_get_errno. apply wpm_copy_fail; [done|]. intros m. right; left. split; [exists n; apply src_found|].
       unfold not_stored, store. by rewrite Emk. }
  apply wpm_bind. eapply (wpm_create_built dst d t1 _ h1); [done|done|simpl; by rewrite Emk|..].
  { intros e [Hno|Hft]; [|by eapply wpm_copy_fail, Hbot]. apply wpm_copy_fail; [done|]. intros m. right; left.
    split; [exists n; apply src_found|done]. }
  intros f2 l Hn2 Hst Hnd2. unfold h1 in Hn2. simpl in Hn2. apply lookup_insert_None in Hn2 as [Hn2 Hff]. apply Hk; try done.
  destruct (mkdirs_walk (w_nmax h) (w_tree h) base (removelast (components dst))) as (_ & _ & Hsame).
  rewrite Emk in Hsame. simpl in Hsame. by rewrite Hsame, src_is by (by rewrite src_is).
Qed.
End opened.
End copy.

Lemma refine_copyfile src dst en h :
  serving h -> not_log src -> not_log dst ->
  WP (op_copyfile fuel lp fd dir client src dst) en h
    (fun _ _ h' => answers (spec_two faulty (w_nmax h) base dir src dst CCopy) h h').
Proof.
  intros Hsv Hns Hnd. apply refine_two; [by simpl; auto 6|done|].
  intros s d ls en1 Hs Hd. pose proof (serving_ready h Hsv N_nonneg) as Hr. pose proof (sv_based h Hsv) as Hb.
  apply wpm_bind, wpm_sys_posix. intros [e|f1] h1 Hpost; simpl in Hpost; cbn [id].
  - destruct Hpost as [-> He]. apply (unnamed_built _ _ _ Hs Hsv) in He. apply wpm_bind, wpm_release_any.
    assert (forall m, spec faulty (w_nmax h) base (CCopy src dst) (w_tree h) (RError m) (w_tree h)) as Hsp.
    { intros m. destruct (e =? ENOENT); [by left; eauto|]. destruct He as [(e' & ? & _)|?]; [by left; eauto|].
      right; right; right; left. done. }
    destruct (e =? ENOENT).
    + wmono (apply (wpm_log_reply (RError (L"source file not found"))); [done|]; intros en' h1 [_ ?];
             apply wpm_reply_error; [done|lia]). intros. by ans (w_tree h).
    + wmono (by apply wpm_fail_errno). intros en3 ? h2 [m Hm]. by ans (w_tree h).
  - destruct Hpost as (Hn1 & lsrc & Hl & [n Hn] & ->). rewrite (resolve_built _ _ _ _ _ Hs Hb) in Hl.
    eapply (wpm_copy_source src dst s d ls h); try done. intros. by eapply wpm_copy_opened.
Qed.

(** * LOGS *)

(** The last megabyte of the log. *)
Definition last_mb (c : bytes) : bytes := drop (length c - Z.to_nat LOG_TAIL_MAX) c.

(** What LOGS returns of the bytes it read. *)
Definition last_lines (limit : Z) (data : bytes) : bytes :=
  if limit <=? 0 then data else drop (tail_start data limit (length data) 0) data.

(** LOGS: the last lines of the last megabyte of the log. *)
Definition spec_logs (limit : Z) (t : tree) (r : reply) (t' : tree) : Prop :=
  t' = t /\
  match r with
  | RBulk m =>
      match t !! log_loc base with
      | Some (File c) => exists data, (data = last_mb c \/ faulty = true) /\ m = last_lines limit data
      | _ => m = []
      end
  | RError _ => faulty = true
  | _ => False
  end.

(** The two [fseek]s and the [fread] of [read_log_tail] on a log of contents [c]. *)
Lemma seek_last (c : bytes) size :
  size = Z.min LOG_TAIL_MAX (len c) ->
  take (Z.to_nat size) (drop (Z.to_nat (len c + - size)) c) = last_mb c.
Proof.
  intros ->. unfold last_mb.
  replace (Z.to_nat (len c + - Z.min LOG_TAIL_MAX (len c))) with (length c - Z.to_nat LOG_TAIL_MAX)%nat
    by (unfold LOG_TAIL_MAX; lia).
  apply take_ge. rewrite length_drop. unfold LOG_TAIL_MAX. lia.
Qed.

Lemma last_lines_length limit data : len (last_lines limit data) <= len data.
Proof. unfold last_lines. destruct (limit <=? 0); [lia|]. rewrite length_drop. lia. Qed.

Definition log_result (h : world) (limit : Z) (r : option bytes) : Prop :=
  match r with
  | None => faulty = true
  | Some m => len m <= LOG_TAIL_MAX /\ spec_logs limit (w_tree h) (RBulk m) (w_tree h)
  end.

(** [h] with stream [fp] open on the log at [pos]. *)
Definition at_log (fp pos : Z) (h : world) : world := set_fps (<[fp := (log_loc base, pos)]> (w_fps h)) h.

(** Reading the log through the stream [fp]. *)
Section log_stream.
Context (h : world) (c : bytes) (fp limit : Z).
Hypothesis log_contents : w_tree h !! log_loc base = Some (File c).
Hypothesis fp_fresh : w_fps h !! fp = None.

Lemma open_at_log pos : open_on (w_fps (at_log fp pos h)) (at_log fp pos h) fp.
Proof using log_contents. exists (log_loc base), pos, c. split; [apply lookup_insert_eq|done]. Qed.

Lemma logged_fclose pos h' :
  post faulty (EFclose fp) tt (at_log fp pos h) h' -> exists t, logged base (w_tree h) t /\ did t h h'.
Proof using log_contents fp_fresh.
  intros (h1 & (t & Hl & -> & _)%(appends_logged base fp pos) & ->); [|apply lookup_insert_eq|by exists c].
  exists t. split; [done|]. split_and!; [done| |simpl; lia]. unfold frame. simpl. by rewrite delete_insert_id.
Qed.

Lemma wpm_fseek_log pos off w en (Q : Z -> res unit -> world -> Prop) :
  0 <= seek_target (len c) off w ->
  Q en (inr tt) (at_log fp (seek_target (len c) off w) h) ->
  (forall e, faulty = true -> Q e (inl e) (at_log fp pos h)) ->
  WP (fseek fp off w) en (at_log fp pos h) Q.
Proof using log_contents.
  intros Hw HQ HQf. apply wpm_sys_posix. split.
  { exists (log_loc base), pos, c. split; [apply lookup_insert_eq|done]. }
  intros [e|[]] h1 Hpost; cbn [id].
  - destruct Hpost as [-> ?]. by apply HQf.
  - destruct Hpost as (p & q & c' & Hp & Hc & _ & ->). simpl in Hp, Hc.
    rewrite lookup_insert_eq in Hp. injection Hp as <- <-. rewrite log_contents in Hc. injection Hc as <-.
    unfold at_log, set_fps in *. simpl. by rewrite insert_insert_eq.
Qed.

(** What reading the log leaves: the result, and a log that may have grown. *)
Notation log_done := (fun r h' => (exists t, logged base (w_tree h) t /\ did t h h') /\ log_result h limit r).

Lemma wpm_close_log pos en (r : option bytes) :
  log_result h limit r ->
  WP (call (EFclose fp);; mret r) en (at_log fp pos h) (fun _ r h' => log_done r h').
Proof using log_contents fp_fresh.
  intros Hr. apply wpm_bind, wpm_call_posix. split; [apply open_at_log|].
  intros [] h2 Hl%logged_fclose. by apply wpm_ret.
Qed.

(** From the last [fseek] on: the stream is at the last megabyte, unless
    something failed. *)
Lemma wpm_read_stream pos en :
  let size := Z.min LOG_TAIL_MAX (len c) in
  pos = len c + - size \/ faulty = true ->
  WP (ok ← malloc (size + 1);
      if negb ok then call (EFclose fp);; mret None
      else
        buf ← call (EFread fp size);
        call (EFclose fp);;
        if size <? len buf then out_of_bounds
        else if limit <=? 0 then mret (Some buf)
        else
          let start := tail_start buf limit (length buf) 0 in
          ok2 ← malloc (len buf - Z.of_nat start + 1);
          mret (if negb ok2 then None else Some (drop start buf))) en (at_log fp pos h)
    (fun _ r h' => log_done r h').
Proof using log_contents fp_fresh.
  intros size Hpos. assert (0 <= size <= LOG_TAIL_MAX) by (unfold size, LOG_TAIL_MAX; lia).
  apply wpm_bind, wpm_malloc; cbn [negb]; [|intros Hft; by apply wpm_close_log].
  apply wpm_bind, wpm_call_posix. split; [apply open_at_log|].
  intros buf h5 (p & q & c' & Hp & Hc & -> & Hpre & Hbuf). simpl in Hp, Hc.
  rewrite lookup_insert_eq in Hp. injection Hp as <- <-. rewrite log_contents in Hc. injection Hc as <-.
  apply wpm_bind, wpm_call_posix. split; [apply open_at_log|]. intros [] h5 Hl%logged_fclose.
  assert (len buf <= size) by (apply prefix_length in Hpre; rewrite length_take in Hpre; lia).
  destruct (Z.ltb_spec size (len buf)); [lia|].
  assert (log_result h limit (Some (last_lines limit buf))) as Hres.
  { split; [pose proof (last_lines_length limit buf); lia|]. split; [done|]. rewrite log_contents.
    exists buf. split; [|done]. destruct Hbuf as [->|]; [|by right].
    destruct Hpos as [->|]; [|by right]. left. by apply seek_last. }
  unfold last_lines in Hres. destruct (limit <=? 0); [by apply wpm_ret|].
  apply wpm_bind, wpm_malloc; [|intros Hft]; apply wpm_ret; by split.
Qed.
End log_stream.

Lemma wpm_read_log_tail limit en h :
  based dir base h ->
  WP (read_log_tail lp limit) en h (fun _ r h' =>
    (exists t, logged base (w_tree h) t /\ did t h h') /\ log_result h limit r).
Proof.
  intros Hb. pose proof (resolve_log _ _ _ Hb) as Hres. pose proof (bs_log _ _ _ Hb) as Hnd.
  assert (exists t, logged base (w_tree h) t /\ did t h h) as Hsame.
  { exists (w_tree h). split; [by left|apply did_refl]. }
  apply wpm_bind, wpm_sys_posix. intros [e|fp] h1 Hpost; cbn [id].
  { destruct Hpost as [-> He]. unfold unnamed, named in He. rewrite Hres in He.
    destruct (e =? ENOENT).
    - destruct (w_tree h !! log_loc base) eqn:E; [done|].
      apply wpm_bind, wpm_malloc; [|intros Hft]; apply wpm_ret; (split; [done|]); simpl; [|done].
      split; [unfold LOG_TAIL_MAX; lia|]. split; [done|]. by rewrite E.
    - apply wpm_ret. split; [done|]. destruct He as [(e' & He & Hne)|?]; [|done].
      destruct (w_tree h !! log_loc base); congruence. }
  destruct Hpost as (Hn & l & Hl & [nd Hc] & ->). rewrite Hres in Hl. injection Hl as <-.
  destruct nd as [|c]; [done|]. fold (at_log fp 0 h).
  apply wpm_bind, (wpm_fseek_log h c); [done|simpl; lia| |intros e Hft; by eapply wpm_close_log].
  simpl seek_target. rewrite Z.add_0_r.
  apply wpm_bind. apply wpm_bind, wpm_sys_posix. split; [by eapply open_at_log|].
  intros [e|n] h3 [-> Hpost]; cbn [id]; apply wpm_ret; [by eapply wpm_close_log|].
  destruct Hpost as (p & Hp). simpl in Hp. rewrite lookup_insert_eq in Hp. injection Hp as <- <-.
  destruct (Z.ltb_spec (len c) 0); [lia|]. cbv zeta.
  replace (if LOG_TAIL_MAX <? len c then LOG_TAIL_MAX else len c) with (Z.min LOG_TAIL_MAX (len c))
    by (unfold LOG_TAIL_MAX; split_guard; lia).
  apply wpm_bind, (wpm_fseek_log h c); [done|simpl; unfold LOG_TAIL_MAX; lia| |].
  - apply wpm_bind, wpm_ret. apply (wpm_read_stream h c); [done..|by left].
  - intros e Hft. apply wpm_bind, (wpm_fseek_log h c); [done|simpl; lia| |].
    + apply (wpm_read_stream h c); [done..|by right].
    + intros e' _. by eapply wpm_close_log.
Qed.

Lemma answers_logged (S : tree -> reply -> tree -> Prop) rep t h h1 h' :
  logged base (w_tree h) t -> did t h h1 -> S (w_tree h) rep (w_tree h) -> calm_replied rep h1 h' -> answers S h h'.
Proof.
  intros Hl Hd HS Hr. eapply (answers_did _ _ _ h h); [apply did_refl|done|]. by eapply logged_calm_replied.
Qed.

Lemma refine_logs limit en h :
  serving h -> LOG_TAIL_MAX <= N < 2 ^ 63 ->
  WP (op_logs fuel lp fd client limit) en h (fun _ _ h' => answers (spec_logs limit) h h').
Proof.
  intros Hsv HN. pose proof (serving_ready h Hsv N_nonneg) as [Hb Hf].
  apply wpm_bind. wmono (by apply wpm_read_log_tail). intros en1 r h1 [(t & Hl & Hd) Hr].
  assert (w_budget h1 <= w_budget h)%nat by apply Hd. assert (based dir base h1) as Hb1 by (by eapply based_logged).
  destruct r as [m|].
  - destruct Hr as [Hm Hsp]. apply wpm_bind. wmono (apply wpm_reply_bulk; destruct Hsv; lia).
    intros en2 rc h2 Hs%sent_replied. assert (based dir base h2) by (by eapply based_replied).
    apply wpm_bind. wmono (by apply (wpm_log faulty dir base)). intros en3 ? h3 (t3 & Hl3 & Hd3). apply wpm_ret.
    eapply answers_logged; [exact Hl|exact Hd|exact Hsp|]. by eapply calm_replied_logged.
  - apply wpm_bind, wpm_get_errno. apply wpm_bind, wpm_call_posix. intros d h2 [-> _].
    apply wpm_bind. wmono (by apply (wpm_log faulty dir base)). intros en3 ? h2 (t2 & Hl2 & Hd2).
    apply wpm_bind, wpm_get_errno. apply wpm_bind, wpm_call_posix. intros m h3 [-> (_ & _ & Hm)].
    assert (w_budget h2 <= w_budget h1)%nat by apply Hd2.
    wmono (apply wpm_reply_error; lia). intros en4 rc h3 Hs%sent_replied.
    eapply (answers_logged _ (RError m)); [exact Hl|exact Hd|by split|]. by eapply logged_calm_replied.
Qed.

(** * Requests *)

(** What the server may answer to a request, by command name and arity. *)
Definition wrong_arity (cmd : bytes) : reply := RError (L"wrong number of arguments for " ++ cmd).

Definition arg (req : resp_array) (i : nat) : bytes := default [] (ra_items req !! i).
Definition arg_str (req : resp_array) (i : nat) : bytes := c_str (arg req i).

Definition only (r0 : reply) (t : tree) (r : reply) (t' : tree) : Prop := r = r0 /\ t' = t.

Definition spec_transform (nmax : Z) (req : resp_array) (name : bytes) (derive : bytes -> Z -> option bytes)
    (c : bytes -> bytes -> command) : tree -> reply -> tree -> Prop :=
  if ra_count req =? 2 then
    match derive (arg_str req 1) PATH_MAX with
    | None => only (RError (L"unable to build destination path"))
    | Some dst => spec_two faulty nmax base dir (arg_str req 1) dst c
    end
  else if ra_count req =? 3 then spec_two faulty nmax base dir (arg_str req 1) (arg_str req 2) c
  else only (wrong_arity name).

Definition spec_logs_request (req : resp_array) : tree -> reply -> tree -> Prop :=
  if ra_count req =? 2 then
    match int_value (arg_str req 1) with
    | Some limit =>
        if limit <? 0 then only (RError (L"LOGS limit must be non-negative integer"))
        else spec_logs limit
    | None => only (RError (L"LOGS limit must be non-negative integer"))
    end
  else if ra_count req =? 1 then spec_logs 20
  else only (wrong_arity (L"LOGS")).

Definition spec_request (nmax : Z) (req : resp_array) : tree -> reply -> tree -> Prop :=
  let cmd := arg_str req 0 in
  let one (name : bytes) (c : bytes -> command) :=
    if ra_count req =? 2 then spec_path faulty nmax base dir (arg_str req 1) c else only (wrong_arity name) in
  let two (name : bytes) (c : bytes -> bytes -> command) :=
    if ra_count req =? 3 then spec_two faulty nmax base dir (arg_str req 1) (arg_str req 2) c
    else only (wrong_arity name) in
  if is_cmd cmd (L"PING") then
    if ra_count req =? 1 then only (RSimple (L"PONG")) else only (RBulk (arg req 1))
  else if is_cmd cmd (L"GETFILE") then one (L"GETFILE") CGet
  else if is_cmd cmd (L"SETFILE") then
    if ra_count req =? 3 then spec_path faulty nmax base dir (arg_str req 1) (fun p => CSet p (arg req 2))
    else only (wrong_arity (L"SETFILE"))
  else if is_cmd cmd (L"DELFILE") then one (L"DELFILE") CDel
  else if is_cmd cmd (L"RENAMEFILE") then two (L"RENAMEFILE") CRename
  else if is_cmd cmd (L"COPYFILE") then two (L"COPYFILE") CCopy
  else if is_cmd cmd (L"STATFILE") then one (L"STATFILE") CStat
  else if is_cmd cmd (L"LOGS") then spec_logs_request req
  else if is_cmd cmd (L"COMPRESS") then
    spec_transform nmax req (L"COMPRESS") derive_compress_dst CCompress
  else if is_cmd cmd (L"DECOMPRESS") then
    spec_transform nmax req (L"DECOMPRESS") derive_decompress_dst CDecompress
  else only (RError (L"unknown command")).

End handlers.
End refine.

End Refine.
