(* ===== verification/SrvReceive.v ===== *)
(** Reading requests: under the POSIX contract [resp_read_array] reads back a
    request that a client encoded, however the bytes arrive, and refuses one
    with an empty item. *)

From S2P Require Import Prelude Libc Rle SrvEvents SrvPath SrvTree SrvResp SrvLocks SrvFileOps SrvServer SrvPosix.
Import Libc Path Resp Posix.

Module Receive.

(** * The encoding clients use *)

Definition enc_item (b : bytes) : bytes := [36] ++ print_u 10 (len b) ++ CRLF ++ b ++ CRLF.

Definition enc_items (l : list bytes) : bytes := concat (enc_item <$> l).

Definition enc_count (n : Z) : bytes := [42] ++ print_u 10 n ++ CRLF.

Definition encode_request (items : list bytes) : bytes := enc_count (len items) ++ enc_items items.

Section receive.
Context (faulty : bool).

Notation WP := (wpm true (posix faulty)).

(** What receiving leaves alone. *)
Definition frame_in (h : world) := (w_tree h, w_cwd h, w_nmax h, w_fds h, w_fps h, w_out h, w_gone h).

(** Only input was consumed, apart from the budget. *)
Definition reads (h h' : world) : Prop :=
  frame_in h' = frame_in h /\ (w_budget h' <= w_budget h)%nat.

#[global] Instance reads_preorder : PreOrder reads.
Proof.
  split.
  - intros h. by split.
  - intros h1 h2 h3 [? ?] [? ?]. split; [congruence|lia].
Qed.

(** [x] was consumed and [v] made of it, or a call failed. *)
Definition delivers {A} (x : bytes) (v : A) (h : world) (r : option A) (h' : world) : Prop :=
  reads h h' /\ (r = Some v /\ w_in h = x ++ w_in h' \/ r = None /\ faulty = true).

Lemma delivers_after {A} x y (v : A) h h1 r h' :
  reads h h1 -> w_in h = x ++ w_in h1 -> delivers y v h1 r h' -> delivers (x ++ y) v h r h'.
Proof.
  intros Hr Hin [Hr' Hd]. split; [by transitivity h1|].
  destruct Hd as [[-> Hin']|?]; [left|by right]. split; [done|]. by rewrite Hin, Hin', <- app_assoc.
Qed.

Lemma wpm_recv_exact fuel fd n buf x en h :
  len buf + len x = n -> x `prefix_of` w_in h -> len x + Z.of_nat (w_budget h) <= Z.of_nat fuel ->
  WP (recv_exact fuel fd n buf) en h (fun _ '(r, b) h' => reads h h' /\
    (r = n /\ b = buf ++ x /\ w_in h = x ++ w_in h' \/ r = -1 /\ faulty = true)).
Proof.
  revert buf x en h. induction fuel as [|fuel IH]; intros buf x en h Hn Hx Hf; simpl;
    (destruct (Z.ltb_spec (len buf) n);
     [|destruct x; [|simpl in *; lia]; apply wpm_ret; split; [done|]; left;
       rewrite app_nil_r; repeat split; simpl in *; lia]); [lia|].
  apply wpm_bind, wpm_sys_posix. split; [simpl; lia|]. intros [e|bs] h1 Hpost; simpl in Hpost; cbn [id].
  - unfold failed in Hpost. destruct (e =? EINTR).
    + destruct Hpost as (m & Hm & ->).
      wmono (apply (IH buf x); simpl in *; (done || lia)). intros en' [r b] h' [Hr ?]. split; [|done].
      transitivity (set_budget m h); [|done]. split; [done|simpl; lia].
    + destruct Hpost as (? & _ & ->). apply wpm_ret. split; [done|by right].
  - destruct Hpost as (Hl & Hnil & rest & Hin & ->). destruct bs as [|c bs].
    { specialize (Hnil eq_refl). rewrite Hnil in Hx. apply prefix_nil_inv in Hx as ->. simpl in *. lia. }
    set (cs := c :: bs) in *. assert (0 < len cs) by (simpl; lia).
    assert (exists x', x = cs ++ x') as [x' ->].
    { rewrite Hin in Hx. destruct (prefix_weak_total x cs (cs ++ rest)) as [Hle|[x' ->]]; [done|by exists rest| |by exists x'].
      destruct Hle as [k Hk]. assert (length cs = length x + length k)%nat by (by rewrite Hk, length_app).
      exists []. rewrite app_nil_r. rewrite Hk. destruct k; [by rewrite app_nil_r|simpl in *; lia]. }
    rewrite length_app in *.
    wmono (apply (IH (buf ++ cs) x'); [rewrite length_app; lia| |simpl; lia]).
    { simpl. rewrite Hin in Hx. by apply prefix_app_inv in Hx. }
    intros en' [r b] h' [Hr Hd]. split.
    { transitivity (set_in rest h); [by split|done]. }
    destruct Hd as [(-> & -> & E)|?]; [left|by right]. rewrite app_assoc. repeat split.
    simpl in E. by rewrite Hin, E, app_assoc.
Qed.

Lemma wpm_recv_byte fuel fd c rest en h :
  w_in h = c :: rest -> 1 + Z.of_nat (w_budget h) <= Z.of_nat fuel ->
  WP (recv_byte fuel fd) en h (fun _ r h' => delivers [c] c h r h').
Proof.
  intros Hin Hf. apply wpm_bind. wmono (apply (wpm_recv_exact fuel fd 1 [] [c])); [..|].
  { done. } { rewrite Hin. by exists rest. } { simpl. lia. }
  intros en1 [r b] h1 [Hr Hd]. apply wpm_ret. split; [done|].
  destruct Hd as [(-> & -> & ?)|[-> ?]]; [by left|by right].
Qed.

(** A line without CR that fits the buffer. *)
Lemma wpm_crlf_loop fuel room fd out line rest en h :
  Forall (fun c => c <> CR) line -> (length line < room)%nat ->
  w_in h = line ++ CRLF ++ rest -> 1 + Z.of_nat (w_budget h) <= Z.of_nat fuel ->
  WP (crlf_loop fuel room fd out) en h (fun _ r h' => delivers (line ++ CRLF) (out ++ line) h r h').
Proof.
  revert room out en h. induction line as [|c line IH]; intros [|room] out en h Hl Hroom Hin Hf;
    simpl in Hroom; try lia; cbn [crlf_loop]; apply wpm_bind.
  - wmono (eapply wpm_recv_byte; [exact Hin|done]). intros en1 r h1 [Hr [[-> Hin1]|[-> ?]]].
    2: { apply wpm_ret. split; [done|by right]. }
    change (CR =? CR) with true. cbn iota. rewrite Hin in Hin1. simpl in Hin1. simplify_eq.
    assert (w_budget h1 <= w_budget h)%nat by apply Hr.
    apply wpm_bind. wmono (eapply wpm_recv_byte; [by rewrite <- Hin1|lia]).
    intros en2 r h2 Hd.
    assert (delivers ([CR] ++ [LF]) LF h r h2) as Hd2.
    { eapply delivers_after; [exact Hr| |exact Hd]. by rewrite Hin, <- Hin1. }
    destruct Hd2 as [Hr2 [[-> E]|[-> ?]]]; apply wpm_ret; (split; [done|]); [left|by right].
    by rewrite app_nil_r.
  - apply Forall_cons in Hl as [Hc Hl].
    wmono (eapply wpm_recv_byte; [exact Hin|done]). intros en1 r h1 [Hr [[-> Hin1]|[-> ?]]].
    2: { apply wpm_ret. split; [done|by right]. }
    assert (w_budget h1 <= w_budget h)%nat by apply Hr.
    destruct (Z.eqb_spec c CR); [done|]. rewrite Hin in Hin1. simpl in Hin1.
    injection Hin1 as Hin1. wmono (apply (IH room (out ++ [c])); [done|lia|by rewrite <- Hin1|lia]).
    intros en2 r h2 Hd. rewrite <- app_assoc in Hd.
    apply (delivers_after [c] (line ++ CRLF) _ h h1); [done| |done]. by rewrite Hin, <- Hin1.
Qed.

Lemma print_u_no_cr n : 0 <= n < 2 ^ 64 -> Forall (fun c => c <> CR) (print_u 10 n) /\ no_nul (print_u 10 n).
Proof.
  intros (_ & Hd & _)%print_u_spec. split; (eapply Forall_impl; [exact Hd|]);
    intros c Hc; unfold isdigit, CR in *; lia.
Qed.

Lemma int_value_print n : 0 <= n <= INT_MAX -> int_value (print_u 10 n) = Some n.
Proof.
  intros Hn. unfold INT_MAX in Hn. unfold int_value. rewrite strtol_print_u by (unfold LONG_MAX; lia).
  destruct (print_u_spec n) as [Hp _]; [lia|].
  rewrite (bool_decide_eq_false_2 ([] = _)) by (intros E; rewrite <- E in Hp; simpl in Hp; lia).
  rewrite bool_decide_eq_true_2 by done. unfold INT_MIN, INT_MAX.
  by destruct (Z.ltb_spec n (- 2 ^ 31)), (Z.ltb_spec (2 ^ 31 - 1) n); try lia.
Qed.

(** A number on a line of its own. *)
Lemma wpm_number_line fuel fd n rest en h :
  0 <= n <= INT_MAX -> w_in h = print_u 10 n ++ CRLF ++ rest ->
  1 + Z.of_nat (w_budget h) <= Z.of_nat fuel ->
  WP (recv_crlf_line fuel fd LINE_SZ) en h (fun _ r h' => reads h h' /\
    (r = Some (print_u 10 n) /\ w_in h' = rest \/ r = None /\ faulty = true)).
Proof.
  intros Hn Hin Hf. assert (0 <= n < 2 ^ 64) as Hn64 by (unfold INT_MAX in Hn; lia).
  destruct (print_u_no_cr n Hn64) as [Hcr _]. pose proof (print_u_length n Hn64).
  wmono (eapply wpm_crlf_loop; [exact Hcr|unfold LINE_SZ; lia|exact Hin|done]).
  intros en1 r h1 [Hr [[-> E]|[-> ?]]]; (split; [done|]); [left|by right]. split; [done|].
  rewrite Hin, <- app_assoc in E. by do 2 apply app_inv_head in E.
Qed.

Lemma wpm_parse_number n en h (Q : Z -> option Z -> world -> Prop) :
  0 <= n <= INT_MAX -> (forall en', Q en' (Some n) h) -> WP (parse_int (c_str (print_u 10 n))) en h Q.
Proof.
  intros Hn HQ. destruct (print_u_no_cr n) as [_ Hnul]; [unfold INT_MAX in Hn; lia|].
  unfold parse_int. apply wpm_bind, wpm_set_errno, wpm_ret. rewrite c_str_id, int_value_print by done.
  apply HQ.
Qed.

(** Items the protocol code can read: not empty, of a length that is an [int]
    and that the fuel covers. *)
Definition item_ok (fuel : nat) (h : world) (b : bytes) : Prop :=
  0 < len b <= INT_MAX /\ len b + 2 + Z.of_nat (w_budget h) <= Z.of_nat fuel.

Lemma item_ok_reads fuel h h' b : reads h h' -> item_ok fuel h b -> item_ok fuel h' b.
Proof. intros [_ ?] [? ?]. split; lia. Qed.

Lemma reads_budget fuel k h h' :
  reads h h' -> k + Z.of_nat (w_budget h) <= Z.of_nat fuel -> k + Z.of_nat (w_budget h') <= Z.of_nat fuel.
Proof. intros [_ ?] ?. lia. Qed.

(** The body and the CRLF of an item. *)
Lemma wpm_item_body {A} fuel fd b rest (k : bytes -> M (option A)) en h Q :
  item_ok fuel h b -> w_in h = b ++ CRLF ++ rest ->
  (forall en' h', reads h h' -> w_in h' = rest -> WP (k b) en' h' Q) ->
  (forall en' h', reads h h' -> faulty = true -> Q en' None h') ->
  WP ('(r, data) ← recv_exact fuel fd (len b) [];
      if r <=? 0 then mret None
      else
        '(r2, crlf) ← recv_exact fuel fd 2 [];
        if (r2 <=? 0) || negb (bool_decide (crlf = [CR; LF])) then mret None else k data) en h Q.
Proof.
  intros [Hb Hf] Hin Hk HN. apply wpm_bind.
  wmono (apply (wpm_recv_exact fuel fd (len b) [] b); [done|rewrite Hin; by eexists|lia]).
  intros en1 [r d] h1 [Hr [(-> & -> & E)|[-> ?]]]; [|by apply wpm_ret, HN].
  destruct (Z.leb_spec (len b) 0); [lia|]. rewrite Hin in E. apply app_inv_head in E.
  assert (w_budget h1 <= w_budget h)%nat by apply Hr. apply wpm_bind.
  wmono (apply (wpm_recv_exact fuel fd 2 [] CRLF); [done|rewrite <- E; by eexists|simpl; lia]).
  intros en2 [r d] h2 [Hr2 Hd]. assert (reads h h2) by (by transitivity h1).
  destruct Hd as [(-> & -> & E2)|[-> ?]]; [|by apply wpm_ret, HN].
  rewrite bool_decide_eq_true_2 by done. cbn [orb negb]. change (2 <=? 0) with false.
  apply Hk; [done|]. rewrite <- E in E2. by apply app_inv_head in E2.
Qed.

(** The kind byte and the length line of an item, up to the allocation. *)
Lemma wpm_item_head fuel fd todo acc n rest en h Q :
  0 <= n <= INT_MAX -> 1 + Z.of_nat (w_budget h) <= Z.of_nat fuel ->
  w_in h = [36] ++ print_u 10 n ++ CRLF ++ rest ->
  (forall en' h', reads h h' -> w_in h' = rest ->
     WP ('(r, data) ← recv_exact fuel fd n [];
         if r <=? 0 then mret None
         else
           '(r2, crlf) ← recv_exact fuel fd 2 [];
           if (r2 <=? 0) || negb (bool_decide (crlf = [CR; LF])) then mret None
           else read_items fuel todo fd (acc ++ [data])) en' h' Q) ->
  (forall en' h', reads h h' -> faulty = true -> Q en' None h') ->
  WP (read_items fuel (S todo) fd acc) en h Q.
Proof.
  intros Hn Hf Hin Hk HN. cbn [read_items]. apply wpm_bind.
  wmono (eapply wpm_recv_byte; [exact Hin|done]). intros en1 r h1 [Hr [[-> E]|[-> ?]]].
  2: { apply wpm_ret. by apply HN. }
  rewrite bool_decide_eq_true_2 by done. cbn [negb]. rewrite Hin in E. apply app_inv_head in E.
  apply wpm_bind. wmono (eapply wpm_number_line; [done|by rewrite <- E|by eapply reads_budget]).
  intros en2 r h2 [Hr2 Hd]. assert (reads h h2) by (by transitivity h1).
  destruct Hd as [[-> Hin2]|[-> ?]]; [|by apply wpm_ret, HN].
  apply wpm_bind, wpm_parse_number; [done|]. intros en3.
  destruct (Z.ltb_spec n 0); [lia|]. apply wpm_bind, wpm_malloc; cbn [negb].
  - by apply Hk.
  - intros Hft. apply wpm_ret. by apply HN.
Qed.

Lemma wpm_read_items fuel fd todo l acc rest en h Q :
  1 + Z.of_nat (w_budget h) <= Z.of_nat fuel ->
  Forall (item_ok fuel h) l -> w_in h = enc_items l ++ rest ->
  (forall en' h', reads h h' -> w_in h' = rest -> WP (read_items fuel todo fd (acc ++ l)) en' h' Q) ->
  (forall en' h', reads h h' -> faulty = true -> Q en' None h') ->
  WP (read_items fuel (length l + todo) fd acc) en h Q.
Proof.
  intros Hf Hl. revert acc en h Hf Hl. induction l as [|b l IH]; intros acc en h Hf Hl Hin Hk HN.
  { specialize (Hk en h). rewrite app_nil_r in Hk. by apply Hk. }
  apply Forall_cons in Hl as [Hb Hl].
  change (enc_items (b :: l)) with (enc_item b ++ enc_items l) in Hin. unfold enc_item in Hin.
  rewrite <- !app_assoc in Hin. simpl length. rewrite Nat.add_succ_l.
  eapply wpm_item_head; [|done|exact Hin| |done]; [destruct Hb; lia|].
  intros en1 h1 Hr1 Hin1. eapply (wpm_item_body fuel fd b); [by eapply item_ok_reads|exact Hin1|..].
  2: { intros. apply HN; [by transitivity h1|done]. }
  intros en2 h2 Hr2 Hin2. assert (reads h h2) by (by transitivity h1).
  apply IH; [by eapply reads_budget| |exact Hin2|..].
  - eapply Forall_impl; [exact Hl|]. intros. by eapply item_ok_reads.
  - intros en3 h3 Hr3 Hin3. rewrite <- app_assoc. apply Hk; [by transitivity h2|done].
  - intros. apply HN; [by transitivity h2|done].
Qed.

Lemma wpm_array_head fuel fd n rest en h Q :
  0 < n <= 128 -> 1 + Z.of_nat (w_budget h) <= Z.of_nat fuel -> w_in h = enc_count n ++ rest ->
  (forall en' h', reads h h' -> w_in h' = rest ->
     WP (read_items fuel (Z.to_nat n) fd []) en' h' (fun en'' items h'' =>
       Q en'' (match items with None => None | Some items => Some (mk_array n items) end) h'')) ->
  (forall en' h', reads h h' -> faulty = true -> Q en' None h') ->
  WP (resp_read_array fuel fd) en h Q.
Proof.
  intros Hn Hf Hin Hk HN. unfold enc_count in Hin. rewrite <- !app_assoc in Hin.
  apply wpm_bind. wmono (eapply wpm_recv_byte; [exact Hin|done]). intros en1 r h1 [Hr [[-> E]|[-> ?]]].
  2: { apply wpm_ret. by apply HN. }
  rewrite bool_decide_eq_true_2 by done. cbn [negb]. rewrite Hin in E. apply app_inv_head in E.
  assert (0 <= n <= INT_MAX) by (unfold INT_MAX; lia).
  apply wpm_bind. wmono (eapply wpm_number_line; [done|by rewrite <- E|by eapply reads_budget]).
  intros en2 r h2 [Hr2 Hd]. assert (reads h h2) by (by transitivity h1).
  destruct Hd as [[-> Hin2]|[-> ?]]; [|by apply wpm_ret, HN].
  apply wpm_bind, wpm_parse_number; [done|]. intros en3.
  destruct (Z.leb_spec n 0), (Z.ltb_spec 128 n); try lia. cbn [orb].
  apply wpm_bind, wpm_malloc; cbn [negb].
  - apply wpm_bind. wmono (by apply Hk). intros en4 r h3 HQ. by apply wpm_ret.
  - intros Hft. apply wpm_ret. by apply HN.
Qed.

(** A request a client encoded is read back. *)
Lemma wpm_resp_read_array fuel fd items rest en h :
  0 < len items <= 128 -> 1 + Z.of_nat (w_budget h) <= Z.of_nat fuel ->
  Forall (item_ok fuel h) items -> w_in h = encode_request items ++ rest ->
  WP (resp_read_array fuel fd) en h (fun _ r h' => reads h h' /\
    (r = Some (mk_array (len items) items) /\ w_in h' = rest \/ r = None /\ faulty = true)).
Proof.
  intros Hn Hf Hl Hin. unfold encode_request in Hin. rewrite <- app_assoc in Hin.
  eapply wpm_array_head; [done|done|exact Hin| |by eauto].
  intros en1 h1 Hr Hin1. rewrite Nat2Z.id, <- (Nat.add_0_r (length items)).
  eapply wpm_read_items; [by eapply reads_budget| |exact Hin1|..].
  - eapply Forall_impl; [exact Hl|]. intros. by eapply item_ok_reads.
  - intros en2 h2 Hr2 Hin2. apply wpm_ret. split; [by transitivity h1|]. by left.
  - intros en2 h2 Hr2 Hft. split; [by transitivity h1|]. by right.
Qed.

(** An empty item makes the whole request unreadable. *)
Lemma wpm_empty_item fuel fd n items rest en h :
  len items < n <= 128 -> 1 + Z.of_nat (w_budget h) <= Z.of_nat fuel ->
  Forall (item_ok fuel h) items ->
  w_in h = enc_count n ++ enc_items items ++ enc_item [] ++ rest ->
  WP (resp_read_array fuel fd) en h (fun _ r h' => reads h h' /\ r = None).
Proof.
  intros Hn Hf Hl Hin.
  eapply (wpm_array_head fuel fd n); [lia|done|exact Hin| |by auto].
  intros en1 h1 Hr Hin1.
  replace (Z.to_nat n) with (length items + S (Z.to_nat n - length items - 1))%nat by lia.
  eapply wpm_read_items; [by eapply reads_budget| |exact Hin1|..].
  - eapply Forall_impl; [exact Hl|]. intros. by eapply item_ok_reads.
  - intros en2 h2 Hr2 Hin2. assert (reads h h2) by (by transitivity h1).
    eapply (wpm_item_head fuel fd _ _ 0); [done|by eapply reads_budget|exact Hin2|..].
    + intros en3 h3 Hr3 Hin3. apply wpm_bind. wmono (apply (wpm_recv_exact fuel fd 0 [] []); [done|apply prefix_nil|]).
      { assert (reads h h3) as Hr' by (by transitivity h2). apply (reads_budget fuel _ _ _ Hr') in Hf. simpl. lia. }
      intros en4 [r b] h4 [Hr4 Hd].
      assert (r <= 0) by (destruct Hd as [[-> _]|[-> _]]; lia).
      destruct (Z.leb_spec r 0); [|lia]. apply wpm_ret. split; [|done]. by transitivity h2; [|transitivity h3].
    + intros en3 h3 Hr3 Hft. split; [by transitivity h2|done].
  - intros en2 h2 Hr2 Hft. split; [by transitivity h1|done].
Qed.

End receive.
End Receive.
