(* ===== verification/SrvRequests.v ===== *)
(** Requests end to end: [dispatch_command] refines the specification of
    requests under the POSIX contract, a request leaves the server able to take
    the next one, and a client's whole session is served: one reply per request,
    each on the files the requests before it left. *)

From S2P Require Import Prelude Libc Rle SrvEvents SrvPath SrvTree SrvResp SrvLocks SrvFileOps SrvServer SrvDiscipline SrvPosix SrvRefine SrvReceive.
Import Libc Path Tree Resp Locks Logger FileOps Server Posix Refine.

Module Requests.
Section dispatch.
Context (faulty : bool) (fuel : nat) (N : Z) (dir : bytes) (base : loc) (client : bytes) (fd : Z).

Notation WP := (wpm true (posix faulty)).
Notation lp := (logger_init dir).

Hypothesis N_range : LOG_TAIL_MAX <= N < 2 ^ 63.

Lemma N_nonneg : 0 <= N.
Proof using N_range. unfold LOG_TAIL_MAX in *. lia. Qed.

(** No path of the request names the log: the paths are the first argument and,
    for commands on two files, the second or the one derived from the first. *)
Definition no_log (req : resp_array) : Prop :=
  let cmd := arg_str req 0 in
  let named n := is_cmd cmd n = true in
  let one := named (L"GETFILE") \/ named (L"SETFILE") \/ named (L"DELFILE") \/ named (L"STATFILE") in
  let two := named (L"RENAMEFILE") \/ named (L"COPYFILE") \/ named (L"COMPRESS") \/ named (L"DECOMPRESS") in
  (one \/ two -> not_log (arg_str req 1)) /\ (two -> not_log (arg_str req 2)) /\
  (named (L"COMPRESS") -> ra_count req = 2 -> forall d, derive_compress_dst (arg_str req 1) PATH_MAX = Some d -> not_log d) /\
  (named (L"DECOMPRESS") -> ra_count req = 2 -> forall d, derive_decompress_dst (arg_str req 1) PATH_MAX = Some d -> not_log d).

(** A parsed request whose items are at most [N] bytes long. *)
Definition request_ok (req : resp_array) : Prop :=
  Discipline.wf_request req /\ Forall (fun b => len b <= N) (ra_items req) /\ no_log req.

Lemma wpm_item req i (k : bytes -> M Z) en h Q :
  request_ok req -> Z.of_nat i < ra_count req ->
  WP (k (arg req i)) en h Q -> WP (item req i k) en h Q.
Proof.
  intros ((Hc & Hl & Hb) & _) Hi Hk. unfold item, arg in *.
  destruct (lookup_lt_is_Some_2 (ra_items req) i) as [b Hib]; [lia|]. by rewrite Hib in *.
Qed.

Lemma arg_length req i : request_ok req -> len (arg req i) <= N.
Proof.
  intros (_ & Hb & _). pose proof N_nonneg. unfold arg. destruct (ra_items req !! i) as [b|] eqn:E; [|simpl; lia].
  exact (Forall_lookup_1 _ _ _ _ Hb E).
Qed.

Lemma wpm_reply_only msg en h :
  ready fuel dir base h -> len msg <= 500 ->
  WP (reply_error fuel fd msg) en h (fun _ _ h' => answers faulty base (only (RError msg)) h h').
Proof.
  intros [_ Hf] Hm. wmono (apply wpm_reply_error; lia). intros en1 r h1 Hs.
  eapply (answers_did _ _ _ _ _ h h); [apply did_refl|by split|by eapply sent_replied].
Qed.

Section one_request.
Context (req : resp_array) (h : world).
Hypothesis req_ok : request_ok req.
Hypothesis h_serving : serving fuel N dir base h.

Lemma ready_h : ready fuel dir base h.
Proof. apply (serving_ready fuel N); [done|apply N_nonneg]. Qed.

Lemma refine_dispatch_path op name (c : bytes -> command) en :
  len name <= 20 -> not_log (arg_str req 1) ->
  (forall rel en', not_log rel ->
     WP (op fd dir client rel) en' h (fun _ _ h' => answers faulty base (spec_path faulty (w_nmax h) base dir rel c) h h')) ->
  WP (dispatch_path fuel dir op (L"wrong number of arguments for " ++ name) fd client req) en h
    (fun _ _ h' => answers faulty base
       (if ra_count req =? 2 then spec_path faulty (w_nmax h) base dir (arg_str req 1) c else only (wrong_arity name)) h h').
Proof.
  intros Hn Hnl Hop. unfold dispatch_path. destruct (Z.eqb_spec (ra_count req) 2); cbn [negb].
  - apply wpm_item; [done|lia|]. by apply Hop.
  - apply wpm_reply_only; [apply ready_h|]. rewrite length_app. simpl. lia.
Qed.

Lemma refine_two_args (k : bytes -> bytes -> M Z) (S : tree -> reply -> tree -> Prop) en :
  ra_count req = 3 ->
  WP (k (arg req 1) (arg req 2)) en h (fun _ _ h' => answers faulty base S h h') ->
  WP (item req 1 (fun p => item req 2 (fun q => k p q))) en h (fun _ _ h' => answers faulty base S h h').
Proof. intros Hc Hk. apply wpm_item; [done|lia|]. apply wpm_item; [done|lia|done]. Qed.

Lemma refine_dispatch_two op name (c : bytes -> bytes -> command) en :
  len name <= 20 -> not_log (arg_str req 1) -> not_log (arg_str req 2) ->
  (forall p q en', not_log p -> not_log q ->
     WP (op fd dir client p q) en' h (fun _ _ h' => answers faulty base (spec_two faulty (w_nmax h) base dir p q c) h h')) ->
  WP (dispatch_two fuel dir op (L"wrong number of arguments for " ++ name) fd client req) en h
    (fun _ _ h' => answers faulty base
       (if ra_count req =? 3 then spec_two faulty (w_nmax h) base dir (arg_str req 1) (arg_str req 2) c
        else only (wrong_arity name)) h h').
Proof.
  intros Hn Hl1 Hl2 Hop. unfold dispatch_two. destruct (Z.eqb_spec (ra_count req) 3); cbn [negb].
  - apply (refine_two_args (fun p q => op fd dir client (c_str p) (c_str q))); [done|].
    by apply Hop.
  - apply wpm_reply_only; [apply ready_h|]. rewrite length_app. simpl. lia.
Qed.

Lemma refine_dispatch_transform op derive name (c : bytes -> bytes -> command) en :
  len name <= 20 -> not_log (arg_str req 1) -> not_log (arg_str req 2) ->
  (ra_count req = 2 -> forall d, derive (arg_str req 1) PATH_MAX = Some d -> not_log d) ->
  (forall p q en', not_log p -> not_log q ->
     WP (op fd dir client p q) en' h (fun _ _ h' => answers faulty base (spec_two faulty (w_nmax h) base dir p q c) h h')) ->
  WP (dispatch_transform fuel dir op derive (L"wrong number of arguments for " ++ name) fd client req) en h
    (fun _ _ h' => answers faulty base (spec_transform faulty dir base (w_nmax h) req name derive c) h h').
Proof.
  intros Hn Hl1 Hl2 Hd Hop. unfold dispatch_transform, spec_transform. destruct (Z.eqb_spec (ra_count req) 2).
  - apply wpm_item; [done|lia|]. unfold arg_str in *.
    destruct (derive _ PATH_MAX) as [dst|]; [by apply Hop; auto|].
    apply wpm_reply_only; [apply ready_h|simpl; lia].
  - destruct (Z.eqb_spec (ra_count req) 3).
    + by apply (refine_two_args (fun p q => op fd dir client (c_str p) (c_str q))); [|apply Hop].
    + apply wpm_reply_only; [apply ready_h|]. rewrite length_app. simpl. lia.
Qed.

Lemma wpm_parse_int_arg s en Q :
  (forall en', Q en' (int_value s) h) -> WP (parse_int_arg s) en h Q.
Proof.
  intros HQ. unfold parse_int_arg, int_value in *. destruct (strtol s) as [[v e] range].
  apply wpm_bind, wpm_set_errno, wpm_ret. apply HQ.
Qed.

Lemma refine_dispatch_logs en :
  WP (dispatch_logs fuel lp fd client req) en h
    (fun _ _ h' => answers faulty base (spec_logs_request faulty base req) h h').
Proof.
  unfold dispatch_logs, spec_logs_request. pose proof ready_h.
  destruct (Z.eqb_spec (ra_count req) 2).
  - apply wpm_item; [done|lia|]. apply wpm_bind, wpm_parse_int_arg. intros en'. unfold arg_str.
    destruct (int_value _) as [l|]; [|apply wpm_reply_only; [done|simpl; lia]].
    destruct (l <? 0); [apply wpm_reply_only; [done|simpl; lia]|]. apply refine_logs with (N := N); (done || apply N_nonneg).
  - destruct (Z.eqb_spec (ra_count req) 1); cbn [negb].
    + apply refine_logs with (N := N); (done || apply N_nonneg).
    + apply wpm_reply_only; [done|simpl; lia].
Qed.

Lemma refine_dispatch_ping en :
  WP (dispatch_ping fuel fd req) en h (fun _ _ h' => answers faulty base
    (if ra_count req =? 1 then only (RSimple (L"PONG")) else only (RBulk (arg req 1))) h h').
Proof.
  pose proof ready_h as [_ Hf]. unfold dispatch_ping.
  destruct (Z.eqb_spec (ra_count req) 1).
  - wmono (apply wpm_reply_simple; [simpl; lia|lia]). intros en1 r h1 Hs.
    eapply (answers_did _ _ _ _ _ h h); [apply did_refl|by split|by eapply sent_replied].
  - destruct req_ok as ((Hc & _) & _). apply wpm_item; [done|lia|].
    pose proof (arg_length req 1 req_ok).
    wmono (apply wpm_reply_bulk; [lia|destruct h_serving; lia]). intros en1 r h1 Hs.
    eapply (answers_did _ _ _ _ _ h h); [apply did_refl|by split|by eapply sent_replied].
Qed.

Lemma refine_dispatch en :
  WP (dispatch_command fuel lp dir fd client req) en h
    (fun _ _ h' => answers faulty base (spec_request faulty dir base (w_nmax h) req) h h').
Proof.
  pose proof N_nonneg as HN. destruct req_ok as ((Hc & _) & _ & Hl1 & Hl2 & Hl3 & Hl4).
  unfold dispatch_command. apply wpm_item; [done|lia|]. cbv zeta. unfold spec_request. cbv zeta.
  fold (arg_str req 0). set (cmd := arg_str req 0) in *.
  cbv zeta in Hl1, Hl2, Hl3, Hl4. fold cmd in Hl1, Hl2, Hl3, Hl4.
  repeat match goal with |- context [is_cmd cmd ?n] => destruct (is_cmd cmd n) eqn:? end.
  - apply refine_dispatch_ping.
  - apply (refine_dispatch_path _ (L"GETFILE") CGet); [simpl; lia|by auto 8|]. intros. by apply refine_getfile with N.
  - destruct (Z.eqb_spec (ra_count req) 3); cbn [negb].
    + apply (refine_two_args (fun p d => op_setfile fuel lp fd dir client (c_str p) d)); [done|].
      apply refine_setfile with N; [done|done|by auto 8|]. by apply arg_length.
    + apply (wpm_reply_only (L"wrong number of arguments for SETFILE")); [apply ready_h|simpl; lia].
  - apply (refine_dispatch_path _ (L"DELFILE") CDel); [simpl; lia|by auto 8|]. intros. by apply refine_delfile with N.
  - apply (refine_dispatch_two _ (L"RENAMEFILE") CRename); [simpl; lia|by auto 8|by auto 8|].
    intros. by apply refine_renamefile with N.
  - apply (refine_dispatch_two _ (L"COPYFILE") CCopy); [simpl; lia|by auto 8|by auto 8|].
    intros. by apply refine_copyfile with N.
  - apply (refine_dispatch_path _ (L"STATFILE") CStat); [simpl; lia|by auto 8|]. intros. by apply refine_statfile with N.
  - apply refine_dispatch_logs.
  - apply (refine_dispatch_transform _ _ (L"COMPRESS") CCompress); [simpl; lia|by auto 8..|].
    intros. by apply refine_compress with N.
  - apply (refine_dispatch_transform _ _ (L"DECOMPRESS") CDecompress); [simpl; lia|by auto 8..|].
    intros. by apply refine_decompress with N.
  - apply (wpm_reply_only (L"unknown command")); [apply ready_h|simpl; lia].
Qed.

End one_request.
End dispatch.

(** * Sessions *)

(** Large enough for whatever a request can produce. *)
Definition roomy (N : Z) : Prop := 2 * MAX_FILE_SIZE + 8 <= N < 2 ^ 63.

Definition small (N : Z) (b : bytes) : Prop := len b <= N /\ Forall is_byte b.

Lemma small_nil N : roomy N -> small N [].
Proof. intros HN. unfold roomy, MAX_FILE_SIZE, Rle.MAX_FILE_SIZE in HN. split; [simpl; lia|constructor]. Qed.

Lemma expand_bytes o : Forall is_byte o -> Forall is_byte (Rle.expand o).
Proof.
  induction o as [| |r v o IH] using Rle.two_step_ind; simpl; [constructor..|].
  rewrite !Forall_cons. intros (_ & Hv & Ho).
  apply Forall_app. split; [by apply Forall_replicate|by apply IH].
Qed.

Lemma small_compressed N b o :
  roomy N -> Forall is_byte b -> len b <= MAX_FILE_SIZE -> Rle.rle_enc b o -> small N (Rle.header ++ o).
Proof.
  intros HN Hb Hl Ho. split.
  - rewrite length_app. change (length Rle.header) with 4%nat.
    pose proof (Rle.rle_enc_length _ _ Ho). destruct HN. lia.
  - apply Forall_app. split; [|by eapply Rle.rle_enc_bytes]. change Rle.header with [82; 76; 69; 49].
    rewrite !Forall_cons. unfold is_byte. split_and!; [lia..|constructor].
Qed.

Lemma small_decompressed N b x :
  roomy N -> Forall is_byte b -> Rle.decode (fun _ => true) b = Rle.CBuf x -> small N x.
Proof.
  intros HN Hb Hd. unfold Rle.decode in Hd. cbv zeta in Hd.
  destruct (bool_decide _); [|done]. destruct (Z.ltb_spec Rle.MAX_FILE_SIZE (Rle.expand_len (drop 4 b))); [done|].
  assert (Forall is_byte (drop 4 b)) by (by apply Forall_drop).
  destruct (Nat.odd _); [done|]. simplify_eq. split; [|by apply expand_bytes].
  rewrite Rle.expand_len_length by done. unfold roomy, MAX_FILE_SIZE, Rle.MAX_FILE_SIZE in *. lia.
Qed.

(** ** What a command leaves *)

Section kept.
Context (nmax N : Z) (base : loc).
Hypothesis N_roomy : roomy N.

(** The files below the data directory, the log apart, have at most [N] bytes. *)
Definition sized (t : tree) : Prop :=
  forall k b, base `prefix_of` k -> k <> log_loc base -> t !! k = Some (File b) -> small N b.

(** What a server needs of its files is kept. *)
Definition kept (t t' : tree) : Prop := fits base t t' /\ sized t'.

(** A path of a client. *)
Definition client_path (p : bytes) : Prop := no_up (components p) /\ not_log p.

Section tree.
Context (t : tree).
Hypothesis t_log : t !! log_loc base <> Some Dir.
Hypothesis t_sized : sized t.

Lemma kept_refl : kept t t.
Proof using t_log t_sized. by split; [split|]. Qed.

Lemma sized_grown l t' : grown l t t' -> sized t'.
Proof using t_sized.
  intros Hg k b Hk Hl Hb. destruct (Hg k) as [E|(_ & E & _)]; [|congruence]. apply (t_sized k b); congruence.
Qed.

Lemma kept_grown p t' : client_path p -> grown (at_path base p) t t' -> kept t t'.
Proof using t_log t_sized. intros [_ Hp] Hg. split; [by eapply fits_grown|by eapply sized_grown]. Qed.

Lemma kept_stored p t1 l x :
  client_path p -> store nmax t base (components p) = (t1, Some l) -> small N x -> kept t (put l x t1).
Proof using t_log t_sized.
  intros [Hu Hp] Hs Hx. destruct (store_facts _ _ _ _ _ _ Hu Hs) as [Hg Hl]. destruct (Hl l eq_refl) as [-> Hd].
  split; [apply fits_put; [by eapply fits_grown|done]|].
  intros k b Hk Hlog Hb. destruct (decide (k = base ++ names (components p))) as [->|Hne].
  - rewrite lookup_insert_eq in Hb. by injection Hb as <-.
  - rewrite lookup_insert_ne in Hb by done. by eapply sized_grown.
Qed.

Lemma kept_not_stored p t1 : client_path p -> not_stored nmax base t p t1 -> kept t t1.
Proof using t_log t_sized.
  intros Hp Hs. apply (kept_grown p); [done|]. destruct Hp as [Hu _].
  by destruct (store_facts _ _ _ _ _ _ Hu Hs).
Qed.

Lemma kept_put p x t' : client_path p -> small N x -> stored nmax base t p x t' -> kept t t'.
Proof using t_log t_sized. intros Hp Hx (t1 & l & Hs & ->). by eapply kept_stored. Qed.

(** What a client's path names is small. *)
Lemma small_at p l b :
  client_path p -> walk nmax t base (components p) = inr l -> t !! l = Some (File b) -> small N b.
Proof using t_sized.
  intros [Hu Hn] Hw Hb. apply walk_loc in Hw as ->; [|done]. eapply t_sized; [by apply prefix_app_r| |exact Hb].
  intros E. apply (log_at base p); [|done]. unfold at_path. by rewrite E.
Qed.

Lemma small_contents p b : client_path p -> contents nmax base t p b -> small N b.
Proof using t_sized N_roomy.
  intros Hp (n & Hf & [->|[_ ->]] & _); [|by apply small_nil]. unfold find in Hf.
  destruct (walk nmax t base (components p)) as [|l] eqn:Hw; [done|].
  destruct (t !! l) as [n|] eqn:Hl; [|done]. injection Hf as ->. by eapply small_at.
Qed.

Lemma kept_renamed s d t' :
  client_path s -> client_path d ->
  rename_path nmax t base (components s) base (components d) = Some t' -> kept t t'.
Proof using t_log t_sized.
  intros [Hus Hns] [Hud Hnd] Hr. split; [exact (rename_fits base nmax t s d t' Hus Hns Hud Hnd t_log Hr)|]. unfold rename_path in Hr.
  destruct (proper_last (components s)) eqn:Hps; [|done]. destruct (proper_last (components d)); [|done]. simpl in Hr.
  destruct (walk nmax t base (strip (components s))) as [|ls] eqn:Es; [done|].
  destruct (walk nmax t base (strip (components d))) as [|ld]; [done|].
  destruct (walk_strip_below _ _ _ _ _ Hus Hns Hps Es) as (Hs1 & _ & Hs3).
  intros k b Hk Hlog Hb. destruct (rename_at_from _ _ _ _ _ _ _ Hr Hb) as (k' & Hb' & [->|Hk']); [by eapply t_sized|].
  apply (t_sized k'); [by transitivity ls| |done]. by intros ->.
Qed.
End tree.

Lemma kept_trans t1 t2 t3 : kept t1 t2 -> kept t2 t3 -> kept t1 t3.
Proof. intros [[H1 _] _] [[H2 Hl] Hs]. split; [split|]; auto. Qed.

(** The paths of a command and the data it brings. *)
Definition paths (c : command) : list bytes :=
  match c with
  | CGet p | CSet p _ | CDel p | CStat p => [p]
  | CRename s d | CCopy s d | CCompress s d | CDecompress s d => [s; d]
  end.

Definition brings (c : command) (b : bytes) : Prop := match c with CSet _ d => b = d | _ => False end.

Lemma spec_rename_kept s d t r t' :
  t !! log_loc base <> Some Dir -> sized t -> client_path s -> client_path d ->
  spec_rename false nmax base s d t r t' -> kept t t'.
Proof using N_roomy.
  intros Hlog Hsz Hs Hd Hsp. unfold spec_rename in Hsp. pose proof Hd as [Hud _].
  pose proof (mkdirs_parents_grown nmax t base _ Hud) as Hg.
  destruct (mkdirs nmax t base (removelast (components d))) as [t1 o]. simpl in Hg.
  assert (kept t t1) as Hk by (by eapply (kept_grown t Hlog Hsz d)). destruct r; try done.
  - destruct Hsp as [_ Hr]. eapply kept_trans; [exact Hk|]. destruct Hk as [[_ Hl1] Hs1]. by apply (kept_renamed t1 Hl1 Hs1 s d).
  - by destruct Hsp as [[-> _]|[? _]].
Qed.

Lemma spec_kept c t r t' :
  t !! log_loc base <> Some Dir -> sized t -> Forall client_path (paths c) -> (forall b, brings c b -> small N b) ->
  spec false nmax base c t r t' -> kept t t'.
Proof using N_roomy.
  intros Hlog Hsz Hp Hset Hs. pose proof (kept_refl t Hlog Hsz) as Hrefl.
  pose proof (kept_put t Hlog Hsz) as Hput. pose proof (kept_not_stored t Hlog Hsz) as Hno.
  pose proof (small_nil N N_roomy) as Hnil. pose proof (small_contents t Hsz) as Hcon.
  destruct c as [p|p d|p|s d|s d|p|s d|s d]; simpl in Hp; rewrite !Forall_cons in Hp; destruct_and!;
    [..|destruct r; simpl in Hs; try done|destruct r; simpl in Hs; try done].
  - destruct r; simpl in Hs; try done; by destruct_and!; subst.
  - destruct r; simpl in Hs; try done; [|by destruct Hs as [?|[? _]]; [eapply Hno|]].
    destruct Hs as [_ Hs]. eapply Hput; [done| |exact Hs]. by apply Hset.
  - destruct r; simpl in Hs; try done; [by destruct_and!; subst|].
    destruct Hs as [(_ & l & b & Hw & Hb & ->)|(_ & _ & ->)]; [|done]. split; [apply fits_delete; congruence|].
    intros k b' Hk Hl [_ Hb']%lookup_delete_Some. by eapply Hsz.
  - by apply (spec_rename_kept s d t r t').
  - destruct r; simpl in Hs; try done.
    + destruct Hs as (_ & ls & b & t1 & l & Hw & Hb & Hst & ->). eapply kept_stored; [done..|].
      case_bool_decide; [done|]. by eapply (small_at t Hsz s).
    + destruct Hs as [[_ ->]|[[_ ?]|[[_ ?]|[[? _]|[? _]]]]]; try done; [by apply (Hno d)|by apply (Hput d [])].
  - destruct r; simpl in Hs; try done; by destruct_and!; subst.
  - destruct Hs as (_ & b & o & Hb & Ho & Hst). eapply (Hput d); [done| |exact Hst].
    eapply small_compressed; [done|by eapply (Hcon s)| |done]. by destruct Hb as (? & _ & _ & ?).
  - destruct Hs as [[_ ->]|[[_ ?]|[? _]]]; try done. by apply (Hno d).
  - destruct Hs as (_ & b & x & Hb & Hx & Hst). eapply (Hput d); [done| |exact Hst].
    eapply small_decompressed; [done|by eapply (Hcon s)|done].
  - destruct Hs as [[_ ->]|[[_ ?]|[? _]]]; try done. by apply (Hno d).
Qed.
(** A request, by the paths in it. *)
Section request.
Context (dir : bytes) (t : tree) (r : reply) (t' : tree).
Hypothesis t_log : t !! log_loc base <> Some Dir.
Hypothesis t_sized : sized t.

Lemma only_kept r0 : only r0 t r t' -> kept t t'.
Proof using t_log t_sized. intros [_ ->]. by apply kept_refl. Qed.

Lemma spec_path_kept rel (c : bytes -> command) :
  not_log rel -> paths (c rel) = [rel] -> (forall b, brings (c rel) b -> small N b) ->
  spec_path false nmax base dir rel c t r t' -> kept t t'.
Proof using t_log t_sized N_roomy.
  intros Hn Hp Hb Hs. unfold spec_path in Hs. destruct (path_build dir rel PATH_MAX) as [p|] eqn:E; [|exact (only_kept _ Hs)].
  eapply spec_kept; [done|done| |done|exact Hs]. rewrite Hp. constructor; [|constructor].
  split; [by eapply no_up_rel|done].
Qed.

Lemma spec_two_kept src dst (c : bytes -> bytes -> command) :
  not_log src -> not_log dst -> paths (c src dst) = [src; dst] -> (forall b, ~ brings (c src dst) b) ->
  spec_two false nmax base dir src dst c t r t' -> kept t t'.
Proof using t_log t_sized N_roomy.
  intros Hn1 Hn2 Hp Hb Hs. unfold spec_two, build_two in Hs.
  destruct (path_build dir src PATH_MAX) as [p|] eqn:E1; [|exact (only_kept _ Hs)].
  destruct (path_build dir dst PATH_MAX) as [q|] eqn:E2; [|exact (only_kept _ Hs)].
  eapply spec_kept; [done|done| |by intros b ?%Hb|exact Hs]. rewrite Hp.
  repeat constructor; [by eapply no_up_rel|done|by eapply no_up_rel|done].
Qed.

Lemma spec_transform_kept req name derive (c : bytes -> bytes -> command) :
  not_log (arg_str req 1) -> not_log (arg_str req 2) ->
  (ra_count req = 2 -> forall d, derive (arg_str req 1) PATH_MAX = Some d -> not_log d) ->
  (forall p q, paths (c p q) = [p; q]) -> (forall p q b, ~ brings (c p q) b) ->
  spec_transform false dir base nmax req name derive c t r t' -> kept t t'.
Proof using t_log t_sized N_roomy.
  intros Hn1 Hn2 Hd Hp Hb Hs. unfold spec_transform in Hs.
  destruct (Z.eqb_spec (ra_count req) 2) as [E2|_].
  - destruct (derive (arg_str req 1) PATH_MAX) as [d|] eqn:E; [|exact (only_kept _ Hs)].
    eapply spec_two_kept, Hs; eauto.
  - destruct (ra_count req =? 3); [eapply spec_two_kept, Hs; auto|exact (only_kept _ Hs)].
Qed.

Lemma spec_logs_kept req : spec_logs_request false base req t r t' -> kept t t'.
Proof using t_log t_sized.
  unfold spec_logs_request, spec_logs. intros Hs.
  assert (t' = t) as ->; [|by apply kept_refl].
  destruct (ra_count req =? 2); [|destruct (ra_count req =? 1)]; [destruct (int_value _) as [l|]|..]; try apply Hs.
  destruct (l <? 0); apply Hs.
Qed.

Lemma spec_request_kept req :
  no_log req -> small N (arg req 2) -> spec_request false dir base nmax req t r t' -> kept t t'.
Proof using t_log t_sized N_roomy.
  intros (Hl1 & Hl2 & Hl3 & Hl4) Harg. unfold spec_request. cbv zeta in *. set (cmd := arg_str req 0) in *.
  repeat match goal with |- context [is_cmd cmd ?n] => destruct (is_cmd cmd n) eqn:? end;
    try (by destruct (ra_count req =? 1); apply only_kept).
  - destruct (ra_count req =? 2); [|apply only_kept]. apply spec_path_kept; [by auto 8|done..].
  - destruct (ra_count req =? 3); [|apply only_kept]. apply spec_path_kept; [by auto 8|done|]. by intros b ->.
  - destruct (ra_count req =? 2); [|apply only_kept]. apply spec_path_kept; [by auto 8|done..].
  - destruct (ra_count req =? 3); [|apply only_kept]. apply spec_two_kept; [by auto 8..|done|by intros b []].
  - destruct (ra_count req =? 3); [|apply only_kept]. apply spec_two_kept; [by auto 8..|done|by intros b []].
  - destruct (ra_count req =? 2); [|apply only_kept]. apply spec_path_kept; [by auto 8|done..].
  - apply spec_logs_kept.
  - apply spec_transform_kept; [by auto 8..|done|by intros p q b []].
  - apply spec_transform_kept; [by auto 8..|done|by intros p q b []].
Qed.
End request.
End kept.

(** [session reqs t out t']: the requests [reqs], served in order on files [t]
    in an environment without faults, are answered with [out] and leave [t'];
    the log may grow with each of them. *)
Fixpoint session (dir : bytes) (base : loc) (nmax : Z) (reqs : list (list bytes)) (t : tree) (out : bytes)
    (t' : tree) : Prop :=
  match reqs with
  | [] => out = [] /\ t' = t
  | items :: rest =>
      exists r t1 t2 out', spec_request false dir base nmax (mk_array (len items) items) t r t1 /\
        logged base t1 t2 /\ out = encode r ++ out' /\ session dir base nmax rest t2 out' t'
  end.

(** What a client may send: between 1 and 128 items, none empty, none longer
    than [N] or than an [int] can say, and no path that names the log. *)
Definition sendable (N : Z) (items : list bytes) : Prop :=
  0 < len items <= 128 /\
  Forall (fun b => 0 < len b <= Z.min N INT_MAX /\ Forall is_byte b) items /\
  no_log (mk_array (len items) items).

Section session.
Context (dir : bytes) (base : loc) (client : bytes) (fuel : nat) (N fd : Z).
Hypothesis N_roomy : roomy N.

Notation WP := (wpm true (posix false)).
Notation serving := (serving fuel N dir base).

(** The input is exhausted: [resp_read_array] fails. *)
Lemma wpm_read_eof en h :
  w_in h = [] -> 1 + Z.of_nat (w_budget h) <= Z.of_nat fuel ->
  WP (resp_read_array fuel fd) en h (fun _ r h' => Receive.reads h h' /\ r = None).
Proof.
  intros Hin Hf. apply wpm_bind. unfold recv_byte. apply wpm_bind.
  assert (forall n en' h1, w_in h1 = [] -> Z.of_nat (w_budget h1) + 1 <= Z.of_nat n ->
    WP (recv_exact n fd 1 []) en' h1 (fun _ '(r, b) h' => Receive.reads h1 h' /\ r = 0)) as Heof.
  { induction n as [|n IH]; intros en' h1 Hin1 Hn; [lia|]. simpl.
    apply wpm_bind, wpm_sys_posix. split; [simpl; lia|]. intros [e|bs] h2 Hpost; simpl in Hpost; cbn [id].
    - unfold failed in Hpost. destruct (e =? EINTR); [|by destruct Hpost].
      destruct Hpost as (m & Hm & ->). wmono (apply IH; simpl; (done || lia)).
      intros en2 [r b] h3 [Hr ?]. split; [|done]. transitivity (set_budget m h1); [|done].
      split; [done|simpl; lia].
    - destruct Hpost as (_ & _ & rest & E & ->). rewrite Hin1 in E. symmetry in E.
      apply app_eq_nil in E as [-> ->]. apply wpm_ret. by repeat split. }
  wmono (apply Heof; [done|lia]). intros en1 [r b] h1 [Hr ->]. apply wpm_ret. simpl. by apply wpm_ret.
Qed.

Lemma serving_reads h h' : Receive.reads h h' -> serving h -> serving h'.
Proof.
  intros (E & ?) [[? ? ? Hw Hb ? ?] Hs Hc Hf]. unfold Receive.frame_in in E. injection E as Et Ec En Ef Ep Eo Eg.
  assert (start h' dir = start h dir) as Es by (unfold start; by rewrite Ec).
  split; [constructor; by rewrite ?Es, ?Et, ?En|by rewrite Et|unfold unopened in *; by rewrite Ef, Ep|lia].
Qed.

(** Serving a request leaves the server able to serve the next one. *)
Lemma answers_serving req h h' :
  serving h -> no_log req -> small N (arg req 2) ->
  answers false base (spec_request false dir base (w_nmax h) req) h h' -> serving h'.
Proof using N_roomy.
  intros [Hb Hs Hc Hf] Hn Harg (E & ? & r & t & Hsp & Hl & Hr).
  destruct (spec_request_kept _ _ base N_roomy _ _ _ _ (bs_log _ _ _ Hb) Hs _ Hn Harg Hsp) as [[Hk Hlog] Hsz].
  assert (based dir base (set_tree t h)) as Hb1 by (by eapply based_did; [exact Hb|apply did_set|..]).
  assert (based dir base h') as Hb' by (by eapply (based_replied _ _ _ r (set_tree t h))).
  unfold frame_request in E. injection E as Ec En Ef Ep Ei. split; [done| |unfold unopened in *; by rewrite Ef, Ep|lia].
  intros k b Hk1 Hne Hkb. eapply Hsz; [done|done|]. by rewrite <- (logged_other _ _ _ _ Hl).
Qed.

Lemma sendable_ok items : sendable N items -> request_ok N (mk_array (len items) items).
Proof.
  intros (Hl & Hb & Hlog). split; [|split; [|done]].
  - split; [simpl; lia|]. split; [done|]. simpl. eapply Forall_impl; [exact Hb|]. by intros ? [_ ?].
  - simpl. eapply Forall_impl; [exact Hb|]. simpl. intros b [? _]. lia.
Qed.

Lemma sendable_data items : sendable N items -> small N (arg (mk_array (len items) items) 2).
Proof using N_roomy.
  intros (_ & Hb & _). unfold arg. simpl. destruct (items !! 2%nat) as [b|] eqn:E; [|by apply small_nil].
  pose proof (Forall_lookup_1 _ _ _ _ Hb E) as [? ?]. split; [simpl; lia|done].
Qed.

(** One round of the loop: the request is read, dispatched and answered. *)
Lemma refine_round items rest n en h Q :
  sendable N items -> serving h -> w_in h = Receive.encode_request items ++ rest ->
  (forall en' h2 r t, w_in h2 = rest -> serving h2 -> w_nmax h2 = w_nmax h ->
     spec_request false dir base (w_nmax h) (mk_array (len items) items) (w_tree h) r t ->
     logged base t (w_tree h2) -> w_out h2 = w_out h ++ encode r -> w_gone h2 = w_gone h ->
     WP (client_loop fuel (logger_init dir) dir n fd client) en' h2 Q) ->
  WP (client_loop fuel (logger_init dir) dir (S n) fd client) en h Q.
Proof using N_roomy.
  intros Hok Hsv Hin HQ. cbn [client_loop]. apply wpm_bind, wpm_call_posix. intros stop h0 [-> [->|?]]; [|done].
  cbn iota. apply wpm_bind. pose proof (sendable_ok items Hok) as Hrok. pose proof (sendable_data items Hok) as Harg.
  destruct Hok as (Hlen & Hitems & Hnl).
  assert (roomy N) as [HN1 HN2] by done. unfold MAX_FILE_SIZE, Rle.MAX_FILE_SIZE in HN1.
  wmono (eapply Receive.wpm_resp_read_array; [exact Hlen|destruct Hsv; lia| |exact Hin]).
  { eapply Forall_impl; [exact Hitems|]. simpl. intros b [? _]. split; [lia|]. destruct Hsv. lia. }
  intros en1 r h1 [Hr [[-> Hin1]|[_ ?]]]; [|done].
  destruct (lookup_lt_is_Some_2 items 0%nat) as [c Hc]; [lia|].
  simpl ra_count. simpl ra_items. destruct (Z.eqb_spec (len items) 0); [lia|].
  rewrite bool_decide_eq_false_2 by (by rewrite Hc). cbn [orb]. apply wpm_bind.
  pose proof (serving_reads _ _ Hr Hsv) as Hsv1.
  wmono (apply (refine_dispatch false fuel N dir base client fd); [unfold LOG_TAIL_MAX; lia|exact Hrok|exact Hsv1]).
  intros en2 r h2 Hans. pose proof (answers_serving _ _ _ Hsv1 Hnl Harg Hans) as Hsv2.
  destruct Hans as (E2 & _ & rep & t & Hspec & Hlog & [[Hout Hg]|[_ ?]]); [|done].
  assert (E := Hr). destruct E as [E _]. unfold Receive.frame_in in E. injection E as Et Ec En Ef Ep Eo Eg.
  unfold frame_request in E2. injection E2 as Ec2 En2 Ef2 Ep2 Ei2. rewrite Et, En in Hspec.
  eapply HQ; [congruence|done|congruence|exact Hspec|done|congruence|congruence].
Qed.

Lemma refine_client_loop reqs n en h :
  Forall (sendable N) reqs -> (length reqs < n)%nat -> serving h ->
  w_in h = concat (Receive.encode_request <$> reqs) -> w_gone h = false ->
  WP (client_loop fuel (logger_init dir) dir n fd client) en h (fun _ _ h' => exists out,
    session dir base (w_nmax h) reqs (w_tree h) out (w_tree h') /\ w_out h' = w_out h ++ out).
Proof using N_roomy.
  revert n en h. induction reqs as [|items reqs IH]; intros [|n] en h Hreqs Hn Hsv Hin Hgone; simpl in Hn; try lia.
  - cbn [client_loop]. apply wpm_bind, wpm_call_posix. intros stop h0 [-> [->|?]]; [|done]. cbn iota. apply wpm_bind.
    wmono (apply wpm_read_eof; [done|destruct Hsv; unfold roomy, MAX_FILE_SIZE, Rle.MAX_FILE_SIZE in N_roomy; lia]).
    intros en1 r h1 [[E _] ->]. apply wpm_ret. unfold Receive.frame_in in E. injection E as Et _ _ _ _ Eo _.
    exists []. by rewrite app_nil_r.
  - apply Forall_cons in Hreqs as [Hok Hreqs].
    eapply refine_round; [exact Hok|done|exact Hin|]. intros en1 h2 r t Hin2 Hsv2 En Hspec Hlog Hout Hg.
    wmono (apply (IH n en1 h2 Hreqs); [lia|done|done|congruence]). intros en3 _ h3 (out & Hsess & Hout3).
    exists (encode r ++ out). rewrite En in Hsess. split; [by exists r, t, (w_tree h2), out|].
    by rewrite Hout3, Hout, app_assoc.
Qed.

End session.
End Requests.
