(* ===== verification/SrvClaims.v ===== *)
(** What a client of the file server can rely on: the refinement of
    [dispatch_command] and of whole sessions on every operating system that
    meets the POSIX contract, an in-memory system that meets it, the round trips
    clients use, the lines LOGS returns, and two surprises: COPYFILE of a file
    onto itself and empty items in a request. *)

From S2P Require Import Prelude Libc Rle SrvEvents SrvPath SrvTree SrvResp SrvLocks SrvFileOps SrvServer SrvDiscipline SrvPosix SrvRefine SrvReceive SrvRequests.
Import Libc Path Tree Resp Locks Logger FileOps Server Posix Refine Receive Requests.

(** * A system in memory *)

Module Memory.

Definition new_fd (t : gmap Z (loc * Z)) : Z := fresh (dom t : gset Z).

Lemma new_fd_fresh t : t !! new_fd t = None.
Proof. apply (not_elem_of_dom (D := gset Z)). unfold new_fd. apply is_fresh. Qed.

(** What is at a location, as a file. *)
Definition data_at (h : world) (l : loc) : bytes :=
  match w_tree h !! l with Some (File b) => b | _ => [] end.

(** Opening what a path names. *)
Definition opened (h : world) (p : bytes) : Z + loc :=
  match resolve h p with
  | inl e => inl e
  | inr l => match w_tree h !! l with None => inl ENOENT | Some _ => inr l end
  end.

Definition stat_of (b : bytes) : stat := mk_stat (len b) 0 0 0 0 0 0.

(** Calls fail only for the names of files and never stall; the clock and the
    lock registry are constant; streams are not buffered. *)
Definition os : handler world := fun e =>
  match e return world -> ans e * world with
  | EOpen p O_RDONLY => fun h =>
      match opened h p with
      | inl e => (inl e, h)
      | inr l => (inr (new_fd (w_fds h)), set_fds (<[new_fd (w_fds h) := (l, 0)]> (w_fds h)) h)
      end
  | EOpen p O_WRONLY_CREAT_TRUNC => fun h =>
      match usable h p with
      | None => (inl EISDIR, h)
      | Some l => (inr (new_fd (w_fds h)),
                   set_tree (put l [] (w_tree h)) (set_fds (<[new_fd (w_fds h) := (l, 0)]> (w_fds h)) h))
      end
  | EFstat f => fun h =>
      (inr (stat_of match w_fds h !! f with Some (l, _) => data_at h l | None => [] end), h)
  | ERead f n => fun h =>
      match w_fds h !! f with
      | None => (inr [], h)
      | Some (l, off) =>
          if is_dir (w_tree h !! l) then (inl EISDIR, h)
          else let bs := take (Z.to_nat n) (drop (Z.to_nat off) (data_at h l)) in
               (inr bs, set_fds (<[f := (l, off + len bs)]> (w_fds h)) h)
      end
  | EWrite f data => fun h =>
      match w_fds h !! f with
      | None => (inr 0, h)
      | Some (l, off) =>
          (inr (len data), set_tree (put l (splice (data_at h l) off data) (w_tree h))
                             (set_fds (<[f := (l, off + len data)]> (w_fds h)) h))
      end
  | EFsync _ => fun h => (inr tt, h)
  | EClose f => fun h => (inr tt, set_fds (delete f (w_fds h)) h)
  | EUnlink p => fun h =>
      match opened h p with
      | inl e => (inl e, h)
      | inr l => if is_dir (w_tree h !! l) then (inl EISDIR, h) else (inr tt, set_tree (delete l (w_tree h)) h)
      end
  | ERename s d => fun h =>
      match renamed h s d with
      | None => (inl ENOTDIR, h)
      | Some t => (inr tt, set_tree t h)
      end
  | EMkdir p => fun h =>
      match entry h p with
      | inl e => (inl ENOENT, h)
      | inr l => match w_tree h !! l with
                 | Some _ => (inl EEXIST, h)
                 | None => (inr tt, set_tree (<[l := Dir]> (w_tree h)) h)
                 end
      end
  | EStat p => fun h =>
      match opened h p with
      | inl e => (inl e, h)
      | inr l => (inr (stat_of (data_at h l)), h)
      end
  | EFopen p false => fun h =>
      match opened h p with
      | inl e => (inl e, h)
      | inr l => (inr (new_fd (w_fps h)), set_fps (<[new_fd (w_fps h) := (l, 0)]> (w_fps h)) h)
      end
  | EFopen p true => fun h =>
      match usable h p with
      | None => (inl EISDIR, h)
      | Some l => (inr (new_fd (w_fps h)),
                   set_tree (put l (data_at h l) (w_tree h)) (set_fps (<[new_fd (w_fps h) := (l, 0)]> (w_fps h)) h))
      end
  | EFseek fp off w => fun h =>
      match w_fps h !! fp with
      | None => (inr tt, h)
      | Some (l, _) => (inr tt, set_fps (<[fp := (l, seek_target (len (data_at h l)) off w)]> (w_fps h)) h)
      end
  | EFtell fp => fun h => (inr (match w_fps h !! fp with Some (_, pos) => pos | None => 0 end), h)
  | EFread fp n => fun h =>
      (match w_fps h !! fp with
       | Some (l, pos) => take (Z.to_nat n) (drop (Z.to_nat pos) (data_at h l))
       | None => []
       end, h)
  | EFprintf fp text => fun h =>
      match w_fps h !! fp with
      | None => (tt, h)
      | Some (l, _) => (tt, set_tree (put l (data_at h l ++ text) (w_tree h)) h)
      end
  | EFclose fp => fun h => (tt, set_fps (delete fp (w_fps h)) h)
  | EMalloc _ => fun h => (true, h)
  | EStrerror _ => fun h => (L"error", h)
  | ETimestamp => fun h => (L"now", h)
  | ERecv _ n => fun h => (inr (take (Z.to_nat n) (w_in h)), set_in (drop (Z.to_nat n) (w_in h)) h)
  | ESend _ data => fun h => (inr (len data), set_out (w_out h ++ data) h)
  | EMutexLock _ => fun h => (tt, h)
  | EMutexUnlock _ => fun h => (tt, h)
  | EGetMap => fun h => ([], h)
  | ERwInit => fun h => (true, h)
  | EPushEntry _ => fun h => (0, h)
  | ERdLock _ => fun h => (0, h)
  | EWrLock _ => fun h => (0, h)
  | EUnlock _ => fun h => (tt, h)
  | EStop => fun h => (false, h)
  end.

Lemma take_full (l : bytes) : take (Z.to_nat (len l)) l = l.
Proof. rewrite Nat2Z.id. by apply take_ge. Qed.

(** Opening fails for the reasons the contract gives. *)
Lemma opened_inl h p e : opened h p = inl e -> unnamed false e h p.
Proof.
  unfold opened, unnamed, named. destruct (resolve h p) as [e'|l].
  - intros [= ->]. destruct (Z.eqb_spec e ENOENT) as [->|]; [done|]. left. by exists e.
  - destruct (w_tree h !! l); [done|]. by intros [= <-].
Qed.

Lemma opened_inr h p l :
  opened h p = inr l -> exists n, resolve h p = inr l /\ w_tree h !! l = Some n /\ named h p = inr n.
Proof.
  unfold opened, named. destruct (resolve h p) as [e'|l']; [done|]. destruct (w_tree h !! l') as [n|] eqn:E; [|done].
  intros [= ->]. exists n. by rewrite E.
Qed.

Lemma is_dir_spec n : if is_dir n then n = Some Dir else n <> Some Dir.
Proof. unfold is_dir. by case_bool_decide. Qed.

Lemma data_at_file h l b : w_tree h !! l = Some (File b) -> data_at h l = b.
Proof. unfold data_at. by intros ->. Qed.

Lemma usable_data h p l :
  usable h p = Some l -> w_tree h !! l = Some (File (data_at h l)) \/ w_tree h !! l = None /\ data_at h l = [].
Proof.
  unfold usable, data_at. destruct (resolve h p) as [|l']; [done|]. pose proof (is_dir_spec (w_tree h !! l')) as Hd.
  destruct (is_dir (w_tree h !! l')); [done|]. intros [= ->]. destruct (w_tree h !! l) as [[]|]; [done|auto..].
Qed.

Lemma appends_same fp l pos b h : w_fps h !! fp = Some (l, pos) -> w_tree h !! l = Some (File b) -> appends fp h h.
Proof.
  intros Hf Hb. exists l, pos, b, []. split; [done|]. split; [done|]. rewrite app_nil_r, insert_id by done. by destruct h.
Qed.

(** The system meets the contract without faults: call by call. *)
Lemma os_open p fl h : post false (EOpen p fl) (os (EOpen p fl) h).1 h (os (EOpen p fl) h).2.
Proof.
  destruct fl; simpl.
  - destruct (opened h p) as [e|l] eqn:E; simpl; [split; [done|by apply opened_inl]|].
    apply opened_inr in E as (n & Hr & Hl & _). rewrite new_fd_fresh. split; [done|]. exists l. rewrite Hl. by eauto.
  - destruct (usable h p) as [l|] eqn:E; simpl; [|by auto]. rewrite new_fd_fresh. eauto.
Qed.

Lemma os_fopen p ap h : post false (EFopen p ap) (os (EFopen p ap) h).1 h (os (EFopen p ap) h).2.
Proof.
  destruct ap; simpl.
  - destruct (usable h p) as [l|] eqn:E; simpl; [|by auto]. rewrite new_fd_fresh.
    split; [done|]. exists l, (data_at h l). split; [done|]. split; [by eapply usable_data|done].
  - destruct (opened h p) as [e|l] eqn:E; simpl; [split; [done|by apply opened_inl]|].
    apply opened_inr in E as (n & Hr & Hl & _). rewrite new_fd_fresh. split; [done|]. exists l. rewrite Hl. by eauto.
Qed.

Lemma os_read f n h : pre (ERead f n) h -> post false (ERead f n) (os (ERead f n) h).1 h (os (ERead f n) h).2.
Proof.
  intros (Hn & l & off & nd & Hf & Hl & Hoff). simpl. rewrite Hf. pose proof (is_dir_spec (w_tree h !! l)) as Hd.
  destruct (is_dir (w_tree h !! l)); simpl; [right; split_and!; [done|done|by exists l, off]|].
  destruct nd as [|b]; [done|]. rewrite (data_at_file h l b Hl).
  exists l, off, b. split_and!; try done.
  - apply prefix_take.
  - rewrite length_take. lia.
  - intros E. apply (f_equal length) in E. rewrite length_take, length_drop in E. simpl in E. lia.
Qed.

Lemma os_write f data h : pre (EWrite f data) h -> post false (EWrite f data) (os (EWrite f data) h).1 h (os (EWrite f data) h).2.
Proof.
  intros (Hd & l & off & b & Hf & Hl). simpl. rewrite Hf. simpl. rewrite (data_at_file h l b Hl).
  exists l, off, b. split_and!; try (done || lia). rewrite take_full.
  destruct (Z.eqb_spec (len data) 0); [|done]. destruct data; [done|simpl in *; lia].
Qed.

Lemma os_names e h :
  match e with EUnlink _ | ERename _ _ | EMkdir _ | EStat _ => True | _ => False end ->
  post false e (os e h).1 h (os e h).2.
Proof.
  intros He. destruct e as [| | | | | |p|s d|p|p| | | | | | | | | | | | | | | | | | | |]; try done; simpl.
  - destruct (opened h p) as [e|l] eqn:E; simpl; [split; [done|left; by apply opened_inl]|].
    apply opened_inr in E as (n & Hr & Hl & Hn). pose proof (is_dir_spec (w_tree h !! l)) as Hd.
    destruct (is_dir (w_tree h !! l)); simpl; [split; [done|right; split; [done|congruence]]|].
    destruct n as [|b]; [done|]. by exists l, b.
  - destruct (renamed h s d) as [t|]; simpl; eauto.
  - destruct (entry h p) as [e|l] eqn:E; simpl; [by eauto|].
    destruct (w_tree h !! l) eqn:El; simpl; [|by eauto]. split; [done|]. exists l. by rewrite El.
  - destruct (opened h p) as [e|l] eqn:E; simpl; [split; [done|by apply opened_inl]|].
    apply opened_inr in E as (n & Hr & Hl & Hn). split; [done|]. exists n. split; [done|].
    intros b ->. by rewrite (data_at_file h l b Hl).
Qed.

Lemma os_streams e h :
  match e with EFseek _ _ _ | EFtell _ | EFread _ _ | EFprintf _ _ | EFclose _ => True | _ => False end ->
  pre e h -> post false e (os e h).1 h (os e h).2.
Proof.
  intros He Hpre. destruct e as [| | | | | | | | | | |fp off w|fp|fp n|fp x|fp| | | | | | | | | | | | | |]; try done; simpl in *.
  - destruct Hpre as (l & pos & b & Hf & Hl & Hw). rewrite Hf. simpl. rewrite (data_at_file h l b Hl).
    by exists l, pos, b.
  - destruct Hpre as (l & pos & b & Hf & Hl). rewrite Hf. split; [done|]. by exists l.
  - destruct Hpre as (l & pos & b & Hf & Hl). rewrite Hf, (data_at_file h l b Hl). exists l, pos, b. split_and!; auto.
  - destruct Hpre as (l & pos & b & Hf & Hl). rewrite Hf. simpl. rewrite (data_at_file h l b Hl). by exists l, pos, b, x.
  - destruct Hpre as (l & pos & b & Hf & Hl). exists h. split; [by eapply appends_same|done].
Qed.

Lemma os_conforms : conforms os (posix false) eq.
Proof.
  intros e h ? <- Hpre. exists (os e h).2. split; [|done]. unfold posix, c_post, c_pre in *.
  destruct e; try (by apply os_open); try (by apply os_fopen); try (by apply os_read); try (by apply os_write);
    try (by apply os_names); try (by apply os_streams); simpl in *; try done; try (by auto).
  - split; [done|]. intros l off b Hf Hl. rewrite Hf. simpl. by rewrite (data_at_file h l b Hl).
  - split; [done|]. split_and!; [by repeat constructor..|simpl; lia].
  - rewrite length_take. split; [lia|]. split.
    + intros E. apply (f_equal length) in E. rewrite length_take in E. destruct (w_in h); [done|simpl in *; lia].
    + eexists. by rewrite take_drop.
  - rewrite take_full. split; [lia|]. destruct (Z.eqb_spec (len data) 0); [|done].
    destruct data; [done|simpl in *; lia].
Qed.

End Memory.

Module Client.

(** The requests a client sends, by name. *)
Definition SET (p d : bytes) : list bytes := [L"SETFILE"; p; d].
Definition GET (p : bytes) : list bytes := [L"GETFILE"; p].
Definition COPY (s d : bytes) : list bytes := [L"COPYFILE"; s; d].
Definition COMPRESS (s d : bytes) : list bytes := [L"COMPRESS"; s; d].
Definition DECOMPRESS (s d : bytes) : list bytes := [L"DECOMPRESS"; s; d].

(** LOGS with a limit, or without one for the last 20 lines. *)
Definition LOGS (limit : Z) (items : list bytes) : Prop :=
  items = [L"LOGS"] /\ limit = 20 \/ exists a, items = [L"LOGS"; a] /\ int_value (c_str a) = Some limit.

(** [p] is a path a client may use: a C string that [path_build] accepts and
    that does not lead to the log. *)
Definition good_path (dir p : bytes) : Prop :=
  c_string p /\ is_Some (path_build dir p PATH_MAX) /\ not_log p.

(** Compared with [t], the file at [l] holds [x] and the directories on the way
    to it from the data directory are there; beyond that only the log differs,
    which may have grown. *)
Record filed (base : loc) (t : tree) (l : loc) (x : bytes) (t' : tree) : Prop := mk_filed {
  fl_file : t' !! l = Some (File x);
  fl_dirs : forall k, base `prefix_of` k -> k `prefix_of` l -> k <> l -> t' !! k = Some Dir;
  fl_rest : forall k, k <> log_loc base -> ~ (base `prefix_of` k /\ k `prefix_of` l) -> t' !! k = t !! k;
  fl_log : forall c, t !! log_loc base = Some (File c) -> exists y, t' !! log_loc base = Some (File (c ++ y));
}.

(** Storing at one of the locations does not get into the way of the other. *)
Definition apart (k l : loc) : Prop := k `prefix_of` l \/ l `prefix_of` k -> k = l.

Section client.
Context {W : Type} (os : handler W) (R : W -> world -> Prop).
Context (dir : bytes) (base : loc) (client : bytes) (fuel : nat) (N fd : Z).

(** A client has sent [reqs] on a new connection to a server that can take
    requests. *)
Record connected (reqs : list (list bytes)) (w : W) (h : world) : Prop := mk_connected {
  cn_in : w_in h = concat (encode_request <$> reqs);
  cn_there : w_gone h = false;
  cn_serving : serving fuel N dir base h;
  cn_world : R w h;
}.

(** The server answers [out], leaves the files [t'] and ends the connection. *)
Definition served (en : Z) (w : W) (h : world) (P : bytes -> tree -> Prop) : Prop :=
  exists en' w' h' out, run os (client_thread fuel (logger_init dir) dir fd client en) w = Done (en', tt) w' /\
    R w' h' /\ w_out h' = w_out h ++ out /\ P out (w_tree h').

Hypothesis os_ok : conforms os (posix false) R.
Hypothesis N_roomy : roomy N.

Lemma serves_session reqs en w h :
  Forall (sendable N) reqs -> len reqs <= 2 ^ 20 -> connected reqs w h ->
  served en w h (fun out t' => session dir base (w_nmax h) reqs (w_tree h) out t').
Proof using N_roomy os_ok.
  intros Hreqs Hlen [Hin Hgone Hsv HR].
  assert (2 ^ 20 < Z.of_nat fuel).
  { destruct Hsv. unfold roomy, MAX_FILE_SIZE, Rle.MAX_FILE_SIZE in N_roomy. lia. }
  destruct (wpm_run os (posix false) R (client_thread fuel (logger_init dir) dir fd client) en w h
    (fun _ _ h' => exists out, session dir base (w_nmax h) reqs (w_tree h) out (w_tree h') /\
                               w_out h' = w_out h ++ out)) as (en' & [] & w' & h' & Hrun & HR' & out & Hs & Ho);
    [done|done| |by exists en', w', h', out].
  apply wpm_bind. wmono (apply (refine_client_loop dir base client fuel N fd); [done|done|lia|done..]).
  intros en1 _ h1 (out & Hs & Ho). apply wpm_bind, wpm_sys_posix. intros [e|[]] h2 [-> ?]; cbn [id];
    apply wpm_ret; by exists out.
Qed.

Lemma served_mono (en : Z) (w : W) (h : world) (P Q : bytes -> tree -> Prop) :
  (forall out t', P out t' -> Q out t') -> served en w h P -> served en w h Q.
Proof.
  intros HPQ (en' & w' & h' & out & ? & ? & ? & ?). exists en', w', h', out. auto.
Qed.

(** * What can be sent *)

Lemma c_str_whole p : c_string p -> c_str p = p.
Proof. intros. by apply c_str_id, c_string_no_nul. Qed.

(** An item of a request. *)
Definition sendable_item (b : bytes) : Prop := 0 < len b <= Z.min N INT_MAX /\ Forall is_byte b.

Lemma sendable_path p : good_path dir p -> sendable_item p.
Proof using N_roomy.
  intros (Hp & (full & (Hsafe & -> & Hl)%path_build_Some) & _); [|unfold PATH_MAX, INT_MAX; lia].
  apply is_path_safe_spec in Hsafe as [Hne _]. split.
  - rewrite !length_app in Hl. unfold roomy, MAX_FILE_SIZE, Rle.MAX_FILE_SIZE, PATH_MAX, INT_MAX in *.
    destruct p; [done|]. simpl in *. lia.
  - eapply Forall_impl; [exact Hp|]. unfold is_byte. simpl. lia.
Qed.

Lemma sendable_name c : 0 < len c <= 20 -> Forall is_byte c -> sendable_item c.
Proof using N_roomy.
  intros. split; [|done]. unfold roomy, MAX_FILE_SIZE, Rle.MAX_FILE_SIZE, INT_MAX in *. lia.
Qed.

Lemma good_not_log p : good_path dir p -> not_log (c_str p).
Proof. intros (Hp & _ & Hn). by rewrite c_str_whole. Qed.

Local Ltac name := apply sendable_name; [simpl; lia|apply (bool_decide_unpack _); by vm_compute].

(** No command of this name: the condition on its paths holds. *)
Local Ltac other := repeat match goal with
  | |- (_ \/ _) -> _ => intros [H|H]; revert H
  | |- _ = true -> _ => intros H; vm_compute in H; discriminate H
  end.

Lemma sendable_SET p d : good_path dir p -> sendable_item d -> sendable N (SET p d).
Proof using N_roomy.
  intros Hp Hd. split; [simpl; lia|]. split.
  - repeat apply Forall_cons_2; [name|by apply sendable_path|done|constructor].
  - split; [by intros; apply good_not_log|]. split; [other|split; other].
Qed.

Lemma sendable_GET p : good_path dir p -> sendable N (GET p).
Proof using N_roomy.
  intros Hp. split; [simpl; lia|]. split.
  - repeat apply Forall_cons_2; [name|by apply sendable_path|constructor].
  - split; [by intros; apply good_not_log|]. split; [other|split; other].
Qed.

Lemma sendable_two c s d :
  c = L"COPYFILE" \/ c = L"COMPRESS" \/ c = L"DECOMPRESS" ->
  good_path dir s -> good_path dir d -> sendable N [c; s; d].
Proof using N_roomy.
  intros Hc Hs Hd. split; [simpl; lia|]. split.
  - repeat apply Forall_cons_2; [destruct Hc as [Hc|[Hc|Hc]]; subst c; name|by apply sendable_path..|constructor].
  - split; [by intros; apply good_not_log|]. by split; [intros; apply good_not_log|].
Qed.

Lemma sendable_LOGS limit items : LOGS limit items -> Forall sendable_item items -> sendable N items.
Proof.
  intros Hl Hi. destruct Hl as [[-> _]|(a & -> & _)]; (split; [simpl; lia|]; split; [done|]); (split; [other|split; [other|split; other]]).
Qed.

(** * What the specification says of the requests *)

Section requests.
Context (nmax : Z) (t : tree).
Hypothesis t_base : t !! base = Some Dir.

Notation find_path p := (find nmax t base (components p)).
Notation can_store p := (storable nmax t base (components p)).
Notation spec_req items := (spec_request false dir base nmax (mk_array (len items) items)).

Lemma good_no_up p : good_path dir p -> no_up (components p).
Proof. intros (_ & [full Hf] & _). by eapply no_up_rel. Qed.

Lemma stored_filed p x t' :
  good_path dir p -> can_store p -> stored nmax base t p x t' -> filed base t (at_path base p) x t'.
Proof using t_base.
  intros Hp Hst (t1 & l & Hs & ->). pose proof (good_no_up p Hp) as Hu.
  destruct (store_storable nmax t base (components p) Hu (components_aux_ne _ _) t_base Hst) as (t2 & Hs2 & Hg & Hb & Hd).
  rewrite Hs in Hs2. injection Hs2 as -> ->. fold (at_path base p) in *. constructor.
  - apply lookup_insert_eq.
  - intros k H1 H2 H3. rewrite lookup_insert_ne by done. by apply Hd.
  - intros k _ Hk. rewrite lookup_insert_ne.
    + destruct (decide (base `prefix_of` k)); [|by apply Hb]. destruct (Hg k) as [?|(_ & _ & ?)]; [done|].
      exfalso. by apply Hk.
    + intros <-. apply Hk. split; [by apply prefix_app_r|done].
  - intros c Hc. exists []. rewrite app_nil_r, lookup_insert_ne.
    + destruct (Hg (log_loc base)) as [?|(? & _)]; congruence.
    + intros E. destruct Hp as (_ & _ & Hp). apply (log_at base p); [by rewrite E|done].
Qed.

Lemma can_store_not p t' : good_path dir p -> can_store p -> ~ not_stored nmax base t p t'.
Proof using t_base.
  intros Hp Hst Hn. pose proof (good_no_up p Hp) as Hu. unfold not_stored in Hn.
  destruct (store_storable nmax t base (components p) Hu (components_aux_ne _ _) t_base Hst) as (t2 & Hs2 & _). congruence.
Qed.

Lemma spec_SET p d r t' :
  good_path dir p -> can_store p -> spec_req (SET p d) t r t' -> r = OK /\ filed base t (at_path base p) d t'.
Proof using t_base.
  intros Hp Hst Hs. change (spec_path false nmax base dir (c_str p) (fun q => CSet q d) t r t') in Hs.
  rewrite c_str_whole in Hs by apply Hp. unfold spec_path in Hs. assert (Hp' := Hp). destruct Hp' as (_ & [full Hf] & _). rewrite Hf in Hs.
  destruct r; try done; simpl in Hs.
  - destruct Hs as [-> Hs]. split; [done|]. by apply stored_filed.
  - destruct Hs as [Hs|[? _]]; [|done]. by apply can_store_not in Hs.
Qed.

Lemma contents_file p b b' : find_path p = inr (File b) -> contents nmax base t p b' -> b' = b.
Proof. intros Hf (n & Hn & [->|[-> _]] & _); congruence. Qed.

Lemma file_readable p b : find_path p = inr (File b) -> len b <= MAX_FILE_SIZE -> ~ unreadable nmax base t p.
Proof. intros Hf Hl [(e & He & _)|[He|(b' & Hb' & ?)]]; [congruence..|]. assert (b' = b) by congruence. subst. lia. Qed.

Lemma spec_GET p b r t' :
  good_path dir p -> find_path p = inr (File b) -> len b <= MAX_FILE_SIZE -> spec_req (GET p) t r t' ->
  r = RBulk b /\ t' = t.
Proof.
  intros (Hp & [full Hb] & _) Hf Hl Hs. change (spec_path false nmax base dir (c_str p) CGet t r t') in Hs.
  rewrite c_str_whole in Hs by done. unfold spec_path in Hs. rewrite Hb in Hs.
  destruct r; try done; simpl in Hs.
  - destruct Hs as [[?|?] _]; [|done]. by eapply file_readable in Hf.
  - destruct Hs as [Hc ->]. by rewrite (contents_file p b _ Hf Hc).
  - destruct Hs as [E _]. congruence.
Qed.

Lemma spec_two_paths s d c r t' :
  good_path dir s -> good_path dir d ->
  spec_two false nmax base dir (c_str s) (c_str d) c t r t' -> spec false nmax base (c s d) t r t'.
Proof.
  intros (Hs & [ps Hbs] & _) (Hd & [pd Hbd] & _). rewrite !c_str_whole by done.
  unfold spec_two, build_two. by rewrite Hbs, Hbd.
Qed.

(** Source and destination are one file. *)
Lemma spec_COPY s d l b r t' :
  good_path dir s -> good_path dir d -> walk nmax t base (components s) = inr l ->
  walk nmax t base (components d) = inr l -> t !! l = Some (File b) ->
  spec_req (COPY s d) t r t' -> r = OK /\ t' !! l = Some (File []).
Proof.
  intros Hs Hd Hws Hwd Hb Hsp. change (spec_two false nmax base dir (c_str s) (c_str d) CCopy t r t') in Hsp.
  eapply spec_two_paths in Hsp; [|done..].
  pose proof (store_existing nmax t base _ (components_aux_ne _ _) l b Hwd Hb) as Hst.
  assert (find nmax t base (components s) = inr (File b)) as Hf by (unfold find; by rewrite Hws, Hb).
  destruct r; try done; simpl in Hsp.
  - destruct Hsp as (-> & ls & b' & t1 & l' & Hw' & Hb' & Hst' & ->). split; [done|].
    assert (l' = l) as -> by (unfold components in *; congruence). assert (ls = l) as -> by congruence.
    rewrite bool_decide_eq_true_2 by done. apply lookup_insert_eq.
  - unfold not_stored, components in *. destruct Hsp as [[[e He] _]|[[_ Hn]|[[He _]|[[? _]|[? _]]]]]; congruence.
Qed.

Lemma spec_COMPRESS s d b r t' :
  good_path dir s -> good_path dir d -> find_path s = inr (File b) -> len b <= MAX_FILE_SIZE -> can_store d ->
  spec_req (COMPRESS s d) t r t' ->
  r = OK /\ exists o, Rle.rle_enc b o /\ filed base t (at_path base d) (Rle.header ++ o) t'.
Proof using t_base.
  intros Hs Hd Hf Hl Hst Hsp. change (spec_two false nmax base dir (c_str s) (c_str d) CCompress t r t') in Hsp.
  eapply spec_two_paths in Hsp; [|done..]. destruct r; try done; simpl in Hsp.
  - destruct Hsp as (-> & b' & o & Hc & Ho & Hp). rewrite (contents_file s b b' Hf Hc) in Ho.
    split; [done|]. exists o. split; [done|]. by apply stored_filed.
  - destruct Hsp as [[[E|[?|?]] _]|[[_ ?]|[? _]]]; try congruence; [by eapply file_readable in Hf|by exfalso; eapply can_store_not].
Qed.

Lemma spec_DECOMPRESS s d b x r t' :
  good_path dir s -> good_path dir d -> find_path s = inr (File b) -> len b <= MAX_FILE_SIZE -> can_store d ->
  Rle.decode (fun _ => true) b = Rle.CBuf x ->
  spec_req (DECOMPRESS s d) t r t' -> r = OK /\ filed base t (at_path base d) x t'.
Proof using t_base.
  intros Hs Hd Hf Hl Hst Hx Hsp. change (spec_two false nmax base dir (c_str s) (c_str d) CDecompress t r t') in Hsp.
  eapply spec_two_paths in Hsp; [|done..]. destruct r; try done; simpl in Hsp.
  - destruct Hsp as (-> & b' & x' & Hc & Hx' & Hp). rewrite (contents_file s b b' Hf Hc) in Hx'.
    rewrite Hx in Hx'. injection Hx' as <-. split; [done|]. by apply stored_filed.
  - destruct Hsp as [[[E|[?|[?|(b' & e & Hc & He)]]] _]|[[_ ?]|[? _]]]; try congruence.
    + by eapply file_readable in Hf.
    + rewrite (contents_file s b b' Hf Hc) in He. congruence.
    + by exfalso; eapply can_store_not.
Qed.

Lemma spec_LOGS limit items r t' :
  LOGS limit items -> 0 <= limit -> spec_req items t r t' -> spec_logs false base limit t r t'.
Proof.
  intros [[-> ->]|(a & -> & Ha)] Hl Hs; [exact Hs|].
  change (match int_value (c_str a) with
          | Some limit => if limit <? 0 then only (RError (L"LOGS limit must be non-negative integer")) else spec_logs false base limit
          | None => only (RError (L"LOGS limit must be non-negative integer"))
          end t r t') in Hs. rewrite Ha in Hs. destruct (Z.ltb_spec limit 0); [lia|done].
Qed.

End requests.
End client.

(** * Files that were stored *)

Section filed.
Context (dir : bytes) (base : loc) (nmax : Z) (t t1 : tree) (p x : bytes).
Hypothesis p_good : good_path dir p.
Hypothesis p_filed : filed base t (at_path base p) x t1.

Lemma filed_logged t2 : logged base t1 t2 -> filed base t (at_path base p) x t2.
Proof using p_good p_filed.
  intros Hl. destruct p_good as (_ & _ & Hn). destruct p_filed as [Hf Hd Hr Hc].
  pose proof (fun k => logged_other base t1 t2 k Hl) as Ho. constructor.
  - rewrite Ho; [done|]. intros E. apply (log_at base p); [by rewrite E|done].
  - intros k H1 H2 H3. rewrite Ho; [by apply Hd|]. intros ->. by apply (log_at base p).
  - intros k Hk Hb. rewrite Ho by done. by apply Hr.
  - intros c Hlc. destruct (Hc c Hlc) as [y Hy]. destruct Hl as [->|(b & z & Hb & ->)]; [by exists y|].
    rewrite lookup_insert_eq, Hy in *. destruct Hb as [[= <-]|[? _]]; [|done]. exists (y ++ z). by rewrite app_assoc.
Qed.

Hypothesis p_storable : storable nmax t base (components p).

Lemma filed_base : t !! base = Some Dir -> t1 !! base = Some Dir.
Proof using p_filed p_storable.
  intros Hb. apply (fl_dirs _ _ _ _ _ p_filed); [done|by apply prefix_app_r|].
  intros E. apply (st_file _ _ _ _ p_storable). fold (at_path base p). by rewrite <- E.
Qed.

Lemma filed_find : find nmax t1 base (components p) = inr (File x).
Proof using p_filed p_storable p_good.
  unfold find. rewrite walk_storable.
  - fold (at_path base p). by rewrite (fl_file _ _ _ _ _ p_filed).
  - by eapply good_no_up.
  - apply components_aux_ne.
  - apply p_storable.
  - apply p_storable.
  - apply (fl_dirs _ _ _ _ _ p_filed).
Qed.

(** Another file can still be stored. *)
Lemma filed_storable q :
  not_log q -> apart (at_path base p) (at_path base q) -> storable nmax t base (components q) ->
  storable nmax t1 base (components q).
Proof using p_filed.
  intros Hn Ha [H1 H2 H3 H4]. destruct p_filed as [Hf Hd Hr _]. fold (at_path base q) in *.
  assert (forall k, k `prefix_of` at_path base q -> k <> log_loc base) as Hlog.
  { intros k Hk ->. by apply (log_at base q). }
  constructor; [done|done|..]; fold (at_path base q).
  - intros k Hbk Hkq Hne. destruct (decide (k `prefix_of` at_path base p)) as [Hkp|Hkp].
    + right. apply Hd; [done|done|]. intros ->. apply Hne, Ha. by left.
    + rewrite Hr; [by apply H3|by apply Hlog|tauto].
  - destruct (decide (at_path base q `prefix_of` at_path base p)) as [Hqp|Hqp].
    + rewrite <- (Ha (or_intror Hqp)). by rewrite Hf.
    + rewrite Hr; [done|by apply Hlog|tauto].
Qed.
End filed.

(** * The lines LOGS returns *)

Definition newlines (l : bytes) : nat := length (filter (fun c => c = LF) l).

Lemma newlines_drop (data : bytes) i c :
  data !! i = Some c -> newlines (drop i data) = ((if decide (c = LF) then 1 else 0) + newlines (drop (S i) data))%nat.
Proof.
  intros Hc. unfold newlines. rewrite (drop_S data c i Hc), filter_cons. by destruct (decide (c = LF)).
Qed.

Lemma tail_start_spec (data : bytes) limit i seen :
  (i <= length data)%nat -> 0 < limit -> Z.of_nat (newlines (drop i data)) = seen -> seen <= limit ->
  let s := tail_start data limit i seen in
  (s <= i)%nat /\ Z.of_nat (newlines (drop s data)) <= limit /\
  (s = 0%nat \/ data !! (s - 1)%nat = Some LF /\ Z.of_nat (newlines (drop s data)) = limit).
Proof.
  intros Hi Hlim. revert seen. induction i as [|i IH]; intros seen Hs Hle; simpl.
  { split; [lia|]. split; [lia|]. by left. }
  destruct (lookup_lt_is_Some_2 data i) as [c Hc]; [lia|]. pose proof (newlines_drop data i c Hc) as Hn.
  rewrite Hc. case_bool_decide as E.
  - injection E as ->. rewrite decide_True in Hn by done. destruct (Z.ltb_spec limit (seen + 1)).
    + split; [lia|]. split; [lia|]. right. simpl. rewrite Nat.sub_0_r. split; [done|lia].
    + destruct (IH ltac:(lia) (seen + 1)) as (? & ? & ?); [lia..|]. split; [lia|]. by split.
  - rewrite decide_False in Hn by congruence.
    destruct (IH ltac:(lia) seen) as (? & ? & ?); [lia..|]. split; [lia|]. by split.
Qed.

(** [m] is the end of [data] that LOGS returns: all of it without a limit,
    otherwise the longest end with at most [limit] newlines that starts a line,
    where the beginning of [data] counts as the start of one. *)
Definition last_part (limit : Z) (data m : bytes) : Prop :=
  exists before, data = before ++ m /\
    (limit = 0 -> before = []) /\
    (0 < limit -> Z.of_nat (newlines m) <= limit /\
       (before = [] \/ exists before', before = before' ++ [LF] /\ Z.of_nat (newlines m) = limit)).

Lemma last_lines_part limit data : 0 <= limit -> last_part limit data (last_lines limit data).
Proof.
  intros Hlim. unfold last_part, last_lines. destruct (Z.leb_spec limit 0); [exists []; split_and!; [done|done|lia]|].
  destruct (tail_start_spec data limit (length data) 0) as (Hs & Hle & Hor); [lia|done| |lia|].
  { by rewrite drop_all. }
  set (s := tail_start data limit (length data) 0) in *. exists (take s data).
  rewrite take_drop. split_and!; [done|lia|]. intros _. split; [done|]. destruct Hor as [->|[Hlf Heq]]; [by left|].
  destruct (decide (s = 0%nat)) as [->|Hs0]; [by left|]. right. exists (take (s - 1) data). split; [|done].
  rewrite <- (take_S_r _ _ _ Hlf). f_equal. lia.
Qed.

Lemma last_mb_cut c : exists cut, c = cut ++ last_mb c /\ len (last_mb c) = Z.min LOG_TAIL_MAX (len c).
Proof.
  unfold last_mb. exists (take (length c - Z.to_nat LOG_TAIL_MAX) c). rewrite take_drop. split; [done|].
  rewrite length_drop. unfold LOG_TAIL_MAX. lia.
Qed.

Lemma decode_encoded b o :
  Forall is_byte b -> len b <= MAX_FILE_SIZE -> Rle.rle_enc b o ->
  Rle.decode (fun _ => true) (Rle.header ++ o) = Rle.CBuf b.
Proof.
  intros Hb Hl Ho. rewrite <- Rle.rle_decompress_decode.
  - by rewrite (Rle.rle_decompress_encoded _ b).
  - apply Forall_app. split; [by_decide|by eapply Rle.rle_enc_bytes].
Qed.

(** * An example *)

(** The in-memory system with [files], a data directory and a client that has
    sent [input]. *)
Definition memory (files : tree) (input : bytes) : world :=
  mk_world (<[[] := Dir]> (<[[L"data"] := Dir]> files)) [] 255 ∅ ∅ input [] false 0.

Definition data_loc : loc := [L"data"].

(** A file or directory at [data/<name>]. *)
Definition entry_at (name : bytes) (n : node) : tree := {[ [L"data"; name] := n ]}.

(** Values for the witnesses: room for every request, and the fuel it takes. *)
Definition room : Z := 2 * MAX_FILE_SIZE + 8.
Definition room_fuel : nat := Z.to_nat (256 * room + 16384).

Lemma room_roomy : roomy room.
Proof. unfold roomy, room, MAX_FILE_SIZE, Rle.MAX_FILE_SIZE. lia. Qed.

Lemma serving_memory files input :
  map_Forall (fun _ n => match n with File b => small room b | Dir => True end) files ->
  files !! log_loc data_loc <> Some Dir ->
  serving room_fuel room (L"data") data_loc (memory files input).
Proof.
  intros Hs Hlog. split.
  - constructor; try done; try by_decide; simpl w_tree.
    + change (components (L"data")) with [L"data"]. change (start (memory files input) (L"data")) with (@nil bytes).
      cbn [walk]. unfold step. by rewrite lookup_insert_eq.
    + by rewrite lookup_insert_ne, lookup_insert_eq.
    + by rewrite !lookup_insert_ne.
  - intros k b Hk Hl Hkb. simpl in Hkb.
    destruct (decide (k = [])) as [->|]; [by rewrite lookup_insert_eq in Hkb|rewrite lookup_insert_ne in Hkb by done].
    destruct (decide (k = [L"data"])) as [->|]; [by rewrite lookup_insert_eq in Hkb|rewrite lookup_insert_ne in Hkb by done].
    exact (Hs _ _ Hkb).
  - split; apply map_Forall_empty.
  - unfold room_fuel, room, MAX_FILE_SIZE, Rle.MAX_FILE_SIZE. simpl w_budget. lia.
Qed.

Lemma serving_entry name b input :
  small room b -> serving room_fuel room (L"data") data_loc (memory (entry_at name (File b)) input).
Proof.
  intros Hb. apply serving_memory; [by apply map_Forall_singleton|].
  unfold entry_at. intros [_ ?]%lookup_singleton_Some. done.
Qed.

Lemma good_abc : good_path (L"data") (L"a") /\ good_path (L"data") (L"b") /\ good_path (L"data") (L"d/c").
Proof. repeat split; first [by_decide | by eexists; vm_compute | discriminate]. Qed.

Lemma small_text : small room (L"xxyzzz").
Proof. unfold room, MAX_FILE_SIZE, Rle.MAX_FILE_SIZE. split; [vm_compute; discriminate|by_decide]. Qed.

(** * Claims *)

(** C1: On every operating system that meets the POSIX contract (a tree of
    directories and files without links that no other process changes), with or
    without faults, [dispatch_command] terminates on every well-formed request
    that does not name the log, sends exactly one reply (unless the client is
    gone), and the reply and the new tree are among those the specification of
    the request allows, the log apart, which may have grown; descriptors,
    streams and the rest of the client's input are as before. *)
Theorem dispatch_refines {W} (os : handler W) (R : W -> world -> Prop) faulty fuel N dir base client fd req en w h :
  conforms os (posix faulty) R -> R w h ->
  LOG_TAIL_MAX <= N < 2 ^ 63 -> serving fuel N dir base h -> request_ok N req ->
  exists en' r w' h', run os (dispatch_command fuel (logger_init dir) dir fd client req en) w = Done (en', r) w' /\
    R w' h' /\ answers faulty base (spec_request faulty dir base (w_nmax h) req) h h'.
Proof.
  intros Hos HR HN Hsv Hreq. eapply (wpm_run os (posix faulty) R); [done|exact HR|].
  by apply refine_dispatch with N.
Qed.

Lemma dispatch_refines_witness :
  let h := memory (entry_at (L"a") (File (L"xxyzzz"))) [] in
  exists en' r w' h',
    run Memory.os (dispatch_command room_fuel (logger_init (L"data")) (L"data") 4 (L"c")
                     (mk_array 2 (GET (L"./a"))) 0) h = Done (en', r) w' /\
    w' = h' /\ answers false data_loc (spec_request false (L"data") data_loc (w_nmax h) (mk_array 2 (GET (L"./a")))) h h'.
Proof.
  apply (dispatch_refines Memory.os eq _ _ room).
  - apply Memory.os_conforms.
  - reflexivity.
  - unfold LOG_TAIL_MAX, room, MAX_FILE_SIZE, Rle.MAX_FILE_SIZE. lia.
  - apply serving_entry, small_text.
  - split; [split; [simpl; lia|split; [done|by_decide]]|]. split; [by_decide|].
    split; [intros _; vm_compute; discriminate|].
    split; [intros [H|[H|[H|H]]]; vm_compute in H; discriminate H|].
    split; intros H; vm_compute in H; discriminate H.
Defined.

(** C11: A client that sends up to 2^20 readable requests, none of which names the
    log, to a server without faults is served to the end: [client_thread]
    terminates, and the output is the concatenation of one reply per request, in
    order, each allowed by the specification on the files the requests before it
    left; between requests the log may grow. *)
Theorem session_refines {W} (os : handler W) (R : W -> world -> Prop) dir base client fuel N fd reqs en w h :
  conforms os (posix false) R -> roomy N ->
  Forall (sendable N) reqs -> len reqs <= 2 ^ 20 -> connected R dir base fuel N reqs w h ->
  served os R dir client fuel fd en w h (fun out t' => session dir base (w_nmax h) reqs (w_tree h) out t').
Proof. intros. by eapply serves_session. Qed.

(** A connection to the in-memory system that holds one file. *)
Lemma connected_entry reqs name b :
  small room b ->
  let h := memory (entry_at name (File b)) (concat (encode_request <$> reqs)) in
  connected eq (L"data") data_loc room_fuel room reqs h h.
Proof. intros Hb h. constructor; [done|done|by apply serving_entry|done]. Qed.

Lemma session_refines_witness :
  let reqs := [SET (L"d/c") (L"hello"); GET (L"d//c")] in
  let h := memory (entry_at (L"a") (File (L"xxyzzz"))) (concat (encode_request <$> reqs)) in
  served Memory.os eq (L"data") (L"c") room_fuel 4 0 h h
    (fun out t' => session (L"data") data_loc 255 reqs (w_tree h) out t').
Proof.
  apply session_refines with (N := room).
  - apply Memory.os_conforms.
  - apply room_roomy.
  - constructor; [|constructor; [|constructor]].
    + eapply sendable_SET; [apply room_roomy|apply good_abc|]. apply sendable_name; [apply room_roomy|simpl; lia|by_decide].
    + eapply (sendable_GET (L"data")); [apply room_roomy|]. repeat split; first [by_decide | by eexists; vm_compute | discriminate].
  - simpl. lia.
  - apply connected_entry, small_text.
Defined.


(** The path [d/c] is free in the example. *)
Lemma storable_dc b input :
  let h := memory (entry_at (L"a") (File b)) input in storable (w_nmax h) (w_tree h) data_loc (components (L"d/c")).
Proof.
  intros h. constructor; [by_decide|by intros c [= <-] [?|?]|..].
  - change (data_loc ++ names (components (L"d/c"))) with [L"data"; L"d"; L"c"].
    intros k H1 [x E] Hne. destruct H1 as [y ->]. destruct y as [|y1 [|y2 y]]; [by right| |].
    + injection E as <- _. by left.
    + injection E as <- <- E. symmetry in E. by apply app_eq_nil in E as [-> ->].
  - done.
Qed.



(** In the example, [data/b] is free, too. *)
Lemma storable_b b input :
  let h := memory (entry_at (L"a") (File b)) input in storable (w_nmax h) (w_tree h) data_loc (components (L"b")).
Proof.
  intros h. constructor; [by_decide|by intros c [= <-] [?|?]|..].
  - change (data_loc ++ names (components (L"b"))) with [L"data"; L"b"].
    intros k H1 [x E] Hne. destruct H1 as [y ->]. destruct y as [|y1 y]; [by right|].
    injection E as <- E. symmetry in E. by apply app_eq_nil in E as [-> ->].
  - done.
Qed.


(** C25: COPYFILE of a file onto itself, under the same or another spelling of
    its path, destroys it: the request is answered OK and leaves the file empty,
    because the destination is truncated before the source is read. *)
Theorem copy_onto_itself {W} (os : handler W) (R : W -> world -> Prop) dir base client fuel N fd s d l b en w h :
  conforms os (posix false) R -> roomy N -> good_path dir s -> good_path dir d ->
  walk (w_nmax h) (w_tree h) base (components s) = inr l -> walk (w_nmax h) (w_tree h) base (components d) = inr l ->
  w_tree h !! l = Some (File b) ->
  connected R dir base fuel N [COPY s d] w h ->
  served os R dir client fuel fd en w h (fun out t' => out = encode OK /\ t' !! l = Some (File [])).
Proof.
  intros Hos HN Hs Hd Hws Hwd Hb Hcon.
  eapply served_mono; [|eapply serves_session; [done|done| | |exact Hcon]; [|simpl; lia]].
  - intros out t' (r1 & t1 & t2 & o1 & H1 & L1 & -> & -> & ->).
    destruct (spec_COPY dir base _ _ s d l b _ _ Hs Hd Hws Hwd Hb H1) as [-> Ht]. rewrite app_nil_r. split; [done|].
    rewrite (logged_other _ _ _ _ L1); [done|]. intros ->. assert (no_up (components s)) as Hu by (by eapply good_no_up).
    apply walk_loc in Hws; [|done]. destruct Hs as (_ & _ & Hn). apply (log_at base s); [|done]. unfold at_path. by rewrite Hws.
  - constructor; [|constructor]. eapply sendable_two; eauto.
Qed.

Lemma copy_onto_itself_witness :
  let reqs := [COPY (L"a") (L"./a")] in
  let h := memory (entry_at (L"a") (File (L"xxyzzz"))) (concat (encode_request <$> reqs)) in
  served Memory.os eq (L"data") (L"c") room_fuel 4 0 h h
    (fun out t' => out = encode OK /\ t' !! [L"data"; L"a"] = Some (File [])).
Proof.
  apply copy_onto_itself with (N := room) (base := data_loc) (s := L"a") (d := L"./a") (b := L"xxyzzz").
  - apply Memory.os_conforms.
  - apply room_roomy.
  - apply good_abc.
  - repeat split; first [by_decide | by eexists; vm_compute | discriminate].
  - reflexivity.
  - reflexivity.
  - reflexivity.
  - apply connected_entry, small_text.
Defined.





(** C26: An item of length zero is refused: a request that contains one is not
    read at all, so that the connection ends and, for instance, no client can
    store an empty file. *)
Theorem empty_item_refused {W} (os : handler W) (R : W -> world -> Prop) faulty fuel fd n items rest en w h :
  conforms os (posix faulty) R -> R w h ->
  len items < n <= 128 -> 1 + Z.of_nat (w_budget h) <= Z.of_nat fuel -> Forall (item_ok fuel h) items ->
  w_in h = enc_count n ++ enc_items items ++ enc_item [] ++ rest ->
  exists en' w' h', run os (resp_read_array fuel fd en) w = Done (en', None) w' /\ R w' h'.
Proof.
  intros Hos HR Hn Hf Hitems Hin.
  destruct (wpm_run os (posix faulty) R (resp_read_array fuel fd) en w h _ Hos HR
    (wpm_empty_item faulty fuel fd n items rest en h Hn Hf Hitems Hin))
    as (en' & r & w' & h' & Hrun & HR' & _ & ->).
  by exists en', w', h'.
Qed.

Lemma empty_item_refused_witness :
  exists en' w' h', run Memory.os (resp_read_array 20 4 0) (memory ∅ (encode_request (SET (L"a") []))) =
    Done (en', None) w' /\ w' = h'.
Proof.
  apply (empty_item_refused Memory.os eq false 20 4 3 [L"SETFILE"; L"a"] [] 0 _
           (memory ∅ (encode_request (SET (L"a") [])))).
  - apply Memory.os_conforms.
  - reflexivity.
  - simpl. lia.
  - simpl. lia.
  - repeat constructor; vm_compute; discriminate.
  - reflexivity.
Defined.

End Client.
