(* ===== verification/XvMem.v ===== *)
(** Byte-addressed memory for the xv6 code: loads and stores that fault outside
    mapped memory, the effect monad of code that only touches memory, and the
    lemmas on blocks of bytes that the string routines, the page tables and the
    copy routines share. *)

From S2P Require Import Prelude.

(** Mapped bytes by address. *)
Notation mem := (gmap Z Z).

(** How code on memory ends: with a value, with an access to an unmapped
    address, or with its fuel spent. *)
Inductive out (A : Type) :=
  | Val (a : A) (m : mem)
  | Fault (addr : Z)
  | Spent.
Arguments Val {A} a m.
Arguments Fault {A} addr.
Arguments Spent {A}.

Definition MM (A : Type) : Type := mem -> out A.

#[global] Instance MM_ret : MRet MM := fun A a m => Val a m.
#[global] Instance MM_bind : MBind MM := fun A B f c m =>
  match c m with
  | Val a m' => f a m'
  | Fault x => Fault x
  | Spent => Spent
  end.

Definition load8 (a : Z) : MM Z := fun m =>
  match m !! a with Some x => Val x m | None => Fault a end.

(** A store keeps the low byte. *)
Definition store8 (a x : Z) : MM unit := fun m =>
  match m !! a with Some _ => Val tt (<[a := u8 x]> m) | None => Fault a end.

Definition spent {A} : MM A := fun _ => Spent.

Lemma bind_val {A B} (c : MM A) (f : A -> MM B) m a m' :
  c m = Val a m' -> (c ≫= f) m = f a m'.
Proof. intros H. unfold mbind, MM_bind. by rewrite H. Qed.

Lemma load8_val m a x : m !! a = Some x -> load8 a m = Val x m.
Proof. intros H. unfold load8. by rewrite H. Qed.

Lemma store8_val m a x : is_Some (m !! a) -> store8 a x m = Val tt (<[a := u8 x]> m).
Proof. intros [y H]. unfold store8. by rewrite H. Qed.

(** * Blocks *)

(** The bytes [l] are at [a]. *)
Definition has (m : mem) (a : Z) (l : bytes) : Prop :=
  forall i x, l !! i = Some x -> m !! (a + Z.of_nat i) = Some x.

(** The [n] addresses from [a] on are mapped. *)
Definition mapped (m : mem) (a n : Z) : Prop :=
  forall i, 0 <= i < n -> is_Some (m !! (a + i)).

(** Memory holds bytes. *)
Definition bytes_mem (m : mem) : Prop := map_Forall (fun _ x => is_byte x) m.

(** Writing the block [l] at [a]. *)
Fixpoint wr (m : mem) (a : Z) (l : bytes) : mem :=
  match l with
  | [] => m
  | x :: l' => wr (<[a := x]> m) (a + 1) l'
  end.

Lemma lookup_wr m a l b :
  wr m a l !! b =
    if (a <=? b) && (b <? a + len l) then l !! Z.to_nat (b - a) else m !! b.
Proof.
  revert m a. induction l as [|x l IH]; intros m a; cbn [wr length].
  { destruct (Z.leb_spec a b), (Z.ltb_spec b (a + Z.of_nat 0)); cbn [andb]; (lia || done). }
  rewrite IH. destruct (decide (b = a)) as [->|Hne].
  - rewrite lookup_insert_eq, Z.sub_diag.
    destruct (Z.leb_spec (a + 1) a), (Z.leb_spec a a), (Z.ltb_spec a (a + Z.of_nat (S (length l)))); try lia. done.
  - rewrite lookup_insert_ne by done.
    destruct (Z.leb_spec (a + 1) b), (Z.leb_spec a b), (Z.ltb_spec b (a + 1 + len l)),
      (Z.ltb_spec b (a + Z.of_nat (S (length l)))); cbn [andb]; try lia; try done.
    by replace (Z.to_nat (b - a)) with (S (Z.to_nat (b - (a + 1)))) by lia.
Qed.

Lemma lookup_wr_out m a l b : b < a \/ a + len l <= b -> wr m a l !! b = m !! b.
Proof.
  intros H. rewrite lookup_wr. destruct (Z.leb_spec a b), (Z.ltb_spec b (a + len l)); simpl; (lia || done).
Qed.

Lemma lookup_wr_in m a l i x : l !! i = Some x -> wr m a l !! (a + Z.of_nat i) = Some x.
Proof.
  intros H. pose proof (lookup_lt_Some _ _ _ H). rewrite lookup_wr.
  destruct (Z.leb_spec a (a + Z.of_nat i)), (Z.ltb_spec (a + Z.of_nat i) (a + len l)); simpl; try lia.
  by replace (Z.to_nat (a + Z.of_nat i - a)) with i by lia.
Qed.

Lemma has_wr m a l : has (wr m a l) a l.
Proof. intros i x H. by apply lookup_wr_in. Qed.

Lemma has_wr_other m a l b l' :
  has m b l' -> b + len l' <= a \/ a + len l <= b -> has (wr m a l) b l'.
Proof.
  intros H Hd i x Hx. pose proof (lookup_lt_Some _ _ _ Hx). rewrite lookup_wr_out by lia. by apply H.
Qed.

Lemma wr_app m a l l' : wr m a (l ++ l') = wr (wr m a l) (a + len l) l'.
Proof.
  revert m a. induction l as [|x l IH]; intros m a; simpl; [by rewrite Z.add_0_r|].
  rewrite IH. f_equal. lia.
Qed.

(** The last byte first. *)
Lemma wr_snoc m a l x : wr m a (l ++ [x]) = wr (<[a + len l := x]> m) a l.
Proof.
  apply map_eq. intros b. rewrite !lookup_wr, length_app. simpl.
  destruct (Z.leb_spec a b), (Z.ltb_spec b (a + Z.of_nat (length l + 1))), (Z.ltb_spec b (a + len l));
    simpl; try lia.
  - rewrite lookup_app_l by lia. done.
  - assert (b = a + len l) as -> by lia. rewrite lookup_insert_eq.
    replace (Z.to_nat (a + len l - a)) with (length l) by lia. apply list_lookup_middle. done.
  - rewrite lookup_insert_ne by lia. done.
  - rewrite lookup_insert_ne by lia. done.
Qed.

(** A second block over the start of the first. *)
Lemma wr_over m a l l' : (length l' <= length l)%nat -> wr (wr m a l) a l' = wr m a (l' ++ drop (length l') l).
Proof.
  intros Hl. apply map_eq. intros b. rewrite !lookup_wr, length_app, length_drop.
  destruct (Z.leb_spec a b), (Z.ltb_spec b (a + len l')), (Z.ltb_spec b (a + len l)),
    (Z.ltb_spec b (a + Z.of_nat (length l' + (length l - length l')))); cbn [andb]; try lia; try done.
  - by rewrite lookup_app_l by lia.
  - rewrite lookup_app_r by lia. rewrite lookup_drop. f_equal. lia.
Qed.

Lemma mapped_wr m a l b n : mapped m b n -> mapped (wr m a l) b n.
Proof.
  intros H i Hi. rewrite lookup_wr.
  destruct (Z.leb_spec a (b + i)), (Z.ltb_spec (b + i) (a + len l)); simpl; try by apply H.
  apply lookup_lt_is_Some. lia.
Qed.

Lemma mapped_insert m a x b n : mapped m b n -> mapped (<[a := x]> m) b n.
Proof. intros H. exact (mapped_wr m a [x] b n H). Qed.

Lemma has_mapped m a l : has m a l -> mapped m a (len l).
Proof.
  intros H i Hi. destruct (lookup_lt_is_Some_2 l (Z.to_nat i)) as [x Hx]; [lia|].
  apply H in Hx. replace (a + i) with (a + Z.of_nat (Z.to_nat i)) by lia. eauto.
Qed.

Lemma mapped_sub m a n b k : mapped m a n -> a <= b -> b + k <= a + n -> mapped m b k.
Proof.
  intros H Hb Hk i Hi. replace (b + i) with (a + (b - a + i)) by lia. apply H. lia.
Qed.

Lemma mapped_head m a n : mapped m a n -> 0 < n -> is_Some (m !! a).
Proof. intros H Hn. specialize (H 0). rewrite Z.add_0_r in H. apply H. lia. Qed.

Lemma has_head m a x l : has m a (x :: l) -> m !! a = Some x.
Proof. intros H. specialize (H 0%nat x eq_refl). by rewrite Z.add_0_r in H. Qed.

Lemma has_tail m a x l : has m a (x :: l) -> has m (a + 1) l.
Proof. intros H i y Hy. specialize (H (S i) y Hy). by replace (a + 1 + Z.of_nat i) with (a + Z.of_nat (S i)) by lia. Qed.

Lemma has_cons m a x l : m !! a = Some x -> has m (a + 1) l -> has m a (x :: l).
Proof.
  intros Hx Hl [|i] y Hy; simpl in Hy; simplify_eq; [by rewrite Z.add_0_r|].
  replace (a + Z.of_nat (S i)) with (a + 1 + Z.of_nat i) by lia. by apply Hl.
Qed.

Lemma has_insert m a l b x : has m a l -> b < a \/ a + len l <= b -> has (<[b := x]> m) a l.
Proof. intros H Hb. apply (has_wr_other m b [x]); [done|simpl; lia]. Qed.

Lemma has_app m a l l' : has m a (l ++ l') <-> has m a l /\ has m (a + len l) l'.
Proof.
  split.
  - intros H. split; intros i x Hx.
    + apply H. by apply lookup_app_l_Some.
    + replace (a + len l + Z.of_nat i) with (a + Z.of_nat (length l + i)) by lia. apply H.
      by rewrite lookup_app_r, Nat.add_comm, Nat.add_sub by lia.
  - intros [H H'] i x Hx. apply lookup_app_Some in Hx as [Hx|[Hi Hx]]; [by apply H|].
    specialize (H' _ _ Hx). by replace (a + Z.of_nat i) with (a + len l + Z.of_nat (i - length l)) by lia.
Qed.

Lemma has_bytes m a l : bytes_mem m -> has m a l -> Forall is_byte l.
Proof.
  intros Hm H. apply Forall_lookup_2. intros i x Hx. apply H in Hx. exact (Hm _ _ Hx).
Qed.

Lemma bytes_mem_insert m a x : bytes_mem m -> is_byte x -> bytes_mem (<[a := x]> m).
Proof. intros. by apply map_Forall_insert_2. Qed.

Lemma bytes_mem_wr m a l : bytes_mem m -> Forall is_byte l -> bytes_mem (wr m a l).
Proof.
  intros Hm Hl. revert m a Hm. induction Hl as [|x l Hx _ IH]; intros m a Hm; simpl; [done|].
  by apply IH, bytes_mem_insert.
Qed.

(** A NUL-terminated string. *)
Definition has_str (m : mem) (a : Z) (s : bytes) : Prop := no_nul s /\ has m a (s ++ [0]).

(** * Copy loops *)

(** [while(n-- > 0) *d++ = *s++]. *)
Fixpoint copy_fwd (n : nat) (d s : Z) : MM unit :=
  match n with
  | O => mret tt
  | S n' => x ← load8 s; store8 d x;; copy_fwd n' (d + 1) (s + 1)
  end.

(** [while(n-- > 0) *--d = *--s]. *)
Fixpoint copy_bwd (n : nat) (d s : Z) : MM unit :=
  match n with
  | O => mret tt
  | S n' => x ← load8 (s - 1); store8 (d - 1) x;; copy_bwd n' (d - 1) (s - 1)
  end.

(** [for(i = 0; i < n; i++) d[i] = c]. *)
Fixpoint fill (n : nat) (d c : Z) : MM unit :=
  match n with
  | O => mret tt
  | S n' => store8 d c;; fill n' (d + 1) c
  end.

Lemma copy_fwd_ok m d s l :
  Forall is_byte l -> has m s l -> mapped m d (len l) -> d <= s \/ s + len l <= d ->
  copy_fwd (length l) d s m = Val tt (wr m d l).
Proof.
  intros Hb. revert m d s. induction Hb as [|x l Hx _ IH]; intros m d s Hs Hd Hover; [done|].
  cbn [length copy_fwd]. rewrite (bind_val _ _ _ _ _ (load8_val _ _ _ (has_head _ _ _ _ Hs))).
  rewrite (bind_val _ _ _ tt (<[d := x]> m)).
  2: { rewrite store8_val; [by rewrite (u8_small _ Hx)|]. eapply mapped_head; [exact Hd|simpl; lia]. }
  simpl len in Hover, Hd. rewrite IH; [done|..|lia].
  - apply has_insert; [by eapply has_tail|lia].
  - apply mapped_insert. eapply mapped_sub; [exact Hd|lia..].
Qed.

Lemma copy_bwd_ok m d s l :
  Forall is_byte l -> has m s l -> mapped m d (len l) -> s <= d \/ d + len l <= s ->
  copy_bwd (length l) (d + len l) (s + len l) m = Val tt (wr m d l).
Proof.
  revert m. induction l as [|x l IH] using rev_ind; intros m Hb Hs Hd Hover; [done|].
  apply Forall_app in Hb as [Hb Hx]. apply Forall_cons in Hx as [Hx _].
  apply has_app in Hs as [Hs Hl]. rewrite length_app in *. simpl in *.
  replace (length l + 1)%nat with (S (length l)) by lia. cbn [copy_bwd].
  replace (s + Z.of_nat (S (length l)) - 1) with (s + len l) by lia.
  replace (d + Z.of_nat (S (length l)) - 1) with (d + len l) by lia.
  rewrite (bind_val _ _ _ _ _ (load8_val _ _ _ (has_head _ _ _ _ Hl))).
  rewrite (bind_val _ _ _ tt (<[d + len l := x]> m)).
  2: { rewrite store8_val; [by rewrite (u8_small _ Hx)|]. apply Hd. lia. }
  rewrite wr_snoc. apply IH; [done|..|lia].
  - apply has_insert; [done|lia].
  - apply mapped_insert. eapply mapped_sub; [exact Hd|lia..].
Qed.

Lemma fill_ok m d c n :
  mapped m d (Z.of_nat n) -> fill n d c m = Val tt (wr m d (replicate n (u8 c))).
Proof.
  revert m d. induction n as [|n IH]; intros m d Hd; [done|]. cbn [fill replicate wr].
  rewrite (bind_val _ _ _ tt (<[d := u8 c]> m)).
  2: { apply store8_val. eapply mapped_head; [exact Hd|lia]. }
  apply IH, mapped_insert. eapply mapped_sub; [exact Hd|lia..].
Qed.

(** * Words and blocks *)

(** Little-endian 64-bit accesses. *)
Fixpoint load_le (n : nat) (a : Z) : MM Z :=
  match n with
  | O => mret 0
  | S n' => x ← load8 a; y ← load_le n' (a + 1); mret (x + 256 * y)
  end.

Fixpoint store_le (n : nat) (a v : Z) : MM unit :=
  match n with
  | O => mret tt
  | S n' => store8 a v;; store_le n' (a + 1) (v / 256)
  end.

Definition load64 (a : Z) : MM Z := load_le 8 a.
Definition store64 (a v : Z) : MM unit := store_le 8 a v.

(** [n] bytes out of memory, and bytes into memory. *)
Fixpoint load_block (n : nat) (a : Z) : MM bytes :=
  match n with
  | O => mret []
  | S n' => x ← load8 a; l ← load_block n' (a + 1); mret (x :: l)
  end.

Fixpoint store_block (a : Z) (l : bytes) : MM unit :=
  match l with
  | [] => mret tt
  | x :: l' => store8 a x;; store_block (a + 1) l'
  end.

(** The word of [n] bytes at [a]. *)
Fixpoint word_le (n : nat) (m : mem) (a : Z) : Z :=
  match n with
  | O => 0
  | S n' => default 0 (m !! a) + 256 * word_le n' m (a + 1)
  end.

Definition word (m : mem) (a : Z) : Z := word_le 8 m a.

(** The bytes of a word. *)
Fixpoint le_bytes (n : nat) (v : Z) : bytes :=
  match n with
  | O => []
  | S n' => u8 v :: le_bytes n' (v / 256)
  end.

Lemma le_bytes_length n v : length (le_bytes n v) = n.
Proof. revert v. induction n as [|n IH]; intros v; simpl; [done|]. by rewrite IH. Qed.

Lemma le_bytes_ok n v : Forall is_byte (le_bytes n v).
Proof. revert v. induction n as [|n IH]; intros v; simpl; constructor; [apply u8_range|apply IH]. Qed.

Lemma load_le_ok n m a : mapped m a (Z.of_nat n) -> load_le n a m = Val (word_le n m a) m.
Proof.
  revert a. induction n as [|n IH]; intros a Ha; [done|]. cbn [load_le word_le].
  assert (is_Some (m !! a)) as [x Hx] by (eapply mapped_head; [exact Ha|lia]).
  rewrite (bind_val _ _ _ _ _ (load8_val _ _ _ Hx)). rewrite (bind_val _ _ _ (word_le n m (a + 1)) m).
  - by rewrite Hx.
  - apply IH. eapply mapped_sub; [exact Ha|lia..].
Qed.

Lemma store_le_ok n m a v :
  mapped m a (Z.of_nat n) -> store_le n a v m = Val tt (wr m a (le_bytes n v)).
Proof.
  revert m a v. induction n as [|n IH]; intros m a v Ha; [done|]. cbn [store_le le_bytes wr].
  rewrite (bind_val _ _ _ tt (<[a := u8 v]> m)).
  - apply IH, mapped_insert. eapply mapped_sub; [exact Ha|lia..].
  - apply store8_val. eapply mapped_head; [exact Ha|lia].
Qed.

Lemma load64_ok m a : mapped m a 8 -> load64 a m = Val (word m a) m.
Proof. exact (load_le_ok 8 m a). Qed.

Lemma store64_ok m a v : mapped m a 8 -> store64 a v m = Val tt (wr m a (le_bytes 8 v)).
Proof. exact (store_le_ok 8 m a v). Qed.

Lemma word_le_ext n m m' a :
  (forall i, 0 <= i < Z.of_nat n -> m' !! (a + i) = m !! (a + i)) -> word_le n m' a = word_le n m a.
Proof.
  revert a. induction n as [|n IH]; intros a H; simpl; [done|]. rewrite (IH (a + 1)).
  - specialize (H 0). rewrite Z.add_0_r in H. by rewrite H by lia.
  - intros i Hi. replace (a + 1 + i) with (a + (i + 1)) by lia. apply H. lia.
Qed.

Lemma word_wr_other m a l b : b + 8 <= a \/ a + len l <= b -> word (wr m a l) b = word m b.
Proof. intros H. apply word_le_ext. intros i Hi. apply lookup_wr_out. lia. Qed.

Lemma word_le_has n m a v : has m a (le_bytes n v) -> word_le n m a = v mod 256 ^ Z.of_nat n.
Proof.
  revert a v. induction n as [|n IH]; intros a v H; cbn [word_le]; [by rewrite Z.mod_1_r|].
  cbn [le_bytes] in H. rewrite (has_head _ _ _ _ H), (IH _ (v / 256)) by (by eapply has_tail). cbn [default].
  rewrite Nat2Z.inj_succ, Z.pow_succ_r by lia. rewrite Z.rem_mul_r by lia. unfold u8. done.
Qed.

Lemma word_wr_same m a v : word (wr m a (le_bytes 8 v)) a = u64 v.
Proof. apply word_le_has, has_wr. Qed.

Lemma word_le_range n m a : bytes_mem m -> 0 <= word_le n m a < 256 ^ Z.of_nat n.
Proof.
  intros Hm. revert a. induction n as [|n IH]; intros a; simpl word_le; [lia|].
  rewrite Nat2Z.inj_succ, Z.pow_succ_r by lia. specialize (IH (a + 1)).
  assert (0 <= default 0 (m !! a) < 256).
  { destruct (m !! a) as [x|] eqn:E; simpl; [|lia]. exact (Hm _ _ E). }
  lia.
Qed.

Lemma word_range m a : bytes_mem m -> 0 <= word m a < 2 ^ 64.
Proof. exact (word_le_range 8 m a). Qed.

(** A block of equal bytes. *)
Lemma word_fill m a n c b :
  a <= b -> b + 8 <= a + Z.of_nat n -> word (wr m a (replicate n c)) b = c * 72340172838076673.
Proof.
  intros Ha Hb. unfold word. assert (forall i, 0 <= i < 8 -> wr m a (replicate n c) !! (b + i) = Some c) as H.
  { intros i Hi. rewrite lookup_wr. rewrite length_replicate.
    destruct (Z.leb_spec a (b + i)), (Z.ltb_spec (b + i) (a + Z.of_nat n)); cbn [andb]; try lia.
    apply lookup_replicate_2. lia. }
  cbn [word_le]. replace b with (b + 0) at 1 by lia. rewrite <- !Z.add_assoc. rewrite !H by lia. cbn. lia.
Qed.

Lemma load_block_ok m a l : has m a l -> load_block (length l) a m = Val l m.
Proof.
  revert a. induction l as [|x l IH]; intros a H; [done|]. cbn [length load_block].
  rewrite (bind_val _ _ _ _ _ (load8_val _ _ _ (has_head _ _ _ _ H))).
  by rewrite (bind_val _ _ _ _ _ (IH _ (has_tail _ _ _ _ H))).
Qed.

Lemma store_block_ok m a l :
  Forall is_byte l -> mapped m a (len l) -> store_block a l m = Val tt (wr m a l).
Proof.
  intros Hl. revert m a. induction Hl as [|x l Hx _ IH]; intros m a Ha; [done|]. cbn [store_block wr].
  rewrite (bind_val _ _ _ tt (<[a := x]> m)).
  - apply IH, mapped_insert. simpl in Ha. eapply mapped_sub; [exact Ha|lia..].
  - rewrite store8_val; [by rewrite (u8_small _ Hx)|]. eapply mapped_head; [exact Ha|simpl; lia].
Qed.

(** What is at mapped addresses. *)
Lemma mapped_has m a n : bytes_mem m -> mapped m a (Z.of_nat n) -> exists l, length l = n /\ has m a l /\ Forall is_byte l.
Proof.
  intros Hm. revert a. induction n as [|n IH]; intros a Ha.
  { exists []. split; [done|]. split; [by intros i x Hx; rewrite lookup_nil in Hx|constructor]. }
  destruct (mapped_head _ _ _ Ha) as [x Hx]; [lia|].
  destruct (IH (a + 1)) as (l & Hl & Hh & Hb); [eapply mapped_sub; [exact Ha|lia..]|].
  exists (x :: l). split; [simpl; lia|]. split; [by apply has_cons|]. constructor; [exact (Hm _ _ Hx)|done].
Qed.

#[global] Arguments load8 : simpl never.
#[global] Arguments store8 : simpl never.
#[global] Arguments load64 : simpl never.
#[global] Arguments store64 : simpl never.
#[global] Arguments word : simpl never.
