(* ===== verification/XvString.v ===== *)
(** String and memory routines: kernel/string.c ([KString]) and the library of
    user programs, user/ulib.c ([ULib]).  A [char] of the RISC-V ABI is
    unsigned, so that bytes compare as numbers. *)

From S2P Require Import Prelude Libc XvMem.
Import Libc.

(** * Loops the two files share *)

Fixpoint memcmp_loop (n : nat) (s1 s2 : Z) : MM Z :=
  match n with
  | O => mret 0
  | S n' =>
      x ← load8 s1;
      y ← load8 s2;
      if x =? y then memcmp_loop n' (s1 + 1) (s2 + 1) else mret (x - y)
  end.

(** [for(n = 0; s[n]; n++)], from index [n] on. *)
Fixpoint strlen_loop (fuel : nat) (s n : Z) : MM Z :=
  match fuel with
  | O => spent
  | S f => x ← load8 (s + n); if x =? 0 then mret n else strlen_loop f s (n + 1)
  end.

Module KString.

Definition memset (dst c n : Z) : MM Z := fill (Z.to_nat n) dst c;; mret dst.

Definition memcmp (v1 v2 n : Z) : MM Z := memcmp_loop (Z.to_nat n) v1 v2.

Definition memmove (dst src n : Z) : MM Z :=
  if n =? 0 then mret dst
  else if (src <? dst) && (dst <? src + n) then
    copy_bwd (Z.to_nat n) (dst + n) (src + n);; mret dst
  else copy_fwd (Z.to_nat n) dst src;; mret dst.

Definition memcpy (dst src n : Z) : MM Z := memmove dst src n.

Fixpoint strncmp (n : nat) (p q : Z) : MM Z :=
  match n with
  | O => mret 0
  | S n' =>
      x ← load8 p;
      y ← load8 q;
      if negb (x =? 0) && (x =? y) then strncmp n' (p + 1) (q + 1) else mret (x - y)
  end.

(** The first loop of [strncpy]: what is left of [n], and [s]. *)
Fixpoint strncpy_copy (n : nat) (s t : Z) : MM (nat * Z) :=
  match n with
  | O => mret (O, s)
  | S n' =>
      x ← load8 t;
      store8 s x;;
      if x =? 0 then mret (n', s + 1) else strncpy_copy n' (s + 1) (t + 1)
  end.

Definition strncpy (s t n : Z) : MM Z :=
  '(k, s') ← strncpy_copy (Z.to_nat n) s t;
  fill k s' 0;;
  mret s.

Definition safestrcpy (s t n : Z) : MM Z :=
  if n <=? 0 then mret s
  else
    '(_, s') ← strncpy_copy (Z.to_nat (n - 1)) s t;
    store8 s' 0;;
    mret s.

Definition strlen (fuel : nat) (s : Z) : MM Z := strlen_loop fuel s 0.

End KString.

Module ULib.

Fixpoint strcpy_loop (fuel : nat) (s t : Z) : MM unit :=
  match fuel with
  | O => spent
  | S f =>
      x ← load8 t;
      store8 s x;;
      if x =? 0 then mret tt else strcpy_loop f (s + 1) (t + 1)
  end.

Definition strcpy (fuel : nat) (s t : Z) : MM Z := strcpy_loop fuel s t;; mret s.

Fixpoint strcmp (fuel : nat) (p q : Z) : MM Z :=
  match fuel with
  | O => spent
  | S f =>
      x ← load8 p;
      y ← load8 q;
      if negb (x =? 0) && (x =? y) then strcmp f (p + 1) (q + 1) else mret (x - y)
  end.

Definition strlen (fuel : nat) (s : Z) : MM Z := n ← strlen_loop fuel s 0; mret (u32 n).

Definition memset (dst c n : Z) : MM Z := fill (Z.to_nat n) dst c;; mret dst.

(** The address of the first [c], or 0. *)
Fixpoint strchr (fuel : nat) (s c : Z) : MM Z :=
  match fuel with
  | O => spent
  | S f =>
      x ← load8 s;
      if x =? 0 then mret 0 else if x =? c then mret s else strchr f (s + 1) c
  end.

(** [gets]: [input] is what standard input still delivers; [room] is
    [max - 1 - i]. *)
Fixpoint gets_loop (room : nat) (buf i : Z) (input : bytes) : MM (Z * bytes) :=
  match room with
  | O => mret (i, input)
  | S r =>
      match input with
      | [] => mret (i, [])
      | c :: rest =>
          store8 (buf + i) c;;
          if (c =? 10) || (c =? 13) then mret (i + 1, rest) else gets_loop r buf (i + 1) rest
      end
  end.

Definition gets (buf max : Z) (input : bytes) : MM (Z * bytes) :=
  '(i, rest) ← gets_loop (Z.to_nat (max - 1)) buf 0 input;
  store8 (buf + i) 0;;
  mret (buf, rest).

Fixpoint atoi_loop (fuel : nat) (s n : Z) : MM Z :=
  match fuel with
  | O => spent
  | S f =>
      x ← load8 s;
      if (48 <=? x) && (x <=? 57) then atoi_loop f (s + 1) (i32 (n * 10 + x - 48)) else mret n
  end.

Definition atoi (fuel : nat) (s : Z) : MM Z := atoi_loop fuel s 0.

Definition memmove (vdst vsrc n : Z) : MM Z :=
  if vdst <? vsrc then copy_fwd (Z.to_nat n) vdst vsrc;; mret vdst
  else copy_bwd (Z.to_nat n) (vdst + n) (vsrc + n);; mret vdst.

Definition memcmp (s1 s2 n : Z) : MM Z := memcmp_loop (Z.to_nat n) s1 s2.

Definition memcpy (dst src n : Z) : MM Z := memmove dst src n.

End ULib.

(** * Properties *)

Lemma has_str_cons m a x s : has_str m a (x :: s) -> x <> 0 /\ m !! a = Some x /\ has_str m (a + 1) s.
Proof.
  intros [Hn H]. apply Forall_cons in Hn as [Hx Hn]. split; [done|].
  split; [by eapply has_head|]. split; [done|by eapply has_tail].
Qed.

Lemma has_str_nil m a : has_str m a [] -> m !! a = Some 0.
Proof. intros [_ H]. by eapply has_head. Qed.

(** [memmove] of the kernel and of the user library move [n] bytes as if
    through a temporary buffer, for every overlap of source and destination, and
    change nothing else. *)
Theorem memmove_any_overlap m d s l :
  Forall is_byte l -> has m s l -> mapped m d (len l) ->
  KString.memmove d s (len l) m = Val d (wr m d l) /\ ULib.memmove d s (len l) m = Val d (wr m d l).
Proof.
  intros Hb Hs Hd. unfold KString.memmove, ULib.memmove. rewrite Nat2Z.id. split.
  - destruct (Z.eqb_spec (len l) 0) as [E|]; [by destruct l|].
    destruct (Z.ltb_spec s d), (Z.ltb_spec d (s + len l)); cbn [andb].
    + rewrite (bind_val _ _ _ _ _ (copy_bwd_ok m d s l Hb Hs Hd ltac:(lia))). done.
    + rewrite (bind_val _ _ _ _ _ (copy_fwd_ok m d s l Hb Hs Hd ltac:(lia))). done.
    + rewrite (bind_val _ _ _ _ _ (copy_fwd_ok m d s l Hb Hs Hd ltac:(lia))). done.
    + rewrite (bind_val _ _ _ _ _ (copy_fwd_ok m d s l Hb Hs Hd ltac:(lia))). done.
  - destruct (Z.ltb_spec d s).
    + rewrite (bind_val _ _ _ _ _ (copy_fwd_ok m d s l Hb Hs Hd ltac:(lia))). done.
    + rewrite (bind_val _ _ _ _ _ (copy_bwd_ok m d s l Hb Hs Hd ltac:(lia))). done.
Qed.

(** Memory for the examples: the bytes of [l] from address [a] on. *)
Definition block (a : Z) (l : bytes) : mem := wr ∅ a l.

Lemma memmove_any_overlap_witness :
  KString.memmove 102 100 3 (block 100 [1; 2; 3; 4; 5]) = Val 102 (block 100 [1; 2; 1; 2; 3]) /\
  ULib.memmove 102 100 3 (block 100 [1; 2; 3; 4; 5]) = Val 102 (block 100 [1; 2; 1; 2; 3]).
Proof.
  replace (block 100 [1; 2; 1; 2; 3]) with (wr (block 100 [1; 2; 3; 4; 5]) 102 [1; 2; 3]) by by_decide.
  apply (memmove_any_overlap (block 100 [1; 2; 3; 4; 5]) 102 100 [1; 2; 3]).
  - by_decide.
  - intros i x. destruct i as [|[|[|]]]; simpl; intros; simplify_eq; by vm_compute.
  - intros i Hi. assert (i = 0 \/ i = 1 \/ i = 2) as [->|[->| ->]] by (simpl in Hi; lia); by eexists.
Defined.

(** Copying [t] with room for [n] bytes: the bytes written. *)
Definition str_prefix (n : nat) (t : bytes) : bytes := take n (t ++ [0]).

Lemma strncpy_copy_ok m s t str n :
  has_str m t str -> Forall is_byte str -> mapped m s (Z.of_nat n) ->
  s + Z.of_nat n <= t \/ t + len str + 1 <= s ->
  KString.strncpy_copy n s t m =
    Val ((n - length (str_prefix n str))%nat, s + len (str_prefix n str)) (wr m s (str_prefix n str)).
Proof.
  revert m s t str. induction n as [|n IH]; intros m s t str Hstr Hb Hs Hover.
  { unfold str_prefix. simpl. by rewrite Z.add_0_r. }
  cbn [KString.strncpy_copy]. assert (is_Some (m !! s)) as Hms by (eapply mapped_head; [exact Hs|lia]).
  destruct str as [|x str].
  - rewrite (bind_val _ _ _ _ _ (load8_val _ _ _ (has_str_nil _ _ Hstr))).
    rewrite (bind_val _ _ _ _ _ (store8_val _ _ _ Hms)). change (0 =? 0) with true. cbn iota.
    unfold str_prefix. cbn [app take]. rewrite take_nil. cbn [length wr]. unfold mret, MM_ret. f_equal.
    f_equal. lia.
  - destruct (has_str_cons _ _ _ _ Hstr) as (Hx0 & Hx & Hstr').
    apply Forall_cons in Hb as [Hbx Hb].
    rewrite (bind_val _ _ _ _ _ (load8_val _ _ _ Hx)).
    rewrite (bind_val _ _ _ _ _ (store8_val _ _ _ Hms)).
    destruct (Z.eqb_spec x 0); [done|]. rewrite (u8_small _ Hbx). cbn [length] in Hover.
    rewrite (IH _ _ _ str); [|split|done| |lia].
    + unfold str_prefix. cbn [app take length wr]. f_equal. f_equal. lia.
    + apply Hstr'.
    + apply has_insert; [apply Hstr'|]. rewrite length_app. simpl. lia.
    + apply mapped_insert. eapply mapped_sub; [exact Hs|lia..].
Qed.

Lemma str_prefix_length n t : (length (str_prefix n t) <= n)%nat.
Proof. unfold str_prefix. rewrite length_take. lia. Qed.

(** [safestrcpy] never writes outside the [n] bytes of its destination and
    always leaves there a NUL-terminated string: the first [n - 1] characters of
    the source. *)
Theorem safestrcpy_terminates m s t str n :
  0 < n -> has_str m t str -> Forall is_byte str -> mapped m s n ->
  s + n <= t \/ t + len str + 1 <= s ->
  exists m', KString.safestrcpy s t n m = Val s m' /\
    has_str m' s (take (Z.to_nat (n - 1)) str) /\
    (forall a, a < s \/ s + n <= a -> m' !! a = m !! a).
Proof.
  intros Hn Hstr Hb Hs Hover. unfold KString.safestrcpy. destruct (Z.leb_spec n 0); [lia|].
  set (k := Z.to_nat (n - 1)). pose proof (str_prefix_length k str) as Hk.
  rewrite (bind_val _ _ _ _ _ (strncpy_copy_ok m s t str k Hstr Hb
    ltac:(eapply mapped_sub; [exact Hs|lia|lia]) ltac:(lia))). cbn iota.
  rewrite (bind_val _ _ _ _ _ (store8_val _ _ _ (mapped_wr _ _ _ s n Hs (len (str_prefix k str)) ltac:(lia)))).
  eexists. split; [done|]. split; [split|].
  - by apply Forall_take, Hstr.
  - change (u8 0) with 0. unfold str_prefix. destruct (decide (length str < k)%nat) as [Hlt|Hge].
    + rewrite !take_ge by (rewrite ?length_app; simpl; lia).
      apply has_insert; [apply has_wr|]. right. lia.
    + rewrite take_app_le by lia. apply has_app. split.
      * apply has_insert; [apply has_wr|]. right. lia.
      * intros [|i] x; simpl; intros E; simplify_eq. rewrite Z.add_0_r. apply lookup_insert_eq.
  - intros a Ha. rewrite lookup_insert_ne by lia. apply lookup_wr_out. lia.
Qed.

Lemma safestrcpy_terminates_witness :
  exists m', KString.safestrcpy 200 100 3 (wr (block 100 (L"init" ++ [0])) 200 [9; 9; 9; 9]) = Val 200 m' /\
    has_str m' 200 (take (Z.to_nat (3 - 1)) (L"init")) /\
    (forall a, a < 200 \/ 200 + 3 <= a ->
       m' !! a = wr (block 100 (L"init" ++ [0])) 200 [9; 9; 9; 9] !! a).
Proof.
  apply (safestrcpy_terminates _ 200 100 (L"init") 3).
  - lia.
  - split; [by_decide|]. apply has_wr_other; [apply has_wr|simpl; lia].
  - by_decide.
  - apply (mapped_sub _ 200 4); [|lia|lia]. apply (has_mapped _ 200 [9; 9; 9; 9]), has_wr.
  - simpl. lia.
Defined.

(** * Comparison *)

Lemma strcmp_step m p q a b f :
  has_str m p a -> has_str m q b ->
  ULib.strcmp (S f) p q m =
    match a, b with
    | x :: _, y :: _ => if x =? y then ULib.strcmp f (p + 1) (q + 1) m else Val (x - y) m
    | x :: _, [] => Val x m
    | [], y :: _ => Val (- y) m
    | [], [] => Val 0 m
    end.
Proof.
  intros Ha Hb. cbn [ULib.strcmp].
  destruct a as [|x a]; [pose proof (has_str_nil _ _ Ha) as Hx|destruct (has_str_cons _ _ _ _ Ha) as (Hx0 & Hx & _)];
    rewrite (bind_val _ _ _ _ _ (load8_val _ _ _ Hx));
    (destruct b as [|y b]; [pose proof (has_str_nil _ _ Hb) as Hy|destruct (has_str_cons _ _ _ _ Hb) as (Hy0 & Hy & _)];
     rewrite (bind_val _ _ _ _ _ (load8_val _ _ _ Hy))).
  - done.
  - done.
  - destruct (Z.eqb_spec x 0); [done|]. cbn [negb andb]. by rewrite Z.sub_0_r.
  - destruct (Z.eqb_spec x 0); [done|]. cbn [negb andb]. by destruct (x =? y).
Qed.

(** the user library's [strcmp] terminates on every pair of strings and
    computes the reference comparison, in particular 0 exactly on equal
    strings. *)
Theorem strcmp_reference m p q a b fuel :
  has_str m p a -> has_str m q b -> (length a < fuel)%nat ->
  ULib.strcmp fuel p q m = Val (Libc.strcmp a b) m /\ (Libc.strcmp a b = 0 <-> a = b).
Proof.
  intros Ha Hb Hf. split; [|apply strcmp_eq; [apply Ha|apply Hb]].
  revert p q a b Ha Hb Hf. induction fuel as [|f IH]; intros p q a b Ha Hb Hf; [lia|].
  rewrite (strcmp_step m p q a b f Ha Hb). destruct a as [|x a], b as [|y b]; simpl; try done.
  destruct (x =? y); [|done]. simpl in Hf. apply IH; [..|lia].
  - by apply (has_str_cons _ _ _ _ Ha).
  - by apply (has_str_cons _ _ _ _ Hb).
Qed.

Lemma strcmp_reference_witness :
  ULib.strcmp 5 100 200 (wr (block 100 (L"cat" ++ [0])) 200 (L"car" ++ [0])) =
    Val (Libc.strcmp (L"cat") (L"car")) (wr (block 100 (L"cat" ++ [0])) 200 (L"car" ++ [0])) /\
  (Libc.strcmp (L"cat") (L"car") = 0 <-> L"cat" = L"car").
Proof.
  apply strcmp_reference.
  - split; [by_decide|]. apply has_wr_other; [apply has_wr|simpl; lia].
  - split; [by_decide|apply has_wr].
  - simpl. lia.
Defined.

(** * Numbers *)

Lemma scan_digits_grows ds n :
  0 <= n -> Forall (fun c => isdigit c = true) ds -> n <= (scan_digits ds n).1.
Proof.
  intros Hn Hd. revert n Hn. induction Hd as [|c ds Hc _ IH]; intros n Hn; simpl; [lia|].
  rewrite Hc. unfold isdigit in Hc. specialize (IH (n * 10 + (c - 48))). lia.
Qed.

Lemma atoi_loop_digits m s ds n fuel :
  has_str m s ds -> Forall (fun c => isdigit c = true) ds -> (length ds < fuel)%nat ->
  0 <= n -> (scan_digits ds n).1 <= INT_MAX ->
  ULib.atoi_loop fuel s n m = Val (scan_digits ds n).1 m.
Proof.
  revert s ds n. induction fuel as [|f IH]; intros s ds n Hs Hd Hf Hn Hmax; [lia|]. cbn [ULib.atoi_loop].
  destruct ds as [|c ds].
  { rewrite (bind_val _ _ _ _ _ (load8_val _ _ _ (has_str_nil _ _ Hs))). done. }
  destruct (has_str_cons _ _ _ _ Hs) as (_ & Hc & Hs'). apply Forall_cons in Hd as [Hdc Hd].
  rewrite (bind_val _ _ _ _ _ (load8_val _ _ _ Hc)).
  simpl in Hmax, Hf |- *. unfold isdigit in Hdc. unfold isdigit in Hmax |- *. rewrite Hdc in *.
  assert (n * 10 + (c - 48) <= INT_MAX /\ 0 <= n * 10 + (c - 48)) as [Hle Hge].
  { split; [|lia]. pose proof (scan_digits_grows ds (n * 10 + (c - 48)) ltac:(lia) Hd). lia. }
  replace (n * 10 + c - 48) with (n * 10 + (c - 48)) by lia.
  rewrite i32_small by (unfold INT_MAX in Hle; lia). apply IH; [done|done|lia|done|done].
Qed.

(** [atoi] reads back every number below 2^31 that the formatting routines
    print in decimal, whatever follows the string in memory. *)
Theorem atoi_print_u m s n fuel :
  0 <= n <= INT_MAX -> has_str m s (print_u 10 n) -> (length (print_u 10 n) < fuel)%nat ->
  ULib.atoi fuel s m = Val n m.
Proof.
  intros Hn Hs Hf. destruct (print_u_spec n) as (_ & Hd & Hv); [unfold INT_MAX in Hn; lia|].
  unfold ULib.atoi. rewrite (atoi_loop_digits m s (print_u 10 n) 0); rewrite ?Hv; (done || lia).
Qed.

Lemma atoi_print_u_witness : ULib.atoi 6 100 (block 100 (L"2024" ++ [0])) = Val 2024 (block 100 (L"2024" ++ [0])).
Proof.
  apply atoi_print_u.
  - unfold INT_MAX. lia.
  - split; [by_decide|]. apply has_wr.
  - vm_compute. lia.
Defined.

(** * Reading lines *)

(** The line [gets] takes: up to [room] bytes, ending with the first newline or
    carriage return. *)
Fixpoint take_line (room : nat) (input : bytes) : bytes :=
  match room, input with
  | S r, c :: rest => if (c =? 10) || (c =? 13) then [c] else c :: take_line r rest
  | _, _ => []
  end.

Lemma take_line_prefix room input :
  exists rest, input = take_line room input ++ rest /\ drop (length (take_line room input)) input = rest.
Proof.
  revert input. induction room as [|r IH]; intros input; [by exists input|].
  destruct input as [|c input]; [by exists []|]. simpl. destruct ((c =? 10) || (c =? 13)).
  - by exists input.
  - destruct (IH input) as (rest & E & Hd). exists rest. simpl. by rewrite <- E.
Qed.

Lemma take_line_length room input : (length (take_line room input) <= room)%nat.
Proof.
  revert input. induction room as [|r IH]; intros [|c input]; simpl; try lia.
  destruct ((c =? 10) || (c =? 13)); simpl; [lia|]. specialize (IH input). lia.
Qed.

Lemma gets_loop_ok room m buf i input :
  Forall is_byte input -> mapped m (buf + i) (Z.of_nat room) ->
  ULib.gets_loop room buf i input m =
    Val (i + len (take_line room input), drop (length (take_line room input)) input)
        (wr m (buf + i) (take_line room input)).
Proof.
  intros Hb. revert m i input Hb. induction room as [|r IH]; intros m i input Hb Hm.
  { simpl. by rewrite Z.add_0_r. }
  destruct input as [|c input]; [simpl; by rewrite Z.add_0_r|].
  apply Forall_cons in Hb as [Hc Hb]. cbn [ULib.gets_loop take_line].
  rewrite (bind_val _ _ _ _ _ (store8_val m (buf + i) c ltac:(eapply mapped_head; [exact Hm|lia]))).
  rewrite (u8_small _ Hc). destruct ((c =? 10) || (c =? 13)); [done|].
  rewrite IH; [|done|].
  - cbn [length drop wr]. replace (buf + (i + 1)) with (buf + i + 1) by lia. f_equal. f_equal. lia.
  - apply mapped_insert. eapply mapped_sub; [exact Hm|lia..].
Qed.

(** [gets] stays within the [max] bytes of its buffer whatever the input,
    stores the next line (cut at [max - 1] bytes) with a NUL after it, and leaves
    the rest of the input unread. *)
Theorem gets_bounded m buf max input :
  0 < max -> Forall is_byte input -> mapped m buf max ->
  let line := take_line (Z.to_nat (max - 1)) input in
  ULib.gets buf max input m = Val (buf, drop (length line) input) (wr m buf (line ++ [0])) /\
  len line < max /\ line `prefix_of` input.
Proof.
  intros Hmax Hb Hm line. pose proof (take_line_length (Z.to_nat (max - 1)) input).
  split; [|split; [unfold line; lia|]].
  - unfold ULib.gets.
    rewrite (bind_val _ _ _ _ _ (gets_loop_ok (Z.to_nat (max - 1)) m buf 0 input Hb
      ltac:(rewrite Z.add_0_r; eapply mapped_sub; [exact Hm|lia|lia]))). cbn iota.
    rewrite !Z.add_0_r, Z.add_0_l.
    rewrite (bind_val _ _ _ _ _ (store8_val _ _ _ (mapped_wr _ _ _ buf max Hm (len line) ltac:(unfold line; lia)))).
    rewrite wr_app. done.
  - destruct (take_line_prefix (Z.to_nat (max - 1)) input) as (rest & E & _). by exists rest.
Qed.

Lemma gets_bounded_witness :
  ULib.gets 100 4 (L"hello") (block 100 [9; 9; 9; 9; 9]) =
    Val (100, L"lo") (wr (block 100 [9; 9; 9; 9; 9]) 100 (L"hel" ++ [0])) /\
  len (L"hel") < 4 /\ L"hel" `prefix_of` L"hello".
Proof.
  apply (gets_bounded (block 100 [9; 9; 9; 9; 9]) 100 4 (L"hello")).
  - lia.
  - by_decide.
  - apply (mapped_sub _ 100 5); [|lia|lia]. apply (has_mapped _ 100 [9; 9; 9; 9; 9]), has_wr.
Defined.
