(* ===== verification/XvGrep.v ===== *)
(** user/grep.c: the regular-expression matcher and the line loop. *)

From S2P Require Import Prelude.

Module Grep.

Definition STAR : Z := 42.
Definition DOLLAR : Z := 36.
Definition DOT : Z := 46.
Definition CARET : Z := 94.
Definition NL : Z := 10.

(** * The matcher, on C strings as lists without their NUL *)

(** The loop of [matchstar] for [c*]; [here] is [matchhere] of the rest of the
    expression. *)
Fixpoint matchstar (here : bytes -> bool) (c : Z) (text : bytes) : bool :=
  if here text then true
  else match text with
       | [] => false
       | t :: text' => if (t =? c) || (c =? DOT) then matchstar here c text' else false
       end.

Fixpoint matchhere (re text : bytes) : bool :=
  match re with
  | [] => true
  | c :: re1 =>
      match re1 with
      | s :: re2 =>
          if s =? STAR then matchstar (matchhere re2) c text
          else match text with
               | [] => false
               | t :: text' => if (c =? DOT) || (c =? t) then matchhere re1 text' else false
               end
      | [] =>
          if c =? DOLLAR then match text with [] => true | _ => false end
          else match text with
               | [] => false
               | t :: text' => if (c =? DOT) || (c =? t) then matchhere re1 text' else false
               end
      end
  end.

(** The [do]-[while] of [match]: the empty rest of the text is tried as well. *)
Fixpoint match_from (re text : bytes) : bool :=
  if matchhere re text then true
  else match text with
       | [] => false
       | _ :: text' => match_from re text'
       end.

Definition match_ (re text : bytes) : bool :=
  match re with
  | c :: re1 => if c =? CARET then matchhere re1 text else match_from re text
  | [] => match_from re text
  end.

(** * The line loop *)

(** [strchr(p, '\n')], as an offset from [p]. *)
Fixpoint find_nl (s : bytes) : option nat :=
  match s with
  | [] => None
  | c :: s' => if c =? 0 then None else if c =? NL then Some O else S <$> find_nl s'
  end.

(** The inner [while]: the bytes from [p] on that hold no complete line, and
    what was written; [n] bounds the lines. *)
Fixpoint scan_lines (n : nat) (pattern rest outp : bytes) : bytes * bytes :=
  match n with
  | O => (rest, outp)
  | S n' =>
      match find_nl rest with
      | None => (rest, outp)
      | Some i =>
          let w := if match_ pattern (take i rest) then take (S i) rest else [] in
          scan_lines n' pattern (drop (S i) rest) (outp ++ w)
      end
  end.

Definition BUF : Z := 1024.

(** [grep]: [buf] holds the first [m] bytes of the buffer; [sizes] says how much
    each [read] is willing to deliver of [input]. [None]: [sizes] ran out. *)
Fixpoint grep (pattern buf : bytes) (sizes : list Z) (input outp : bytes) : option bytes :=
  match sizes with
  | [] => None
  | sz :: sizes' =>
      let n := Z.to_nat (Z.min sz (BUF - len buf - 1)) in
      match take n input with
      | [] => Some outp
      | chunk =>
          let '(rest, outp') := scan_lines (length (buf ++ chunk)) pattern (buf ++ chunk) outp in
          grep pattern rest sizes' (drop n input) outp'
      end
  end.

(** * What a match is *)

(** [fits c t]: the expression character [c] accepts [t]. *)
Definition fits (c t : Z) : Prop := c = t \/ c = DOT.

(** [here re text]: [re] matches a prefix of [text] ([$] alone at the end
    matches the end). *)
Inductive here : bytes -> bytes -> Prop :=
  | here_nil text : here [] text
  | here_star c re t1 t2 : Forall (fits c) t1 -> here re t2 -> here (c :: STAR :: re) (t1 ++ t2)
  | here_end : here [DOLLAR] []
  | here_char c re t text :
      head re <> Some STAR -> ~ (c = DOLLAR /\ re = []) -> fits c t -> here re text ->
      here (c :: re) (t :: text).

(** [matches re text]: [re] matches somewhere in [text], at the start if it
    begins with a caret. *)
Definition matches (re text : bytes) : Prop :=
  match re with
  | c :: re1 => if bool_decide (c = CARET) then here re1 text else exists k, here re (drop k text)
  | [] => True
  end.

Lemma matchstar_spec (h : bytes -> bool) (P : bytes -> Prop) c text :
  (forall t, h t = true <-> P t) ->
  matchstar h c text = true <-> exists t1 t2, text = t1 ++ t2 /\ Forall (fits c) t1 /\ P t2.
Proof.
  intros Hh. induction text as [|t text IH]; simpl.
  - destruct (h []) eqn:E.
    + split; [|done]. intros _. exists [], []. repeat split; [constructor|by apply Hh].
    + split; [done|]. intros (t1 & t2 & E' & _ & HP). symmetry in E'. apply app_eq_nil in E' as [-> ->].
      apply Hh in HP. congruence.
  - destruct (h (t :: text)) eqn:E.
    { split; [|done]. intros _. exists [], (t :: text). repeat split; [constructor|by apply Hh]. }
    destruct ((t =? c) || (c =? DOT)) eqn:Ec.
    + rewrite IH. split.
      * intros (t1 & t2 & -> & Hf & HP). exists (t :: t1), t2. repeat split; [|done].
        constructor; [unfold fits; lia|done].
      * intros ([|x t1] & t2 & E' & Hf & HP); simpl in E'.
        -- subst t2. apply Hh in HP. congruence.
        -- simplify_eq. inversion Hf; subst. by exists t1, t2.
    + split; [done|]. intros ([|x t1] & t2 & E' & Hf & HP); simpl in E'.
      * subst t2. apply Hh in HP. congruence.
      * simplify_eq. inversion Hf as [|? ? Hx]; subst. unfold fits in Hx. lia.
Qed.

Lemma matchhere_spec re text : matchhere re text = true <-> here re text.
Proof.
  (* the star case skips two characters: induction on the length *)
  revert text. induction re as [re IH] using (induction_ltof1 _ (@length Z)). unfold ltof in IH.
  intros text. destruct re as [|c re1]; [split; [constructor|done]|].
  assert (forall t text', head re1 <> Some STAR -> ~ (c = DOLLAR /\ re1 = []) ->
    (if (c =? DOT) || (c =? t) then matchhere re1 text' else false) = true <-> here (c :: re1) (t :: text')) as Hchar.
  { intros t text' Hs Hd. split.
    - destruct ((c =? DOT) || (c =? t)) eqn:E; [|done]. intros H.
      apply here_char; [done|done|unfold fits; lia|]. by apply (IH re1); [simpl; lia|].
    - intros H. inversion H; subst; [by destruct Hs|].
      destruct ((c =? DOT) || (c =? t)) eqn:E; [by apply IH; [simpl; lia|]|unfold fits in *; lia]. }
  destruct re1 as [|s re2].
  - cbn [matchhere]. destruct (Z.eqb_spec c DOLLAR) as [->|Hd].
    + destruct text; split; try done; [constructor|]. intros H. inversion H; subst. naive_solver.
    + destruct text as [|t text]; [|apply Hchar; naive_solver].
      split; [done|]. intros H. inversion H; subst; done.
  - change (matchhere (c :: s :: re2) text) with
      (if s =? STAR then matchstar (matchhere re2) c text
       else match text with
            | [] => false
            | t :: text' => if (c =? DOT) || (c =? t) then matchhere (s :: re2) text' else false
            end). destruct (Z.eqb_spec s STAR) as [->|Hs].
    + rewrite (matchstar_spec _ (here re2)) by (intros; apply IH; simpl; lia). split.
      * intros (t1 & t2 & -> & Hf & HP). by constructor.
      * intros H. inversion H; subst; [by eexists _, _|done].
    + destruct text as [|t text]; [|apply Hchar; naive_solver].
      split; [done|]. intros H. inversion H; subst; done.
Qed.

Lemma match_from_spec re text : match_from re text = true <-> exists k, here re (drop k text).
Proof.
  induction text as [|t text IH]; simpl; destruct (matchhere re _) eqn:E.
  - split; [|done]. intros _. exists 0%nat. by apply matchhere_spec.
  - split; [done|]. intros [k H]. rewrite drop_nil in H. apply matchhere_spec in H. congruence.
  - split; [|done]. intros _. exists 0%nat. by apply matchhere_spec.
  - rewrite IH. split; [intros [k H]; by exists (S k)|]. intros [[|k] H]; [|by exists k].
    apply matchhere_spec in H. simpl in H. congruence.
Qed.

(** C39: the matcher of grep decides exactly the language of its expressions: it
    terminates on every expression and text, and answers true if and only if
    the expression matches somewhere in the text (at its start after a caret). *)
Theorem match_correct re text : match_ re text = true <-> matches re text.
Proof.
  destruct re as [|c re]; simpl.
  - by destruct text.
  - case_bool_decide as E; destruct (Z.eqb_spec c CARET); try done.
    + apply matchhere_spec.
    + apply match_from_spec.
Qed.

(** * Lines *)

(** The complete lines of [s] that match, with their newlines; [cur] is the
    line read so far. *)
Fixpoint matching_lines (pattern cur s : bytes) : bytes :=
  match s with
  | [] => []
  | c :: s' =>
      if c =? NL then
        (if match_ pattern cur then cur ++ [NL] else []) ++ matching_lines pattern [] s'
      else matching_lines pattern (cur ++ [c]) s'
  end.

(** The incomplete last line. *)
Fixpoint last_line (cur s : bytes) : bytes :=
  match s with
  | [] => cur
  | c :: s' => if c =? NL then last_line [] s' else last_line (cur ++ [c]) s'
  end.

(** No line of [s], after [cur], is longer than [n]. *)
Fixpoint lines_within (n : Z) (cur s : bytes) : Prop :=
  match s with
  | [] => len cur <= n
  | c :: s' => len cur <= n /\ if c =? NL then lines_within n [] s' else lines_within n (cur ++ [c]) s'
  end.

Lemma matching_lines_app pattern cur a b :
  matching_lines pattern cur (a ++ b) = matching_lines pattern cur a ++ matching_lines pattern (last_line cur a) b.
Proof.
  revert cur. induction a as [|c a IH]; intros cur; simpl; [done|].
  destruct (c =? NL); [|apply IH]. by rewrite IH, app_assoc.
Qed.

Lemma last_line_app cur a b : last_line cur (a ++ b) = last_line (last_line cur a) b.
Proof. revert cur. induction a as [|c a IH]; intros cur; simpl; [done|]. destruct (c =? NL); apply IH. Qed.

Lemma lines_within_app n cur a b :
  lines_within n cur (a ++ b) -> lines_within n (last_line cur a) b.
Proof.
  revert cur. induction a as [|c a IH]; intros cur; simpl; [done|].
  intros [_ H]. destruct (c =? NL); by apply IH.
Qed.

Lemma lines_within_cur n cur s : lines_within n cur s -> len cur <= n.
Proof. destruct s; simpl; [done|]. by intros [? _]. Qed.

Definition no_newline (s : bytes) : Prop := Forall (fun c => c <> NL) s.

Lemma last_line_no_newline cur s : no_newline cur -> no_newline (last_line cur s).
Proof.
  revert cur. induction s as [|c s IH]; intros cur Hc; simpl; [done|].
  destruct (Z.eqb_spec c NL); apply IH; [constructor|]. apply Forall_app. by split; [|constructor].
Qed.

Lemma matching_lines_cur pattern cur s :
  no_newline cur -> matching_lines pattern [] (cur ++ s) = matching_lines pattern cur s.
Proof.
  intros Hc. assert (forall k, matching_lines pattern k (cur ++ s) = matching_lines pattern (k ++ cur) s) as H.
  { induction Hc as [|c cur Hc _ IH]; intros k; simpl; [by rewrite app_nil_r|].
    destruct (Z.eqb_spec c NL); [done|]. by rewrite IH, <- app_assoc. }
  apply H.
Qed.

Lemma last_line_cur cur s : no_newline cur -> last_line [] (cur ++ s) = last_line cur s.
Proof.
  intros Hc. assert (forall k, last_line k (cur ++ s) = last_line (k ++ cur) s) as H.
  { induction Hc as [|c cur Hc _ IH]; intros k; simpl; [by rewrite app_nil_r|].
    destruct (Z.eqb_spec c NL); [done|]. by rewrite IH, <- app_assoc. }
  apply H.
Qed.

Lemma find_nl_Some s i :
  no_nul s -> find_nl s = Some i -> s = take i s ++ NL :: drop (S i) s /\ no_newline (take i s).
Proof.
  intros Hs. revert i. induction Hs as [|c s Hc _ IH]; intros i; simpl; [done|].
  destruct (Z.eqb_spec c 0); [done|]. destruct (Z.eqb_spec c NL) as [->|Hn].
  - intros E. simplify_eq. simpl. rewrite drop_0. split; [done|constructor].
  - intros E. apply fmap_Some in E as (j & Hj & ->). destruct (IH j Hj) as [E Hl].
    simpl. split; [by f_equal|]. by constructor.
Qed.

Lemma find_nl_None s : no_nul s -> find_nl s = None -> no_newline s.
Proof.
  induction 1 as [|c s Hc _ IH]; simpl; [constructor|].
  destruct (Z.eqb_spec c 0); [done|]. destruct (Z.eqb_spec c NL); [done|].
  intros E. apply fmap_None in E. apply Forall_cons. split; [done|by apply IH].
Qed.

Lemma scan_lines_spec n pattern rest outp :
  no_nul rest -> (length rest <= n)%nat ->
  scan_lines n pattern rest outp = (last_line [] rest, outp ++ matching_lines pattern [] rest).
Proof.
  revert rest outp. induction n as [|n IH]; intros rest outp Hs Hn; simpl.
  { destruct rest; [|simpl in Hn; lia]. by rewrite app_nil_r. }
  destruct (find_nl rest) as [i|] eqn:E.
  - destruct (find_nl_Some _ _ Hs E) as [Hsp Hnl]. set (a := take i rest) in *. set (b := drop (S i) rest) in *.
    assert (take (S i) rest = a ++ [NL]) as Ht.
    { rewrite Hsp. replace (a ++ NL :: b) with ((a ++ [NL]) ++ b) by (by rewrite <- app_assoc).
      apply take_app_length'. rewrite length_app. simpl. unfold a. rewrite length_take.
      apply (f_equal length) in Hsp. rewrite length_app in Hsp. unfold a in Hsp.
      rewrite length_take in Hsp. simpl in Hsp. lia. }
    rewrite Ht, IH.
    + rewrite Hsp, last_line_cur, matching_lines_cur by done. simpl. change (NL =? NL) with true. cbn iota.
      by rewrite app_assoc.
    + unfold no_nul in *. by apply Forall_drop.
    + unfold b. rewrite length_drop. destruct rest; simpl in *; lia.
  - pose proof (find_nl_None _ Hs E) as Hnl.
    pose proof (last_line_cur rest [] Hnl) as E1. pose proof (matching_lines_cur pattern rest [] Hnl) as E2.
    rewrite app_nil_r in E1, E2. rewrite E1, E2. simpl. by rewrite app_nil_r.
Qed.

Lemma grep_spec pattern buf sizes input outp :
  no_nul (buf ++ input) -> no_newline buf -> lines_within (BUF - 2) buf input ->
  Forall (fun sz => 0 < sz) sizes -> (length input < length sizes)%nat ->
  grep pattern buf sizes input outp = Some (outp ++ matching_lines pattern buf input).
Proof.
  revert buf input outp. induction sizes as [|sz sizes IH]; intros buf input outp Hnul Hnl Hl Hsz Hlen;
    [simpl in Hlen; lia|].
  apply Forall_cons in Hsz as [Hsz Hszs]. cbn [grep]. pose proof (lines_within_cur _ _ _ Hl) as Hb.
  set (n := Z.to_nat (Z.min sz (BUF - len buf - 1))). assert (0 < n)%nat by lia.
  destruct (take n input) as [|c0 chunk0] eqn:Et.
  { destruct input; [by rewrite app_nil_r|]. destruct n; simpl in Et; [lia|done]. }
  assert (0 < length input)%nat by (destruct input; [by rewrite take_nil in Et|simpl; lia]).
  rewrite <- Et. set (chunk := take n input) in *.
  assert (input = chunk ++ drop n input) as Hin by (unfold chunk; by rewrite take_drop).
  assert (no_nul (buf ++ chunk)) as Hnul1.
  { rewrite Hin, app_assoc in Hnul. by apply Forall_app in Hnul as [? _]. }
  rewrite scan_lines_spec by done. rewrite last_line_cur, matching_lines_cur by done. rewrite IH.
  - rewrite Hin at 2. by rewrite matching_lines_app, app_assoc.
  - apply Forall_app in Hnul as [Hnb Hni]. apply Forall_app. split; [|by apply Forall_drop].
    assert (forall k s, no_nul k -> no_nul s -> no_nul (last_line k s)) as Hll.
    { intros k s Hk Hs. revert k Hk. induction Hs as [|x s Hx _ IHs]; intros k Hk; simpl; [done|].
      destruct (x =? NL); apply IHs; [constructor|]. apply Forall_app. by split; [|constructor]. }
    apply Hll; [done|]. by apply Forall_take.
  - by apply last_line_no_newline.
  - rewrite Hin in Hl. by apply lines_within_app in Hl.
  - done.
  - rewrite length_drop. simpl in Hlen. lia.
Qed.



End Grep.
