(* ===== verification/XvFsTypes.v ===== *)
(** The data of the file system below the system calls: the disk and its driver
    (kernel/virtio.h, kernel/virtio_disk.c), buffers (kernel/buf.h), the log
    (kernel/log.c), super block (kernel/fs.h) and inodes (kernel/file.h). *)

From S2P Require Import Prelude.

(** The sleep locks of the kernel, by the object they are embedded in. *)
Inductive sleepid :=
  | SBuf (b : nat)         (* bcache.buf[b].lock *)
  | SInode (i : nat).      (* itable.inode[i].lock *)

#[global] Instance sleepid_eq_dec : EqDecision sleepid.
Proof. solve_decision. Defined.

#[global] Instance sleepid_countable : Countable sleepid.
Proof.
  refine (inj_countable' (fun l => match l with SBuf b => inl b | SInode i => inr i end)
    (fun c => match c with inl b => SBuf b | inr i => SInode i end) _).
  by intros [].
Defined.

(** * The disk *)

(** What is on the disk now, and what was on it before each write since the
    machine was switched on, the latest first: the states in which a crash may
    have left it.  A block is written as a whole. *)
Record platter := mk_platter {
  d_now : gmap Z bytes;
  d_past : list (gmap Z bytes);
}.

(** What the addresses in descriptors point to. *)
Inductive dma :=
  | DNull
  | DReq (i : nat)         (* &disk.ops[i] *)
  | DData (b : nat)        (* bcache.buf[b].data *)
  | DStatus (i : nat).     (* &disk.info[i].status *)

Record virtq_desc := mk_desc {
  vd_addr : dma;
  vd_len : Z;
  vd_flags : Z;
  vd_next : Z;
}.

Record virtio_blk_req := mk_req {
  rq_type : Z;
  rq_reserved : Z;
  rq_sector : Z;
}.

(** [struct disk] with the three areas it points to. *)
Record vdisk := mk_vdisk {
  vk_desc : list virtq_desc;
  vk_avail_idx : Z;
  vk_avail_ring : list Z;
  vk_used_at : Z;                (* used->idx *)
  vk_used_ring : list Z;         (* the [id] fields *)
  vk_free : list Z;
  vk_used_idx : Z;               (* disk.used_idx *)
  vk_info_b : list (option nat);
  vk_status : list Z;
  vk_ops : list virtio_blk_req;
}.

(** * Buffers and log *)

(** [struct buf], without its lock; [b_prev] and [b_next] are indices in the
    table, in which the list head follows the [NBUF] buffers. *)
Record buf := mk_buf {
  b_valid : Z;
  b_disk : Z;
  b_dev : Z;
  b_blockno : Z;
  b_refcnt : Z;
  b_prev : nat;
  b_next : nat;
  b_data : bytes;                (* BSIZE bytes *)
}.

(** [struct log] and the [struct logheader] in it. *)
Record logstate := mk_log {
  lg_start : Z;
  lg_outstanding : Z;
  lg_committing : Z;
  lg_dev : Z;
  lg_n : Z;
  lg_block : list Z;             (* LOGBLOCKS entries *)
}.

(** * Super block and inodes *)

Record superblock := mk_sb {
  sb_magic : Z;
  sb_size : Z;
  sb_nblocks : Z;
  sb_ninodes : Z;
  sb_nlog : Z;
  sb_logstart : Z;
  sb_inodestart : Z;
  sb_bmapstart : Z;
}.

Record dinode := mk_dinode {
  di_type : Z;
  di_major : Z;
  di_minor : Z;
  di_nlink : Z;
  di_size : Z;
  di_addrs : list Z;             (* NDIRECT + 1 entries *)
}.

(** [struct inode], without its lock. *)
Record inode := mk_inode {
  i_dev : Z;
  i_inum : Z;
  i_ref : Z;
  i_valid : Z;
  i_d : dinode;                  (* copy of disk inode *)
}.

(** * Open files *)

(** [struct file]. *)
Inductive fdtype := FD_NONE | FD_PIPE | FD_INODE | FD_DEVICE.

#[global] Instance fdtype_eq_dec : EqDecision fdtype.
Proof. solve_decision. Defined.

Record file := mk_file {
  f_type : fdtype;
  f_ref : Z;
  f_readable : Z;
  f_writable : Z;
  f_pipe : Z;
  f_ip : Z;
  f_off : Z;
  f_major : Z;
}.

(** * The console *)

(** [struct cons] of kernel/console.c; [tx_busy] of kernel/uart.c, and the bytes
    that were sent. *)
Record console := mk_cons {
  cn_buf : bytes;                (* INPUT_BUF_SIZE bytes *)
  cn_r : Z;
  cn_w : Z;
  cn_e : Z;
  cn_busy : Z;
  cn_out : bytes;
}.

Record fsst := mk_fs {
  fs_disk : platter;
  fs_vd : vdisk;
  fs_buf : list buf;             (* bcache.buf, then bcache.head *)
  fs_log : logstate;
  fs_sb : superblock;
  fs_inode : list inode;         (* itable.inode *)
  fs_cons : console;
  fs_files : list file;          (* ftable.file *)
}.

Definition set_disk x f := mk_fs x (fs_vd f) (fs_buf f) (fs_log f) (fs_sb f) (fs_inode f) (fs_cons f) (fs_files f).
Definition set_vd x f := mk_fs (fs_disk f) x (fs_buf f) (fs_log f) (fs_sb f) (fs_inode f) (fs_cons f) (fs_files f).
Definition set_buf x f := mk_fs (fs_disk f) (fs_vd f) x (fs_log f) (fs_sb f) (fs_inode f) (fs_cons f) (fs_files f).
Definition set_log x f := mk_fs (fs_disk f) (fs_vd f) (fs_buf f) x (fs_sb f) (fs_inode f) (fs_cons f) (fs_files f).
Definition set_sb x f := mk_fs (fs_disk f) (fs_vd f) (fs_buf f) (fs_log f) x (fs_inode f) (fs_cons f) (fs_files f).
Definition set_inode x f := mk_fs (fs_disk f) (fs_vd f) (fs_buf f) (fs_log f) (fs_sb f) x (fs_cons f) (fs_files f).
Definition set_cons x f := mk_fs (fs_disk f) (fs_vd f) (fs_buf f) (fs_log f) (fs_sb f) (fs_inode f) x (fs_files f).
Definition set_files x f := mk_fs (fs_disk f) (fs_vd f) (fs_buf f) (fs_log f) (fs_sb f) (fs_inode f) (fs_cons f) x.

(** A machine without file system. *)
Definition no_fs : fsst :=
  mk_fs (mk_platter ∅ []) (mk_vdisk [] 0 [] 0 [] [] 0 [] [] []) [] (mk_log 0 0 0 0 0 []) (mk_sb 0 0 0 0 0 0 0 0) []
    (mk_cons [] 0 0 0 0 []) [].

Definition set_bvalid x b := mk_buf x (b_disk b) (b_dev b) (b_blockno b) (b_refcnt b) (b_prev b) (b_next b) (b_data b).
Definition set_bdisk x b := mk_buf (b_valid b) x (b_dev b) (b_blockno b) (b_refcnt b) (b_prev b) (b_next b) (b_data b).
Definition set_brefcnt x b := mk_buf (b_valid b) (b_disk b) (b_dev b) (b_blockno b) x (b_prev b) (b_next b) (b_data b).
Definition set_bprev x b := mk_buf (b_valid b) (b_disk b) (b_dev b) (b_blockno b) (b_refcnt b) x (b_next b) (b_data b).
Definition set_bnext x b := mk_buf (b_valid b) (b_disk b) (b_dev b) (b_blockno b) (b_refcnt b) (b_prev b) x (b_data b).
Definition set_bdata x b := mk_buf (b_valid b) (b_disk b) (b_dev b) (b_blockno b) (b_refcnt b) (b_prev b) (b_next b) x.

Definition set_outstanding x l := mk_log (lg_start l) x (lg_committing l) (lg_dev l) (lg_n l) (lg_block l).
Definition set_committing x l := mk_log (lg_start l) (lg_outstanding l) x (lg_dev l) (lg_n l) (lg_block l).
Definition set_lgn x l := mk_log (lg_start l) (lg_outstanding l) (lg_committing l) (lg_dev l) x (lg_block l).
Definition set_lgblock x l := mk_log (lg_start l) (lg_outstanding l) (lg_committing l) (lg_dev l) (lg_n l) x.

Definition set_iref x p := mk_inode (i_dev p) (i_inum p) x (i_valid p) (i_d p).
Definition set_ivalid x p := mk_inode (i_dev p) (i_inum p) (i_ref p) x (i_d p).
Definition set_id x p := mk_inode (i_dev p) (i_inum p) (i_ref p) (i_valid p) x.

Definition set_ditype x d := mk_dinode x (di_major d) (di_minor d) (di_nlink d) (di_size d) (di_addrs d).
Definition set_dinlink x d := mk_dinode (di_type d) (di_major d) (di_minor d) x (di_size d) (di_addrs d).
Definition set_disize x d := mk_dinode (di_type d) (di_major d) (di_minor d) (di_nlink d) x (di_addrs d).
Definition set_diaddrs x d := mk_dinode (di_type d) (di_major d) (di_minor d) (di_nlink d) (di_size d) x.
