(* ===== verification/XvKernel.v ===== *)
(** The state of the xv6 kernel and the effects of its code: process table,
    per-CPU data, spinlocks (kernel/spinlock.c), physical memory, the tables of
    shared memory, message queues and mutexes.  Kernel code is a resumption: it
    runs until it returns, panics, spins on a lock, or switches to the scheduler
    ([sched] calls [swtch]), in which case the rest of the code waits for the
    state in which the scheduler switches back.  [wpk] is the predicate
    transformer of kernel code under a rely condition on what happens meanwhile. *)

From S2P Require Import Prelude XvMem XvFsTypes.

(** * Data *)

(** Spinlocks, by the object they are embedded in. *)
Inductive lockid :=
  | LProc (i : nat)        (* proc[i].lock *)
  | LWait                  (* wait_lock *)
  | LPid                   (* pid_lock *)
  | LKmem                  (* kmem.lock *)
  | LMsgq                  (* msgqlock *)
  | LShm                   (* shmlock *)
  | LTicks                 (* tickslock *)
  | LPipe (a : Z)          (* the lock of the pipe at [a] *)
  | LFtable                (* ftable.lock *)
  | LSleep (a : sleepid)   (* the spinlock inside the sleep lock *)
  | LBcache                (* bcache.lock *)
  | LLog                   (* log.lock *)
  | LItable                (* itable.lock *)
  | LVdisk                 (* disk.vdisk_lock *)
  | LCons                  (* cons.lock *)
  | LUart.                 (* tx_lock *)

#[global] Instance lockid_eq_dec : EqDecision lockid.
Proof. solve_decision. Defined.

#[global] Instance lockid_countable : Countable lockid.
Proof.
  refine (inj_countable'
    (fun l => match l with
      | LProc i => (0%nat, Z.of_nat i) | LWait => (1%nat, 0) | LPid => (2%nat, 0) | LKmem => (3%nat, 0)
      | LMsgq => (4%nat, 0) | LShm => (5%nat, 0) | LTicks => (6%nat, 0) | LPipe a => (7%nat, a)
      | LFtable => (8%nat, 0) | LSleep (SBuf b) => (9%nat, Z.of_nat b) | LSleep (SInode i) => (10%nat, Z.of_nat i)
      | LBcache => (11%nat, 0) | LLog => (12%nat, 0) | LItable => (13%nat, 0) | LVdisk => (14%nat, 0)
      | LCons => (15%nat, 0) | LUart => (16%nat, 0) end)
    (fun c => match c with
      | (0%nat, z) => LProc (Z.to_nat z) | (1%nat, _) => LWait | (2%nat, _) => LPid | (3%nat, _) => LKmem
      | (4%nat, _) => LMsgq | (5%nat, _) => LShm | (6%nat, _) => LTicks | (7%nat, a) => LPipe a
      | (8%nat, _) => LFtable | (9%nat, z) => LSleep (SBuf (Z.to_nat z)) | (10%nat, z) => LSleep (SInode (Z.to_nat z))
      | (11%nat, _) => LBcache | (12%nat, _) => LLog | (13%nat, _) => LItable | (14%nat, _) => LVdisk
      | (15%nat, _) => LCons | (_, _) => LUart end) _).
  intros [| | | | | | | | |[]| | | | | |]; by rewrite ?Nat2Z.id.
Defined.

(** Sleep channels: the addresses the code passes to [sleep] and [wakeup]. *)
Inductive chan :=
  | CProc (i : nat)        (* a struct proc, for wait *)
  | CMutex (id : Z)        (* &kmutex_table[id] *)
  | CTicks
  | CPipeRead (a : Z)      (* &pi->nread *)
  | CPipeWrite (a : Z)     (* &pi->nwrite *)
  | CSleep (a : sleepid)   (* a sleep lock *)
  | CLog                   (* &log *)
  | CBuf (b : nat)         (* a struct buf, for its disk request *)
  | CDescs                 (* &disk.free[0] *)
  | CCons                  (* &cons.r *)
  | CUart.                 (* &tx_chan *)

#[global] Instance chan_eq_dec : EqDecision chan.
Proof. solve_decision. Defined.

Inductive procstate := UNUSED | USED | SLEEPING | RUNNABLE | RUNNING | ZOMBIE.

#[global] Instance procstate_eq_dec : EqDecision procstate.
Proof. solve_decision. Defined.

(** The value of the enumeration constant. *)
Definition state_code (s : procstate) : Z :=
  match s with UNUSED => 0 | USED => 1 | SLEEPING => 2 | RUNNABLE => 3 | RUNNING => 4 | ZOMBIE => 5 end.

(** The registers of [struct trapframe] that kernel code reads or writes by
    name; [tf_rest] stands for the others, the first of which is the stack
    pointer: they are only copied, and the stack pointer is set by exec. *)
Record trapframe := mk_tf {
  tf_epc : Z;
  tf_ra : Z;
  tf_a : list Z;           (* a0 .. a7 *)
  tf_rest : list Z;
}.

Record proc := mk_proc {
  p_state : procstate;
  p_chan : option chan;
  p_killed : Z;
  p_frozen : Z;
  p_xstate : Z;
  p_pid : Z;
  p_parent : option nat;   (* index in the table *)
  p_kstack : Z;
  p_sz : Z;
  p_pagetable : Z;
  p_trapframe : Z;         (* the page *)
  p_tf : trapframe;        (* its contents *)
  p_ofile : list (option nat);  (* indices in the file table *)
  p_cwd : Z;               (* an inode; 0: none *)
  p_name : bytes;
  p_shm_va : list Z;
}.

Record cpu := mk_cpu {
  c_id : Z;                (* hartid *)
  c_proc : option nat;
  c_noff : Z;
  c_intena : bool;
  c_sie : bool;            (* interrupts enabled now *)
}.

(** [struct shmseg]. *)
Record shmseg := mk_shm {
  sh_used : Z;
  sh_key : Z;
  sh_size : Z;
  sh_npages : Z;
  sh_pa : list Z;
  sh_refcount : Z;
}.

(** [struct message] and [struct msgqueue]. *)
Record message := mk_msg {
  ms_type : Z;
  ms_data : bytes;         (* 128 bytes *)
  ms_len : Z;
  ms_valid : Z;
}.

Record msgqueue := mk_msgq {
  mq_key : Z;
  mq_used : Z;
  mq_msg : list message;   (* 10 slots *)
  mq_count : Z;
}.

(** [struct kmutex_entry]. *)
Record kmutex_entry := mk_mutex {
  km_used : Z;
  km_locked : Z;
  km_owner_pid : Z;
}.

(** [struct pipe], without its lock. *)
Record pipe := mk_pipe {
  pi_data : bytes;         (* 512 bytes *)
  pi_nread : Z;
  pi_nwrite : Z;
  pi_readopen : Z;
  pi_writeopen : Z;
}.

(** [struct sleeplock], without its spinlock and name. *)
Record sleeplock := mk_sleeplock {
  sl_locked : Z;
  sl_pid : Z;
}.

#[local] Set Primitive Projections.

Record kst := mk_kst {
  k_cpu : cpu;                     (* the CPU that runs the code *)
  k_locks : gmap lockid Z;         (* held locks and the holder's hartid *)
  k_mem : mem;                     (* physical memory *)
  k_freelist : Z;                  (* kmem.freelist *)
  k_procs : list proc;
  k_nextpid : Z;
  k_initproc : nat;
  k_shm : list shmseg;             (* shmtable *)
  k_msgq : list msgqueue;
  k_mutex : list kmutex_entry;     (* kmutex_table *)
  k_ticks : Z;
  k_pipes : gmap Z pipe;           (* by address *)
  k_sleep : gmap sleepid sleeplock;
  k_fs : fsst;                     (* disk, buffers, log, inodes and open files *)
}.

#[local] Unset Primitive Projections.

Definition set_cpu x s := mk_kst x (k_locks s) (k_mem s) (k_freelist s) (k_procs s) (k_nextpid s) (k_initproc s) (k_shm s) (k_msgq s) (k_mutex s) (k_ticks s) (k_pipes s) (k_sleep s) (k_fs s).
Definition set_locks x s := mk_kst (k_cpu s) x (k_mem s) (k_freelist s) (k_procs s) (k_nextpid s) (k_initproc s) (k_shm s) (k_msgq s) (k_mutex s) (k_ticks s) (k_pipes s) (k_sleep s) (k_fs s).
Definition set_mem x s := mk_kst (k_cpu s) (k_locks s) x (k_freelist s) (k_procs s) (k_nextpid s) (k_initproc s) (k_shm s) (k_msgq s) (k_mutex s) (k_ticks s) (k_pipes s) (k_sleep s) (k_fs s).
Definition set_freelist x s := mk_kst (k_cpu s) (k_locks s) (k_mem s) x (k_procs s) (k_nextpid s) (k_initproc s) (k_shm s) (k_msgq s) (k_mutex s) (k_ticks s) (k_pipes s) (k_sleep s) (k_fs s).
Definition set_procs x s := mk_kst (k_cpu s) (k_locks s) (k_mem s) (k_freelist s) x (k_nextpid s) (k_initproc s) (k_shm s) (k_msgq s) (k_mutex s) (k_ticks s) (k_pipes s) (k_sleep s) (k_fs s).
Definition set_nextpid x s := mk_kst (k_cpu s) (k_locks s) (k_mem s) (k_freelist s) (k_procs s) x (k_initproc s) (k_shm s) (k_msgq s) (k_mutex s) (k_ticks s) (k_pipes s) (k_sleep s) (k_fs s).
Definition set_initproc x s := mk_kst (k_cpu s) (k_locks s) (k_mem s) (k_freelist s) (k_procs s) (k_nextpid s) x (k_shm s) (k_msgq s) (k_mutex s) (k_ticks s) (k_pipes s) (k_sleep s) (k_fs s).
Definition set_shm x s := mk_kst (k_cpu s) (k_locks s) (k_mem s) (k_freelist s) (k_procs s) (k_nextpid s) (k_initproc s) x (k_msgq s) (k_mutex s) (k_ticks s) (k_pipes s) (k_sleep s) (k_fs s).
Definition set_msgq x s := mk_kst (k_cpu s) (k_locks s) (k_mem s) (k_freelist s) (k_procs s) (k_nextpid s) (k_initproc s) (k_shm s) x (k_mutex s) (k_ticks s) (k_pipes s) (k_sleep s) (k_fs s).
Definition set_mutex x s := mk_kst (k_cpu s) (k_locks s) (k_mem s) (k_freelist s) (k_procs s) (k_nextpid s) (k_initproc s) (k_shm s) (k_msgq s) x (k_ticks s) (k_pipes s) (k_sleep s) (k_fs s).
Definition set_ticks x s := mk_kst (k_cpu s) (k_locks s) (k_mem s) (k_freelist s) (k_procs s) (k_nextpid s) (k_initproc s) (k_shm s) (k_msgq s) (k_mutex s) x (k_pipes s) (k_sleep s) (k_fs s).
Definition set_pipes x s := mk_kst (k_cpu s) (k_locks s) (k_mem s) (k_freelist s) (k_procs s) (k_nextpid s) (k_initproc s) (k_shm s) (k_msgq s) (k_mutex s) (k_ticks s) x (k_sleep s) (k_fs s).
Definition set_sleep x s := mk_kst (k_cpu s) (k_locks s) (k_mem s) (k_freelist s) (k_procs s) (k_nextpid s) (k_initproc s) (k_shm s) (k_msgq s) (k_mutex s) (k_ticks s) (k_pipes s) x (k_fs s).
Definition set_fs x s := mk_kst (k_cpu s) (k_locks s) (k_mem s) (k_freelist s) (k_procs s) (k_nextpid s) (k_initproc s) (k_shm s) (k_msgq s) (k_mutex s) (k_ticks s) (k_pipes s) (k_sleep s) x.

(** Field updates of a process. *)
Definition set_pstate x p := mk_proc x (p_chan p) (p_killed p) (p_frozen p) (p_xstate p) (p_pid p) (p_parent p) (p_kstack p) (p_sz p) (p_pagetable p) (p_trapframe p) (p_tf p) (p_ofile p) (p_cwd p) (p_name p) (p_shm_va p).
Definition set_pchan x p := mk_proc (p_state p) x (p_killed p) (p_frozen p) (p_xstate p) (p_pid p) (p_parent p) (p_kstack p) (p_sz p) (p_pagetable p) (p_trapframe p) (p_tf p) (p_ofile p) (p_cwd p) (p_name p) (p_shm_va p).
Definition set_pkilled x p := mk_proc (p_state p) (p_chan p) x (p_frozen p) (p_xstate p) (p_pid p) (p_parent p) (p_kstack p) (p_sz p) (p_pagetable p) (p_trapframe p) (p_tf p) (p_ofile p) (p_cwd p) (p_name p) (p_shm_va p).
Definition set_pfrozen x p := mk_proc (p_state p) (p_chan p) (p_killed p) x (p_xstate p) (p_pid p) (p_parent p) (p_kstack p) (p_sz p) (p_pagetable p) (p_trapframe p) (p_tf p) (p_ofile p) (p_cwd p) (p_name p) (p_shm_va p).
Definition set_pxstate x p := mk_proc (p_state p) (p_chan p) (p_killed p) (p_frozen p) x (p_pid p) (p_parent p) (p_kstack p) (p_sz p) (p_pagetable p) (p_trapframe p) (p_tf p) (p_ofile p) (p_cwd p) (p_name p) (p_shm_va p).
Definition set_ppid x p := mk_proc (p_state p) (p_chan p) (p_killed p) (p_frozen p) (p_xstate p) x (p_parent p) (p_kstack p) (p_sz p) (p_pagetable p) (p_trapframe p) (p_tf p) (p_ofile p) (p_cwd p) (p_name p) (p_shm_va p).
Definition set_pparent x p := mk_proc (p_state p) (p_chan p) (p_killed p) (p_frozen p) (p_xstate p) (p_pid p) x (p_kstack p) (p_sz p) (p_pagetable p) (p_trapframe p) (p_tf p) (p_ofile p) (p_cwd p) (p_name p) (p_shm_va p).
Definition set_pkstack x p := mk_proc (p_state p) (p_chan p) (p_killed p) (p_frozen p) (p_xstate p) (p_pid p) (p_parent p) x (p_sz p) (p_pagetable p) (p_trapframe p) (p_tf p) (p_ofile p) (p_cwd p) (p_name p) (p_shm_va p).
Definition set_psz x p := mk_proc (p_state p) (p_chan p) (p_killed p) (p_frozen p) (p_xstate p) (p_pid p) (p_parent p) (p_kstack p) x (p_pagetable p) (p_trapframe p) (p_tf p) (p_ofile p) (p_cwd p) (p_name p) (p_shm_va p).
Definition set_ppagetable x p := mk_proc (p_state p) (p_chan p) (p_killed p) (p_frozen p) (p_xstate p) (p_pid p) (p_parent p) (p_kstack p) (p_sz p) x (p_trapframe p) (p_tf p) (p_ofile p) (p_cwd p) (p_name p) (p_shm_va p).
Definition set_ptrapframe x p := mk_proc (p_state p) (p_chan p) (p_killed p) (p_frozen p) (p_xstate p) (p_pid p) (p_parent p) (p_kstack p) (p_sz p) (p_pagetable p) x (p_tf p) (p_ofile p) (p_cwd p) (p_name p) (p_shm_va p).
Definition set_ptf x p := mk_proc (p_state p) (p_chan p) (p_killed p) (p_frozen p) (p_xstate p) (p_pid p) (p_parent p) (p_kstack p) (p_sz p) (p_pagetable p) (p_trapframe p) x (p_ofile p) (p_cwd p) (p_name p) (p_shm_va p).
Definition set_pofile x p := mk_proc (p_state p) (p_chan p) (p_killed p) (p_frozen p) (p_xstate p) (p_pid p) (p_parent p) (p_kstack p) (p_sz p) (p_pagetable p) (p_trapframe p) (p_tf p) x (p_cwd p) (p_name p) (p_shm_va p).
Definition set_pcwd x p := mk_proc (p_state p) (p_chan p) (p_killed p) (p_frozen p) (p_xstate p) (p_pid p) (p_parent p) (p_kstack p) (p_sz p) (p_pagetable p) (p_trapframe p) (p_tf p) (p_ofile p) x (p_name p) (p_shm_va p).
Definition set_pname x p := mk_proc (p_state p) (p_chan p) (p_killed p) (p_frozen p) (p_xstate p) (p_pid p) (p_parent p) (p_kstack p) (p_sz p) (p_pagetable p) (p_trapframe p) (p_tf p) (p_ofile p) (p_cwd p) x (p_shm_va p).
Definition set_pshm_va x p := mk_proc (p_state p) (p_chan p) (p_killed p) (p_frozen p) (p_xstate p) (p_pid p) (p_parent p) (p_kstack p) (p_sz p) (p_pagetable p) (p_trapframe p) (p_tf p) (p_ofile p) (p_cwd p) (p_name p) x.

Definition set_noff x c := mk_cpu (c_id c) (c_proc c) x (c_intena c) (c_sie c).
Definition set_intena x c := mk_cpu (c_id c) (c_proc c) (c_noff c) x (c_sie c).
Definition set_sie x c := mk_cpu (c_id c) (c_proc c) (c_noff c) (c_intena c) x.
Definition set_cproc x c := mk_cpu (c_id c) x (c_noff c) (c_intena c) (c_sie c).

(** * Kernel code *)

(** Why code can stop without returning or panicking: it spins on a lock that
    another CPU holds, touches memory outside an object, a loop bound was too
    small, or it sleeps for good (code that waits is followed through a given
    number of wakeups). *)
Inductive stuck :=
  | Spinning (l : lockid)
  | BadAccess
  | NoFuel
  | Asleep.

Inductive kres (A : Type) : Type :=
  | KDone (a : A) (s : kst)
  | KPanic (msg : bytes)
  | KStuck (why : stuck)
  | KSwitch (s : kst) (k : kst -> kres A).
Arguments KDone {A} a s.
Arguments KPanic {A} msg.
Arguments KStuck {A} why.
Arguments KSwitch {A} s k.

Definition KM (A : Type) : Type := kst -> kres A.

Fixpoint kbind {A B} (f : A -> KM B) (r : kres A) : kres B :=
  match r with
  | KDone a s => f a s
  | KPanic m => KPanic m
  | KStuck w => KStuck w
  | KSwitch s k => KSwitch s (fun s' => kbind f (k s'))
  end.

#[global] Instance KM_ret : MRet KM := fun A a s => KDone a s.
#[global] Instance KM_bind : MBind KM := fun A B f m s => kbind f (m s).

Definition panic {A} (msg : bytes) : KM A := fun _ => KPanic msg.
Definition kstuck {A} (w : stuck) : KM A := fun _ => KStuck w.
Definition gets {A} (f : kst -> A) : KM A := fun s => KDone (f s) s.
Definition modify (f : kst -> kst) : KM unit := fun s => KDone tt (f s).
Definition swtch : KM unit := fun s => KSwitch s (fun s' => KDone tt s').

(** Memory code as kernel code. *)
Definition on_mem {A} (c : MM A) : KM A := fun s =>
  match c (k_mem s) with
  | Val a m => KDone a (set_mem m s)
  | Fault _ => KStuck BadAccess
  | Spent => KStuck NoFuel
  end.

(** [for(i = ...)]: [f] on each element of [l]. *)
Fixpoint for_each {X} (l : list X) (f : X -> KM unit) : KM unit :=
  match l with
  | [] => mret tt
  | x :: l' => f x;; for_each l' f
  end.

(** A loop that returns from its function when [f] yields a value. *)
Fixpoint for_some {X R} (l : list X) (f : X -> KM (option R)) : KM (option R) :=
  match l with
  | [] => mret None
  | x :: l' =>
      r ← f x;
      match r with
      | Some v => mret (Some v)
      | None => for_some l' f
      end
  end.

(** * Limits *)

Definition NPROC : nat := 64.
Definition NOFILE : nat := 16.
Definition NFILE : nat := 100.
Definition MAX_SHM : nat := 8.
Definition MAX_SHM_PG : Z := 4.
Definition MAX_Q : nat := 10.
Definition MAX_MSG : nat := 10.
Definition MAX_MSG_LEN : Z := 128.
Definition NKMUTEX : nat := 16.
Definition PGSIZE : Z := 4096.
Definition MAX_SHM_SIZE : Z := MAX_SHM_PG * 4096.

(** * spinlock.c *)

Definition intr_get : KM bool := gets (fun s => c_sie (k_cpu s)).
Definition intr_off : KM unit := modify (fun s => set_cpu (set_sie false (k_cpu s)) s).
Definition intr_on : KM unit := modify (fun s => set_cpu (set_sie true (k_cpu s)) s).

Definition mycpu : KM cpu := gets k_cpu.

Definition holding (lk : lockid) : KM bool :=
  gets (fun s => bool_decide (k_locks s !! lk = Some (c_id (k_cpu s)))).

Definition push_off : KM unit :=
  old ← intr_get;
  intr_off;;
  c ← mycpu;
  (if c_noff c =? 0 then modify (fun s => set_cpu (set_intena old (k_cpu s)) s) else mret tt);;
  modify (fun s => set_cpu (set_noff (c_noff (k_cpu s) + 1) (k_cpu s)) s).

Definition pop_off : KM unit :=
  i ← intr_get;
  if (i : bool) then panic (L"pop_off - interruptible")
  else
    c ← mycpu;
    if c_noff c <? 1 then panic (L"pop_off")
    else
      modify (fun s => set_cpu (set_noff (c_noff (k_cpu s) - 1) (k_cpu s)) s);;
      c ← mycpu;
      if (c_noff c =? 0) && c_intena c then intr_on else mret tt.

(** The [amoswap] loop: taken at once if the lock is free. *)
Definition test_and_set (lk : lockid) : KM unit :=
  o ← gets (fun s => k_locks s !! lk);
  match o with
  | Some _ => kstuck (Spinning lk)
  | None => modify (fun s => set_locks (<[lk := c_id (k_cpu s)]> (k_locks s)) s)
  end.

Definition acquire (lk : lockid) : KM unit :=
  push_off;;
  h ← holding lk;
  if (h : bool) then panic (L"acquire") else test_and_set lk.

Definition release (lk : lockid) : KM unit :=
  h ← holding lk;
  if negb h then panic (L"release")
  else
    modify (fun s => set_locks (delete lk (k_locks s)) s);;
    pop_off.

(** [initlock]: the lock is free. *)
Definition initlock (lk : lockid) : KM unit := modify (fun s => set_locks (delete lk (k_locks s)) s).

(** * The current process *)

(** [myproc()]; a null pointer would be dereferenced by every caller. *)
Definition myproc : KM nat :=
  push_off;;
  c ← mycpu;
  pop_off;;
  match c_proc c with
  | Some i => mret i
  | None => kstuck BadAccess
  end.

Definition get_proc (i : nat) : KM proc :=
  o ← gets (fun s => k_procs s !! i);
  match o with Some p => mret p | None => kstuck BadAccess end.

Definition upd_proc (i : nat) (f : proc -> proc) : KM unit :=
  p ← get_proc i;
  modify (fun s => set_procs (<[i := f p]> (k_procs s)) s).

(** * Specifications *)

(** How kernel code and the rest of the system depend on each other where the
    code switches to the scheduler: [guar] holds of the state it leaves, [rel]
    relates it to the states in which it may be resumed.  Under a [strict]
    protocol code must not stop otherwise; without it, a panic or an access
    outside an object ends the obligations. *)
Record protocol := mk_protocol {
  strict : bool;
  guar : kst -> Prop;
  rel : kst -> kst -> Prop;
}.

(** [wpr rely r Q]: if [rely] is strict the code does not panic, spin or leave
    an object; when it switches away, the guarantee holds and it continues in
    every state [rely] allows; when it returns, [Q] holds.  Code that waits may
    sleep for good. *)
Fixpoint wpr {A} (rely : protocol) (r : kres A) (Q : A -> kst -> Prop) : Prop :=
  match r with
  | KDone a s => Q a s
  | KPanic _ => strict rely = false
  | KStuck Asleep => True
  | KStuck _ => strict rely = false
  | KSwitch s k => guar rely s /\ forall s', rel rely s s' -> wpr rely (k s') Q
  end.

(** A process alone on the machine. *)
Definition alone : protocol := mk_protocol true (fun _ => True) eq.

Definition wpk {A} (rely : protocol) (m : KM A) (s : kst) (Q : A -> kst -> Prop) : Prop :=
  wpr rely (m s) Q.

Section rules.
Context {rely : protocol}.

Lemma wpr_mono {A} (r : kres A) (Q Q' : A -> kst -> Prop) :
  (forall a s, Q a s -> Q' a s) -> wpr rely r Q -> wpr rely r Q'.
Proof. intros HQ. induction r as [a s|m|[]|s k IH]; simpl; auto. intros [? ?]. auto. Qed.

Lemma wpr_bind {A B} (f : A -> KM B) (r : kres A) Q :
  wpr rely r (fun a s => wpk rely (f a) s Q) -> wpr rely (kbind f r) Q.
Proof. induction r as [a s|m|[]|s k IH]; simpl; auto. intros [? ?]. auto. Qed.

Lemma wpk_mono {A} (m : KM A) s (Q Q' : A -> kst -> Prop) :
  wpk rely m s Q -> (forall a s', Q a s' -> Q' a s') -> wpk rely m s Q'.
Proof. intros. by eapply wpr_mono. Qed.

(** What holds of every run, for each [x], holds for all of them at once. *)
Lemma wpr_all {A X} (r : kres A) (Q0 : A -> kst -> Prop) (Q : X -> A -> kst -> Prop) :
  wpr rely r Q0 -> (forall x, wpr rely r (Q x)) -> wpr rely r (fun a s => Q0 a s /\ forall x, Q x a s).
Proof.
  induction r as [a s|m|[]|s k IH]; simpl; auto. intros [Hg H0] HQ. split; [done|]. intros s' Hr.
  apply IH; [by apply H0|]. intros x. by apply HQ.
Qed.

Lemma wpk_all {A X} (m : KM A) s (Q0 : A -> kst -> Prop) (Q : X -> A -> kst -> Prop) :
  wpk rely m s Q0 -> (forall x, wpk rely m s (Q x)) -> wpk rely m s (fun a s' => Q0 a s' /\ forall x, Q x a s').
Proof. apply wpr_all. Qed.

Lemma wpk_bind {A B} (m : KM A) (f : A -> KM B) s Q :
  wpk rely m s (fun a s' => wpk rely (f a) s' Q) -> wpk rely (m ≫= f) s Q.
Proof. apply wpr_bind. Qed.

Lemma wpk_ret {A} (a : A) s (Q : A -> kst -> Prop) : Q a s -> wpk rely (mret a) s Q.
Proof. done. Qed.

Lemma wpk_gets {A} (f : kst -> A) s (Q : A -> kst -> Prop) : Q (f s) s -> wpk rely (gets f) s Q.
Proof. done. Qed.

Lemma wpk_modify f s (Q : unit -> kst -> Prop) : Q tt (f s) -> wpk rely (modify f) s Q.
Proof. done. Qed.

Lemma wpk_swtch s (Q : unit -> kst -> Prop) :
  guar rely s -> (forall s', rel rely s s' -> Q tt s') -> wpk rely swtch s Q.
Proof. done. Qed.

Lemma wpk_on_mem {A} (c : MM A) s a m (Q : A -> kst -> Prop) :
  c (k_mem s) = Val a m -> Q a (set_mem m s) -> wpk rely (on_mem c) s Q.
Proof. intros E HQ. unfold wpk, on_mem. by rewrite E. Qed.

Lemma wpk_for_each {X} (l : list X) (f : X -> KM unit) (I : list X -> kst -> Prop) s Q :
  I [] s ->
  (forall done x rest s', l = done ++ x :: rest -> I done s' ->
     wpk rely (f x) s' (fun _ s'' => I (done ++ [x]) s'')) ->
  (forall s', I l s' -> Q tt s') ->
  wpk rely (for_each l f) s Q.
Proof.
  intros Hi Hf HQ.
  assert (forall todo dn s', l = dn ++ todo -> I dn s' ->
    wpk rely (for_each todo f) s' (fun _ s'' => I l s'')) as H.
  { induction todo as [|x todo IH]; intros dn s' E Hs; simpl.
    - apply wpk_ret. by rewrite E, app_nil_r.
    - apply wpk_bind. eapply wpk_mono; [by eapply Hf|]. intros [] s'' Hs''.
      eapply IH; [|exact Hs'']. by rewrite E, <- app_assoc. }
  eapply wpk_mono; [by apply (H l [])|]. intros []. apply HQ.
Qed.

End rules.

Tactic Notation "kmono" tactic3(tac) := eapply wpk_mono; [tac | cbv beta].

(** * Locks *)

(** Interrupts are off inside [push_off]; outside, [intena] says whether they
    are on. *)
Definition cpu_ok (c : cpu) : Prop :=
  0 <= c_noff c /\ (0 < c_noff c -> c_sie c = false) /\ (c_noff c = 0 -> c_intena c = c_sie c).

(** One [push_off] deeper. *)
Definition cpu_off (c : cpu) : cpu :=
  mk_cpu (c_id c) (c_proc c) (c_noff c + 1) (if c_noff c =? 0 then c_sie c else c_intena c) false.

(** One [pop_off] up. *)
Definition cpu_on (c : cpu) : cpu :=
  mk_cpu (c_id c) (c_proc c) (c_noff c - 1) (c_intena c)
    (if (c_noff c - 1 =? 0) && c_intena c then true else c_sie c).

Lemma cpu_off_ok c : cpu_ok c -> cpu_ok (cpu_off c).
Proof. intros (H1 & H2 & H3). split; [simpl; lia|]. split; [done|]. simpl. lia. Qed.

Lemma cpu_on_off c : cpu_ok c -> cpu_on (cpu_off c) = c.
Proof.
  intros (H1 & H2 & H3). destruct c as [id pr noff ie sie]; unfold cpu_on, cpu_off; simpl in *.
  replace (noff + 1 - 1) with noff by lia. destruct (Z.eqb_spec noff 0) as [->|Hn]; simpl.
  - rewrite H3 by done. by destruct sie.
  - rewrite H2 by lia. done.
Qed.

Definition lock_on (l : lockid) (s : kst) : kst :=
  set_locks (<[l := c_id (k_cpu s)]> (k_locks s)) (set_cpu (cpu_off (k_cpu s)) s).

Definition lock_off (l : lockid) (s : kst) : kst :=
  set_cpu (cpu_on (k_cpu s)) (set_locks (delete l (k_locks s)) s).

(** Equality of states, and projections of updated states, one update at a time. *)
Lemma kst_ext s s' :
  k_cpu s = k_cpu s' -> k_locks s = k_locks s' -> k_mem s = k_mem s' -> k_freelist s = k_freelist s' -> k_procs s = k_procs s' -> k_nextpid s = k_nextpid s' -> k_initproc s = k_initproc s' -> k_shm s = k_shm s' -> k_msgq s = k_msgq s' -> k_mutex s = k_mutex s' -> k_ticks s = k_ticks s' -> k_pipes s = k_pipes s' -> k_sleep s = k_sleep s' -> k_fs s = k_fs s' -> s = s'.
Proof. destruct s, s'. simpl. intros. f_equal; assumption. Qed.

Ltac field_of g :=
  lazymatch g with
  | set_cpu => constr:(k_cpu) | set_locks => constr:(k_locks) | set_mem => constr:(k_mem) | set_freelist => constr:(k_freelist)
  | set_procs => constr:(k_procs) | set_nextpid => constr:(k_nextpid) | set_initproc => constr:(k_initproc) | set_shm => constr:(k_shm)
  | set_msgq => constr:(k_msgq) | set_mutex => constr:(k_mutex) | set_ticks => constr:(k_ticks) | set_pipes => constr:(k_pipes)
  | set_sleep => constr:(k_sleep) | set_fs => constr:(k_fs)
  end.

Ltac kproj := unfold lock_on, lock_off; repeat match goal with
  | |- context [?f (?g ?x ?s)] =>
      let h := field_of g in
      tryif constr_eq f h
      then let E := constr:((fun y t => eq_refl) : forall y t, f (g y t) = y) in rewrite (E x s)
      else lazymatch f with
           | _ _ => fail
           | _ => let E := constr:((fun y t => eq_refl) : forall y t, f (g y t) = f t) in rewrite (E x s)
           end
  end.

Ltac kst_eq := apply kst_ext; kproj; try reflexivity.

Section locks.
Context {rely : protocol}.

Lemma wpk_push_off s (Q : unit -> kst -> Prop) :
  Q tt (set_cpu (cpu_off (k_cpu s)) s) -> wpk rely push_off s Q.
Proof.
  intros HQ. unfold push_off. apply wpk_bind, wpk_gets, wpk_bind, wpk_modify, wpk_bind, wpk_gets, wpk_bind.
  destruct s as [[id pr noff ie sie]]; simpl in *. unfold cpu_off in HQ. simpl in HQ.
  destruct (noff =? 0).
  - apply wpk_modify, wpk_modify. exact HQ.
  - apply wpk_ret, wpk_modify. exact HQ.
Qed.

Lemma wpk_pop_off s (Q : unit -> kst -> Prop) :
  c_sie (k_cpu s) = false -> 1 <= c_noff (k_cpu s) ->
  Q tt (set_cpu (cpu_on (k_cpu s)) s) -> wpk rely pop_off s Q.
Proof.
  intros Hs Hn HQ. unfold pop_off. apply wpk_bind, wpk_gets. rewrite Hs.
  apply wpk_bind, wpk_gets. destruct (Z.ltb_spec (c_noff (k_cpu s)) 1); [lia|].
  apply wpk_bind, wpk_modify, wpk_bind, wpk_gets.
  destruct s as [[id pr noff ie sie]]; unfold cpu_on in HQ; simpl in *. subst sie.
  destruct ((noff - 1 =? 0) && ie); [apply wpk_modify|apply wpk_ret]; exact HQ.
Qed.

Lemma wpk_acquire l s (Q : unit -> kst -> Prop) :
  k_locks s !! l = None -> Q tt (lock_on l s) -> wpk rely (acquire l) s Q.
Proof.
  intros Hl HQ. unfold acquire. apply wpk_bind, wpk_push_off, wpk_bind, wpk_gets. simpl.
  rewrite bool_decide_eq_false_2 by congruence. unfold test_and_set.
  apply wpk_bind, wpk_gets. simpl. rewrite Hl. apply wpk_modify. exact HQ.
Qed.

Lemma wpk_release l s (Q : unit -> kst -> Prop) :
  k_locks s !! l = Some (c_id (k_cpu s)) -> c_sie (k_cpu s) = false -> 1 <= c_noff (k_cpu s) ->
  Q tt (lock_off l s) -> wpk rely (release l) s Q.
Proof.
  intros Hl Hs Hn HQ. unfold release. apply wpk_bind, wpk_gets.
  rewrite bool_decide_eq_true_2 by done. apply wpk_bind, wpk_modify. by apply wpk_pop_off.
Qed.

(** Releasing the lock taken last, after changes to anything but locks and CPU. *)
Lemma wpk_release_on l s s1 (Q : unit -> kst -> Prop) :
  k_locks s1 = k_locks (lock_on l s) -> k_cpu s1 = k_cpu (lock_on l s) ->
  cpu_ok (k_cpu s) -> k_locks s !! l = None ->
  Q tt (set_locks (k_locks s) (set_cpu (k_cpu s) s1)) -> wpk rely (release l) s1 Q.
Proof.
  intros El Ec Hok Hl HQ. apply wpk_release.
  - rewrite El, Ec. apply lookup_insert_eq.
  - by rewrite Ec.
  - rewrite Ec. simpl. destruct Hok. lia.
  - unfold lock_off. rewrite El, Ec. simpl. rewrite cpu_on_off, delete_insert_id by done. exact HQ.
Qed.

Lemma wpk_myproc i s (Q : nat -> kst -> Prop) :
  c_proc (k_cpu s) = Some i -> cpu_ok (k_cpu s) -> Q i s -> wpk rely myproc s Q.
Proof.
  intros Hp Hok HQ. unfold myproc. apply wpk_bind, wpk_push_off, wpk_bind, wpk_gets, wpk_bind.
  apply wpk_pop_off; [done|simpl; destruct Hok; lia|]. simpl. rewrite Hp. apply wpk_ret.
  rewrite cpu_on_off by done. by destruct s.
Qed.

Lemma wpk_get_proc i p s (Q : proc -> kst -> Prop) :
  k_procs s !! i = Some p -> Q p s -> wpk rely (get_proc i) s Q.
Proof. intros Hp HQ. unfold get_proc. apply wpk_bind, wpk_gets. by rewrite Hp. Qed.

Lemma wpk_upd_proc i f p s (Q : unit -> kst -> Prop) :
  k_procs s !! i = Some p -> Q tt (set_procs (<[i := f p]> (k_procs s)) s) -> wpk rely (upd_proc i f) s Q.
Proof. intros Hp HQ. unfold upd_proc. apply wpk_bind. eapply wpk_get_proc; [done|]. by apply wpk_modify. Qed.

End locks.

#[global] Arguments push_off : simpl never.
#[global] Arguments pop_off : simpl never.
#[global] Arguments acquire : simpl never.
#[global] Arguments release : simpl never.
#[global] Arguments myproc : simpl never.
