(* ===== verification/XvMsg.v ===== *)
(** System-call arguments (kernel/syscall.c), the interface through which system
    calls copy to and from user memory, and the message queues (kernel/msg.c and
    the msgget, sendmsg, recvmsg and msgcount calls of kernel/sysproc.c). *)

From S2P Require Import Prelude XvMem XvKernel.

(** * Loops that look for something *)

(** A [for] over the indices of [xs] that leaves the function at the first
    element that passes [test]. *)
Lemma wpk_for_find {X R} rely (xs : list X) (test : X -> bool) (f : nat -> KM (option R)) s
    (Q : option R -> kst -> Prop) :
  (forall i x, xs !! i = Some x -> test x = false -> wpk rely (f i) s (fun r s' => r = None /\ s' = s)) ->
  (forall i x, find_index test xs = Some i -> xs !! i = Some x -> test x = true ->
     wpk rely (f i) s (fun r s' => is_Some r /\ Q r s')) ->
  (find_index test xs = None -> Q None s) ->
  wpk rely (for_some (seq 0 (length xs)) f) s Q.
Proof.
  intros Hno Hyes Hnone.
  assert (forall k ys, xs = take k xs ++ ys -> Forall (fun x => test x = false) (take k xs) ->
    (k + length ys = length xs)%nat ->
    wpk rely (for_some (seq k (length ys)) f) s Q) as H.
  { intros k ys. revert k. induction ys as [|y ys IH]; intros k Hxs Hk Hlen; simpl.
    - apply wpk_ret, Hnone, find_index_None. by rewrite Hxs, app_nil_r.
    - assert (length (take k xs) = k) as Hkl by (rewrite length_take; simpl in Hlen; lia).
      assert (xs !! k = Some y) as Hy.
      { rewrite Hxs, lookup_app_r by lia. by rewrite Hkl, Nat.sub_diag. }
      apply wpk_bind. destruct (test y) eqn:Ht.
      + kmono (apply (Hyes k y)); [|done..|].
        * apply find_index_Some. exists y. split; [done|]. split; [done|]. intros i z Hi Hz.
          apply (Forall_lookup_1 _ _ i z Hk). by rewrite lookup_take_lt.
        * intros r s' [[v ->] HQ]. by apply wpk_ret.
      + kmono (by apply (Hno k y)). intros r s' [-> ->]. apply IH.
        * rewrite (take_S_r _ _ _ Hy), <- app_assoc. done.
        * rewrite (take_S_r _ _ _ Hy). apply Forall_app. by split; [|constructor].
        * simpl in Hlen. lia. }
  specialize (H 0%nat xs). simpl in H. apply H; [done|constructor|lia].
Qed.

(** * Arguments *)

(** [argraw]: the registers a0 to a5 of the trap frame. *)
Definition argraw (n : nat) : KM Z :=
  i ← myproc;
  p ← get_proc i;
  if (5 <? Z.of_nat n) then panic (L"argraw")
  else match tf_a (p_tf p) !! n with
       | Some v => mret v
       | None => kstuck BadAccess
       end.

Definition argint (n : nat) : KM Z := v ← argraw n; mret (i32 v).
Definition argaddr (n : nat) : KM Z := argraw n.

(** The contents of a register. *)
Definition is_u64 (z : Z) : Prop := 0 <= z < 2 ^ 64.

(** Process [i] runs with register arguments [args]; the CPU is in order. *)
Definition calling (i : nat) (args : list Z) (s : kst) : Prop :=
  cpu_ok (k_cpu s) /\ c_proc (k_cpu s) = Some i /\
  exists p, k_procs s !! i = Some p /\ args `prefix_of` tf_a (p_tf p).

Lemma wpk_argraw rely n i args v s (Q : Z -> kst -> Prop) :
  calling i args s -> args !! n = Some v -> (n <= 5)%nat -> Q v s -> wpk rely (argraw n) s Q.
Proof.
  intros (Hc & Hp & p & Hi & [rest Ha]) Hn H5 HQ. unfold argraw. apply wpk_bind.
  eapply wpk_myproc; [done|done|]. apply wpk_bind. eapply wpk_get_proc; [done|].
  destruct (Z.ltb_spec 5 (Z.of_nat n)); [lia|]. rewrite Ha, lookup_app_l by (by eapply lookup_lt_Some).
  by rewrite Hn.
Qed.

Lemma wpk_argint rely n i args v s (Q : Z -> kst -> Prop) :
  calling i args s -> args !! n = Some v -> (n <= 5)%nat -> Q (i32 v) s -> wpk rely (argint n) s Q.
Proof. intros. apply wpk_bind. by eapply wpk_argraw. Qed.

(** * Copying to and from user memory *)

(** What the message, wait and pipe code needs of the virtual-memory layer.
    [copyin] yields the result and the bytes it stored (all of them on success);
    [copyout] takes the kernel object it copies from and the length. *)
Class UserCopy := {
  copyin : Z -> Z -> Z -> KM (Z * bytes);
  copyout : Z -> Z -> bytes -> Z -> KM Z;
  (** The page tables and the allocator are in order. *)
  vm_ok : kst -> Prop;
  (** User memory of a page table holds these bytes; it has this much room that
      can be written. *)
  user_has : kst -> Z -> Z -> bytes -> Prop;
  user_room : kst -> Z -> Z -> Z -> Prop;
}.

(** Only memory and the allocator changed. *)
Definition mem_only (s s' : kst) : Prop := s' = set_mem (k_mem s') (set_freelist (k_freelist s') s).

(** Memory, allocator and page-table pointers are the same. *)
Definition same_vm (s s' : kst) : Prop :=
  k_mem s' = k_mem s /\ k_freelist s' = k_freelist s /\
  (p_pagetable <$> k_procs s') = (p_pagetable <$> k_procs s) /\ (p_sz <$> k_procs s') = (p_sz <$> k_procs s).

(** Process [i] is in the table with a page table of its own, [pt]. *)
Definition user_ctx (i : nat) (pt : Z) (s : kst) : Prop :=
  exists p, k_procs s !! i = Some p /\ p_pagetable p = pt /\ pt <> 0.

(** The state in which the running process [i] copies to and from its memory. *)
Definition copy_ctx {U : UserCopy} (i : nat) (pt : Z) (s : kst) : Prop :=
  vm_ok s /\ cpu_ok (k_cpu s) /\ c_proc (k_cpu s) = Some i /\ user_ctx i pt s /\ k_locks s !! LKmem = None.

Class UserCopyLaws (U : UserCopy) := {
  vm_ok_frame s s' : vm_ok s -> same_vm s s' -> vm_ok s';
  user_has_frame s s' pt va l : user_has s pt va l -> k_mem s' = k_mem s -> user_has s' pt va l;
  user_room_frame s s' pt va n : user_room s pt va n -> k_mem s' = k_mem s -> user_room s' pt va n;
  user_has_byte s pt va l k x :
    user_has s pt va l -> l !! k = Some x -> is_u64 (va + Z.of_nat k) /\ user_has s pt (va + Z.of_nat k) [x];
  user_has_part s pt va l k n :
    user_has s pt va l -> (k + n <= length l)%nat -> (n <> 0)%nat -> is_u64 (va + Z.of_nat k) /\ user_has s pt (va + Z.of_nat k) (take n (drop k l));
  (** In any case the copy ends with 0 or -1 and touches nothing but user memory;
      what was copied in is what user memory holds. *)
  wpk_copyin rely pt va n s i :
    copy_ctx i pt s -> is_u64 va -> 0 <= n ->
    wpk rely (copyin pt va n) s (fun '(rc, data) s' => mem_only s s' /\ vm_ok s' /\
      (rc = 0 /\ len data = n \/ rc = -1 /\ len data <= n) /\ Forall is_byte data /\
      (rc = 0 -> user_has s' pt va data));
  wpk_copyout rely pt va src n s i :
    copy_ctx i pt s -> is_u64 va -> 0 <= n <= len src -> Forall is_byte src ->
    wpk rely (copyout pt va src n) s (fun rc s' => mem_only s s' /\ vm_ok s' /\ (rc = 0 \/ rc = -1));
  (** Mapped memory is copied. *)
  wpk_copyin_has rely pt va data s i :
    copy_ctx i pt s -> is_u64 va -> user_has s pt va data ->
    wpk rely (copyin pt va (len data)) s (fun '(rc, d) s' => rc = 0 /\ d = data /\ s' = s);
  wpk_copyout_room rely pt va src n s i :
    copy_ctx i pt s -> is_u64 va -> user_room s pt va n -> 0 <= n <= len src -> Forall is_byte src ->
    wpk rely (copyout pt va src n) s (fun rc s' => rc = 0 /\ mem_only s s' /\ vm_ok s' /\
      user_has s' pt va (take (Z.to_nat n) src));
  (** A buffer is filled byte by byte: what was written before stays. *)
  wpk_copyout_next rely pt va n l b s i :
    copy_ctx i pt s -> user_room s pt va n -> user_has s pt va l -> len l < n -> is_byte b ->
    wpk rely (copyout pt (u64 (va + len l)) [b] 1) s (fun rc s' => rc = 0 /\ mem_only s s' /\ vm_ok s' /\
      user_room s' pt va n /\ user_has s' pt va (l ++ [b]));
}.

Module Msg.
Section msg.
Context `{U : UserCopy}.

(** * Queues *)

Definition get_q (i : nat) : KM msgqueue :=
  o ← gets (fun s => k_msgq s !! i);
  match o with Some q => mret q | None => kstuck BadAccess end.

Definition upd_q (i : nat) (f : msgqueue -> msgqueue) : KM unit :=
  q ← get_q i;
  modify (fun s => set_msgq (<[i := f q]> (k_msgq s)) s).

(** [msginit]: nothing used, every slot invalid. *)
Definition clear_msg (m : message) : message := mk_msg 0 (ms_data m) 0 0.

Definition msginit : KM unit :=
  initlock LMsgq;;
  for_each (seq 0 MAX_Q) (fun i =>
    upd_q i (fun q => mk_msgq (mq_key q) 0 (clear_msg <$> mq_msg q) 0)).

Definition sys_msgget : KM Z :=
  key ← argint 0;
  acquire LMsgq;;
  r ← for_some (seq 0 MAX_Q) (fun i =>
        q ← get_q i;
        if negb (mq_used q =? 0) && (mq_key q =? key) then
          release LMsgq;; mret (Some (Z.of_nat i))
        else mret None);
  match r with
  | Some v => mret v
  | None =>
      r ← for_some (seq 0 MAX_Q) (fun i =>
            q ← get_q i;
            if mq_used q =? 0 then
              upd_q i (fun q => mk_msgq key 1 (mq_msg q) 0);;
              release LMsgq;; mret (Some (Z.of_nat i))
            else mret None);
      match r with
      | Some v => mret v
      | None => release LMsgq;; mret (-1)
      end
  end.

(** [quid < 0 || quid >= MAX_Q || !msgq[quid].used]. *)
Definition bad_queue (quid : Z) : KM bool :=
  if (quid <? 0) || (Z.of_nat MAX_Q <=? quid) then mret true
  else q ← get_q (Z.to_nat quid); mret (mq_used q =? 0).

(** The first slot of the queue that passes [test], or -1. *)
Definition find_slot (q : msgqueue) (test : message -> bool) : Z :=
  match find_index test (mq_msg q) with Some i => Z.of_nat i | None => -1 end.

Definition set_msg (idx : nat) (m : message) (q : msgqueue) : msgqueue :=
  mk_msgq (mq_key q) (mq_used q) (<[idx := m]> (mq_msg q)) (mq_count q).

(** [memmove] of the copied bytes over the start of the buffer. *)
Definition overwrite (data old : bytes) : bytes := data ++ drop (length data) old.

Definition sys_sendmsg : KM Z :=
  quid ← argint 0;
  type ← argint 1;
  msgptr ← argaddr 2;
  len ← argint 3;
  acquire LMsgq;;
  bad ← bad_queue quid;
  if (bad : bool) then release LMsgq;; mret (-1)
  else if (len <=? 0) || (MAX_MSG_LEN <? len) then release LMsgq;; mret (-1)
  else
    let qi := Z.to_nat quid in
    q ← get_q qi;
    if mq_count q =? Z.of_nat MAX_MSG then release LMsgq;; mret (-1)
    else
      let idx := find_slot q (fun m => ms_valid m =? 0) in
      if idx =? -1 then release LMsgq;; mret (-1)
      else
        match mq_msg q !! Z.to_nat idx with
        | None => kstuck BadAccess
        | Some m =>
            upd_q qi (set_msg (Z.to_nat idx) (mk_msg type (ms_data m) len (ms_valid m)));;
            i ← myproc;
            p ← get_proc i;
            '(rc, data) ← copyin (p_pagetable p) msgptr (u64 len);
            upd_q qi (set_msg (Z.to_nat idx) (mk_msg type (overwrite data (ms_data m)) len (ms_valid m)));;
            if rc <? 0 then release LMsgq;; mret (-1)
            else
              upd_q qi (fun q => mk_msgq (mq_key q) (mq_used q)
                (<[Z.to_nat idx := mk_msg type (overwrite data (ms_data m)) len 1]> (mq_msg q))
                (i32 (mq_count q + 1)));;
              release LMsgq;;
              mret 0
        end.

Definition sys_recvmsg : KM Z :=
  quid ← argint 0;
  type ← argint 1;
  msgptr ← argaddr 2;
  bufflen ← argint 3;
  acquire LMsgq;;
  bad ← bad_queue quid;
  if (bad : bool) then release LMsgq;; mret (-1)
  else
    let qi := Z.to_nat quid in
    q ← get_q qi;
    let idx := find_slot q (fun m => negb (ms_valid m =? 0) && (ms_type m =? type)) in
    if idx =? -1 then release LMsgq;; mret (-1)
    else
      match mq_msg q !! Z.to_nat idx with
      | None => kstuck BadAccess
      | Some m =>
          let copylen := if ms_len m <? bufflen then ms_len m else bufflen in
          i ← myproc;
          p ← get_proc i;
          rc ← copyout (p_pagetable p) msgptr (ms_data m) (u64 copylen);
          if rc <? 0 then release LMsgq;; mret (-1)
          else
            upd_q qi (fun q => mk_msgq (mq_key q) (mq_used q)
              (<[Z.to_nat idx := mk_msg (ms_type m) (ms_data m) (ms_len m) 0]> (mq_msg q))
              (i32 (mq_count q - 1)));;
            release LMsgq;;
            mret copylen
      end.

Definition sys_msgcount : KM Z :=
  quid ← argint 0;
  acquire LMsgq;;
  bad ← bad_queue quid;
  if (bad : bool) then release LMsgq;; mret (-1)
  else
    q ← get_q (Z.to_nat quid);
    let count := mq_count q in
    release LMsgq;;
    mret count.

(** * What the queues promise *)

(** The messages in a queue, in slot order: type and contents. *)
Definition contents (q : msgqueue) : list (Z * bytes) :=
  omap (fun m => if ms_valid m =? 0 then None else Some (ms_type m, take (Z.to_nat (ms_len m)) (ms_data m)))
    (mq_msg q).

(** A slot in order: 128 bytes of data; a valid message has between 1 and 128. *)
Definition msg_ok (m : message) : Prop :=
  len (ms_data m) = MAX_MSG_LEN /\ Forall is_byte (ms_data m) /\
  (ms_valid m <> 0 -> 1 <= ms_len m <= MAX_MSG_LEN).

(** A queue in order: ten slots, and [count] is the number of messages. *)
Definition queue_ok (q : msgqueue) : Prop :=
  length (mq_msg q) = MAX_MSG /\ Forall msg_ok (mq_msg q) /\
  mq_count q = len (contents q) /\ (mq_used q = 0 -> contents q = []).

Definition queues_ok (qs : list msgqueue) : Prop :=
  length qs = MAX_Q /\ Forall queue_ok qs /\
  (* keys name queues *)
  (forall i j q q', qs !! i = Some q -> qs !! j = Some q' ->
     mq_used q <> 0 -> mq_used q' <> 0 -> mq_key q = mq_key q' -> i = j).

End msg.
End Msg.
