(* ===== verification/XvMsgProofs.v ===== *)
(** The message queues keep their invariant and implement bags of messages:
    [msgget] finds or creates the queue of a key, [sendmsg] adds the caller's
    bytes, [recvmsg] takes the first message of the requested type, [msgcount]
    counts, and a message arrives as it was sent. *)

From S2P Require Import Prelude XvMem XvKernel XvMsg.
Import Msg.

Module MsgProofs.

(** * Slots *)

Lemma alter_is_insert {A} (f : A -> A) (l : list A) i x : l !! i = Some x -> alter f i l = <[i := f x]> l.
Proof.
  revert i. induction l as [|y l IH]; intros [|i] H; simpl in *; simplify_eq; [done|].
  f_equal. by apply IH.
Qed.

Definition view (m : message) : option (Z * bytes) :=
  if ms_valid m =? 0 then None else Some (ms_type m, take (Z.to_nat (ms_len m)) (ms_data m)).

Section slots.
Context {A B : Type} (v : A -> option B).

Lemma omap_insert_same (l : list A) i x y : l !! i = Some x -> v x = v y -> omap v (<[i := y]> l) = omap v l.
Proof.
  intros Hx Hv. rewrite <- (take_drop_middle l i x Hx) at 2.
  rewrite insert_take_drop by (by eapply lookup_lt_Some). rewrite !omap_app. simpl. by rewrite Hv.
Qed.

Lemma omap_insert_some (l : list A) i x y b :
  l !! i = Some x -> v x = None -> v y = Some b -> omap v (<[i := y]> l) ≡ₚ b :: omap v l.
Proof.
  intros Hx Hvx Hvy. rewrite <- (take_drop_middle l i x Hx) at 2.
  rewrite insert_take_drop by (by eapply lookup_lt_Some). rewrite !omap_app. simpl.
  rewrite Hvx, Hvy. by rewrite <- Permutation_middle.
Qed.

Lemma omap_insert_none (l : list A) i x y b :
  l !! i = Some x -> v x = Some b -> v y = None -> omap v l ≡ₚ b :: omap v (<[i := y]> l).
Proof.
  intros Hx Hvx Hvy. rewrite <- (take_drop_middle l i x Hx) at 1.
  rewrite insert_take_drop by (by eapply lookup_lt_Some). rewrite !omap_app. simpl.
  rewrite Hvx, Hvy. by rewrite <- Permutation_middle.
Qed.

Lemma omap_all (l : list A) : Forall (fun x => is_Some (v x)) l -> length (omap v l) = length l.
Proof.
  induction 1 as [|x l [b Hb] _ IH]; simpl; [done|]. rewrite Hb. simpl. f_equal. exact IH.
Qed.

Lemma omap_length_le (l : list A) : (length (omap v l) <= length l)%nat.
Proof. induction l as [|x l IH]; simpl; [lia|]. destruct (v x); simpl; unfold omap in IH; lia. Qed.
End slots.

Lemma contents_view q : contents q = omap view (mq_msg q).
Proof. done. Qed.

(** * Shared steps *)

Section proofs.
Context {U : UserCopy} {UL : UserCopyLaws U}.

Lemma calling_lock_on i args l s : calling i args s -> calling i args (lock_on l s).
Proof. intros (Hc & Hp & Hi). split; [by apply cpu_off_ok|]. by split. Qed.

Lemma calling_set_msgq i args x s : calling i args s -> calling i args (set_msgq x s).
Proof. done. Qed.

Lemma wpk_get_q rely i q s (Q : msgqueue -> kst -> Prop) :
  k_msgq s !! i = Some q -> Q q s -> wpk rely (get_q i) s Q.
Proof. intros Hq HQ. unfold get_q. apply wpk_bind, wpk_gets. by rewrite Hq. Qed.

Lemma wpk_upd_q rely i f q s (Q : unit -> kst -> Prop) :
  k_msgq s !! i = Some q -> Q tt (set_msgq (<[i := f q]> (k_msgq s)) s) -> wpk rely (upd_q i f) s Q.
Proof. intros Hq HQ. unfold upd_q. apply wpk_bind. eapply wpk_get_q; [done|]. by apply wpk_modify. Qed.

(** Give back [l], taken in state [s]. *)
Lemma wpk_unlock {A} rely l s s1 (m : KM A) Q :
  k_locks s1 = k_locks (lock_on l s) -> k_cpu s1 = k_cpu (lock_on l s) ->
  cpu_ok (k_cpu s) -> k_locks s !! l = None ->
  wpk rely m (set_locks (k_locks s) (set_cpu (k_cpu s) s1)) Q ->
  wpk rely (release l;; m) s1 Q.
Proof. intros. apply wpk_bind. by eapply wpk_release_on. Qed.

Lemma wpk_unlock_to {A} rely l s s1 s' (m : KM A) Q :
  set_locks (k_locks s) (set_cpu (k_cpu s) s1) = s' ->
  k_locks s1 = k_locks (lock_on l s) -> k_cpu s1 = k_cpu (lock_on l s) ->
  cpu_ok (k_cpu s) -> k_locks s !! l = None ->
  wpk rely m s' Q -> wpk rely (release l;; m) s1 Q.
Proof. intros <- ????. by apply wpk_unlock. Qed.

Lemma unlock_id l s : set_locks (k_locks s) (set_cpu (k_cpu s) (lock_on l s)) = s.
Proof. by destruct s. Qed.

(** What every call of this file needs: process [i] calls with [args], the
    message lock is free and the queues are in order. *)
Definition msg_pre (i : nat) (args : list Z) (s : kst) : Prop :=
  calling i args s /\ k_locks s !! LMsgq = None /\ queues_ok (k_msgq s).

Lemma queues_ok_lookup qs i q : queues_ok qs -> qs !! i = Some q -> queue_ok q.
Proof. intros (_ & Hq & _) Hi. exact (Forall_lookup_1 _ _ _ _ Hq Hi). Qed.

(** [quid] names a queue in use. *)
Definition valid_queue (quid : Z) (qs : list msgqueue) (q : msgqueue) : Prop :=
  0 <= quid < Z.of_nat MAX_Q /\ qs !! Z.to_nat quid = Some q /\ mq_used q <> 0.

Lemma wpk_bad_queue rely quid s (Q : bool -> kst -> Prop) :
  length (k_msgq s) = MAX_Q ->
  (forall q, valid_queue quid (k_msgq s) q -> Q false s) ->
  ((forall q, ~ valid_queue quid (k_msgq s) q) -> Q true s) ->
  wpk rely (bad_queue quid) s Q.
Proof.
  intros Hl Hf Ht. unfold bad_queue.
  destruct (Z.ltb_spec quid 0), (Z.leb_spec (Z.of_nat MAX_Q) quid); cbn [orb];
    try (apply wpk_ret, Ht; intros q [? _]; lia).
  destruct (lookup_lt_is_Some_2 (k_msgq s) (Z.to_nat quid)) as [q Hq]; [rewrite Hl; lia|].
  apply wpk_bind. eapply wpk_get_q; [done|]. apply wpk_ret. destruct (Z.eqb_spec (mq_used q) 0).
  - apply Ht. intros q' (_ & Hq' & Hu). by simplify_eq.
  - by apply (Hf q).
Qed.

(** Replacing a queue by one with the same key and use. *)
Lemma queues_ok_insert qs i q q' :
  queues_ok qs -> qs !! i = Some q -> queue_ok q' -> mq_key q' = mq_key q -> mq_used q' = mq_used q ->
  queues_ok (<[i := q']> qs).
Proof.
  intros (Hl & Hq & Hk) Hi Hq' Hkey Hused. split; [by rewrite length_insert|].
  split; [by apply Forall_insert|]. intros a b x y Ha Hb Hx Hy E.
  assert (forall j z, <[i := q']> qs !! j = Some z -> exists z', qs !! j = Some z' /\ mq_key z = mq_key z' /\ mq_used z = mq_used z') as H.
  { intros j z Hj. destruct (decide (i = j)) as [<-|Hne].
    - rewrite list_lookup_insert_eq in Hj by (by eapply lookup_lt_Some). simplify_eq. eauto.
    - rewrite list_lookup_insert_ne in Hj by done. eauto. }
  destruct (H a x Ha) as (x' & Hx' & E1 & E2), (H b y Hb) as (y' & Hy' & E3 & E4).
  apply (Hk a b x' y'); congruence.
Qed.

(** * msgget *)

(** The queue of [key], an unused one made into it, or none. *)
Definition msgget_spec (key : Z) (qs : list msgqueue) : Z * list msgqueue :=
  match find_index (fun q => negb (mq_used q =? 0) && (mq_key q =? key)) qs with
  | Some i => (Z.of_nat i, qs)
  | None =>
      match find_index (fun q => mq_used q =? 0) qs with
      | Some i => (Z.of_nat i, alter (fun q => mk_msgq key 1 (mq_msg q) 0) i qs)
      | None => (-1, qs)
      end
  end.

Lemma wpk_msgget rely i key s :
  msg_pre i [key] s ->
  wpk rely sys_msgget s (fun r s' =>
    r = (msgget_spec (i32 key) (k_msgq s)).1 /\ s' = set_msgq (msgget_spec (i32 key) (k_msgq s)).2 s).
Proof.
  intros (Hcall & Hlock & Hq & _). pose proof Hcall as (Hcpu & _).
  assert (set_msgq (k_msgq s) s = s) as Hid by (by destruct s).
  unfold sys_msgget. apply wpk_bind. eapply wpk_argint; [done|done|lia|]. apply wpk_bind.
  apply wpk_acquire; [done|]. unfold msgget_spec. apply wpk_bind.
  rewrite <- Hq. eapply (wpk_for_find _ (k_msgq s) (fun q => negb (mq_used q =? 0) && (mq_key q =? i32 key))).
  - intros j q Hj Ht. apply wpk_bind. eapply wpk_get_q; [done|]. by rewrite Ht.
  - intros j q -> Hj Ht. apply wpk_bind. eapply wpk_get_q; [done|]. rewrite Ht.
    eapply wpk_unlock; [done|done|done|done|]. rewrite unlock_id. apply wpk_ret.
    split; [done|]. apply wpk_ret. simpl. by rewrite Hid.
  - intros ->. apply wpk_bind. eapply (wpk_for_find _ (k_msgq s) (fun q => mq_used q =? 0)).
    + intros j q Hj Ht. apply wpk_bind. eapply wpk_get_q; [done|]. by rewrite Ht.
    + intros j q -> Hj Ht. apply wpk_bind. eapply wpk_get_q; [done|]. rewrite Ht.
      apply wpk_bind. eapply wpk_upd_q; [done|].
      eapply wpk_unlock; [done|done|done|done|]. apply wpk_ret. split; [done|]. apply wpk_ret.
      split; [done|]. simpl. erewrite alter_is_insert by done. by destruct s.
    + intros ->. eapply wpk_unlock; [done|done|done|done|]. rewrite unlock_id. apply wpk_ret. simpl. by rewrite Hid.
Qed.

Lemma contents_unused q key : contents (mk_msgq key 1 (mq_msg q) 0) = contents q.
Proof. done. Qed.

Lemma msgget_ok key qs : queues_ok qs -> queues_ok (msgget_spec key qs).2.
Proof.
  intros (Hl & Hq & Hk). unfold msgget_spec.
  destruct (find_index _ qs) as [i|] eqn:E1; [done|].
  destruct (find_index (fun q => mq_used q =? 0) qs) as [i|] eqn:E2; [|done]. simpl.
  apply find_index_Some in E2 as (q & Hi & Hu & _). apply find_index_None in E1.
  assert (mq_used q = 0) as Hu0 by lia.
  assert (queue_ok q) as (Hml & Hms & Hcnt & Hem) by exact (Forall_lookup_1 _ _ _ _ Hq Hi).
  erewrite alter_is_insert by done. split; [by rewrite length_insert|]. split.
  - apply Forall_insert; [done|]. split; [done|]. split; [done|]. rewrite contents_unused, Hem by done. done.
  - intros a b x y Ha Hb Hx Hy E.
    destruct (decide (i = a)) as [<-|Ha'], (decide (i = b)) as [<-|Hb']; [done|..].
    + rewrite list_lookup_insert_eq in Ha by (by eapply lookup_lt_Some). rewrite list_lookup_insert_ne in Hb by done.
      simplify_eq. pose proof (Forall_lookup_1 _ _ _ _ E1 Hb) as Hf. simpl in E, Hf. lia.
    + rewrite list_lookup_insert_eq in Hb by (by eapply lookup_lt_Some). rewrite list_lookup_insert_ne in Ha by done.
      simplify_eq. pose proof (Forall_lookup_1 _ _ _ _ E1 Ha) as Hf. simpl in E, Hf. lia.
    + rewrite list_lookup_insert_ne in Ha, Hb by done. by apply (Hk a b x y).
Qed.

(** * sendmsg *)

(** Same messages, keys and use in every queue. *)
Definition same_messages (qs qs' : list msgqueue) : Prop :=
  (fun q => (contents q, mq_key q, mq_used q)) <$> qs' = (fun q => (contents q, mq_key q, mq_used q)) <$> qs.

Lemma same_messages_insert qs i q q' :
  qs !! i = Some q -> contents q' = contents q -> mq_key q' = mq_key q -> mq_used q' = mq_used q ->
  same_messages qs (<[i := q']> qs).
Proof.
  intros Hi Hc Hk Hu. unfold same_messages. rewrite list_fmap_insert, Hc, Hk, Hu.
  apply list_insert_id. by rewrite list_lookup_fmap, Hi.
Qed.

Lemma overwrite_ok data old :
  len data <= len old -> Forall is_byte data -> Forall is_byte old ->
  len (overwrite data old) = len old /\ Forall is_byte (overwrite data old) /\
  take (length data) (overwrite data old) = data.
Proof.
  intros Hl Hd Ho. unfold overwrite. rewrite length_app, length_drop. split; [lia|].
  split; [apply Forall_app; split; [done|by apply Forall_drop]|]. apply take_app_length.
Qed.

(** Changing a slot that holds no message for another that holds none. *)
Lemma queue_ok_free q idx m m' :
  queue_ok q -> mq_msg q !! idx = Some m -> ms_valid m = 0 -> ms_valid m' = 0 -> msg_ok m' ->
  queue_ok (set_msg idx m' q) /\ contents (set_msg idx m' q) = contents q.
Proof.
  intros (Hl & Hm & Hc & Hu) Hi Hv Hv' Hok.
  assert (contents (set_msg idx m' q) = contents q) as E.
  { rewrite !contents_view. simpl. apply (omap_insert_same view _ _ m); [done|].
    unfold view. by rewrite Hv, Hv'. }
  split; [|done]. split; [by simpl; rewrite length_insert|]. split; [by apply Forall_insert|].
  rewrite E. done.
Qed.

(** Filling a free slot. *)
Lemma queue_ok_fill q idx m m' :
  queue_ok q -> mq_msg q !! idx = Some m -> ms_valid m = 0 -> ms_valid m' <> 0 -> msg_ok m' -> mq_used q <> 0 ->
  let q' := mk_msgq (mq_key q) (mq_used q) (<[idx := m']> (mq_msg q)) (i32 (mq_count q + 1)) in
  queue_ok q' /\
  contents q' ≡ₚ (ms_type m', take (Z.to_nat (ms_len m')) (ms_data m')) :: contents q.
Proof.
  intros (Hl & Hm & Hc & Hu) Hi Hv Hv' Hok Hused q'.
  assert (contents q' ≡ₚ (ms_type m', take (Z.to_nat (ms_len m')) (ms_data m')) :: contents q) as E.
  { rewrite !contents_view. apply (omap_insert_some view _ _ m); [done|unfold view; by rewrite Hv|].
    unfold view. by destruct (Z.eqb_spec (ms_valid m') 0). }
  split; [|done]. split; [by simpl; rewrite length_insert|]. split; [by apply Forall_insert|].
  split; [|done]. rewrite E. simpl. pose proof (omap_length_le view (mq_msg q)) as Hle.
  rewrite <- contents_view, Hl in Hle. unfold MAX_MSG in Hle. rewrite i32_small by lia. lia.
Qed.

(** Why [sendmsg] may refuse: no such queue, a bad length, a full queue. *)
Definition refused (quid n : Z) (qs : list msgqueue) : Prop :=
  (forall q, ~ valid_queue quid qs q) \/ ~ 1 <= n <= MAX_MSG_LEN \/
  exists q, valid_queue quid qs q /\ length (contents q) = MAX_MSG.

(** The outcome of a [sendmsg] whose copy yields what [P] says: refused, failed
    in the copy, or the message added. *)
Definition send_post (quid type n : Z) (P : Z -> bytes -> mem -> Z -> Prop) (s : kst) (r : Z) (s' : kst) : Prop :=
  exists qs', s' = set_msgq qs' (set_mem (k_mem s') (set_freelist (k_freelist s') s)) /\
    queues_ok qs' /\ vm_ok s' /\
    (r = -1 /\ same_messages (k_msgq s) qs' /\
       (refused quid n (k_msgq s) \/ exists d, P (-1) d (k_mem s') (k_freelist s'))
     \/ r = 0 /\ exists d q q', P 0 d (k_mem s') (k_freelist s') /\ len d = n /\
         valid_queue quid (k_msgq s) q /\ qs' = <[Z.to_nat quid := q']> (k_msgq s) /\
         mq_key q' = mq_key q /\ mq_used q' = mq_used q /\
         contents q' ≡ₚ (type, d) :: contents q).

Lemma send_post_refused quid type n P s :
  queues_ok (k_msgq s) -> vm_ok s -> refused quid n (k_msgq s) -> send_post quid type n P s (-1) s.
Proof.
  intros Hq Hvm Hr. exists (k_msgq s). split; [by destruct s|]. split; [done|]. split; [done|]. by left; split; [|split; [|left]].
Qed.

Lemma free_slot_exists q :
  queue_ok q -> mq_count q <> Z.of_nat MAX_MSG ->
  exists idx m, find_index (fun m => ms_valid m =? 0) (mq_msg q) = Some idx /\
                mq_msg q !! idx = Some m /\ ms_valid m = 0.
Proof.
  intros (Hl & _ & Hc & _) Hne. destruct (find_index _ (mq_msg q)) as [idx|] eqn:E.
  - pose proof E as (m & Hm & Hv & _)%find_index_Some. exists idx, m. repeat split; [done|lia].
  - apply find_index_None in E. exfalso. apply Hne. rewrite Hc, contents_view, omap_all, Hl; [done|].
    eapply Forall_impl; [exact E|]. intros m Hm. unfold view. rewrite Hm. by eexists.
Qed.

(** The copy of [n] bytes from [va], in any state that agrees with [s] on memory. *)
Definition copies_in rely (i : nat) (pt va n : Z) (P : Z -> bytes -> mem -> Z -> Prop) (s : kst) : Prop :=
  forall s1, same_vm s s1 -> cpu_ok (k_cpu s1) -> c_proc (k_cpu s1) = Some i ->
    k_locks s1 !! LKmem = k_locks s !! LKmem ->
    wpk rely (copyin pt va n) s1 (fun '(rc, d) s2 => mem_only s1 s2 /\ vm_ok s2 /\
      (rc = 0 /\ len d = n \/ rc = -1 /\ len d <= n) /\ Forall is_byte d /\
      P rc d (k_mem s2) (k_freelist s2)).

Lemma queue_insert_twice (qs : list msgqueue) k q1 q2 : <[k := q2]> (<[k := q1]> qs) = <[k := q2]> qs.
Proof. apply list_insert_insert_eq. Qed.

(** After the copy: the slot [idx] has its type and length; the data, the valid
    flag and the count follow. *)
Lemma sendmsg_finish rely quid type n (P : Z -> bytes -> mem -> Z -> Prop) s s2 q idx m rc d :
  cpu_ok (k_cpu s) -> k_locks s !! LMsgq = None -> queues_ok (k_msgq s) ->
  valid_queue quid (k_msgq s) q -> 0 < n <= MAX_MSG_LEN -> mq_msg q !! idx = Some m -> ms_valid m = 0 ->
  s2 = set_mem (k_mem s2) (set_freelist (k_freelist s2) (set_msgq
    (<[Z.to_nat quid := set_msg idx (mk_msg type (ms_data m) n (ms_valid m)) q]> (k_msgq s)) (lock_on LMsgq s))) ->
  vm_ok s2 -> (rc = 0 /\ len d = n \/ rc = -1 /\ len d <= n) -> Forall is_byte d ->
  P rc d (k_mem s2) (k_freelist s2) ->
  wpk rely (upd_q (Z.to_nat quid) (set_msg idx (mk_msg type (overwrite d (ms_data m)) n (ms_valid m)));;
    if rc <? 0 then release LMsgq;; mret (-1)
    else
      upd_q (Z.to_nat quid) (fun q => mk_msgq (mq_key q) (mq_used q)
        (<[idx := mk_msg type (overwrite d (ms_data m)) n 1]> (mq_msg q)) (i32 (mq_count q + 1)));;
      release LMsgq;; mret 0) s2 (send_post quid type n P s).
Proof.
  intros Hcpu Hlock Hqs Hq Hn Hm Hv Hs2 Hvm Hrc Hd HP. pose proof Hq as (Hquid & Hqi & Hused).
  pose proof (queues_ok_lookup _ _ _ Hqs Hqi) as Hqok.
  assert (msg_ok m) as (Hml & Hmb & _) by (destruct Hqok as (_ & Hms & _); exact (Forall_lookup_1 _ _ _ _ Hms Hm)).
  destruct (overwrite_ok d (ms_data m)) as (Hol & Hob & Hot); [lia|done|done|].
  set (o := overwrite d (ms_data m)) in *. set (f := k_freelist s2) in *. set (mm := k_mem s2) in *.
  assert (forall v, msg_ok (mk_msg type o n v)) as Hok by (intros v; split; [|split]; simpl; [lia|done|lia]).
  assert (k_msgq s2 !! Z.to_nat quid = Some (set_msg idx (mk_msg type (ms_data m) n (ms_valid m)) q)) as Hq2.
  { rewrite Hs2. simpl. apply list_lookup_insert_eq. by eapply lookup_lt_Some. }
  assert (forall qs, vm_ok (set_msgq qs (set_mem mm (set_freelist f s)))) as Hvm'.
  { intros qs. eapply vm_ok_frame; [exact Hvm|]. rewrite Hs2. done. }
  apply wpk_bind. eapply wpk_upd_q; [done|]. destruct Hrc as [(-> & Hdl)|(-> & Hdl)]; cbn [Z.ltb Z.compare].
  - apply wpk_bind. eapply wpk_upd_q; [simpl; apply list_lookup_insert_eq; by eapply lookup_lt_Some|].
    destruct (queue_ok_fill q idx m (mk_msg type o n 1)) as [Hq' Hc']; [done..|].
    set (q' := mk_msgq _ _ _ _) in *. rewrite Hs2.
    apply (wpk_unlock_to _ _ s _ (set_msgq (<[Z.to_nat quid := q']> (k_msgq s)) (set_mem mm (set_freelist f s))));
      [by destruct s; cbn -[insert list_insert]; rewrite !list_insert_insert_eq|done..|].
    apply wpk_ret. eexists. split; [done|]. split; [by apply (queues_ok_insert _ _ q)|]. split; [done|]. right.
    split; [done|]. exists d, q, q'. simpl in Hc'. replace (Z.to_nat n) with (length d) in Hc' by lia.
    rewrite Hot in Hc'. done.
  - destruct (queue_ok_free q idx m (mk_msg type o n (ms_valid m))) as [Hq' Hc']; [done..|].
    set (q' := set_msg idx (mk_msg type o n (ms_valid m)) q) in *. rewrite Hs2.
    apply (wpk_unlock_to _ _ s _ (set_msgq (<[Z.to_nat quid := q']> (k_msgq s)) (set_mem mm (set_freelist f s))));
      [destruct s; cbn -[insert list_insert]; unfold q', set_msg; simpl; by rewrite !list_insert_insert_eq|done..|].
    apply wpk_ret. eexists. split; [done|]. split; [by apply (queues_ok_insert _ _ q)|]. split; [done|]. left.
    split; [done|]. split; [by apply (same_messages_insert _ _ q)|]. right. by exists d.
Qed.

Lemma wpk_sendmsg rely i quid type va n s p (P : Z -> bytes -> mem -> Z -> Prop) :
  msg_pre i [quid; type; va; n] s -> vm_ok s -> k_procs s !! i = Some p ->
  (1 <= i32 n <= MAX_MSG_LEN -> copies_in rely i (p_pagetable p) va (i32 n) P s) ->
  wpk rely sys_sendmsg s (send_post (i32 quid) (i32 type) (i32 n) P s).
Proof.
  intros (Hcall & Hlock & Hqs) Hvm Hp Hcopy. pose proof Hcall as (Hcpu & Hme & _).
  unfold sys_sendmsg. do 2 (apply wpk_bind; eapply wpk_argint; [done|done|lia|]).
  apply wpk_bind; eapply wpk_argraw; [done|done|lia|]. apply wpk_bind; eapply wpk_argint; [done|done|lia|].
  apply wpk_bind, wpk_acquire; [done|].
  assert (forall x, refused (i32 quid) (i32 n) (k_msgq s) -> x = -1 ->
    wpk rely (release LMsgq;; mret x) (lock_on LMsgq s) (send_post (i32 quid) (i32 type) (i32 n) P s)) as Href.
  { intros x Hr ->. eapply wpk_unlock; [done|done|done|done|]. rewrite unlock_id. by apply wpk_ret, send_post_refused. }
  apply wpk_bind, wpk_bad_queue; [apply Hqs| |].
  2: { intros Hbad. apply Href; [by left|done]. }
  intros q Hq. destruct (Z.leb_spec (i32 n) 0); cbn [orb]; [apply Href; [right; left; lia|done]|].
  destruct (Z.ltb_spec MAX_MSG_LEN (i32 n)); [apply Href; [right; left; lia|done]|].
  pose proof Hq as (Hquid & Hqi & Hused). pose proof (queues_ok_lookup _ _ _ Hqs Hqi) as Hqok.
  apply wpk_bind. eapply wpk_get_q; [done|]. destruct (Z.eqb_spec (mq_count q) (Z.of_nat MAX_MSG)) as [E|Hcnt].
  { apply Href; [|done]. right. right. exists q. split; [done|]. destruct Hqok as (_ & _ & Hc & _). lia. }
  destruct (free_slot_exists q Hqok Hcnt) as (idx & m & Hfind & Hm & Hv).
  cbv zeta. unfold find_slot. rewrite Hfind. destruct (Z.eqb_spec (Z.of_nat idx) (-1)); [lia|].
  rewrite Nat2Z.id, Hm. apply wpk_bind. eapply wpk_upd_q; [done|]. apply wpk_bind.
  eapply wpk_myproc; [done|by apply cpu_off_ok|]. apply wpk_bind. eapply wpk_get_proc; [done|]. apply wpk_bind.
  replace (u64 (i32 n)) with (i32 n) by (symmetry; apply u64_small; unfold MAX_MSG_LEN in *; lia).
  kmono (apply Hcopy; [lia|done|by apply cpu_off_ok|done|by simpl; rewrite lookup_insert_ne]).
  intros [rc d] s2 (Hs2 & Hvm2 & Hrc & Hd & HP). eapply sendmsg_finish; try done.
Qed.

(** * recvmsg *)

Lemma omap_Forall {A B} (v : A -> option B) (P : B -> Prop) (l : list A) :
  Forall (fun x => forall b, v x = Some b -> P b) l -> Forall P (omap v l).
Proof.
  intros H. apply Forall_forall. intros b (x & Hx & Hb)%list_elem_of_omap.
  by apply (proj1 (Forall_forall _ _) H x Hx).
Qed.

Definition of_type (type : Z) (m : message) : bool := negb (ms_valid m =? 0) && (ms_type m =? type).

(** Taking the message of slot [idx], the first of its type. *)
Lemma queue_ok_take q type idx m :
  queue_ok q -> find_index (of_type type) (mq_msg q) = Some idx -> mq_msg q !! idx = Some m -> mq_used q <> 0 ->
  let q' := mk_msgq (mq_key q) (mq_used q) (<[idx := mk_msg (ms_type m) (ms_data m) (ms_len m) 0]> (mq_msg q))
              (i32 (mq_count q - 1)) in
  queue_ok q' /\ exists before after,
    contents q = before ++ (type, take (Z.to_nat (ms_len m)) (ms_data m)) :: after /\
    contents q' = before ++ after /\ Forall (fun x => x.1 <> type) before.
Proof.
  intros (Hl & Hm & Hc & Hu) (m' & Hi & Ht & Hmin)%find_index_Some Hm' Hused q'.
  assert (m' = m) as -> by congruence.
  apply andb_true_iff in Ht as [Hv Ht]. apply negb_true_iff in Hv. apply Z.eqb_eq in Ht.
  assert (exists before after,
    contents q = before ++ (type, take (Z.to_nat (ms_len m)) (ms_data m)) :: after /\
    contents q' = before ++ after /\ Forall (fun x => x.1 <> type) before) as Hsplit.
  { exists (omap view (take idx (mq_msg q))), (omap view (drop (S idx) (mq_msg q))). repeat split.
    - rewrite contents_view. rewrite <- (take_drop_middle _ _ _ Hi) at 1. rewrite omap_app. simpl.
      unfold view at 2. rewrite Hv. by subst type.
    - rewrite contents_view. simpl. rewrite insert_take_drop by (by eapply lookup_lt_Some).
      rewrite omap_app. done.
    - apply omap_Forall, Forall_lookup. intros j x (Hj & Hji)%lookup_take_Some b Hb.
      specialize (Hmin j x Hji Hj). unfold view in Hb. unfold of_type in Hmin.
      destruct (ms_valid x =? 0); simplify_eq. simpl in *. lia. }
  split; [|done]. destruct Hsplit as (b & a & E1 & E2 & _). split; [by simpl; rewrite length_insert|].
  split; [|split; [|done]].
  - apply Forall_insert; [done|]. pose proof (Forall_lookup_1 _ _ _ _ Hm Hi) as (? & ? & ?). by split.
  - rewrite E2. unfold q'. cbn [mq_count]. pose proof (omap_length_le view (mq_msg q)) as Hle.
    rewrite <- contents_view, Hl, E1, length_app in Hle. rewrite E1, length_app in Hc. rewrite length_app.
    unfold MAX_MSG in Hle. cbn [length] in *. rewrite i32_small by lia. lia.
Qed.

(** No message of this type is there to receive. *)
Definition nothing_for (quid type : Z) (qs : list msgqueue) : Prop :=
  forall q, valid_queue quid qs q -> Forall (fun x => x.1 <> type) (contents q).

(** The outcome of a [recvmsg] whose copy yields what [P] says: nothing to
    receive, the copy failed, or the first message of the type is taken. *)
Definition recv_post (quid type blen : Z) (P : Z -> bytes -> mem -> Z -> Prop) (s : kst) (r : Z) (s' : kst) : Prop :=
  exists qs', s' = set_msgq qs' (set_mem (k_mem s') (set_freelist (k_freelist s') s)) /\
    queues_ok qs' /\ vm_ok s' /\
    (r = -1 /\ qs' = k_msgq s /\
       (nothing_for quid type qs' \/
        exists q before d after, valid_queue quid (k_msgq s) q /\ contents q = before ++ (type, d) :: after /\
          Forall (fun x => x.1 <> type) before /\
          P (-1) (take (Z.to_nat (Z.min (len d) blen)) d) (k_mem s') (k_freelist s'))
     \/ exists q q' before d after, valid_queue quid (k_msgq s) q /\ qs' = <[Z.to_nat quid := q']> (k_msgq s) /\
         mq_key q' = mq_key q /\ mq_used q' = mq_used q /\
         contents q = before ++ (type, d) :: after /\ contents q' = before ++ after /\
         Forall (fun x => x.1 <> type) before /\
         r = Z.min (len d) blen /\ P 0 (take (Z.to_nat r) d) (k_mem s') (k_freelist s')).

(** The copy of the first [n] bytes of [src] to [va], in any state that agrees
    with [s] on memory. *)
Definition copies_out rely (i : nat) (pt va : Z) (P : Z -> bytes -> mem -> Z -> Prop) (s : kst) : Prop :=
  forall s1 src n, same_vm s s1 -> cpu_ok (k_cpu s1) -> c_proc (k_cpu s1) = Some i ->
    k_locks s1 !! LKmem = k_locks s !! LKmem -> 0 <= n <= len src -> Forall is_byte src ->
    wpk rely (copyout pt va src n) s1 (fun rc s2 => mem_only s1 s2 /\ vm_ok s2 /\
      (rc = 0 \/ rc = -1) /\ P rc (take (Z.to_nat n) src) (k_mem s2) (k_freelist s2)).

Lemma nothing_found quid type qs q :
  valid_queue quid qs q -> find_index (of_type type) (mq_msg q) = None -> nothing_for quid type qs.
Proof.
  intros (_ & Hi & _) Hn q' (_ & Hi' & _). simplify_eq. apply find_index_None in Hn.
  apply omap_Forall. eapply Forall_impl; [exact Hn|]. intros m Hm b Hb. unfold of_type in Hm.
  destruct (ms_valid m =? 0); simplify_eq. simpl in *. lia.
Qed.

Lemma wpk_recvmsg rely i quid type va blen s p (P : Z -> bytes -> mem -> Z -> Prop) :
  msg_pre i [quid; type; va; blen] s -> vm_ok s -> k_procs s !! i = Some p -> 0 <= i32 blen ->
  copies_out rely i (p_pagetable p) va P s ->
  wpk rely sys_recvmsg s (recv_post (i32 quid) (i32 type) (i32 blen) P s).
Proof.
  intros (Hcall & Hlock & Hqs) Hvm Hp Hblen Hcopy. pose proof Hcall as (Hcpu & Hme & _).
  unfold sys_recvmsg. do 2 (apply wpk_bind; eapply wpk_argint; [done|done|lia|]).
  apply wpk_bind; eapply wpk_argraw; [done|done|lia|]. apply wpk_bind; eapply wpk_argint; [done|done|lia|].
  apply wpk_bind, wpk_acquire; [done|].
  assert (nothing_for (i32 quid) (i32 type) (k_msgq s) ->
    wpk rely (release LMsgq;; mret (-1)) (lock_on LMsgq s) (recv_post (i32 quid) (i32 type) (i32 blen) P s)) as Hnone.
  { intros Hr. eapply wpk_unlock; [done|done|done|done|]. rewrite unlock_id. apply wpk_ret.
    exists (k_msgq s). split; [by destruct s|]. split; [done|]. split; [done|]. left. by split; [|split; [|left]]. }
  apply wpk_bind, wpk_bad_queue; [apply Hqs| |].
  2: { intros Hbad. apply Hnone. by intros q ?%Hbad. }
  intros q Hq. pose proof Hq as (Hquid & Hqi & Hused). pose proof (queues_ok_lookup _ _ _ Hqs Hqi) as Hqok.
  apply wpk_bind. eapply wpk_get_q; [done|]. cbv zeta. unfold find_slot. fold (of_type (i32 type)).
  destruct (find_index (of_type (i32 type)) (mq_msg q)) as [idx|] eqn:Hfind.
  2: { cbn [Z.eqb]. apply Hnone. by apply nothing_found with q. }
  destruct (Z.eqb_spec (Z.of_nat idx) (-1)); [lia|].
  pose proof Hfind as (m & Hm & Ht & _)%find_index_Some. rewrite Nat2Z.id, Hm.
  apply wpk_bind. eapply wpk_myproc; [done|by apply cpu_off_ok|]. apply wpk_bind. eapply wpk_get_proc; [done|]. apply wpk_bind.
  assert (msg_ok m) as (Hml & Hmb & Hmn) by (destruct Hqok as (_ & Hms & _); exact (Forall_lookup_1 _ _ _ _ Hms Hm)).
  assert (1 <= ms_len m <= MAX_MSG_LEN) as Hlen.
  { apply Hmn. unfold of_type in Ht. destruct (Z.eqb_spec (ms_valid m) 0); done. }
  set (d := take (Z.to_nat (ms_len m)) (ms_data m)).
  assert (len d = ms_len m) as Hd by (unfold d; rewrite length_take; lia).
  set (c := if ms_len m <? i32 blen then ms_len m else i32 blen).
  assert (c = Z.min (len d) (i32 blen)) as Hn by (unfold c; destruct (Z.ltb_spec (ms_len m) (i32 blen)); lia).
  replace (u64 c) with c by (symmetry; apply u64_small; unfold MAX_MSG_LEN in *; lia).
  kmono (apply Hcopy; [done|by apply cpu_off_ok|done|by simpl; rewrite lookup_insert_ne|lia|done]).
  intros rc s2 (Hs2 & Hvm2 & Hrc & HP). unfold mem_only in Hs2. rewrite Hs2.
  assert (forall qs, vm_ok (set_msgq qs (set_mem (k_mem s2) (set_freelist (k_freelist s2) s)))) as Hvm'.
  { intros qs. eapply vm_ok_frame; [exact Hvm2|]. rewrite Hs2. done. }
  destruct (queue_ok_take q (i32 type) idx m) as (Hq' & before & after & Ec & Ec' & Hb); [done..|].
  assert (take (Z.to_nat c) (ms_data m) = take (Z.to_nat c) d) as Ed by (unfold d; rewrite take_take; f_equal; lia).
  rewrite Ed in HP. destruct Hrc as [->| ->]; cbn [Z.ltb Z.compare].
  - set (q' := mk_msgq _ _ _ _) in *. apply wpk_bind. eapply wpk_upd_q; [done|].
    apply (wpk_unlock_to _ _ s _ (set_msgq (<[Z.to_nat (i32 quid) := q']> (k_msgq s))
      (set_mem (k_mem s2) (set_freelist (k_freelist s2) s)))); [by destruct s|done..|].
    apply wpk_ret. eexists. split; [done|]. split; [by apply (queues_ok_insert _ _ q)|]. split; [done|]. right.
    exists q, q', before, d, after. do 7 (split; [done|]). split; [lia|done].
  - apply (wpk_unlock_to _ _ s _ (set_msgq (k_msgq s) (set_mem (k_mem s2) (set_freelist (k_freelist s2) s))));
      [by destruct s|done..|].
    apply wpk_ret. eexists. split; [done|]. split; [done|]. split; [done|]. left.
    split; [done|]. split; [done|]. right. exists q, before, d, after. do 3 (split; [done|]). by rewrite <- Hn.
Qed.

(** * msgcount *)

Lemma wpk_msgcount rely i quid s :
  msg_pre i [quid] s ->
  wpk rely sys_msgcount s (fun r s' => s' = s /\
    ((r = -1 /\ forall q, ~ valid_queue (i32 quid) (k_msgq s) q) \/
     exists q, valid_queue (i32 quid) (k_msgq s) q /\ r = len (contents q))).
Proof.
  intros (Hcall & Hlock & Hqs). pose proof Hcall as (Hcpu & _). unfold sys_msgcount.
  apply wpk_bind; eapply wpk_argint; [done|done|lia|]. apply wpk_bind, wpk_acquire; [done|].
  apply wpk_bind, wpk_bad_queue; [apply Hqs| |].
  - intros q Hq. pose proof Hq as (_ & Hqi & _). apply wpk_bind. eapply wpk_get_q; [done|].
    eapply wpk_unlock; [done|done|done|done|]. rewrite unlock_id. apply wpk_ret. split; [done|]. right. exists q.
    split; [done|]. by apply (queues_ok_lookup _ _ _ Hqs Hqi).
  - intros Hbad. eapply wpk_unlock; [done|done|done|done|]. rewrite unlock_id. apply wpk_ret. by split; [|left].
Qed.

(** * The copies, from the interface *)

Lemma same_vm_ctx i p s s1 :
  same_vm s s1 -> k_procs s !! i = Some p -> p_pagetable p <> 0 -> user_ctx i (p_pagetable p) s1.
Proof.
  intros (_ & _ & Ep & _) Hp Hne.
  assert ((p_pagetable <$> k_procs s1) !! i = Some (p_pagetable p)) as H by (rewrite Ep, list_lookup_fmap, Hp; done).
  rewrite list_lookup_fmap in H. destruct (k_procs s1 !! i) as [p1|] eqn:E; [|done]. simplify_eq/=.
  exists p1. by rewrite H.
Qed.

Lemma same_vm_copy i p s s1 :
  vm_ok s -> k_procs s !! i = Some p -> p_pagetable p <> 0 -> k_locks s !! LKmem = None ->
  same_vm s s1 -> cpu_ok (k_cpu s1) -> c_proc (k_cpu s1) = Some i -> k_locks s1 !! LKmem = k_locks s !! LKmem ->
  copy_ctx i (p_pagetable p) s1.
Proof using UL.
  intros Hvm Hp Hne Hl Hs1 Hc Hme El. split; [by eapply vm_ok_frame|]. split; [done|]. split; [done|].
  split; [by eapply same_vm_ctx|by rewrite El].
Qed.

(** What [copyin] yields: on success what user memory holds, and success on
    memory that is mapped. *)
Lemma copies_in_exact rely i p va n s :
  vm_ok s -> k_procs s !! i = Some p -> p_pagetable p <> 0 -> k_locks s !! LKmem = None -> is_u64 va -> 0 <= n ->
  copies_in rely i (p_pagetable p) va n (fun rc d m _ =>
    (rc = 0 -> user_has (set_mem m s) (p_pagetable p) va d) /\
    (forall d0, len d0 = n /\ user_has s (p_pagetable p) va d0 -> rc = 0 /\ d = d0)) s.
Proof using UL.
  intros Hvm Hp Hne Hl Hva Hn s1 Hs1 Hc Hme El. pose proof (same_vm_copy _ _ _ _ Hvm Hp Hne Hl Hs1 Hc Hme El) as Hctx.
  set (Q := fun (x : {d0 | len d0 = n /\ user_has s (p_pagetable p) va d0}) (r : Z * bytes) (_ : kst) =>
    r.1 = 0 /\ r.2 = proj1_sig x).
  kmono (eapply (wpk_all _ _ _ Q); [by apply (wpk_copyin _ _ _ _ _ i)|]).
  - intros [d0 [Hd0 Hh]]. unfold Q. cbn [proj1_sig]. rewrite <- Hd0. kmono (apply (wpk_copyin_has _ _ _ _ _ i); [done|done|]).
    + eapply user_has_frame; [done|apply Hs1].
    + intros [rc d] s2 (-> & -> & ->). done.
  - intros [rc d] s2 ((Hm & Hv & Hrc & Hb & Hh) & Hall). do 4 (split; [done|]). split.
    + intros E. eapply user_has_frame; [by apply Hh|done].
    + intros d0 Hd0. exact (Hall (exist _ d0 Hd0)).
Qed.

(** [copyout] to memory that can be written succeeds and leaves the bytes there. *)
Lemma copies_out_exact rely i p va s :
  vm_ok s -> k_procs s !! i = Some p -> p_pagetable p <> 0 -> k_locks s !! LKmem = None -> is_u64 va ->
  copies_out rely i (p_pagetable p) va (fun rc d m _ =>
    user_room s (p_pagetable p) va (len d) -> rc = 0 /\ user_has (set_mem m s) (p_pagetable p) va d) s.
Proof using UL.
  intros Hvm Hp Hne Hl Hva s1 src n Hs1 Hc Hme El Hn Hb. pose proof (same_vm_copy _ _ _ _ Hvm Hp Hne Hl Hs1 Hc Hme El) as Hctx.
  assert (len (take (Z.to_nat n) src) = n) as En by (rewrite length_take; lia).
  set (Q := fun (_ : user_room s (p_pagetable p) va (len (take (Z.to_nat n) src))) (rc : Z) (s2 : kst) =>
    rc = 0 /\ user_has s2 (p_pagetable p) va (take (Z.to_nat n) src)).
  kmono (eapply (wpk_all _ _ _ Q); [by apply (wpk_copyout _ _ _ _ _ _ i)|]).
  - intros Hroom. unfold Q. rewrite En in Hroom. kmono (apply (wpk_copyout_room _ _ _ _ _ _ i); [done|done| |done|done]).
    + eapply user_room_frame; [exact Hroom|apply Hs1].
    + intros rc s2 (-> & Hm & Hv & Hh). done.
  - intros rc s2 ((Hm & Hv & Hrc) & Hall). do 3 (split; [done|]). intros Hroom. destruct (Hall Hroom) as [-> Hh].
    split; [done|]. by eapply user_has_frame.
Qed.

End proofs.
End MsgProofs.
