(* ===== verification/XvVm.v ===== *)
(** Physical memory and page tables: kernel/kalloc.c, kernel/vm.c and the
    address arithmetic of kernel/riscv.h and kernel/memlayout.h.  Page tables
    live in physical memory, as 512 little-endian 64-bit entries per page; the
    free list is threaded through the free pages, as in the code. *)

From S2P Require Import Prelude XvMem XvString XvKernel XvMsg.

(** * riscv.h, memlayout.h *)

Definition PGROUNDUP (sz : Z) : Z := Z.land (u64 (sz + PGSIZE - 1)) (u64 (Z.lnot (PGSIZE - 1))).
Definition PGROUNDDOWN (a : Z) : Z := Z.land a (u64 (Z.lnot (PGSIZE - 1))).

Definition PTE_V : Z := Z.shiftl 1 0.
Definition PTE_R : Z := Z.shiftl 1 1.
Definition PTE_W : Z := Z.shiftl 1 2.
Definition PTE_X : Z := Z.shiftl 1 3.
Definition PTE_U : Z := Z.shiftl 1 4.

Definition PA2PTE (pa : Z) : Z := u64 (Z.shiftl (Z.shiftr pa 12) 10).
Definition PTE2PA (pte : Z) : Z := u64 (Z.shiftl (Z.shiftr pte 10) 12).
Definition PTE_FLAGS (pte : Z) : Z := Z.land pte 0x3FF.

Definition PXSHIFT (level : nat) : Z := 12 + 9 * Z.of_nat level.
Definition PX (level : nat) (va : Z) : Z := Z.land (Z.shiftr va (PXSHIFT level)) 0x1FF.

Definition MAXVA : Z := Z.shiftl 1 (9 + 9 + 9 + 12 - 1).

Definition UART0 : Z := 0x10000000.
Definition VIRTIO0 : Z := 0x10001000.
Definition PLIC : Z := 0x0c000000.
Definition KERNBASE : Z := 0x80000000.
Definition PHYSTOP : Z := KERNBASE + 128 * 1024 * 1024.
Definition TRAMPOLINE : Z := MAXVA - PGSIZE.
Definition TRAPFRAME : Z := TRAMPOLINE - PGSIZE.
Definition KSTACK (p : Z) : Z := TRAMPOLINE - (p + 1) * 2 * PGSIZE.

(** A flag bit is set. *)
Definition flag (w b : Z) : bool := negb (Z.land w b =? 0).

(** The addresses the linker chooses: the first address after the kernel, the
    end of its text, and the trampoline page. *)
Class Layout := {
  kend : Z;
  etext : Z;
  trampoline : Z;
}.

Section vm.
Context {Lay : Layout}.

(** * kalloc.c *)

Definition kfree (pa : Z) : KM unit :=
  if negb (pa mod PGSIZE =? 0) || (pa <? kend) || (PHYSTOP <=? pa) then panic (L"kfree")
  else
    on_mem (KString.memset pa 1 PGSIZE);;
    acquire LKmem;;
    head ← gets k_freelist;
    on_mem (store64 pa head);;
    modify (set_freelist pa);;
    release LKmem.

Definition kalloc : KM Z :=
  acquire LKmem;;
  r ← gets k_freelist;
  (if r =? 0 then mret tt
   else next ← on_mem (load64 r); modify (set_freelist next));;
  release LKmem;;
  (if r =? 0 then mret tt
   else on_mem (KString.memset r 5 PGSIZE);; mret tt);;
  mret r.

(** [for(; p + PGSIZE <= pa_end; p += PGSIZE) kfree(p)]. *)
Fixpoint freerange_loop (fuel : nat) (p pa_end : Z) : KM unit :=
  if p + PGSIZE <=? pa_end then
    match fuel with
    | O => kstuck NoFuel
    | S f => kfree p;; freerange_loop f (p + PGSIZE) pa_end
    end
  else mret tt.

Definition freerange (pa_start pa_end : Z) : KM unit :=
  let p := PGROUNDUP pa_start in
  freerange_loop (Z.to_nat ((pa_end - p) / PGSIZE)) p pa_end.

Definition kinit : KM unit :=
  initlock LKmem;;
  freerange kend PHYSTOP.

(** * vm.c: walking *)

(** The loop of [walk] from [level] down: the address of the entry, or 0. *)
Fixpoint walk_from (level : nat) (pagetable va : Z) (alloc : bool) : KM Z :=
  match level with
  | O => mret (pagetable + 8 * PX 0 va)
  | S l =>
      let pte := pagetable + 8 * PX level va in
      w ← on_mem (load64 pte);
      if flag w PTE_V then walk_from l (PTE2PA w) va alloc
      else if negb alloc then mret 0
      else
        pagetable' ← kalloc;
        if pagetable' =? 0 then mret 0
        else
          on_mem (KString.memset pagetable' 0 PGSIZE);;
          on_mem (store64 pte (Z.lor (PA2PTE pagetable') PTE_V));;
          walk_from l pagetable' va alloc
  end.

Definition walk (pagetable va : Z) (alloc : bool) : KM Z :=
  if MAXVA <=? va then panic (L"walk") else walk_from 2 pagetable va alloc.

Definition walkaddr (pagetable va : Z) : KM Z :=
  if MAXVA <=? va then mret 0
  else
    pte ← walk pagetable va false;
    if pte =? 0 then mret 0
    else
      w ← on_mem (load64 pte);
      if negb (flag w PTE_V) then mret 0
      else if negb (flag w PTE_U) then mret 0
      else mret (PTE2PA w).

Definition ismapped (pagetable va : Z) : KM bool :=
  pte ← walk pagetable va false;
  if pte =? 0 then mret false
  else
    w ← on_mem (load64 pte);
    mret (flag w PTE_V).

(** * vm.c: mapping *)

Fixpoint mappages_loop (fuel : nat) (pagetable a last pa perm : Z) : KM Z :=
  match fuel with
  | O => kstuck NoFuel
  | S f =>
      pte ← walk pagetable a true;
      if pte =? 0 then mret (-1)
      else
        w ← on_mem (load64 pte);
        if flag w PTE_V then panic (L"mappages: remap")
        else
          on_mem (store64 pte (Z.lor (Z.lor (PA2PTE pa) perm) PTE_V));;
          if a =? last then mret 0
          else mappages_loop f pagetable (u64 (a + PGSIZE)) last (u64 (pa + PGSIZE)) perm
  end.

Definition mappages (pagetable va size pa perm : Z) : KM Z :=
  if negb (va mod PGSIZE =? 0) then panic (L"mappages: va not aligned")
  else if negb (size mod PGSIZE =? 0) then panic (L"mappages: size not aligned")
  else if size =? 0 then panic (L"mappages: size")
  else
    let last := u64 (va + size - PGSIZE) in
    mappages_loop (Z.to_nat (size / PGSIZE)) pagetable va last pa perm.

Definition uvmcreate : KM Z :=
  pagetable ← kalloc;
  if pagetable =? 0 then mret 0
  else
    on_mem (KString.memset pagetable 0 PGSIZE);;
    mret pagetable.

(** [for(a = ...; a < bound; a += PGSIZE)], left early when the body yields a
    value. *)
Fixpoint for_pages {R} (fuel : nat) (a bound : Z) (body : Z -> KM (option R)) : KM (option R) :=
  if a <? bound then
    match fuel with
    | O => kstuck NoFuel
    | S f =>
        r ← body a;
        match r with
        | Some v => mret (Some v)
        | None => for_pages f (u64 (a + PGSIZE)) bound body
        end
    end
  else mret None.

Definition uvmunmap (pagetable va npages : Z) (do_free : bool) : KM unit :=
  if negb (va mod PGSIZE =? 0) then panic (L"uvmunmap: not aligned")
  else
    _ ← for_pages (R := unit) (Z.to_nat npages) va (u64 (va + npages * PGSIZE)) (fun a =>
      pte ← walk pagetable a false;
      if pte =? 0 then mret None
      else
        w ← on_mem (load64 pte);
        if negb (flag w PTE_V) then mret None
        else
          (if do_free then kfree (PTE2PA w) else mret tt);;
          on_mem (store64 pte 0);;
          mret None);
    mret tt.

Definition uvmdealloc (pagetable oldsz newsz : Z) : KM Z :=
  if oldsz <=? newsz then mret oldsz
  else
    (if PGROUNDUP newsz <? PGROUNDUP oldsz then
       let npages := i32 ((PGROUNDUP oldsz - PGROUNDUP newsz) / PGSIZE) in
       uvmunmap pagetable (PGROUNDUP newsz) (u64 npages) true
     else mret tt);;
    mret newsz.

Definition uvmalloc (pagetable oldsz newsz xperm : Z) : KM Z :=
  if newsz <? oldsz then mret oldsz
  else
    let oldsz := PGROUNDUP oldsz in
    r ← for_pages (Z.to_nat ((newsz - oldsz) / PGSIZE + 1)) oldsz newsz (fun a =>
      mem ← kalloc;
      if mem =? 0 then uvmdealloc pagetable a oldsz;; mret (Some 0)
      else
        on_mem (KString.memset mem 0 PGSIZE);;
        rc ← mappages pagetable a PGSIZE mem (Z.lor (Z.lor PTE_R PTE_U) xperm);
        if negb (rc =? 0) then
          kfree mem;;
          uvmdealloc pagetable a oldsz;;
          mret (Some 0)
        else mret None);
    mret (default newsz r).

(** * vm.c: freeing and copying address spaces *)

(** [freewalk] at a level: entries of level-0 tables have no tables below. *)
Fixpoint freewalk (fuel : nat) (pagetable : Z) : KM unit :=
  match fuel with
  | O => kstuck NoFuel
  | S f =>
      for_each (seq 0 512) (fun i =>
        let slot := pagetable + 8 * Z.of_nat i in
        pte ← on_mem (load64 slot);
        if flag pte PTE_V && (Z.land pte (Z.lor (Z.lor PTE_R PTE_W) PTE_X) =? 0) then
          freewalk f (PTE2PA pte);;
          on_mem (store64 slot 0)
        else if flag pte PTE_V then panic (L"freewalk: leaf")
        else mret tt);;
      kfree pagetable
  end.

Definition uvmfree (fuel : nat) (pagetable sz : Z) : KM unit :=
  (if 0 <? sz then uvmunmap pagetable 0 (PGROUNDUP sz / PGSIZE) true else mret tt);;
  freewalk fuel pagetable.

Definition uvmcopy (old new sz : Z) : KM Z :=
  r ← for_pages (Z.to_nat (sz / PGSIZE + 1)) 0 sz (fun i =>
    pte ← walk old i false;
    if pte =? 0 then mret None
    else
      w ← on_mem (load64 pte);
      if negb (flag w PTE_V) then mret None
      else
        let pa := PTE2PA w in
        let flags := PTE_FLAGS w in
        mem ← kalloc;
        if mem =? 0 then mret (Some i)
        else
          on_mem (KString.memmove mem pa PGSIZE);;
          rc ← mappages new i PGSIZE mem flags;
          if negb (rc =? 0) then kfree mem;; mret (Some i)
          else mret None);
  match r with
  | None => mret 0
  | Some i => uvmunmap new 0 (i / PGSIZE) true;; mret (-1)
  end.

Definition uvmclear (pagetable va : Z) : KM unit :=
  pte ← walk pagetable va false;
  if pte =? 0 then panic (L"uvmclear")
  else
    w ← on_mem (load64 pte);
    on_mem (store64 pte (Z.land w (u64 (Z.lnot PTE_U)))).

(** * vm.c: copying to and from user memory *)

Definition vmfault (pagetable va : Z) : KM Z :=
  i ← myproc;
  p ← get_proc i;
  if p_sz p <=? va then mret 0
  else
    let va := PGROUNDDOWN va in
    b ← ismapped pagetable va;
    if (b : bool) then mret 0
    else
      mem ← kalloc;
      if mem =? 0 then mret 0
      else
        on_mem (KString.memset mem 0 PGSIZE);;
        rc ← mappages (p_pagetable p) va PGSIZE mem (Z.lor (Z.lor PTE_W PTE_U) PTE_R);
        if negb (rc =? 0) then kfree mem;; mret 0
        else mret mem.

(** [copyout] of the [len] bytes at the front of the kernel object [src]. *)
Fixpoint copyout_loop (fuel : nat) (pagetable dstva : Z) (src : bytes) (len : Z) : KM Z :=
  if 0 <? len then
    match fuel with
    | O => kstuck NoFuel
    | S f =>
        let va0 := PGROUNDDOWN dstva in
        if MAXVA <=? va0 then mret (-1)
        else
          pa ← walkaddr pagetable va0;
          pa0 ← (if pa =? 0 then vmfault pagetable va0 else mret pa);
          if pa0 =? 0 then mret (-1)
          else
            pte ← walk pagetable va0 false;
            w ← on_mem (load64 pte);
            if negb (flag w PTE_W) then mret (-1)
            else
              let room := PGSIZE - (dstva - va0) in
              let n := if len <? room then len else room in
              if Z.of_nat (length src) <? n then kstuck BadAccess
              else
                on_mem (store_block (pa0 + (dstva - va0)) (take (Z.to_nat n) src));;
                copyout_loop f pagetable (u64 (va0 + PGSIZE)) (drop (Z.to_nat n) src) (len - n)
    end
  else mret 0.

Definition copyout (pagetable dstva : Z) (src : bytes) (len : Z) : KM Z :=
  copyout_loop (Z.to_nat (Z.min len (Z.of_nat (length src)) / PGSIZE + 2)) pagetable dstva src len.

(** [copyin], with the bytes it has stored in the kernel object. *)
Fixpoint copyin_loop (fuel : nat) (pagetable srcva len : Z) (dst : bytes) : KM (Z * bytes) :=
  if 0 <? len then
    match fuel with
    | O => kstuck NoFuel
    | S f =>
        let va0 := PGROUNDDOWN srcva in
        pa ← walkaddr pagetable va0;
        pa0 ← (if pa =? 0 then vmfault pagetable va0 else mret pa);
        if pa0 =? 0 then mret (-1, dst)
        else
          let room := PGSIZE - (srcva - va0) in
          let n := if len <? room then len else room in
          data ← on_mem (load_block (Z.to_nat n) (pa0 + (srcva - va0)));
          copyin_loop f pagetable (u64 (va0 + PGSIZE)) (len - n) (dst ++ data)
    end
  else mret (0, dst).

Definition copyin (pagetable srcva len : Z) : KM (Z * bytes) :=
  copyin_loop (Z.to_nat (len / PGSIZE + 2)) pagetable srcva len [].

(** The inner loop of [copyinstr]: up to [n] bytes from [p]; whether a NUL was
    found, and the bytes stored. *)
Fixpoint copyinstr_page (n : nat) (p : Z) (dst : bytes) : MM (bool * bytes) :=
  match n with
  | O => mret (false, dst)
  | S n' =>
      x ← load8 p;
      if x =? 0 then mret (true, dst ++ [0]) else copyinstr_page n' (p + 1) (dst ++ [x])
  end.

Fixpoint copyinstr_loop (fuel : nat) (pagetable srcva max : Z) (dst : bytes) : KM (Z * bytes) :=
  if 0 <? max then
    match fuel with
    | O => kstuck NoFuel
    | S f =>
        let va0 := PGROUNDDOWN srcva in
        pa0 ← walkaddr pagetable va0;
        if pa0 =? 0 then mret (-1, dst)
        else
          let room := PGSIZE - (srcva - va0) in
          let n := if max <? room then max else room in
          '(got_null, dst') ← on_mem (copyinstr_page (Z.to_nat n) (pa0 + (srcva - va0)) dst);
          if (got_null : bool) then mret (0, dst')
          else copyinstr_loop f pagetable (u64 (va0 + PGSIZE)) (max - n) dst'
    end
  else mret (-1, dst).

Definition copyinstr (pagetable srcva max : Z) : KM (Z * bytes) :=
  copyinstr_loop (Z.to_nat (max / PGSIZE + 2)) pagetable srcva max [].

(** * vm.c: the kernel's page table *)

Definition kvmmap (kpgtbl va pa sz perm : Z) : KM unit :=
  rc ← mappages kpgtbl va sz pa perm;
  if negb (rc =? 0) then panic (L"kvmmap") else mret tt.

(** [proc_mapstacks] of kernel/proc.c. *)
Definition proc_mapstacks (kpgtbl : Z) : KM unit :=
  for_each (seq 0 NPROC) (fun i =>
    pa ← kalloc;
    (if pa =? 0 then panic (L"kalloc") else mret tt);;
    kvmmap kpgtbl (KSTACK (Z.of_nat i)) pa PGSIZE (Z.lor PTE_R PTE_W)).

Definition kvmmake : KM Z :=
  kpgtbl ← kalloc;
  on_mem (KString.memset kpgtbl 0 PGSIZE);;
  kvmmap kpgtbl UART0 UART0 PGSIZE (Z.lor PTE_R PTE_W);;
  kvmmap kpgtbl VIRTIO0 VIRTIO0 PGSIZE (Z.lor PTE_R PTE_W);;
  kvmmap kpgtbl PLIC PLIC 0x4000000 (Z.lor PTE_R PTE_W);;
  kvmmap kpgtbl KERNBASE KERNBASE (etext - KERNBASE) (Z.lor PTE_R PTE_X);;
  kvmmap kpgtbl etext etext (PHYSTOP - etext) (Z.lor PTE_R PTE_W);;
  kvmmap kpgtbl TRAMPOLINE trampoline PGSIZE (Z.lor PTE_R PTE_X);;
  proc_mapstacks kpgtbl;;
  mret kpgtbl.

End vm.
