(* ===== verification/XvPages.v ===== *)
(** Who owns each page of physical memory: the invariant of the allocator and
    of the page tables, and the allocator's proofs.  A page is free, or part of
    a user address space (its page-table pages and the pages only it maps, by
    their position in the tree), or the kernel's (trap frames, pipes, segments
    shared between address spaces). *)

From S2P Require Import Prelude XvMem XvString XvKernel XvMsg XvVm.

(** * Address arithmetic *)

Lemma pground_down a : 0 <= a < 2 ^ 64 -> PGROUNDDOWN a = a - a mod PGSIZE.
Proof.
  intros Ha. unfold PGROUNDDOWN.
  replace (u64 (Z.lnot (PGSIZE - 1))) with (Z.land (Z.lnot (Z.ones 12)) (Z.ones 64)) by reflexivity.
  rewrite Z.land_assoc, (Z.land_comm a), <- Z.land_assoc, Z.land_ones by lia.
  rewrite (Z.mod_small a) by lia. rewrite Z.land_comm. change (Z.land a (Z.lnot (Z.ones 12))) with (Z.land a (Z.lnot (Z.ones 12))).
  rewrite <- Z.ldiff_land, Z.ldiff_ones_r, Z.shiftl_mul_pow2, Z.shiftr_div_pow2 by lia.
  unfold PGSIZE. change (2 ^ 12) with 4096. pose proof (Z.div_mod a 4096). lia.
Qed.

Lemma pground_up a : 0 <= a -> a + PGSIZE <= 2 ^ 64 ->
  PGROUNDUP a = (a + PGSIZE - 1) - (a + PGSIZE - 1) mod PGSIZE.
Proof.
  unfold PGSIZE. intros H1 H2. unfold PGROUNDUP, PGSIZE. rewrite u64_small by lia.
  apply pground_down. lia.
Qed.

Lemma PX_mod level va : PX level va = (va / 2 ^ PXSHIFT level) mod 512.
Proof.
  unfold PX. change 0x1FF with (Z.ones 9). rewrite Z.land_ones, Z.shiftr_div_pow2 by (unfold PXSHIFT; lia). done.
Qed.

Lemma PX_range level va : 0 <= PX level va < 512.
Proof. rewrite PX_mod. by apply Z.mod_pos_bound. Qed.

(** The three indices depend on the page only. *)
Lemma PX_page level va : 0 <= va < 2 ^ 64 -> PX level (PGROUNDDOWN va) = PX level va.
Proof.
  intros Hva. rewrite !PX_mod. f_equal. unfold PXSHIFT. rewrite Z.pow_add_r by lia.
  rewrite <- !Z.div_div by (apply Z.pow_nonzero || apply Z.pow_pos_nonneg; lia). f_equal.
  rewrite pground_down by done. unfold PGSIZE. change (2 ^ 12) with 4096.
  pose proof (Z.div_mod va 4096). pose proof (Z.mod_pos_bound va 4096).
  symmetry. apply (Z.div_unique _ _ _ 0); lia.
Qed.

(** An entry that points to the page [p] with flags [f]. *)
Section entries.
Context (p f : Z).
Hypothesis (Hp : p mod PGSIZE = 0) (Hr : 0 <= p < 2 ^ 56) (Hf : 0 <= f < 1024).

Lemma PA2PTE_eq : PA2PTE p = Z.shiftl (p / PGSIZE) 10.
Proof.
  unfold PA2PTE. rewrite Z.shiftr_div_pow2 by lia. change (2 ^ 12) with PGSIZE. apply u64_small.
  rewrite Z.shiftl_mul_pow2 by lia. pose proof (Z.div_mod p 4096). pose proof (Z.mod_pos_bound p 4096).
  unfold PGSIZE in *. lia.
Qed.

Lemma entry_pa : PTE2PA (Z.lor (PA2PTE p) f) = p.
Proof.
  rewrite PA2PTE_eq. unfold PTE2PA. rewrite Z.shiftr_lor, Z.shiftr_shiftl_l by lia.
  rewrite Z.sub_diag, Z.shiftl_0_r. rewrite (Z.shiftr_div_pow2 f), (Z.div_small f), Z.lor_0_r by lia.
  rewrite Z.shiftl_mul_pow2 by lia. change (2 ^ 12) with PGSIZE.
  replace (p / PGSIZE * PGSIZE) with p; [apply u64_small; lia|].
  pose proof (Z.div_mod p PGSIZE). unfold PGSIZE in *. lia.
Qed.

Lemma entry_flags b : 0 <= b < 1024 -> Z.land (Z.lor (PA2PTE p) f) b = Z.land f b.
Proof.
  intros Hb. rewrite Z.land_lor_distr_l, PA2PTE_eq.
  replace b with (Z.land b (Z.ones 10)) at 1 by (rewrite Z.land_ones, Z.mod_small by lia; done).
  rewrite (Z.land_comm b), Z.land_assoc, Z.land_ones, Z.shiftl_mul_pow2 by lia.
  by rewrite Z.mod_mul, Z.land_0_l, Z.lor_0_l by lia.
Qed.

Lemma entry_range : 0 <= Z.lor (PA2PTE p) f < 2 ^ 64.
Proof.
  split; [apply Z.lor_nonneg; unfold PA2PTE; pose proof (u64_range (Z.shiftl (Z.shiftr p 12) 10)); lia|].
  assert (0 <= PA2PTE p < 2 ^ 64) by (unfold PA2PTE; apply u64_range).
  destruct (decide (Z.lor (PA2PTE p) f = 0)) as [->|Hne]; [lia|].
  assert (0 <= Z.lor (PA2PTE p) f) by (apply Z.lor_nonneg; lia).
  apply Z.log2_lt_pow2; [lia|]. rewrite Z.log2_lor by lia. apply Z.max_lub_lt.
  - destruct (decide (PA2PTE p = 0)) as [->|]; [done|]. apply Z.log2_lt_pow2; lia.
  - destruct (decide (f = 0)) as [->|]; [done|]. apply Z.log2_lt_pow2; lia.
Qed.
End entries.

(** * Ownership *)

Inductive owner :=
  | OFree
  | OTree (pt : Z) (path : list Z)   (* tables at depth 0, 1, 2; pages at depth 3 *)
  | OShared                          (* a page of a shared segment *)
  | OKern.

#[global] Instance owner_eq_dec : EqDecision owner.
Proof. solve_decision. Defined.

Notation owners := (gmap Z owner).

Section inv.
Context {Lay : Layout}.

Definition layout_ok : Prop := KERNBASE <= kend.

Definition is_page (pa : Z) : Prop := pa mod PGSIZE = 0 /\ kend <= pa < PHYSTOP.

(** The free list from [f] on. *)
Fixpoint chain (m : mem) (f : Z) (l : list Z) : Prop :=
  match l with
  | [] => f = 0
  | p :: l' => f = p /\ chain m (word m p) l'
  end.

(** An entry at index [i] of the table at [path] of [pt]. *)
Definition entry_ok (own : owners) (pt : Z) (path : list Z) (i w : Z) : Prop :=
  flag w PTE_V = true ->
  if decide (length path < 2)%nat
  then own !! PTE2PA w = Some (OTree pt (path ++ [i])) /\ Z.land w (Z.lor (Z.lor PTE_R PTE_W) PTE_X) = 0
  else own !! PTE2PA w = Some (OTree pt (path ++ [i])) \/ own !! PTE2PA w = Some OShared \/ flag w PTE_U = false.

(** The page tables. *)
Record vm_core (own : owners) (m : mem) : Prop := {
  vi_page : forall pa o, own !! pa = Some o -> is_page pa /\ mapped m pa PGSIZE;
  vi_bytes : bytes_mem m;
  vi_root : forall pa pt, own !! pa = Some (OTree pt []) -> pa = pt;
  vi_path : forall pa pt path, own !! pa = Some (OTree pt path) ->
              (length path <= 3)%nat /\ Forall (fun i => 0 <= i < 512) path;
  vi_entry : forall pa pt path i, own !! pa = Some (OTree pt path) -> (length path < 3)%nat -> 0 <= i < 512 ->
              entry_ok own pt path i (word m (pa + 8 * i));
  vi_parent : forall pa pt path i, own !! pa = Some (OTree pt (path ++ [i])) ->
              exists t, own !! t = Some (OTree pt path) /\
                flag (word m (t + 8 * i)) PTE_V = true /\ PTE2PA (word m (t + 8 * i)) = pa;
}.

(** The free list holds the free pages. *)
Definition free_ok (own : owners) (m : mem) (f : Z) : Prop :=
  exists l, chain m f l /\ NoDup l /\ forall pa, pa ∈ l <-> own !! pa = Some OFree.

Definition vm_inv (own : owners) (s : kst) : Prop :=
  vm_core own (k_mem s) /\ free_ok own (k_mem s) (k_freelist s).

Context (HL : layout_ok).

Lemma is_page_pos pa : is_page pa -> 0 < pa < 2 ^ 32 /\ pa mod PGSIZE = 0.
Proof using HL. intros (H1 & H2 & H3). unfold layout_ok, PHYSTOP, KERNBASE in *. split; [|done]. lia. Qed.

Lemma pages_apart p q : is_page p -> is_page q -> p <> q -> p + PGSIZE <= q \/ q + PGSIZE <= p.
Proof using.
  intros (Hp & _) (Hq & _) Hne. unfold PGSIZE in *.
  pose proof (Z.div_mod p 4096). pose proof (Z.div_mod q 4096). lia.
Qed.

Lemma owned_apart own m p q o o' :
  vm_core own m -> own !! p = Some o -> own !! q = Some o' -> o <> o' -> p + PGSIZE <= q \/ q + PGSIZE <= p.
Proof using.
  intros Hv Hp Hq Hne. apply pages_apart.
  - by apply (vi_page _ _ Hv p o).
  - by apply (vi_page _ _ Hv q o').
  - intros ->. congruence.
Qed.

(** The position in the tree determines the page. *)
Lemma tree_unique own m pt path pa pa' :
  vm_core own m -> own !! pa = Some (OTree pt path) -> own !! pa' = Some (OTree pt path) -> pa = pa'.
Proof using.
  intros Hv. revert pa pa'. induction path as [|i path IH] using rev_ind; intros pa pa' H H'.
  - by rewrite (vi_root _ _ Hv _ _ H), (vi_root _ _ Hv _ _ H').
  - destruct (vi_parent _ _ Hv _ _ _ _ H) as (t & Ht & _ & E), (vi_parent _ _ Hv _ _ _ _ H') as (t' & Ht' & _ & E').
    rewrite (IH _ _ Ht Ht') in E. congruence.
Qed.

Lemma parent_index own m pa pt path i :
  vm_core own m -> own !! pa = Some (OTree pt (path ++ [i])) -> (length path < 3)%nat /\ 0 <= i < 512.
Proof using.
  intros Hv Hq. destruct (vi_path _ _ Hv _ _ _ Hq) as [Hlen Hi]. rewrite length_app in Hlen. simpl in Hlen.
  apply Forall_app in Hi as [_ Hi]. apply Forall_cons in Hi as [Hi _]. split; [lia|done].
Qed.

(** ** Frames *)

Lemma chain_ext m m' f l : (forall p, p ∈ l -> word m' p = word m p) -> chain m f l -> chain m' f l.
Proof using.
  revert f. induction l as [|p l IH]; intros f H; simpl; [done|]. intros [-> Hc]. split; [done|].
  rewrite H by left. apply IH; [|done]. intros q Hq. apply H. by right.
Qed.

(** Not a page-table page. *)
Definition not_table (o : owner) : Prop := forall pt path, o = OTree pt path -> length path = 3%nat.

Lemma words_apart own m pa o a l q o' i :
  vm_core own m -> own !! pa = Some o -> own !! q = Some o' -> o' <> o ->
  pa <= a -> a + len l <= pa + PGSIZE -> 0 <= i < 512 -> word (wr m a l) (q + 8 * i) = word m (q + 8 * i).
Proof using.
  intros Hv Hpa Hq Hne Ha Hl Hi. apply word_wr_other.
  destruct (owned_apart _ _ _ _ _ _ Hv Hpa Hq (not_eq_sym Hne)); unfold PGSIZE in *; lia.
Qed.

(** Writing into a page that is not a table. *)
Lemma core_write own m pa o a l :
  vm_core own m -> own !! pa = Some o -> not_table o -> pa <= a -> a + len l <= pa + PGSIZE -> Forall is_byte l ->
  vm_core own (wr m a l).
Proof using.
  intros Hv Hpa Ho Ha Hl Hb.
  assert (forall q pt path i, own !! q = Some (OTree pt path) -> (length path < 3)%nat -> 0 <= i < 512 ->
    word (wr m a l) (q + 8 * i) = word m (q + 8 * i)) as Hw.
  { intros q pt path i Hq Hlen Hi. apply (words_apart own m pa o a l q (OTree pt path)); try done. intros E. specialize (Ho pt path (eq_sym E)). lia. }
  split.
  - intros q o' Hq. destruct (vi_page _ _ Hv q o' Hq). split; [done|]. by apply mapped_wr.
  - apply bytes_mem_wr; [apply Hv|done].
  - apply Hv.
  - apply Hv.
  - intros q pt path i Hq Hlen Hi. rewrite (Hw q pt path) by done. by apply (vi_entry _ _ Hv).
  - intros q pt path i Hq. destruct (vi_parent _ _ Hv _ _ _ _ Hq) as (t & Ht & Hx). exists t. split; [done|].
    destruct (parent_index _ _ _ _ _ _ Hv Hq). by rewrite (Hw t pt path) by done.
Qed.

(** Writing into a page that is not free. *)
Lemma free_write own m f pa o a l :
  vm_core own m -> free_ok own m f -> own !! pa = Some o -> o <> OFree -> pa <= a -> a + len l <= pa + PGSIZE ->
  free_ok own (wr m a l) f.
Proof using.
  intros Hv (fl & Hc & Hn & Hf) Hpa Ho Ha Hl. exists fl. split; [|done]. eapply chain_ext; [|exact Hc].
  intros p Hp%Hf. rewrite <- (Z.add_0_r p). apply (words_apart own m pa o a l p OFree 0); done || lia.
Qed.

Definition plain (o : owner) : Prop := o = OFree \/ o = OKern.

Lemma core_own own m pa o o' :
  vm_core own m -> own !! pa = Some o -> plain o -> plain o' -> vm_core (<[pa := o']> own) m.
Proof using.
  intros Hv Hpa Ho Ho'.
  assert (forall q pt path, <[pa := o']> own !! q = Some (OTree pt path) <-> own !! q = Some (OTree pt path)) as Ht.
  { intros q pt path. destruct (decide (q = pa)) as [->|].
    - rewrite lookup_insert_eq. destruct Ho as [-> | ->], Ho' as [-> | ->]; naive_solver.
    - by rewrite lookup_insert_ne. }
  split.
  - intros q oq. destruct (decide (q = pa)) as [->|].
    + intros _. by apply (vi_page _ _ Hv pa o).
    + rewrite lookup_insert_ne by done. apply (vi_page _ _ Hv).
  - apply Hv.
  - intros q pt. rewrite Ht. apply (vi_root _ _ Hv).
  - intros q pt path. rewrite Ht. apply (vi_path _ _ Hv).
  - intros q pt path i. rewrite Ht. intros Hq Hl Hi Hval. pose proof (vi_entry _ _ Hv q pt path i Hq Hl Hi Hval) as H.
    destruct (decide _); [by rewrite Ht|]. rewrite Ht. destruct H as [H|[H|H]]; [by left| |by right; right].
    right. left. rewrite lookup_insert_ne; [done|]. intros ->. destruct Ho; congruence.
  - intros q pt path i. rewrite Ht. intros (t & Hq & Hx)%(vi_parent _ _ Hv). exists t. by rewrite Ht.
Qed.

(** The head of the free list is handed out. *)
Lemma free_take own m f :
  free_ok own m f -> f <> 0 -> own !! f = Some OFree /\ free_ok (<[f := OKern]> own) m (word m f).
Proof using.
  intros ([|p l] & Hc & Hn & Hf) Hne; [done|]. destruct Hc as [-> Hc]. split; [apply Hf; left|].
  apply NoDup_cons in Hn as [Hnin Hn]. exists l. split; [done|]. split; [done|]. intros q.
  destruct (decide (q = p)) as [->|Hq].
  - rewrite lookup_insert_eq. split; [done|]. naive_solver.
  - rewrite lookup_insert_ne by done. rewrite <- Hf, elem_of_cons. naive_solver.
Qed.

(** A page joins the list: its first word points to the old head. *)
Lemma free_give own m f pa :
  vm_core own m -> free_ok own m f -> own !! pa = Some OKern -> 0 <= f < 2 ^ 64 ->
  free_ok (<[pa := OFree]> own) (wr m pa (le_bytes 8 f)) pa.
Proof using.
  intros Hv (l & Hc & Hn & Hf) Hpa Hr. exists (pa :: l).
  assert (pa ∉ l) as Hnin by (intros ?%Hf; congruence).
  split; [split; [done|]|split].
  - rewrite word_wr_same, u64_small by done. eapply chain_ext; [|exact Hc]. intros p Hp. apply word_wr_other.
    rewrite le_bytes_length. apply Hf in Hp.
    destruct (owned_apart _ _ _ _ _ _ Hv Hpa Hp); [done|unfold PGSIZE in *; lia..].
  - by constructor.
  - intros q. rewrite elem_of_cons, Hf. destruct (decide (q = pa)) as [->|Hq].
    + rewrite lookup_insert_eq. naive_solver.
    + rewrite lookup_insert_ne by done. naive_solver.
Qed.

Lemma free_head_range own m f : vm_core own m -> free_ok own m f -> 0 <= f < 2 ^ 64.
Proof using HL.
  intros Hv ([|p l] & Hc & _ & Hf); simpl in Hc; [lia|]. destruct Hc as [-> _].
  destruct (vi_page _ _ Hv p OFree) as [Hp _]; [apply Hf; left|]. apply is_page_pos in Hp. lia.
Qed.

(** * The allocator *)

Definition page_of (c : Z) : bytes := replicate (Z.to_nat PGSIZE) c.

Lemma page_of_len c : len (page_of c) = PGSIZE.
Proof using. unfold page_of. rewrite length_replicate. done. Qed.

Lemma page_of_bytes c : is_byte c -> Forall is_byte (page_of c).
Proof using. intros. by apply Forall_replicate. Qed.

#[local] Opaque page_of wr le_bytes.

Lemma wpk_memset rely pa c s (Q : Z -> kst -> Prop) :
  mapped (k_mem s) pa PGSIZE -> Q pa (set_mem (wr (k_mem s) pa (page_of (u8 c))) s) ->
  wpk rely (on_mem (KString.memset pa c PGSIZE)) s Q.
Proof using.
  intros Hm HQ. eapply wpk_on_mem; [|exact HQ]. unfold KString.memset.
  rewrite (bind_val _ _ _ tt (wr (k_mem s) pa (page_of (u8 c)))); [done|]. by apply fill_ok.
Qed.

(** An empty free list means that no page is free. *)
Lemma none_free own s pa : vm_inv own s -> k_freelist s = 0 -> own !! pa <> Some OFree.
Proof using HL.
  intros [Hcore (fl & Hch & _ & Hf)] E. rewrite E in Hch.
  intros [Hin]%Hf%list_elem_of_lookup_1. destruct fl as [|q fl]; [done|]. destruct Hch as [<- _].
  destruct (vi_page _ _ Hcore 0 OFree) as [Hp _]; [apply Hf; left|]. apply is_page_pos in Hp. lia.
Qed.

Lemma wpk_load64 rely a s (Q : Z -> kst -> Prop) :
  mapped (k_mem s) a 8 -> Q (word (k_mem s) a) s -> wpk rely (on_mem (load64 a)) s Q.
Proof using. intros Hm HQ. eapply wpk_on_mem; [by apply load64_ok|]. by destruct s. Qed.

Lemma wpk_store64 rely a v s (Q : unit -> kst -> Prop) :
  mapped (k_mem s) a 8 -> Q tt (set_mem (wr (k_mem s) a (le_bytes 8 v)) s) -> wpk rely (on_mem (store64 a v)) s Q.
Proof using. intros Hm HQ. eapply wpk_on_mem; [by apply store64_ok|done]. Qed.

Lemma wpk_kalloc rely own s (Q : Z -> kst -> Prop) :
  vm_inv own s -> cpu_ok (k_cpu s) -> k_locks s !! LKmem = None ->
  (k_freelist s = 0 -> Q 0 s) ->
  (forall s', let r := k_freelist s in r <> 0 -> own !! r = Some OFree -> vm_inv (<[r := OKern]> own) s' ->
     s' = set_mem (wr (k_mem s) r (page_of 5)) (set_freelist (k_freelist s') s) -> Q r s') ->
  wpk rely kalloc s Q.
Proof using.
  intros [Hv Hf] Hc Hl H0 H1. unfold kalloc. apply wpk_bind, wpk_acquire; [done|]. apply wpk_bind, wpk_gets.
  simpl. destruct (Z.eqb_spec (k_freelist s) 0) as [E|Hne].
  - apply wpk_bind, wpk_ret, wpk_bind. eapply wpk_release_on; [done|done|done|done|]. apply wpk_bind, wpk_ret, wpk_ret.
    rewrite E. replace (set_locks _ _) with s by (by destruct s). auto.
  - destruct (free_take _ _ _ Hf Hne) as [Hr Hf']. destruct (vi_page _ _ Hv _ _ Hr) as [Hp Hm].
    apply wpk_bind, wpk_bind, wpk_load64; [simpl; eapply mapped_sub; [exact Hm|lia|unfold PGSIZE; lia]|]. apply wpk_modify, wpk_bind.
    eapply wpk_release_on; [done|done|done|done|]. apply wpk_bind, wpk_bind, wpk_memset; [exact Hm|]. apply wpk_ret, wpk_ret.
    apply H1; [done|done| |by destruct s]. simpl.
    assert (vm_core (<[k_freelist s:=OKern]> own) (k_mem s)) as Hv' by (eapply core_own; [done|exact Hr|by left|by right]).
    split; simpl.
    + eapply core_write; [exact Hv'|apply lookup_insert_eq|done|lia|by rewrite page_of_len|by apply page_of_bytes].
    + eapply free_write; [exact Hv'|exact Hf'|apply lookup_insert_eq|done|lia|by rewrite page_of_len].
Qed.

Lemma wpk_kfree rely own s pa (Q : unit -> kst -> Prop) :
  vm_inv own s -> cpu_ok (k_cpu s) -> k_locks s !! LKmem = None -> own !! pa = Some OKern ->
  (forall s' l, vm_inv (<[pa := OFree]> own) s' -> len l = PGSIZE ->
     s' = set_mem (wr (k_mem s) pa l) (set_freelist pa s) -> Q tt s') ->
  wpk rely (kfree pa) s Q.
Proof using HL.
  intros [Hv Hf] Hc Hl Hpa HQ. destruct (vi_page _ _ Hv _ _ Hpa) as [Hp Hm]. unfold kfree.
  destruct Hp as (Ha & Hp1 & Hp2). rewrite Ha. destruct (Z.ltb_spec pa kend), (Z.leb_spec PHYSTOP pa); try lia.
  cbn [Z.eqb negb orb]. apply wpk_bind, wpk_memset; [done|].
  apply wpk_bind, wpk_acquire; [done|]. apply wpk_bind, wpk_gets. apply wpk_bind, wpk_store64.
  { simpl. apply mapped_wr. eapply mapped_sub; [exact Hm|lia|unfold PGSIZE; lia]. }
  apply wpk_bind, wpk_modify.
  apply (wpk_release_on _ (set_mem (wr (k_mem s) pa (page_of 1)) s)); [by kproj..|].
  set (f := k_freelist s). assert (0 <= f < 2 ^ 64) as Hfr by (by eapply free_head_range).
  assert (vm_core own (wr (k_mem s) pa (page_of 1))) as Hv1.
  { eapply core_write; [done|done|done|lia|by rewrite page_of_len|by apply page_of_bytes]. }
  assert (free_ok own (wr (k_mem s) pa (page_of 1)) f) as Hf1.
  { eapply free_write; [done|done|done|done|lia|by rewrite page_of_len]. }
  apply (HQ _ (le_bytes 8 f ++ drop 8 (page_of 1))); [split|..].
  - kproj. eapply core_own; [|exact Hpa|by right|by left].
    eapply core_write; [done|done|done|lia|rewrite le_bytes_length; unfold PGSIZE; lia|apply le_bytes_ok].
  - kproj. by apply free_give.
  - rewrite length_app, le_bytes_length, length_drop. pose proof (page_of_len 1). unfold PGSIZE in *. lia.
  - kst_eq. change (u8 1) with 1. change f with (k_freelist s). rewrite wr_over.
    + by rewrite le_bytes_length.
    + rewrite le_bytes_length. pose proof (page_of_len 1). unfold PGSIZE in *. lia.
Qed.

End inv.
