(* ===== verification/XvWalk.v ===== *)
(** The page tables at work: [walk], [mappages] and [vmfault] of kernel/vm.c keep
    the ownership invariant, never leave a page table, and change nothing but
    free pages and invalid entries. *)

From S2P Require Import Prelude XvMem XvString XvKernel XvMsg XvVm XvPages.

Section walk.
Context {Lay : Layout} (HL : layout_ok).

#[local] Opaque page_of wr le_bytes.

(** * What a page table maps *)

(** The address of the entry for [va], if its table exists. *)
Definition pte_addr (m : mem) (pt va : Z) : option Z :=
  let w2 := word m (pt + 8 * PX 2 va) in
  if flag w2 PTE_V then
    let w1 := word m (PTE2PA w2 + 8 * PX 1 va) in
    if flag w1 PTE_V then Some (PTE2PA w1 + 8 * PX 0 va) else None
  else None.

(** The valid entry for [va]. *)
Definition leaf (m : mem) (pt va : Z) : option Z :=
  a ← pte_addr m pt va;
  if flag (word m a) PTE_V then Some (word m a) else None.

Lemma entry_mapped own m pa pt path i :
  vm_core own m -> own !! pa = Some (OTree pt path) -> 0 <= i < 512 -> mapped m (pa + 8 * i) 8.
Proof using.
  intros Hv Hp Hi. destruct (vi_page _ _ Hv _ _ Hp) as [_ Hm].
  eapply mapped_sub; [exact Hm|unfold PGSIZE; lia..].
Qed.

(** One level down. *)
Lemma step_down own m t pt path i :
  vm_core own m -> own !! t = Some (OTree pt path) -> (length path < 2)%nat -> 0 <= i < 512 ->
  flag (word m (t + 8 * i)) PTE_V = true -> own !! PTE2PA (word m (t + 8 * i)) = Some (OTree pt (path ++ [i])).
Proof using.
  intros Hv Ht Hl Hi Hf. pose proof (vi_entry _ _ Hv t pt path i Ht ltac:(lia) Hi Hf) as H.
  destruct (decide _); [|lia]. apply H.
Qed.

Lemma pte_addr_owned own m pt va a :
  vm_core own m -> own !! pt = Some (OTree pt []) -> pte_addr m pt va = Some a ->
  exists t, own !! t = Some (OTree pt [PX 2 va; PX 1 va]) /\ a = t + 8 * PX 0 va.
Proof using.
  intros Hv Hr. unfold pte_addr. destruct (flag _ _) eqn:E2; [|done].
  pose proof (step_down _ _ _ _ _ _ Hv Hr ltac:(simpl; lia) (PX_range 2 va) E2) as H1. simpl in H1.
  destruct (flag (word m (PTE2PA _ + _)) _) eqn:E1; [|done]. intros [= <-].
  pose proof (step_down _ _ _ _ _ _ Hv H1 ltac:(simpl; lia) (PX_range 1 va) E1) as H0. simpl in H0. eauto.
Qed.

Lemma owned_pte_addr own m pt va t :
  vm_core own m -> own !! t = Some (OTree pt [PX 2 va; PX 1 va]) -> pte_addr m pt va = Some (t + 8 * PX 0 va).
Proof using.
  intros Hv Ht. destruct (vi_parent _ _ Hv t pt [PX 2 va] _ Ht) as (t1 & H1 & F1 & E1).
  destruct (vi_parent _ _ Hv t1 pt [] _ H1) as (t2 & H2 & F2 & E2).
  assert (t2 = pt) as -> by (by eapply vi_root). unfold pte_addr. rewrite F2, E2, F1, E1. done.
Qed.

Lemma wpk_walk_read rely own pt va s (Q : Z -> kst -> Prop) :
  vm_core own (k_mem s) -> own !! pt = Some (OTree pt []) -> va < MAXVA ->
  Q (default 0 (pte_addr (k_mem s) pt va)) s -> wpk rely (walk pt va false) s Q.
Proof using.
  intros Hv Hr Hva HQ. unfold walk. destruct (Z.leb_spec MAXVA va); [lia|]. cbn [walk_from].
  unfold pte_addr in HQ. apply wpk_bind, wpk_load64; [eapply entry_mapped; [done|done|apply PX_range]|].
  destruct (flag _ _) eqn:E2; [|exact HQ].
  pose proof (step_down _ _ _ _ _ _ Hv Hr ltac:(simpl; lia) (PX_range 2 va) E2) as H1.
  apply wpk_bind, wpk_load64; [eapply entry_mapped; [done|done|apply PX_range]|].
  by destruct (flag (word _ (PTE2PA _ + _)) _).
Qed.

Lemma pte_addr_nonzero own m pt va a :
  vm_core own m -> own !! pt = Some (OTree pt []) -> pte_addr m pt va = Some a -> a <> 0 /\ mapped m a 8.
Proof using HL.
  intros Hv Hr Ha. destruct (pte_addr_owned _ _ _ _ _ Hv Hr Ha) as (t & Ht & ->).
  pose proof (PX_range 0 va). split; [|by eapply entry_mapped].
  destruct (vi_page _ _ Hv _ _ Ht) as [Hp%(is_page_pos HL) _]. lia.
Qed.

(** * Growing a table *)

(** From one state to the next, pages in use keep their owner, valid entries
    stay as they are, and what is not a table keeps its contents. *)
Record grows (own : owners) (m : mem) (own' : owners) (m' : mem) : Prop := {
  gr_own : forall pa o, own !! pa = Some o -> o <> OFree -> own' !! pa = Some o;
  gr_entry : forall t pt path i, own !! t = Some (OTree pt path) -> (length path < 3)%nat -> 0 <= i < 512 ->
    flag (word m (t + 8 * i)) PTE_V = true -> word m' (t + 8 * i) = word m (t + 8 * i);
  gr_data : forall pa o i, own !! pa = Some o -> o <> OFree -> not_table o -> 0 <= i < PGSIZE ->
    m' !! (pa + i) = m !! (pa + i);
}.

Lemma grows_refl own m : grows own m own m.
Proof using. by split. Qed.

Lemma grows_trans own0 m0 own1 m1 own2 m2 :
  grows own0 m0 own1 m1 -> grows own1 m1 own2 m2 -> grows own0 m0 own2 m2.
Proof using.
  intros [A1 A2 A3] [B1 B2 B3]. split.
  - auto.
  - intros t pt path i Ht Hl Hi Hf. rewrite <- (A2 _ _ _ _ Ht Hl Hi Hf). eapply B2; [by apply A1|done|done|].
    by rewrite (A2 _ _ _ _ Ht Hl Hi Hf).
  - intros pa o i Hp Ho Hn Hi. rewrite (B3 pa o i) by auto. by apply (A3 pa o i).
Qed.

(** Writes into a free page. *)
Lemma grows_free own m pa l o' :
  vm_core own m -> own !! pa = Some OFree -> len l = PGSIZE -> grows own m (<[pa := o']> own) (wr m pa l).
Proof using.
  intros Hv Hp Hl. split.
  - intros q o Hq Ho. rewrite lookup_insert_ne; [done|]. intros ->. congruence.
  - intros t pt path i Ht _ Hi _. apply (words_apart own m pa OFree _ _ t (OTree pt path)); done || lia.
  - intros q o i Hq Ho _ Hi. apply lookup_wr_out.
    destruct (owned_apart _ _ _ _ _ _ Hv Hp Hq (not_eq_sym Ho)); lia.
Qed.

(** A zeroed page. *)
Lemma zero_page m p i : 0 <= i < 512 -> word (wr m p (page_of 0)) (p + 8 * i) = 0.
Proof using.
  intros Hi. Transparent page_of. unfold page_of. Opaque page_of.
  rewrite word_fill; [done|lia|]. unfold PGSIZE. change (Z.of_nat (Z.to_nat 4096)) with 4096. lia.
Qed.

(** [p = kalloc(); if(p) memset(p, 0, PGSIZE)]. *)
Lemma wpk_kalloc_zero {A} rely own s (f : Z -> KM A) (g : KM A) Q :
  vm_inv own s -> cpu_ok (k_cpu s) -> k_locks s !! LKmem = None ->
  (k_freelist s = 0 -> wpk rely g s Q) ->
  (forall s' p, mem_only s s' -> p <> 0 -> own !! p = Some OFree -> vm_inv (<[p := OKern]> own) s' ->
     grows own (k_mem s) (<[p := OKern]> own) (k_mem s') ->
     (forall t o i, own !! t = Some o -> o <> OFree -> 0 <= i < 512 ->
        word (k_mem s') (t + 8 * i) = word (k_mem s) (t + 8 * i)) ->
     (forall i, 0 <= i < 512 -> word (k_mem s') (p + 8 * i) = 0) -> wpk rely (f p) s' Q) ->
  wpk rely (p ← kalloc; if p =? 0 then g else on_mem (KString.memset p 0 PGSIZE);; f p) s Q.
Proof using.
  intros Hv Hc Hl H0 H1. apply wpk_bind. eapply wpk_kalloc; [done|done|done|exact H0|].
  intros s' r Hr Hfree Hv' Es'. destruct (Z.eqb_spec r 0); [done|].
  pose proof Hv' as [Hc' Hf']. assert (<[r:=OKern]> own !! r = Some OKern) as Hk by apply lookup_insert_eq.
  apply wpk_bind, wpk_memset; [apply (vi_page _ _ Hc' r OKern Hk)|].
  assert (len (page_of (u8 0) ++ drop (length (page_of (u8 0))) (page_of 5)) = PGSIZE) as Hlen.
  { rewrite length_app, length_drop. pose proof (page_of_len 5). pose proof (page_of_len (u8 0)). lia. }
  assert (wr (k_mem s') r (page_of (u8 0)) = wr (k_mem s) r (page_of (u8 0) ++ drop (length (page_of (u8 0))) (page_of 5))) as Em.
  { rewrite Es'. kproj. apply wr_over. pose proof (page_of_len 5). pose proof (page_of_len (u8 0)). lia. }
  apply H1; [|done|done|split; kproj| | |].
  - rewrite Es'. kst_eq.
  - clear Em Hlen. eapply core_write; [done|exact Hk|done|lia|by rewrite page_of_len|by apply page_of_bytes].
  - clear Em Hlen. eapply free_write; [done|done|exact Hk|done|lia|by rewrite page_of_len].
  - kproj. rewrite Em. apply grows_free; [apply Hv|done|done].
  - intros t o i Ht Ho Hi. kproj. rewrite Em. eapply (words_apart own); [apply Hv|exact Hfree|exact Ht|done|lia|lia|done].
  - intros i Hi. kproj. by apply zero_page.
Qed.

(** Flags of an entry made by [PA2PTE(p) | f]. *)
Lemma entry_flag p f b :
  is_page p -> 0 <= f < 1024 -> 0 <= b < 1024 -> flag (Z.lor (PA2PTE p) f) b = flag f b.
Proof using HL.
  intros Hp%(is_page_pos HL) Hf Hb. unfold flag. rewrite entry_flags; try done; lia.
Qed.

Lemma entry_page p f : is_page p -> 0 <= f < 1024 -> PTE2PA (Z.lor (PA2PTE p) f) = p.
Proof using HL. intros Hp%(is_page_pos HL) Hf. apply entry_pa; try done; lia. Qed.

Lemma entry_u64 p f : is_page p -> 0 <= f < 1024 -> u64 (Z.lor (PA2PTE p) f) = Z.lor (PA2PTE p) f.
Proof using HL. intros Hp%(is_page_pos HL) Hf. apply u64_small, entry_range; try done; lia. Qed.

(** The flags [f] suit an entry of a table at [path]. *)
Definition flags_ok (path : list Z) (f : Z) : Prop :=
  0 <= f < 1024 /\ flag f PTE_V = true /\
  ((length path < 2)%nat -> Z.land f (Z.lor (Z.lor PTE_R PTE_W) PTE_X) = 0).

Section link.
Context (own : owners) (m : mem) (t pt : Z) (path : list Z) (i p f : Z).
Hypothesis (Hv : vm_core own m) (Ht : own !! t = Some (OTree pt path)) (Hpath : (length path < 3)%nat).
Hypothesis (Hi : 0 <= i < 512) (Hinv : flag (word m (t + 8 * i)) PTE_V = false).
Hypothesis (Hp : own !! p = Some OKern) (Hf : flags_ok path f).
Hypothesis (Hz : (length path < 2)%nat -> forall j, 0 <= j < 512 -> word m (p + 8 * j) = 0).

Let w := Z.lor (PA2PTE p) f.
Let m' := wr m (t + 8 * i) (le_bytes 8 w).
Let own' := <[p := OTree pt (path ++ [i])]> own.

Lemma link_p : is_page p.
Proof using Hv Hp. by apply (vi_page _ _ Hv p OKern). Qed.

Lemma link_word : word m' (t + 8 * i) = w.
Proof using HL Hv Hp Hf. unfold m', w. rewrite word_wr_same. apply entry_u64; [apply link_p|apply Hf]. Qed.

(** Other words of owned pages are unchanged. *)
Lemma link_other q o j : own !! q = Some o -> 0 <= j < 512 -> (q, j) <> (t, i) -> word m' (q + 8 * j) = word m (q + 8 * j).
Proof using Hv Ht Hi.
  clear Hz Hpath. intros Hq Hj Hne. apply word_wr_other. rewrite le_bytes_length.
  destruct (decide (q = t)) as [->|Hqt].
  - assert (j <> i) by congruence. lia.
  - destruct (pages_apart q t); [by apply (vi_page _ _ Hv q o)|by apply (vi_page _ _ Hv t (OTree pt path))|done|unfold PGSIZE in *; lia..].
Qed.

Lemma link_own q o : own !! q = Some o -> q <> p -> own' !! q = Some o.
Proof using. intros. unfold own'. by rewrite lookup_insert_ne. Qed.

Lemma core_link : vm_core own' m'.
Proof using HL Hv Ht Hpath Hi Hinv Hp Hf Hz.
  pose proof link_p as Hpg. destruct Hf as (Hfr & HfV & Hfi).
  assert (forall q pt' path', own' !! q = Some (OTree pt' path') -> q <> p -> own !! q = Some (OTree pt' path')) as Hback.
  { intros q pt' path'. unfold own'. intros H Hne. by rewrite lookup_insert_ne in H. }
  assert (forall pt' path' j x, entry_ok own pt' path' j x -> entry_ok own' pt' path' j x) as Hmono.
  { intros pt' path' j x H Hval. specialize (H Hval). unfold own'. destruct (decide (PTE2PA x = p)) as [E|E].
    - rewrite E, Hp in H. destruct (decide _); [by destruct H|]. destruct H as [H|[H|H]]; [done..|]. by right; right.
    - by rewrite lookup_insert_ne. }
  split.
  - intros q o Hq. destruct (decide (q = p)) as [->|Hne].
    + split; [done|]. apply mapped_wr. by apply (vi_page _ _ Hv p OKern).
    + unfold own' in Hq. rewrite lookup_insert_ne in Hq by done. destruct (vi_page _ _ Hv q o Hq).
      split; [done|]. by apply mapped_wr.
  - apply bytes_mem_wr; [apply Hv|apply le_bytes_ok].
  - intros q pt' Hq. destruct (decide (q = p)) as [->|Hne]; [|by apply (vi_root _ _ Hv), Hback].
    unfold own' in Hq. rewrite lookup_insert_eq in Hq. injection Hq as _ Hq. by apply app_eq_nil in Hq as [_ ?].
  - intros q pt' path' Hq. destruct (decide (q = p)) as [->|Hne]; [|by apply (vi_path _ _ Hv q pt'), Hback].
    unfold own' in Hq. rewrite lookup_insert_eq in Hq. injection Hq as <- <-. destruct (vi_path _ _ Hv _ _ _ Ht).
    rewrite length_app. simpl. split; [lia|]. apply Forall_app. by split; [|constructor].
  - intros q pt' path' j Hq Hl Hj. destruct (decide (q = p)) as [->|Hne].
    + unfold own' in Hq. rewrite lookup_insert_eq in Hq. injection Hq as <- <-. rewrite length_app in Hl. simpl in Hl.
      rewrite (link_other p OKern); [|done|done|intros [= <- _]; congruence]. rewrite Hz by (done || lia). done.
    + apply Hback in Hq; [|done]. destruct (decide ((q, j) = (t, i))) as [E|Hqj].
      * injection E as -> ->. rewrite Ht in Hq. injection Hq as <- <-. rewrite link_word. intros _. unfold w. rewrite entry_page by done. unfold own'.
        rewrite lookup_insert_eq. destruct (decide _); [|by left]. split; [done|].
        pose proof (is_page_pos HL _ Hpg). rewrite entry_flags; (auto || lia || done).
      * rewrite (link_other q _ j Hq) by done. by apply Hmono, (vi_entry _ _ Hv).
  - intros q pt' path' j Hq. destruct (decide (q = p)) as [->|Hne].
    + unfold own' in Hq. rewrite lookup_insert_eq in Hq. injection Hq as <- Hq. apply app_inj_tail in Hq as [<- <-].
      exists t. split; [apply link_own; [done|congruence]|]. rewrite link_word. unfold w.
      rewrite entry_flag, entry_page by (done || lia). done.
    + apply Hback in Hq; [|done]. destruct (vi_parent _ _ Hv _ _ _ _ Hq) as (t' & Ht' & F & E).
      destruct (parent_index _ _ _ _ _ _ Hv Hq) as [_ Hj]. exists t'.
      split; [apply link_own; [done|congruence]|]. rewrite (link_other t' _ j Ht'); [done|done|].
      intros [= -> ->]. congruence.
Qed.

Lemma free_link f' : free_ok own m f' -> free_ok own' m' f'.
Proof using Hv Ht Hp Hi.
  clear Hz Hpath. intros Hfr. assert (free_ok own m' f') as (l & Hc & Hn & Hl).
  { eapply free_write; [done|done|exact Ht|done|lia|rewrite le_bytes_length; unfold PGSIZE; lia]. }
  exists l. split; [done|]. split; [done|]. intros q. rewrite Hl. unfold own'. destruct (decide (q = p)) as [->|].
  - rewrite lookup_insert_eq. naive_solver.
  - by rewrite lookup_insert_ne.
Qed.

Lemma grows_link own0 m0 :
  grows own0 m0 own m -> own0 !! p = Some OFree -> grows own0 m0 own' m'.
Proof using Hv Ht Hpath Hi Hinv.
  clear Hz. intros [G1 G2 G3] Hp0. assert (forall q o, own0 !! q = Some o -> o <> OFree -> q <> p) as Hne by congruence.
  split.
  - intros q o Hq Ho. apply link_own; eauto.
  - intros q pt' path' j Hq Hl Hj Hval. pose proof (G2 _ _ _ _ Hq Hl Hj Hval) as E.
    rewrite (link_other q (OTree pt' path')); [done|by apply G1|done|]. intros [= -> ->]. congruence.
  - intros q o j Hq Ho Hn Hj. rewrite <- (G3 q o j) by done. apply lookup_wr_out. rewrite le_bytes_length.
    assert (own !! q = Some o) as Hq' by auto.
    assert (o <> OTree pt path) as Hot by (intros ->; specialize (Hn _ _ eq_refl); lia).
    destruct (owned_apart _ _ _ _ _ _ Hv Hq' Ht Hot); unfold PGSIZE in *; lia.
Qed.

End link.

(** ** walk *)

(** The indices from [level] down to 1. *)
Fixpoint indices (level : nat) (va : Z) : list Z :=
  match level with
  | O => []
  | S l => PX level va :: indices l va
  end.

Lemma mem_only_trans s s1 s2 : mem_only s s1 -> mem_only s1 s2 -> mem_only s s2.
Proof using. unfold mem_only. intros E1 E2. rewrite E2, E1. kst_eq. Qed.

Lemma mem_only_cpu s s' : mem_only s s' -> k_cpu s' = k_cpu s /\ k_locks s' = k_locks s /\ k_procs s' = k_procs s.
Proof using. intros ->. done. Qed.

(** No entry of a lowest-level table became valid. *)
Definition quiet (own : owners) (m : mem) (own' : owners) (m' : mem) : Prop :=
  forall t pt path i, own' !! t = Some (OTree pt path) -> length path = 2%nat -> 0 <= i < 512 ->
    flag (word m' (t + 8 * i)) PTE_V = true ->
    own !! t = Some (OTree pt path) /\ word m (t + 8 * i) = word m' (t + 8 * i).

(** Memory after page tables have grown. *)
Record walked (own : owners) (s : kst) (own' : owners) (s' : kst) : Prop := {
  wk_mem : mem_only s s';
  wk_inv : vm_inv own' s';
  wk_grows : grows own (k_mem s) own' (k_mem s');
  wk_quiet : quiet own (k_mem s) own' (k_mem s');
}.

Lemma walked_refl own s : vm_inv own s -> walked own s own s.
Proof using. intros Hv. split; [by kst_eq|done|apply grows_refl|by intros t pt path i]. Qed.

Lemma walked_trans own s own1 s1 own2 s2 : walked own s own1 s1 -> walked own1 s1 own2 s2 -> walked own s own2 s2.
Proof using.
  intros [M1 _ G1 Q1] [M2 V2 G2 Q2]. split; [by eapply mem_only_trans|done|by eapply grows_trans|].
  intros t pt path i Ht Hl Hi Hf. destruct (Q2 _ _ _ _ Ht Hl Hi Hf) as [Ht1 E1]. rewrite <- E1 in Hf |- *. eauto.
Qed.

(** A new table below an invalid entry. *)
Lemma walked_link own s s1 t pt path i p :
  vm_inv own s -> own !! t = Some (OTree pt path) -> (length path < 2)%nat -> 0 <= i < 512 ->
  flag (word (k_mem s) (t + 8 * i)) PTE_V = false -> mem_only s s1 -> own !! p = Some OFree ->
  vm_inv (<[p := OKern]> own) s1 -> grows own (k_mem s) (<[p := OKern]> own) (k_mem s1) ->
  (forall t o i, own !! t = Some o -> o <> OFree -> 0 <= i < 512 ->
     word (k_mem s1) (t + 8 * i) = word (k_mem s) (t + 8 * i)) ->
  (forall i, 0 <= i < 512 -> word (k_mem s1) (p + 8 * i) = 0) ->
  walked own s (<[p := OTree pt (path ++ [i])]> (<[p := OKern]> own))
    (set_mem (wr (k_mem s1) (t + 8 * i) (le_bytes 8 (Z.lor (PA2PTE p) PTE_V))) s1).
Proof using HL.
  intros Hv Ht Hl Hi E Hs1 Hpf Hv1 Hg1 Hw Hz. pose proof Hv1 as [Hcore1 Hfree1].
  assert (<[p:=OKern]> own !! t = Some (OTree pt path)) as Ht1 by (rewrite lookup_insert_ne; [done|congruence]).
  assert (<[p:=OKern]> own !! p = Some OKern) as Hp1 by apply lookup_insert_eq.
  assert (flag (word (k_mem s1) (t + 8 * i)) PTE_V = false) as E1 by (by rewrite (Hw t _ _ Ht)).
  assert (flags_ok path PTE_V) as Hflags by (by repeat split). split.
  - eapply mem_only_trans; [exact Hs1|]. kst_eq.
  - split; kproj; [apply core_link|apply free_link]; try done; lia.
  - kproj. apply grows_link; try done; lia.
  - kproj. intros q pt' path' j Hq Hlen Hj Hval. destruct (decide (q = p)) as [->|Hne].
    + rewrite (link_other _ _ t pt path _ p PTE_V Hcore1 Ht1 Hi p OKern j) in Hval; [|done|done|congruence].
      by rewrite Hz in Hval.
    + rewrite !lookup_insert_ne in Hq by done.
      assert (<[p:=OKern]> own !! q = Some (OTree pt' path')) as Hq1 by (by rewrite lookup_insert_ne).
      rewrite (link_other _ _ t pt path _ p PTE_V Hcore1 Ht1 Hi q _ j Hq1 Hj) by (intros [= -> ->]; rewrite Ht in Hq; simplify_eq; lia).
      by rewrite (Hw q _ _ Hq).
Qed.

Lemma wpk_walk_from rely va level : forall own s pt path t (Q : Z -> kst -> Prop),
  vm_inv own s -> cpu_ok (k_cpu s) -> k_locks s !! LKmem = None ->
  own !! t = Some (OTree pt path) -> (length path + level = 2)%nat ->
  (forall own' s', walked own s own' s' -> Q 0 s') ->
  (forall own' s' t', walked own s own' s' ->
     own' !! t' = Some (OTree pt (path ++ indices level va)) -> Q (t' + 8 * PX 0 va) s') ->
  wpk rely (walk_from level t va true) s Q.
Proof using HL.
  induction level as [|l IH]; intros own s pt path t Q Hv Hc Hlk Ht Hlen H0 H1; cbn [walk_from indices].
  { apply wpk_ret, (H1 own); [by apply walked_refl|]. by rewrite app_nil_r. }
  pose proof Hv as [Hcore _]. pose proof (PX_range (S l) va) as Hi.
  apply wpk_bind, wpk_load64; [by eapply entry_mapped|]. destruct (flag _ _) eqn:E.
  - pose proof (step_down _ _ _ _ _ _ Hcore Ht ltac:(lia) Hi E) as Hd.
    eapply IH; [done|done|done|exact Hd|rewrite length_app; simpl; lia|done|].
    intros own' s' t' ? Ht'. eapply H1; [done|]. by rewrite <- app_assoc in Ht'.
  - cbn [negb]. eapply wpk_kalloc_zero; [done|done|done|intros _; by apply wpk_ret, (H0 own), walked_refl|].
    intros s1 p Hs1 Hp Hpf Hv1 Hg1 Hw Hz.
    destruct (mem_only_cpu _ _ Hs1) as (Ec & El & _).
    pose proof (walked_link _ _ _ _ _ _ _ _ Hv Ht ltac:(lia) Hi E Hs1 Hpf Hv1 Hg1 Hw Hz) as Hwk.
    apply wpk_bind, wpk_store64.
    { eapply entry_mapped; [apply Hv1| |done]. rewrite lookup_insert_ne; [exact Ht|congruence]. }
    eapply IH; [apply Hwk|by kproj; rewrite Ec|by kproj; rewrite El|apply lookup_insert_eq|rewrite length_app; simpl; lia|..].
    + intros own' s' Hw'. eapply H0. by eapply walked_trans.
    + intros own' s' t' Hw' Ht'. eapply H1; [by eapply walked_trans|]. by rewrite <- app_assoc in Ht'.
Qed.

Lemma wpk_walk rely own s pt va (Q : Z -> kst -> Prop) :
  vm_inv own s -> cpu_ok (k_cpu s) -> k_locks s !! LKmem = None -> own !! pt = Some (OTree pt []) -> va < MAXVA ->
  (forall own' s', walked own s own' s' -> Q 0 s') ->
  (forall own' s' t, walked own s own' s' -> own' !! t = Some (OTree pt [PX 2 va; PX 1 va]) ->
     Q (t + 8 * PX 0 va) s') ->
  wpk rely (walk pt va true) s Q.
Proof using HL.
  intros Hv Hc Hl Hr Hva H0 H1. unfold walk. destruct (Z.leb_spec MAXVA va); [lia|].
  by eapply (wpk_walk_from rely va 2).
Qed.

(** ** mappages of one page *)

Lemma leaf_none_slot own s own' s' pt va t :
  vm_inv own s -> own !! pt = Some (OTree pt []) -> leaf (k_mem s) pt va = None -> walked own s own' s' ->
  own' !! t = Some (OTree pt [PX 2 va; PX 1 va]) -> flag (word (k_mem s') (t + 8 * PX 0 va)) PTE_V = false.
Proof using.
  intros [Hv _] Hr Hleaf Hw Ht. apply not_true_iff_false. intros Hf.
  destruct (wk_quiet _ _ _ _ Hw _ _ _ _ Ht eq_refl (PX_range 0 va) Hf) as [Ht0 E].
  unfold leaf in Hleaf. rewrite (owned_pte_addr _ _ _ _ _ Hv Ht0) in Hleaf. simpl in Hleaf.
  by rewrite E, Hf in Hleaf.
Qed.

(** The page [p], fresh since [own0] and [m0], is mapped at [va]. *)
Lemma wpk_mappages_page rely own0 m0 own s pt va p perm (Q : Z -> kst -> Prop) :
  vm_inv own s -> cpu_ok (k_cpu s) -> k_locks s !! LKmem = None -> own !! pt = Some (OTree pt []) ->
  0 <= va < MAXVA -> va mod PGSIZE = 0 -> leaf (k_mem s) pt va = None ->
  own !! p = Some OKern -> own0 !! p = Some OFree -> grows own0 m0 own (k_mem s) -> 0 <= perm < 1024 ->
  (forall own' s', walked own s own' s' -> Q (-1) s') ->
  (forall own' s' t, mem_only s s' -> vm_inv own' s' -> grows own0 m0 own' (k_mem s') ->
     own' !! t = Some (OTree pt [PX 2 va; PX 1 va]) ->
     own' !! p = Some (OTree pt [PX 2 va; PX 1 va; PX 0 va]) ->
     word (k_mem s') (t + 8 * PX 0 va) = Z.lor (PA2PTE p) (Z.lor perm PTE_V) -> Q 0 s') ->
  wpk rely (mappages pt va PGSIZE p perm) s Q.
Proof using HL.
  intros Hv Hc Hl Hr Hva Hal Hleaf Hp Hp0 Hg Hperm H0 H1. unfold mappages. rewrite Hal.
  cbn [Z.eqb negb Z.modulo Z.to_nat]. change (PGSIZE mod PGSIZE =? 0) with true. change (PGSIZE =? 0) with false.
  change (Z.to_nat (PGSIZE / PGSIZE)) with 1%nat. cbn [negb mappages_loop].
  apply wpk_bind. eapply wpk_walk; [done|done|done|done|lia|..].
  { intros own' s' Hw. cbn [Z.eqb]. by eapply wpk_ret, H0. }
  intros own' s' t Hw Ht. pose proof (wk_inv _ _ _ _ Hw) as [Hcore Hfree].
  pose proof (PX_range 0 va) as Hi. destruct (vi_page _ _ Hcore _ _ Ht) as [Htp%(is_page_pos HL) _].
  destruct (Z.eqb_spec (t + 8 * PX 0 va) 0); [lia|].
  apply wpk_bind, wpk_load64; [by eapply entry_mapped|].
  pose proof (leaf_none_slot _ _ _ _ _ _ _ Hv Hr Hleaf Hw Ht) as Hinv. rewrite Hinv.
  apply wpk_bind, wpk_store64; [by eapply entry_mapped|]. rewrite <- Z.lor_assoc.
  set (f := Z.lor perm PTE_V).
  assert (own' !! p = Some OKern) as Hp' by (by apply (gr_own _ _ _ _ (wk_grows _ _ _ _ Hw))).
  assert (flags_ok [PX 2 va; PX 1 va] f) as Hf.
  { split; [|split; [|simpl; lia]].
    - unfold f. change PTE_V with 1. split; [apply Z.lor_nonneg; lia|]. apply Z.log2_lt_cancel. rewrite Z.log2_lor by lia.
      apply Z.max_lub_lt; [|done]. destruct (decide (perm = 0)) as [->|]; [done|]. apply Z.log2_lt_pow2; simpl; lia.
    - unfold f, flag. rewrite Z.land_lor_distr_l. change (Z.land PTE_V PTE_V) with 1.
      destruct (Z.eqb_spec (Z.lor (Z.land perm PTE_V) 1) 0) as [E%Z.lor_eq_0_iff|]; [lia|done]. }
  assert (u64 (va + PGSIZE - PGSIZE) = va) as ->.
  { rewrite u64_small; [lia|]. change MAXVA with 274877906944 in Hva. unfold PGSIZE. lia. }
  rewrite Z.eqb_refl. apply wpk_ret. eapply H1 with (own' := <[p := OTree pt ([PX 2 va; PX 1 va] ++ [PX 0 va])]> own') (t := t).
  - eapply mem_only_trans; [apply Hw|]. kst_eq.
  - split; kproj; [apply core_link|apply free_link]; try done; simpl; lia.
  - kproj. apply grows_link; [done|done|simpl; lia|done|done|by eapply grows_trans; [|apply Hw]|done].
  - rewrite lookup_insert_ne; [done|]. intros ->. congruence.
  - apply lookup_insert_eq.
  - kproj. apply (link_word own' (k_mem s') t [PX 2 va; PX 1 va] (PX 0 va) p f); done.
Qed.

End walk.
