(* ===== verification/XvCopy.v ===== *)
(** Copying between kernel and user memory: [walkaddr], [vmfault], [copyin] and
    [copyout] of kernel/vm.c terminate in every state the invariant allows,
    touch only the page table and the pages of the address space they are given,
    and copy what is mapped.  The file ends with the instance of the interface
    that the system calls are proved against. *)

From S2P Require Import Prelude XvMem XvString XvKernel XvMsg XvVm XvPages XvWalk.

Section copy.
Context {Lay : Layout} (HL : layout_ok).

#[local] Opaque page_of wr le_bytes.

(** * Relations between states *)

(** Nothing changed but page tables, free pages, the pages of [pt] and shared
    segments; owners and valid entries stay. *)
Record touches (pt : Z) (own : owners) (m : mem) (own' : owners) (m' : mem) : Prop := {
  to_own : forall pa o, own !! pa = Some o -> o <> OFree -> own' !! pa = Some o;
  to_entry : forall t pt' path i, own !! t = Some (OTree pt' path) -> (length path < 3)%nat -> 0 <= i < 512 ->
    flag (word m (t + 8 * i)) PTE_V = true -> word m' (t + 8 * i) = word m (t + 8 * i);
  to_data : forall pa o i, own !! pa = Some o -> o <> OFree -> not_table o -> o <> OShared ->
    (forall path, o <> OTree pt path) -> 0 <= i < PGSIZE -> m' !! (pa + i) = m !! (pa + i);
}.

Lemma touches_grows pt own m own' m' : grows own m own' m' -> touches pt own m own' m'.
Proof using. intros [G1 G2 G3]. split; [done|done|]. intros. by eapply G3. Qed.

Lemma touches_trans pt own0 m0 own1 m1 own2 m2 :
  touches pt own0 m0 own1 m1 -> touches pt own1 m1 own2 m2 -> touches pt own0 m0 own2 m2.
Proof using.
  intros [A1 A2 A3] [B1 B2 B3]. split.
  - auto.
  - intros t pt' path i Ht Hl Hi Hf. rewrite <- (A2 _ _ _ _ Ht Hl Hi Hf). eapply B2; [by apply A1|done|done|].
    by rewrite (A2 _ _ _ _ Ht Hl Hi Hf).
  - intros pa o i Hp Ho Hn Hs Hpt Hi. rewrite (B3 pa o i) by auto. by apply (A3 pa o i).
Qed.

(** A page the process may write: one of its own, or shared. *)
Definition user_page (own : owners) (pt pa : Z) : Prop :=
  (exists path, length path = 3%nat /\ own !! pa = Some (OTree pt path)) \/ own !! pa = Some OShared.

Lemma user_page_write own m pt pa a l :
  vm_core own m -> user_page own pt pa -> pa <= a -> a + len l <= pa + PGSIZE -> Forall is_byte l ->
  vm_core own (wr m a l) /\ (forall f, free_ok own m f -> free_ok own (wr m a l) f) /\
  touches pt own m own (wr m a l).
Proof using.
  intros Hv Hu Ha Hl Hb.
  assert (exists o, own !! pa = Some o /\ not_table o /\ o <> OFree /\ (o = OShared \/ exists path, o = OTree pt path))
    as (o & Ho & Hn & Hf & Hk).
  { destruct Hu as [(path & Hlen & H)|H]; eexists; (split; [exact H|]).
    - split; [intros ? ? [= -> ->]; done|]. split; [done|]. right. eauto.
    - split; [done|]. split; [done|]. by left. }
  split; [by eapply core_write|]. split; [intros; by eapply free_write|]. split; [done|..].
  - intros t pt' path i Ht Hlen Hi _. eapply (words_apart own); [done|exact Ho|exact Ht| |done..].
    intros E. specialize (Hn _ _ (eq_sym E)). lia.
  - intros q oq i Hq Hqf _ Hqs Hqp Hi. apply lookup_wr_out.
    assert (oq <> o) as Hne by (destruct Hk as [->|[path ->]]; done || auto).
    destruct (owned_apart _ _ _ _ _ _ Hv Hq Ho Hne); lia.
Qed.

(** * walkaddr *)

Lemma leaf_page m pt va : 0 <= va < 2 ^ 64 -> leaf m pt (PGROUNDDOWN va) = leaf m pt va.
Proof using. intros Hva. unfold leaf, pte_addr. by rewrite !PX_page. Qed.

(** What is mapped depends on the tables only. *)
Lemma leaf_same own m m' pt va :
  vm_core own m -> own !! pt = Some (OTree pt []) ->
  (forall t path i, own !! t = Some (OTree pt path) -> (length path < 3)%nat -> 0 <= i < 512 ->
     word m' (t + 8 * i) = word m (t + 8 * i)) ->
  leaf m' pt va = leaf m pt va.
Proof using.
  intros Hv Hr Hw. unfold leaf, pte_addr. rewrite (Hw pt [] _ Hr ltac:(simpl; lia) (PX_range 2 va)).
  destruct (flag (word m (pt + 8 * PX 2 va)) PTE_V) eqn:E2; [|done].
  pose proof (step_down _ _ _ _ _ _ Hv Hr ltac:(simpl; lia) (PX_range 2 va) E2) as H1. simpl in H1.
  rewrite (Hw _ _ _ H1 ltac:(simpl; lia) (PX_range 1 va)).
  destruct (flag (word m (PTE2PA _ + 8 * PX 1 va)) PTE_V) eqn:E1; [|done]. simpl.
  pose proof (step_down _ _ _ _ _ _ Hv H1 ltac:(simpl; lia) (PX_range 1 va) E1) as H0. simpl in H0.
  by rewrite (Hw _ _ _ H0 ltac:(simpl; lia) (PX_range 0 va)).
Qed.

(** A valid entry with the user flag leads to a page of the process. *)
Lemma leaf_user own m pt va w :
  vm_core own m -> own !! pt = Some (OTree pt []) -> leaf m pt va = Some w -> flag w PTE_U = true ->
  user_page own pt (PTE2PA w).
Proof using.
  intros Hv Hr Hl Hu. unfold leaf in Hl. destruct (pte_addr m pt va) as [a|] eqn:Ea; [|done]. simpl in Hl.
  destruct (flag (word m a) PTE_V) eqn:Hf; [|done]. injection Hl as <-.
  destruct (pte_addr_owned _ _ _ _ _ Hv Hr Ea) as (t & Ht & ->).
  pose proof (vi_entry _ _ Hv t pt _ _ Ht ltac:(simpl; lia) (PX_range 0 va) Hf) as He.
  destruct (decide _) as [Hd|_]; [simpl in Hd; lia|]. destruct He as [He|[He|He]].
  - left. by eexists; split; [|exact He].
  - by right.
  - congruence.
Qed.

Lemma user_page_pos own m pt pa : vm_core own m -> user_page own pt pa -> 0 < pa < 2 ^ 32 /\ mapped m pa PGSIZE.
Proof using HL.
  intros Hv [(path & _ & H)|H]; destruct (vi_page _ _ Hv _ _ H) as [Hp%(is_page_pos HL) Hm]; (split; [apply Hp|done]).
Qed.

Definition translated (m : mem) (pt va : Z) : Z :=
  match leaf m pt va with
  | Some w => if flag w PTE_U then PTE2PA w else 0
  | None => 0
  end.

Lemma wpk_walkaddr rely own s pt va (Q : Z -> kst -> Prop) :
  vm_core own (k_mem s) -> own !! pt = Some (OTree pt []) ->
  (MAXVA <= va -> Q 0 s) -> (va < MAXVA -> Q (translated (k_mem s) pt va) s) -> wpk rely (walkaddr pt va) s Q.
Proof using HL.
  intros Hv Hr H0 H1. unfold walkaddr. destruct (Z.leb_spec MAXVA va); [by apply wpk_ret, H0|].
  specialize (H1 ltac:(done)). apply wpk_bind. eapply wpk_walk_read; [done|done|done|]. unfold translated, leaf in H1.
  destruct (pte_addr (k_mem s) pt va) as [a|] eqn:Ea; simpl in *; [|by apply wpk_ret].
  destruct (pte_addr_nonzero HL _ _ _ _ _ Hv Hr Ea) as [Hne Hm]. destruct (Z.eqb_spec a 0); [done|].
  apply wpk_bind, wpk_load64; [done|]. destruct (flag _ PTE_V); [|by apply wpk_ret].
  by destruct (flag _ PTE_U); apply wpk_ret.
Qed.

Lemma wpk_ismapped rely own s pt va (Q : bool -> kst -> Prop) :
  vm_core own (k_mem s) -> own !! pt = Some (OTree pt []) -> va < MAXVA ->
  Q (bool_decide (is_Some (leaf (k_mem s) pt va))) s -> wpk rely (ismapped pt va) s Q.
Proof using HL.
  intros Hv Hr Hva HQ. unfold ismapped. apply wpk_bind. eapply wpk_walk_read; [done|done|done|]. unfold leaf in HQ.
  destruct (pte_addr (k_mem s) pt va) as [a|] eqn:Ea; simpl in *.
  - destruct (pte_addr_nonzero HL _ _ _ _ _ Hv Hr Ea) as [Hne Hm]. destruct (Z.eqb_spec a 0); [done|].
    apply wpk_bind, wpk_load64; [done|]. apply wpk_ret. destruct (flag _ PTE_V).
    + by rewrite bool_decide_eq_true_2 in HQ by eauto.
    + by rewrite bool_decide_eq_false_2 in HQ by (intros [? ?]; done).
  - by apply wpk_ret.
Qed.

(** * Mapped memory *)

Lemma MAXVA_val : MAXVA = 274877906944.
Proof using. done. Qed.

(** The bytes [l] at [va] of the address space. *)
Definition space_has (m : mem) (pt va : Z) (l : bytes) : Prop :=
  forall k x, l !! k = Some x -> let a := va + Z.of_nat k in
    0 <= a < MAXVA /\ exists w, leaf m pt a = Some w /\ flag w PTE_U = true /\ m !! (PTE2PA w + a mod PGSIZE) = Some x.

(** [n] bytes at [va] are mapped, for writing, to pages of their own. *)
Definition space_room (m : mem) (pt va n : Z) : Prop :=
  (forall k, 0 <= k < n -> 0 <= va + k < MAXVA /\
     exists w, leaf m pt (va + k) = Some w /\ flag w PTE_U = true /\ flag w PTE_W = true) /\
  (forall k k' w w', 0 <= k < n -> 0 <= k' < n -> leaf m pt (va + k) = Some w -> leaf m pt (va + k') = Some w' ->
     PTE2PA w = PTE2PA w' -> (va + k) / PGSIZE = (va + k') / PGSIZE).

Lemma same_page_leaf m pt a b : is_u64 a -> is_u64 b -> a / PGSIZE = b / PGSIZE -> leaf m pt a = leaf m pt b.
Proof using.
  intros Ha Hb E. rewrite <- (leaf_page m pt a), <- (leaf_page m pt b) by done. f_equal.
  rewrite !pground_down by done. unfold PGSIZE in *. pose proof (Z.div_mod a 4096). pose proof (Z.div_mod b 4096). lia.
Qed.

Lemma within_page va j :
  0 <= j -> va mod PGSIZE + j < PGSIZE ->
  (va + j) / PGSIZE = va / PGSIZE /\ (va + j) mod PGSIZE = va mod PGSIZE + j.
Proof using.
  intros Hj Hb. pose proof (Z.mod_pos_bound va PGSIZE ltac:(done)). pose proof (Z.div_mod va PGSIZE ltac:(done)).
  split; symmetry; [apply (Z.div_unique _ _ _ (va mod PGSIZE + j))|apply (Z.mod_unique _ _ (va / PGSIZE))]; lia.
Qed.

(** * vmfault *)

(** A page handed out since [own0] goes back. *)
Lemma grows_giveback own0 m0 own m p l :
  grows own0 m0 own m -> vm_core own m -> own0 !! p = Some OFree -> own !! p = Some OKern -> len l = PGSIZE ->
  grows own0 m0 (<[p := OFree]> own) (wr m p l).
Proof using.
  intros [G1 G2 G3] Hv Hp0 Hp Hl. split.
  - intros q o Hq Ho. rewrite lookup_insert_ne; [by apply G1|]. intros ->. congruence.
  - intros t pt path i Ht Hlen Hi Hf. rewrite <- (G2 _ _ _ _ Ht Hlen Hi Hf).
    eapply (words_apart own); [done|exact Hp|by apply G1|done|lia|lia|done].
  - intros q o i Hq Ho Hn Hi. rewrite <- (G3 q o i) by done. apply lookup_wr_out.
    assert (own !! q = Some o) as Hq' by auto. assert (q <> p) as Hne by congruence.
    destruct (pages_apart q p); [by apply (vi_page _ _ Hv q o)|by apply (vi_page _ _ Hv p OKern)|done|lia..].
Qed.

Lemma vmfault_perm : 0 <= Z.lor (Z.lor PTE_W PTE_U) PTE_R < 1024.
Proof using. done. Qed.

Lemma wpk_vmfault rely own s i p va (Q : Z -> kst -> Prop) :
  vm_inv own s -> cpu_ok (k_cpu s) -> c_proc (k_cpu s) = Some i -> k_procs s !! i = Some p ->
  k_locks s !! LKmem = None -> own !! p_pagetable p = Some (OTree (p_pagetable p) []) ->
  is_u64 va -> p_sz p <= MAXVA ->
  (forall own' s', mem_only s s' -> vm_inv own' s' -> grows own (k_mem s) own' (k_mem s') -> Q 0 s') ->
  (forall own' s' pa t, mem_only s s' -> vm_inv own' s' -> grows own (k_mem s) own' (k_mem s') ->
     user_page own' (p_pagetable p) pa -> va < MAXVA ->
     own' !! t = Some (OTree (p_pagetable p) [PX 2 va; PX 1 va]) ->
     (exists w, leaf (k_mem s') (p_pagetable p) va = Some w /\ flag w PTE_U = true /\ PTE2PA w = pa) -> Q pa s') ->
  wpk rely (vmfault (p_pagetable p) va) s Q.
Proof using HL.
  intros Hv Hc Hme Hi Hl Hr Hva Hsz H0 H1. pose proof Hv as [Hcore _]. unfold vmfault.
  apply wpk_bind. eapply wpk_myproc; [done|done|]. apply wpk_bind. eapply wpk_get_proc; [done|].
  destruct (Z.leb_spec (p_sz p) va); [by apply wpk_ret, (H0 own); [by kst_eq| |apply grows_refl]|]. cbv zeta.
  pose proof (pground_down va Hva) as Hd. pose proof (Z.mod_pos_bound va PGSIZE ltac:(done)) as Hb.
  assert (PGROUNDDOWN va mod PGSIZE = 0) as Hal.
  { rewrite Hd. rewrite Zminus_mod_idemp_r, Z.sub_diag. done. }
  assert (0 <= PGROUNDDOWN va < MAXVA) as Hrange.
  { split; [|lia]. unfold PGROUNDDOWN. apply Z.land_nonneg. left. apply Hva. }
  apply wpk_bind. eapply wpk_ismapped; [done|done|lia|]. rewrite leaf_page by done.
  case_bool_decide as Hmap; [by apply wpk_ret, (H0 own); [by kst_eq| |apply grows_refl]|].
  apply eq_None_not_Some in Hmap.
  eapply wpk_kalloc_zero; [done|done|done|intros _; by apply wpk_ret, (H0 own); [by kst_eq| |apply grows_refl]|].
  intros s1 q Hs1 Hq Hqf Hv1 Hg1 Hw1 Hz1. destruct (mem_only_cpu _ _ Hs1) as (Ec & El & _).
  set (own1 := <[q := OKern]> own) in *.
  assert (own1 !! p_pagetable p = Some (OTree (p_pagetable p) [])) as Hr1 by (apply (gr_own _ _ _ _ Hg1); done).
  assert (leaf (k_mem s1) (p_pagetable p) (PGROUNDDOWN va) = None) as Hleaf1.
  { rewrite leaf_page by done. rewrite (leaf_same own (k_mem s)); try done. intros. by eapply Hw1. }
  apply wpk_bind. eapply (wpk_mappages_page HL _ own (k_mem s) own1); try done.
  { by rewrite Ec. }
  { by rewrite El. }
  { apply lookup_insert_eq. }
  - intros own2 s2 Hw2. cbn [Z.eqb negb]. destruct (mem_only_cpu _ _ (wk_mem _ _ _ _ Hw2)) as (Ec2 & El2 & _).
    assert (own2 !! q = Some OKern) as Hq2 by (apply (gr_own _ _ _ _ (wk_grows _ _ _ _ Hw2)); [apply lookup_insert_eq|done]).
    apply wpk_bind. eapply (wpk_kfree HL); [apply Hw2|by rewrite Ec2, Ec|by rewrite El2, El|done|].
    intros s3 l Hv3 Hl3 Es3. apply wpk_ret, (H0 (<[q := OFree]> own2)); [|done|].
    + eapply mem_only_trans; [exact Hs1|]. eapply mem_only_trans; [apply Hw2|]. rewrite Es3. kst_eq.
    + rewrite Es3. kproj. apply grows_giveback; [|apply Hw2|done..]. eapply grows_trans; [exact Hg1|apply Hw2].
  - intros own2 s2 t Hs2 Hv2 Hg2 Ht2 Hq2 Hword. cbn [Z.eqb negb]. rewrite !PX_page in * by done.
    apply wpk_ret, (H1 own2 s2 q t); [by eapply mem_only_trans|done|done| |lia|done|].
    { left. by eexists; split; [|exact Hq2]. }
    destruct (vi_page _ _ Hcore q OFree Hqf) as [Hqp _]. eexists. split; [|split].
    + unfold leaf. rewrite (owned_pte_addr _ _ _ _ _ (proj1 Hv2) Ht2). simpl. rewrite Hword.
      by rewrite (entry_flag HL) by done.
    + by rewrite (entry_flag HL) by done.
    + by rewrite (entry_page HL) by done.
Qed.

(** * The copy loops *)

(** The state in which the process at index [i], [p], copies. *)
Record running (own : owners) (i : nat) (p : proc) (s : kst) : Prop := {
  ru_inv : vm_inv own s;
  ru_cpu : cpu_ok (k_cpu s);
  ru_me : c_proc (k_cpu s) = Some i;
  ru_proc : k_procs s !! i = Some p;
  ru_lock : k_locks s !! LKmem = None;
  ru_root : own !! p_pagetable p = Some (OTree (p_pagetable p) []);
  ru_sz : p_sz p <= MAXVA;
}.

Lemma running_step own i p s own' s' :
  running own i p s -> mem_only s s' -> vm_inv own' s' ->
  (forall pa o, own !! pa = Some o -> o <> OFree -> own' !! pa = Some o) -> running own' i p s'.
Proof using.
  intros [] Hm Hv Ho. destruct (mem_only_cpu _ _ Hm) as (Ec & El & Ep).
  split; rewrite ?Ec, ?El, ?Ep; auto.
Qed.

(** The page of [va]: mapped already, or mapped now; or there is none. *)
Lemma wpk_resolve {A} rely own s i p va (f : Z -> KM A) Q :
  running own i p s -> is_u64 va ->
  (forall own' s', mem_only s s' -> vm_inv own' s' -> grows own (k_mem s) own' (k_mem s') -> wpk rely (f 0) s' Q) ->
  (forall own' s' pa a, mem_only s s' -> vm_inv own' s' -> grows own (k_mem s) own' (k_mem s') ->
     user_page own' (p_pagetable p) pa -> va < MAXVA -> pte_addr (k_mem s') (p_pagetable p) va = Some a ->
     (exists w, leaf (k_mem s') (p_pagetable p) va = Some w /\ flag w PTE_U = true /\ PTE2PA w = pa) ->
     wpk rely (f pa) s' Q) ->
  wpk rely (pa ← walkaddr (p_pagetable p) va;
            pa0 ← (if pa =? 0 then vmfault (p_pagetable p) va else mret pa); f pa0) s Q.
Proof using HL.
  intros [Hv Hc Hme Hp Hl Hr Hsz] Hva H0 H1. pose proof Hv as [Hcore _].
  assert (wpk rely (pa0 ← vmfault (p_pagetable p) va; f pa0) s Q) as Hfault.
  { apply wpk_bind. eapply wpk_vmfault; [done|done|done|done|done|done|done|done|done|].
    intros own' s' pa t Hm Hv' Hg Hu Hlt Ht Hw. eapply H1; [done..| |done]. eapply owned_pte_addr; [apply Hv'|done]. }
  apply wpk_bind. eapply wpk_walkaddr; [done|done|by intros _; cbn [Z.eqb]|]. intros Hlt.
  unfold translated. destruct (leaf (k_mem s) (p_pagetable p) va) as [w|] eqn:El; [|done].
  destruct (flag w PTE_U) eqn:Eu; [|done].
  pose proof (leaf_user _ _ _ _ _ Hcore Hr El Eu) as Hu. destruct (user_page_pos _ _ _ _ Hcore Hu) as [Hpos _].
  destruct (Z.eqb_spec (PTE2PA w) 0); [lia|]. apply wpk_bind, wpk_ret.
  assert (El' := El). unfold leaf in El. destruct (pte_addr (k_mem s) (p_pagetable p) va) as [a|] eqn:Ea; [|done].
  eapply (H1 own s _ a); [by kst_eq|done|apply grows_refl|done|done|done|by exists w].
Qed.

(** The part of a copy that falls into the page of [va]. *)
Lemma chunk_bounds va n fuel :
  is_u64 va -> 0 < n -> va mod PGSIZE + n <= Z.of_nat (S fuel) * PGSIZE ->
  let va0 := PGROUNDDOWN va in
  let room := PGSIZE - (va - va0) in
  let k := if n <? room then n else room in
  va - va0 = va mod PGSIZE /\ 0 < k <= n /\ va - va0 + k <= PGSIZE /\ 0 <= va - va0 /\ is_u64 va0 /\
  u64 (va0 + PGSIZE) mod PGSIZE = 0 /\ is_u64 (u64 (va0 + PGSIZE)) /\ n - k <= Z.of_nat fuel * PGSIZE /\
  (k < n -> k = room).
Proof using.
  intros Hva Hn Hfuel va0 room k. pose proof (pground_down va Hva) as Hd. fold va0 in Hd.
  pose proof (Z.mod_pos_bound va PGSIZE ltac:(done)) as Hb. unfold is_u64 in *.
  pose proof (Z.mod_le va PGSIZE ltac:(lia) ltac:(done)) as Hle.
  assert (u64 (va0 + PGSIZE) mod PGSIZE = 0) as Hal.
  { unfold u64. rewrite Z.mod_mod_divide by (exists (2 ^ 52); done). rewrite Hd. unfold PGSIZE.
    replace (va - va mod 4096 + 4096) with ((va / 4096 + 1) * 4096) by (pose proof (Z.div_mod va 4096); lia).
    by rewrite Z.mod_mul. }
  pose proof (u64_range (va0 + PGSIZE)).
  unfold k. destruct (Z.ltb_spec n room); unfold room in *; unfold PGSIZE in *; repeat split; lia || done.
Qed.

(** Valid entries stay, so what is mapped stays mapped. *)
Lemma touches_leaf pt own m own' m' pt' va w :
  vm_core own m -> touches pt own m own' m' -> own !! pt' = Some (OTree pt' []) ->
  leaf m pt' va = Some w -> leaf m' pt' va = Some w.
Proof using.
  intros Hv [_ He _] Hr. unfold leaf, pte_addr.
  destruct (flag (word m (pt' + 8 * PX 2 va)) PTE_V) eqn:E2; [|done].
  rewrite (He pt' pt' [] _ Hr ltac:(simpl; lia) (PX_range 2 va) E2), E2.
  pose proof (step_down _ _ _ _ _ _ Hv Hr ltac:(simpl; lia) (PX_range 2 va) E2) as H1. simpl in H1.
  destruct (flag (word m (PTE2PA _ + 8 * PX 1 va)) PTE_V) eqn:E1; [|done].
  rewrite (He _ _ _ _ H1 ltac:(simpl; lia) (PX_range 1 va) E1), E1. simpl.
  pose proof (step_down _ _ _ _ _ _ Hv H1 ltac:(simpl; lia) (PX_range 1 va) E1) as H0. simpl in H0.
  destruct (flag (word m (PTE2PA _ + 8 * PX 0 va)) PTE_V) eqn:E0; [|done].
  by rewrite (He _ _ _ _ H0 ltac:(simpl; lia) (PX_range 0 va) E0), E0.
Qed.

(** What a process sees stays when the page tables grow. *)
Lemma grows_has pt own m own' m' va l :
  vm_core own m -> own !! pt = Some (OTree pt []) -> grows own m own' m' ->
  space_has m pt va l -> space_has m' pt va l.
Proof using.
  intros Hv Hr Hg Hs k x Hx. destruct (Hs k x Hx) as (Ha & w & Hw & Hu & Hm). split; [done|]. exists w.
  split; [by eapply touches_leaf; [|by apply (touches_grows pt)| |]|]. split; [done|]. rewrite <- Hm.
  assert (0 <= (va + Z.of_nat k) mod PGSIZE < PGSIZE) by (by apply Z.mod_pos_bound).
  destruct (leaf_user _ _ _ _ _ Hv Hr Hw Hu) as [(path & Hlen & Ho)|Ho];
    apply (gr_data _ _ _ _ Hg _ _ _ Ho); try done. by intros ? ? [= <- <-].
Qed.

(** A block in the page of [va], as user memory. *)
Lemma block_space own m pt va l w :
  vm_core own m -> is_u64 va -> va < MAXVA -> leaf m pt va = Some w -> flag w PTE_U = true ->
  va mod PGSIZE + len l <= PGSIZE -> has m (PTE2PA w + va mod PGSIZE) l -> space_has m pt va l.
Proof using.
  intros Hv Hva Hlt Hw Hu Hl Hh k x Hx a. pose proof (lookup_lt_Some _ _ _ Hx). pose proof MAXVA_val as HM.
  pose proof (Z.mod_pos_bound va PGSIZE ltac:(done)). pose proof (Z.div_mod va PGSIZE ltac:(done)).
  destruct (within_page va (Z.of_nat k)) as [Ed Em]; [lia|lia|]. unfold is_u64 in Hva.
  assert (0 <= a < MAXVA) as Ha by (unfold a, PGSIZE in *; lia).
  split; [done|]. exists w. rewrite (same_page_leaf m pt a va) by (done || unfold is_u64; lia).
  split; [done|]. split; [done|]. unfold a. rewrite Em, Z.add_assoc. by apply Hh.
Qed.

Lemma space_has_app m pt va l1 l2 :
  space_has m pt va l1 -> space_has m pt (va + len l1) l2 -> space_has m pt va (l1 ++ l2).
Proof using.
  intros H1 H2 k x Hx. destruct (decide (k < length l1)%nat) as [Hk|Hk].
  - rewrite lookup_app_l in Hx by done. by apply H1.
  - rewrite lookup_app_r in Hx by lia. specialize (H2 _ _ Hx). cbv zeta in *.
    by replace (va + len l1 + Z.of_nat (k - length l1)) with (va + Z.of_nat k) in H2 by lia.
Qed.

(** The page of an address below [MAXVA]. *)
Lemma page_end va :
  is_u64 va -> PGROUNDDOWN va < MAXVA -> va < MAXVA /\ u64 (PGROUNDDOWN va + PGSIZE) = PGROUNDDOWN va + PGSIZE.
Proof using.
  intros Hva Hlt. pose proof MAXVA_val. pose proof (pground_down va Hva). unfold is_u64, PGSIZE in *.
  pose proof (Z.mod_pos_bound va 4096 ltac:(done)). pose proof (Z.div_mod va 4096 ltac:(done)).
  split; [lia|]. apply u64_small. lia.
Qed.

Definition copyin_post (pt va : Z) (own : owners) (s : kst) (dst : bytes) (n : Z) : Z * bytes -> kst -> Prop := fun '(rc, d) s' =>
  exists own', mem_only s s' /\ vm_inv own' s' /\ grows own (k_mem s) own' (k_mem s') /\
    (rc = 0 /\ len d = len dst + n \/ rc = -1 /\ len d <= len dst + n) /\ Forall is_byte d /\
    (rc = 0 -> exists l, d = dst ++ l /\ space_has (k_mem s') pt va l).

(** One page read, then the rest. *)
Lemma copyin_post_step pt va va' own s own' s' dst l n rc d s'' :
  copyin_post pt va' own' s' (dst ++ l) (n - len l) (rc, d) s'' ->
  mem_only s s' -> vm_core own' (k_mem s') -> grows own (k_mem s) own' (k_mem s') -> own' !! pt = Some (OTree pt []) ->
  space_has (k_mem s') pt va l -> (0 < n - len l -> va' = va + len l) ->
  copyin_post pt va own s dst n (rc, d) s''.
Proof using.
  intros (own'' & Hm'' & Hv'' & Hg'' & Hrc & Hd & Hl) Hm Hv' Hg Hr Hs Hva. rewrite length_app in Hrc.
  exists own''. split; [by eapply mem_only_trans|]. split; [done|]. split; [by eapply grows_trans|]. split; [lia|].
  split; [done|]. intros ->. destruct (Hl eq_refl) as (l' & -> & Hl'). exists (l ++ l'). split; [by rewrite app_assoc|].
  pose proof (grows_has _ _ _ _ _ _ _ Hv' Hr Hg'' Hs) as Hs''. apply space_has_app; [done|].
  destruct l' as [|x l']; [by intros k y Hk|]. rewrite <- Hva; [done|]. rewrite !length_app in Hrc. simpl in Hrc. lia.
Qed.

Lemma wpk_copyin_loop rely i p : forall fuel own s va n dst,
  running own i p s -> is_u64 va -> 0 <= n -> va mod PGSIZE + n <= Z.of_nat fuel * PGSIZE -> Forall is_byte dst ->
  wpk rely (copyin_loop fuel (p_pagetable p) va n dst) s (copyin_post (p_pagetable p) va own s dst n).
Proof using HL.
  induction fuel as [|fuel IH]; intros own s va n dst Hrun Hva Hn Hfuel Hdst; cbn [copyin_loop];
    destruct (Z.ltb_spec 0 n); try (apply wpk_ret; exists own; split; [by kst_eq|]; split; [apply Hrun|];
      split; [apply grows_refl|]; split; [lia|]; split; [done|]; intros _; exists []; rewrite app_nil_r; by split).
  { pose proof (Z.mod_pos_bound va PGSIZE ltac:(done)). lia. }
  destruct (chunk_bounds va n fuel Hva ltac:(lia) Hfuel) as (Eo & Hk & Hke & Ho & Hva0 & Hal & Hva' & Hn' & Hroom).
  eapply wpk_resolve; [done|done|..].
  { intros own' s' Hm Hv' Hg. cbn [Z.eqb]. apply wpk_ret. exists own'. do 3 (split; [done|]). split; [lia|done]. }
  intros own' s' pa a Hm Hv' Hg Hu Hlt _ (w & Hw & Huw & <-). pose proof Hv' as [Hcore' _]. rewrite leaf_page in Hw by done.
  destruct (user_page_pos _ _ _ _ Hcore' Hu) as [Hpos Hmap]. destruct (Z.eqb_spec (PTE2PA w) 0); [lia|].
  set (k := if n <? PGSIZE - (va - PGROUNDDOWN va) then n else PGSIZE - (va - PGROUNDDOWN va)) in *.
  destruct (mapped_has (k_mem s') (PTE2PA w + (va - PGROUNDDOWN va)) (Z.to_nat k)) as (l & Hl & Hh & Hb).
  { apply Hcore'. }
  { eapply mapped_sub; [exact Hmap|lia|lia]. }
  apply wpk_bind. eapply wpk_on_mem; [rewrite <- Hl; by apply load_block_ok|].
  replace (set_mem (k_mem s') s') with s' by (by kst_eq).
  assert (running own' i p s') as Hrun' by (eapply running_step; [done|done|done|apply Hg]).
  assert (len l = k) as Elk by lia. rewrite <- Elk in *. pose proof (page_end va Hva Hlt) as [Hva1 Hva2].
  eapply wpk_mono; [apply (IH own'); [done|done|lia|rewrite Hal; lia|by apply Forall_app]|].
  intros [rc d] s'' Hpost. eapply copyin_post_step; [exact Hpost|done|done|done|apply Hrun'| |].
  - eapply block_space; [done|done|done|done|done|lia|by rewrite <- Eo].
  - intros Hlt'. rewrite (Hroom ltac:(lia)), Hva2. lia.
Qed.

Definition copyout_post (pt : Z) (own : owners) (s : kst) (rc : Z) (s' : kst) : Prop :=
  exists own', mem_only s s' /\ vm_inv own' s' /\ touches pt own (k_mem s) own' (k_mem s') /\ (rc = 0 \/ rc = -1).

Lemma copyout_post_grows pt own s own' s' rc :
  mem_only s s' -> vm_inv own' s' -> grows own (k_mem s) own' (k_mem s') -> rc = 0 \/ rc = -1 -> copyout_post pt own s rc s'.
Proof using. intros Hm Hv Hg Hrc. exists own'. split; [done|]. split; [done|]. split; [by apply touches_grows|done]. Qed.

Lemma wpk_copyout_loop rely i p : forall fuel own s va src n,
  running own i p s -> is_u64 va -> 0 <= n <= len src -> va mod PGSIZE + n <= Z.of_nat fuel * PGSIZE ->
  Forall is_byte src ->
  wpk rely (copyout_loop fuel (p_pagetable p) va src n) s (copyout_post (p_pagetable p) own s).
Proof using HL.
  induction fuel as [|fuel IH]; intros own s va src n Hrun Hva Hn Hfuel Hsrc; cbn [copyout_loop];
    destruct (Z.ltb_spec 0 n); try (apply wpk_ret, (copyout_post_grows _ _ _ own); [by kst_eq|apply Hrun|apply grows_refl|by left]).
  { pose proof (Z.mod_pos_bound va PGSIZE ltac:(done)). lia. }
  destruct (chunk_bounds va n fuel Hva ltac:(lia) Hfuel) as (Eo & Hk & Hke & Ho & Hva0 & Hal & Hva' & Hn' & _).
  destruct (Z.leb_spec MAXVA (PGROUNDDOWN va)) as [|Hlt].
  { apply wpk_ret, (copyout_post_grows _ _ _ own); [by kst_eq|apply Hrun|apply grows_refl|by right]. }
  eapply wpk_resolve; [done|done|..].
  { intros own' s' Hm Hv' Hg. cbn [Z.eqb]. apply wpk_ret. eapply copyout_post_grows; [done|done|done|by right]. }
  intros own' s' pa a Hm Hv' Hg Hu _ Ha _. pose proof Hv' as [Hcore' Hfree'].
  assert (running own' i p s') as Hrun' by (eapply running_step; [done|done|done|apply Hg]).
  destruct (user_page_pos _ _ _ _ Hcore' Hu) as [Hpos Hmap]. destruct (Z.eqb_spec pa 0); [lia|].
  apply wpk_bind. eapply wpk_walk_read; [done|apply Hrun'|done|]. rewrite Ha. cbn [default].
  destruct (pte_addr_nonzero HL _ _ _ _ _ Hcore' (ru_root _ _ _ _ Hrun') Ha) as [_ Hma].
  apply wpk_bind, wpk_load64; [done|]. destruct (flag _ PTE_W).
  2: { apply wpk_ret. eapply copyout_post_grows; [done|done|done|by right]. }
  cbn [negb]. cbv zeta.
  set (k := if n <? PGSIZE - (va - PGROUNDDOWN va) then n else PGSIZE - (va - PGROUNDDOWN va)) in *.
  destruct (Z.ltb_spec (len src) k); [lia|].
  assert (len (take (Z.to_nat k) src) = k) as Htk by (rewrite length_take; lia).
  destruct (user_page_write own' (k_mem s') _ pa (pa + (va - PGROUNDDOWN va)) (take (Z.to_nat k) src) Hcore' Hu)
    as (Hc2 & Hf2 & Ht2); [lia|lia|by apply Forall_take|].
  apply wpk_bind. eapply wpk_on_mem.
  { apply store_block_ok; [by apply Forall_take|]. eapply mapped_sub; [exact Hmap|lia|lia]. }
  set (s2 := set_mem _ s').
  assert (running own' i p s2) as Hrun2.
  { eapply running_step; [done|by kst_eq|split; [exact Hc2|by apply Hf2]|done]. }
  eapply wpk_mono; [apply (IH own'); [done|done|rewrite length_drop; lia|rewrite Hal; lia|by apply Forall_drop]|].
  intros rc s'' (own'' & Hm'' & Hv'' & Ht'' & Hrc). exists own''. split; [|split; [done|split; [|done]]].
  - eapply mem_only_trans; [exact Hm|]. eapply mem_only_trans; [|exact Hm'']. by kst_eq.
  - eapply touches_trans; [by apply touches_grows|]. by eapply touches_trans.
Qed.

(** What lies in the page of [va], as a block of physical memory. *)
Lemma space_block own m pt va l w :
  vm_core own m -> is_u64 va -> leaf m pt va = Some w -> va mod PGSIZE + len l <= PGSIZE ->
  space_has m pt va l -> has m (PTE2PA w + va mod PGSIZE) l.
Proof using.
  intros Hv Hva Hw Hl Hs k x Hx. destruct (Hs k x Hx) as (Hr & w' & Hw' & _ & Hm).
  pose proof (lookup_lt_Some _ _ _ Hx). pose proof (Z.mod_pos_bound va PGSIZE ltac:(done)).
  destruct (within_page va (Z.of_nat k)) as [Ed Em]; [lia|lia|].
  rewrite (same_page_leaf m pt (va + Z.of_nat k) va) in Hw'; [|pose proof MAXVA_val; unfold is_u64; cbv zeta in Hr; lia|done|done].
  rewrite Hw in Hw'. injection Hw' as <-. rewrite Em in Hm. by rewrite <- Z.add_assoc.
Qed.

Lemma space_has_drop m pt va l k :
  space_has m pt va l -> (k <= length l)%nat -> space_has m pt (va + Z.of_nat k) (drop k l).
Proof using.
  intros Hs Hk j x Hx. rewrite lookup_drop in Hx. specialize (Hs _ _ Hx). simpl in *.
  by replace (va + Z.of_nat k + Z.of_nat j) with (va + Z.of_nat (k + j)) by lia.
Qed.

Lemma space_has_take m pt va l k : space_has m pt va l -> space_has m pt va (take k l).
Proof using. intros Hs j x Hx. apply Hs. by apply lookup_take_Some in Hx as [? ?]. Qed.

(** The mapping of the first byte of a copy, and where the next page starts. *)
Lemma next_page va n k :
  is_u64 va -> 0 < n -> 0 <= va -> va + n <= MAXVA -> k < n -> k = PGSIZE - (va - PGROUNDDOWN va) ->
  u64 (PGROUNDDOWN va + PGSIZE) = va + k.
Proof using.
  intros Hva Hn H0 Hm Hk E. pose proof MAXVA_val. pose proof (pground_down va Hva).
  pose proof (Z.mod_pos_bound va PGSIZE ltac:(done)). rewrite u64_small; [lia|]. unfold PGSIZE in *. lia.
Qed.

Lemma wpk_copyin_loop_has rely i p : forall fuel own s va data dst,
  running own i p s -> is_u64 va -> va mod PGSIZE + len data <= Z.of_nat fuel * PGSIZE ->
  space_has (k_mem s) (p_pagetable p) va data ->
  wpk rely (copyin_loop fuel (p_pagetable p) va (len data) dst) s (fun '(rc, d) s' => rc = 0 /\ d = dst ++ data /\ s' = s).
Proof using HL.
  induction fuel as [|fuel IH]; intros own s va data dst Hrun Hva Hfuel Hs; cbn [copyin_loop];
    destruct (Z.ltb_spec 0 (len data)) as [Hn|Hn];
    try (apply wpk_ret; split; [done|]; split; [|done]; destruct data; simpl in Hn; [by rewrite app_nil_r|lia]).
  { pose proof (Z.mod_pos_bound va PGSIZE ltac:(done)). lia. }
  destruct (chunk_bounds va (len data) fuel Hva Hn Hfuel) as (Eo & Hk & Hke & Ho & Hva0 & Hal & Hva' & Hn' & Hroom).
  set (k := if len data <? PGSIZE - (va - PGROUNDDOWN va) then len data else PGSIZE - (va - PGROUNDDOWN va)) in *.
  pose proof (ru_inv _ _ _ _ Hrun) as [Hcore _]. pose proof (ru_root _ _ _ _ Hrun) as Hr.
  destruct (lookup_lt_is_Some_2 data 0) as [x0 Hx0]; [lia|]. destruct (Hs 0%nat x0 Hx0) as (Hr0 & w & Hw & Hu & _).
  rewrite Z.add_0_r in *.
  assert (translated (k_mem s) (p_pagetable p) (PGROUNDDOWN va) = PTE2PA w) as Ht.
  { unfold translated. rewrite leaf_page, Hw, Hu by done. done. }
  destruct (user_page_pos _ _ _ _ Hcore (leaf_user _ _ _ _ _ Hcore Hr Hw Hu)) as [Hpos Hmap].
  apply wpk_bind. eapply wpk_walkaddr; [done|done|lia|]. intros _. rewrite Ht.
  destruct (Z.eqb_spec (PTE2PA w) 0); [lia|]. apply wpk_bind, wpk_ret. destruct (Z.eqb_spec (PTE2PA w) 0); [lia|].
  assert (len (take (Z.to_nat k) data) = k) as Htk by (rewrite length_take; lia).
  assert (has (k_mem s) (PTE2PA w + (va - PGROUNDDOWN va)) (take (Z.to_nat k) data)) as Hh.
  { rewrite Eo. eapply space_block; [done|done|done|lia|by apply space_has_take]. }
  apply wpk_bind. replace (Z.to_nat k) with (length (take (Z.to_nat k) data)) by lia.
  eapply wpk_on_mem; [by apply load_block_ok|]. replace (set_mem (k_mem s) s) with s by (by kst_eq).
  assert (len data - k = len (drop (Z.to_nat k) data)) as -> by (rewrite length_drop; lia).
  assert (space_has (k_mem s) (p_pagetable p) (u64 (PGROUNDDOWN va + PGSIZE)) (drop (Z.to_nat k) data)) as Hs'.
  { destruct (decide (k < len data)) as [Hlt|Hge].
    - destruct (lookup_lt_is_Some_2 data (length data - 1)) as [xl Hxl]; [lia|].
      destruct (Hs _ _ Hxl) as (Hrl & _). cbv zeta in Hrl.
      rewrite (next_page va (len data) k Hva Hn) by (lia || auto).
      replace (va + k) with (va + Z.of_nat (Z.to_nat k)) by lia. apply space_has_drop; [done|lia].
    - rewrite drop_ge by lia. by intros j x Hx. }
  eapply wpk_mono; [apply (IH own); [done|done|rewrite Hal, length_drop; lia|done]|].
  intros [rc d] s' (-> & -> & ->). split; [done|]. split; [|done]. by rewrite <- app_assoc, take_drop.
Qed.

(** ** Writing *)

(** The physical addresses behind [n] bytes at [va]. *)
Definition behind (m : mem) (pt va n b : Z) : Prop :=
  exists k w, 0 <= k < n /\ leaf m pt (va + k) = Some w /\ b = PTE2PA w + (va + k) mod PGSIZE.

Definition same_leaves (pt : Z) (m m' : mem) : Prop := forall va, leaf m' pt va = leaf m pt va.

Lemma write_leaves own m pt pa a l :
  vm_core own m -> own !! pt = Some (OTree pt []) -> user_page own pt pa -> pa <= a -> a + len l <= pa + PGSIZE ->
  same_leaves pt m (wr m a l).
Proof using.
  intros Hv Hr Hu Ha Hl va. eapply leaf_same; [done|done|]. intros t path j Ht Hlen Hj.
  destruct Hu as [(path' & Hlen' & H)|H].
  - apply (words_apart own m pa (OTree pt path') a l t (OTree pt path)); try done. intros [= ->]. lia.
  - by apply (words_apart own m pa OShared a l t (OTree pt path)).
Qed.

Lemma room_tail m m' pt va n k :
  space_room m pt va n -> same_leaves pt m m' -> 0 <= k <= n -> space_room m' pt (va + k) (n - k).
Proof using.
  intros [R1 R2] Hs Hk. split.
  - intros j Hj. rewrite Hs, <- Z.add_assoc. apply R1. lia.
  - intros j j' w w' Hj Hj'. rewrite !Hs, <- !Z.add_assoc. apply R2; lia.
Qed.

(** Two user pages are equal or apart. *)
Lemma user_pages_apart own m pt pa pa' o o' :
  vm_core own m -> user_page own pt pa -> user_page own pt pa' -> 0 <= o < PGSIZE -> 0 <= o' < PGSIZE ->
  pa + o = pa' + o' -> pa = pa'.
Proof using.
  intros Hv Hu Hu' Ho Ho' E. destruct (decide (pa = pa')) as [|Hne]; [done|exfalso].
  assert (forall q, user_page own pt q -> is_page q) as Hp.
  { intros q [(? & _ & H)|H]; by apply (vi_page _ _ Hv _ _ H). }
  destruct (pages_apart pa pa'); [by apply Hp|by apply Hp|done|lia..].
Qed.

(** The bytes written first stay while the rest is written. *)
Lemma chunk_not_behind own m pt va n k w j :
  vm_core own m -> own !! pt = Some (OTree pt []) -> space_room m pt va n -> is_u64 va -> 0 < n ->
  leaf m pt va = Some w -> flag w PTE_U = true -> 0 <= j < k -> va mod PGSIZE + k <= PGSIZE ->
  (k < n -> k = PGSIZE - va mod PGSIZE) -> k <= n ->
  ~ behind m pt (va + k) (n - k) (PTE2PA w + (va mod PGSIZE + j)).
Proof using.
  intros Hv Hr [R1 R2] Hva Hn Hw Hu Hj Hk Hroom Hkn (j' & w' & Hj' & Hw' & E).
  rewrite <- Z.add_assoc in *. set (b := k + j') in *.
  destruct (R1 b ltac:(lia)) as (Hb & w2 & Hw2 & Hu2 & _). rewrite Hw' in Hw2. injection Hw2 as <-.
  pose proof (Z.mod_pos_bound va PGSIZE ltac:(done)). pose proof (Z.mod_pos_bound (va + b) PGSIZE ltac:(done)).
  assert (PTE2PA w = PTE2PA w') as Epa.
  { eapply user_pages_apart; [done|by eapply leaf_user|by eapply (leaf_user own m pt (va + b))| | |exact E]; lia. }
  assert (va / PGSIZE = (va + b) / PGSIZE) as Ed.
  { replace va with (va + 0) at 1 by lia. apply (R2 0 b w w'); [lia|lia|by rewrite Z.add_0_r|done|done]. }
  unfold PGSIZE in *. pose proof (Z.div_mod va 4096 ltac:(done)). pose proof (Z.div_mod (va + b) 4096 ltac:(done)). lia.
Qed.

(** The outcome of a copy to memory that is there. *)
Definition wrote (own : owners) (s : kst) (pt va : Z) (data : bytes) (s' : kst) : Prop :=
  mem_only s s' /\ vm_inv own s' /\ same_leaves pt (k_mem s) (k_mem s') /\
  space_has (k_mem s') pt va data /\
  (forall b, ~ behind (k_mem s) pt va (len data) b -> k_mem s' !! b = k_mem s !! b).

Lemma behind_same m m' pt va n b : same_leaves pt m m' -> behind m' pt va n b -> behind m pt va n b.
Proof using. intros Hs (k & w & Hk & Hw & E). exists k, w. by rewrite <- Hs. Qed.

(** The first page of data, then the rest. *)
Lemma wrote_step own s pt va data k w s1 s' :
  vm_inv own s -> own !! pt = Some (OTree pt []) -> is_u64 va -> space_room (k_mem s) pt va (len data) ->
  leaf (k_mem s) pt va = Some w -> flag w PTE_U = true -> 0 < k <= len data ->
  va mod PGSIZE + k <= PGSIZE -> (k < len data -> k = PGSIZE - va mod PGSIZE) -> va + len data <= MAXVA -> 0 <= va ->
  s1 = set_mem (wr (k_mem s) (PTE2PA w + va mod PGSIZE) (take (Z.to_nat k) data)) s ->
  same_leaves pt (k_mem s) (k_mem s1) ->
  wrote own s1 pt (va + k) (drop (Z.to_nat k) data) s' -> wrote own s pt va data s'.
Proof using.
  intros [Hv _] Hr Hva Hroom Hw Hu Hk Hke Hkr Hmax H0 Es1 Hl1 (Hm & Hv' & Hl' & Hh & Hfr).
  assert (same_leaves pt (k_mem s) (k_mem s')) as Hl by (intros a; by rewrite Hl', Hl1).
  assert (len (drop (Z.to_nat k) data) = len data - k) as Hd by (rewrite length_drop; lia).
  assert (len (take (Z.to_nat k) data) = k) as Ht by (rewrite length_take; lia).
  pose proof (Z.mod_pos_bound va PGSIZE ltac:(done)) as Hb.
  split; [|split; [done|split; [done|split]]].
  - eapply mem_only_trans; [|exact Hm]. rewrite Es1. by kst_eq.
  - intros j x Hx a. pose proof (lookup_lt_Some _ _ _ Hx). split; [unfold a; lia|].
    destruct (decide (Z.of_nat j < k)) as [Hjk|Hjk].
    + exists w. destruct (within_page va (Z.of_nat j)) as [Ed Em]; [lia|lia|]. fold a in Ed, Em.
      rewrite Hl, (same_page_leaf _ pt a va); [|pose proof MAXVA_val; unfold a, is_u64; lia|done|done].
      split; [done|]. split; [done|]. rewrite Em, Hfr.
      * rewrite Es1. kproj. rewrite Z.add_assoc. apply lookup_wr_in. by rewrite lookup_take_lt by lia.
      * rewrite Hd. intros Hbe%(behind_same (k_mem s)); [|done]. revert Hbe.
        eapply chunk_not_behind; try done; lia.
    + assert (drop (Z.to_nat k) data !! (j - Z.to_nat k)%nat = Some x) as Hx'.
      { rewrite lookup_drop. replace (Z.to_nat k + (j - Z.to_nat k))%nat with j by lia. done. }
      destruct (Hh _ _ Hx') as (_ & w' & Hw' & Hu' & Hm'). exists w'.
      replace (va + k + Z.of_nat (j - Z.to_nat k)) with a in * by (unfold a; lia). done.
  - intros b Hb'. rewrite Hfr.
    + rewrite Es1. kproj. apply lookup_wr_out. rewrite Ht.
      destruct (decide (b < PTE2PA w + va mod PGSIZE \/ PTE2PA w + va mod PGSIZE + k <= b)); [done|exfalso].
      apply Hb'. exists (b - (PTE2PA w + va mod PGSIZE)), w. split; [lia|].
      set (j := b - (PTE2PA w + va mod PGSIZE)).
      destruct (within_page va j) as [Ed Em]; [lia|lia|].
      rewrite (same_page_leaf _ pt (va + j) va); [|pose proof MAXVA_val; unfold is_u64; lia|done|done].
      split; [done|]. rewrite Em. lia.
    + intros (j & w' & Hj & Hw' & E). apply Hb'. exists (k + j), w'. rewrite Hd in Hj. split; [lia|].
      rewrite Hl1, <- Z.add_assoc in Hw'. rewrite <- Z.add_assoc in E. done.
Qed.

Lemma wpk_copyout_loop_room rely i p rest : forall fuel own s va data,
  running own i p s -> is_u64 va -> va mod PGSIZE + len data <= Z.of_nat fuel * PGSIZE ->
  Forall is_byte data -> space_room (k_mem s) (p_pagetable p) va (len data) ->
  wpk rely (copyout_loop fuel (p_pagetable p) va (data ++ rest) (len data)) s
    (fun rc s' => rc = 0 /\ wrote own s (p_pagetable p) va data s').
Proof using HL.
  induction fuel as [|fuel IH]; intros own s va data Hrun Hva Hfuel Hb Hroom; cbn [copyout_loop];
    destruct (Z.ltb_spec 0 (len data)) as [Hn|Hn];
    try (apply wpk_ret; split; [done|]; destruct data; simpl in Hn; [|lia];
         split; [by kst_eq|]; split; [apply Hrun|]; split; [done|]; split; [by intros j x Hx|done]).
  { pose proof (Z.mod_pos_bound va PGSIZE ltac:(done)). lia. }
  destruct (chunk_bounds va (len data) fuel Hva Hn Hfuel) as (Eo & Hk & Hke & Ho & Hva0 & Hal & Hva' & Hn' & Hkr).
  set (k := if len data <? PGSIZE - (va - PGROUNDDOWN va) then len data else PGSIZE - (va - PGROUNDDOWN va)) in *.
  pose proof (ru_inv _ _ _ _ Hrun) as [Hcore Hfree]. pose proof (ru_root _ _ _ _ Hrun) as Hr.
  pose proof Hroom as [R1 _]. destruct (R1 0 ltac:(lia)) as (Hr0 & w & Hw & Hu & HW).
  destruct (R1 (len data - 1) ltac:(lia)) as (Hrl & _). rewrite Z.add_0_r in *.
  assert (leaf (k_mem s) (p_pagetable p) (PGROUNDDOWN va) = Some w) as Hw0 by (by rewrite leaf_page).
  assert (translated (k_mem s) (p_pagetable p) (PGROUNDDOWN va) = PTE2PA w) as Ht by (unfold translated; by rewrite Hw0, Hu).
  pose proof (leaf_user _ _ _ _ _ Hcore Hr Hw Hu) as Hup. destruct (user_page_pos _ _ _ _ Hcore Hup) as [Hpos Hmap].
  destruct (Z.leb_spec MAXVA (PGROUNDDOWN va)); [lia|].
  apply wpk_bind. eapply wpk_walkaddr; [done|done|lia|]. intros _. rewrite Ht.
  destruct (Z.eqb_spec (PTE2PA w) 0); [lia|]. apply wpk_bind, wpk_ret. destruct (Z.eqb_spec (PTE2PA w) 0); [lia|].
  apply wpk_bind. eapply wpk_walk_read; [done|done|done|]. unfold leaf in Hw0.
  destruct (pte_addr (k_mem s) (p_pagetable p) (PGROUNDDOWN va)) as [a|] eqn:Ea; [|done]. simpl in Hw0.
  destruct (flag (word (k_mem s) a) PTE_V); [|done]. injection Hw0 as Hwa.
  destruct (pte_addr_nonzero HL _ _ _ _ _ Hcore Hr Ea) as [_ Hma]. change (default 0 (Some a)) with a.
  apply wpk_bind, wpk_load64; [done|]. rewrite Hwa, HW. cbn [negb]. cbv zeta. fold k.
  rewrite length_app. destruct (Z.ltb_spec (Z.of_nat (length data + length rest)) k); [lia|].
  rewrite take_app_le, drop_app_le by lia. rewrite Eo.
  assert (len (take (Z.to_nat k) data) = k) as Htk by (rewrite length_take; lia).
  destruct (user_page_write own (k_mem s) _ (PTE2PA w) (PTE2PA w + va mod PGSIZE) (take (Z.to_nat k) data) Hcore Hup)
    as (Hc2 & Hf2 & _); [lia|lia|by apply Forall_take|].
  apply wpk_bind. eapply wpk_on_mem.
  { apply store_block_ok; [by apply Forall_take|]. eapply mapped_sub; [exact Hmap|lia|lia]. }
  set (s1 := set_mem _ s).
  assert (same_leaves (p_pagetable p) (k_mem s) (k_mem s1)) as Hl1 by (eapply write_leaves; [done|done|done|lia|lia]).
  assert (running own i p s1) as Hrun1.
  { eapply running_step; [done|by kst_eq|split; [exact Hc2|by apply Hf2]|done]. }
  assert (len data - k = len (drop (Z.to_nat k) data)) as -> by (rewrite length_drop; lia).
  assert (k < len data -> u64 (PGROUNDDOWN va + PGSIZE) = va + k) as Hnext.
  { intros Hlt. eapply (next_page va (len data)); auto; lia. }
  assert (space_room (k_mem s1) (p_pagetable p) (va + k) (len (drop (Z.to_nat k) data))) as Hroom1.
  { rewrite length_drop. replace (Z.of_nat (length data - Z.to_nat k)) with (len data - k) by lia.
    eapply room_tail; [done|done|lia]. }
  assert (forall s', wrote own s1 (p_pagetable p) (u64 (PGROUNDDOWN va + PGSIZE)) (drop (Z.to_nat k) data) s' ->
    wrote own s (p_pagetable p) va data s') as Hdone.
  { intros s' Hs'. eapply (wrote_step own s _ va data k w s1); [done|done|done|done|done|done|lia|lia|lia|lia|lia|done|done|].
    destruct (decide (k < len data)) as [Hlt|Hge]; [by rewrite <- Hnext|].
    rewrite drop_ge in * by lia. destruct Hs' as (? & ? & ? & _ & Hfr). do 3 (split; [done|]).
    split; [by intros j x Hx|]. intros b Hbe. apply Hfr. by intros (j & w' & Hj & _); simpl in Hj; lia. }
  eapply wpk_mono; [apply (IH own)|].
  - done.
  - done.
  - rewrite Hal, length_drop. lia.
  - by apply Forall_drop.
  - destruct (decide (k < len data)) as [Hlt|Hge]; [by rewrite Hnext|]. rewrite drop_ge by lia. split; simpl; lia.
  - intros rc s' [-> Hs']. split; [done|]. by apply Hdone.
Qed.

(** One byte behind those written before. *)
Lemma wrote_next own s pt va n l b s' :
  vm_inv own s -> own !! pt = Some (OTree pt []) -> space_room (k_mem s) pt va n ->
  space_has (k_mem s) pt va l -> len l < n -> wrote own s pt (va + len l) [b] s' ->
  space_room (k_mem s') pt va n /\ space_has (k_mem s') pt va (l ++ [b]).
Proof using.
  intros [Hv _] Hr Hroom Hh Hn (_ & _ & Hl & Hb & Hfr). split.
  { replace va with (va + 0) by lia. replace n with (n - 0) by lia. eapply room_tail; [done|done|lia]. }
  destruct Hroom as [R1 R2]. intros j x Hx. apply lookup_app_Some in Hx as [Hx|[Hge Hx]].
  - pose proof (lookup_lt_Some _ _ _ Hx) as Hj. destruct (Hh j x Hx) as (Ha & w & Hw & Hu & Hm).
    split; [done|]. exists w. rewrite Hl. do 2 (split; [done|]). rewrite Hfr; [done|].
    intros (k & w' & Hk & Hw' & E). simpl in Hk. replace k with 0 in * by lia. rewrite Z.add_0_r in *.
    destruct (R1 (len l) ltac:(lia)) as (_ & w2 & Hw2 & Hu2 & _). rewrite Hw' in Hw2. injection Hw2 as <-.
    pose proof (Z.mod_pos_bound (va + Z.of_nat j) PGSIZE ltac:(done)) as B1.
    pose proof (Z.mod_pos_bound (va + len l) PGSIZE ltac:(done)) as B2.
    assert (PTE2PA w = PTE2PA w') as Epa.
    { eapply user_pages_apart; [done|by eapply leaf_user|by eapply leaf_user|exact B1|exact B2|exact E]. }
    pose proof (R2 (Z.of_nat j) (len l) w w' ltac:(lia) ltac:(lia) Hw Hw' Epa) as Ed.
    pose proof (Z.div_mod (va + Z.of_nat j) PGSIZE ltac:(done)). pose proof (Z.div_mod (va + len l) PGSIZE ltac:(done)).
    lia.
  - replace (va + Z.of_nat j) with (va + len l + Z.of_nat (j - length l)) by lia. by apply Hb.
Qed.

End copy.

(** * The interface *)

Section interface.
Context {Lay : Layout}.

(** Every process with a page table has one of its own, and a size in range. *)
Definition tables_ok (own : owners) (s : kst) : Prop :=
  forall i p, k_procs s !! i = Some p -> p_pagetable p <> 0 ->
    own !! p_pagetable p = Some (OTree (p_pagetable p) []) /\ p_sz p <= MAXVA.

Definition vm_good (s : kst) : Prop := layout_ok /\ exists own, vm_inv own s /\ tables_ok own s.

#[global] Instance vm_copy : UserCopy := {
  XvMsg.copyin := XvVm.copyin;
  XvMsg.copyout := XvVm.copyout;
  vm_ok := vm_good;
  user_has s pt va l := space_has (k_mem s) pt va l;
  user_room s pt va n := space_room (k_mem s) pt va n;
}.

Lemma tables_ok_step own own' s s' :
  tables_ok own s -> mem_only s s' -> (forall pa o, own !! pa = Some o -> o <> OFree -> own' !! pa = Some o) ->
  tables_ok own' s'.
Proof.
  intros Ht Hm Ho i p Hp Hne. destruct (mem_only_cpu _ _ Hm) as (_ & _ & Ep). rewrite Ep in Hp.
  destruct (Ht i p Hp Hne) as [Hr Hs]. split; [by apply Ho|done].
Qed.

Lemma fmap_lookup_eq {A B} (f : A -> B) (l l' : list A) i x' :
  f <$> l' = f <$> l -> l' !! i = Some x' -> exists x, l !! i = Some x /\ f x = f x'.
Proof.
  intros E Hx. assert ((f <$> l) !! i = Some (f x')) as H by (rewrite <- E, list_lookup_fmap, Hx; done).
  rewrite list_lookup_fmap in H. destruct (l !! i) as [x|]; [|done]. simplify_eq/=. eauto.
Qed.

Lemma vm_good_frame s s' : vm_good s -> same_vm s s' -> vm_good s'.
Proof.
  intros (HL & own & [Hc Hf] & Ht) (Em & Ef & Ep & Es). split; [done|]. exists own. split.
  - by split; rewrite ?Em, ?Ef.
  - intros i p' Hp' Hne. destruct (fmap_lookup_eq _ _ _ _ _ Ep Hp') as (p & Hp & Ept).
    destruct (fmap_lookup_eq _ _ _ _ _ Es Hp') as (p2 & Hp2 & Esz). rewrite Hp in Hp2. injection Hp2 as <-.
    rewrite <- Ept, <- Esz in *. by apply (Ht i).
Qed.

(** The running process, seen from the invariant. *)
Lemma copy_ctx_running i pt s :
  copy_ctx i pt s -> layout_ok /\ exists own p, running own i p s /\ tables_ok own s /\ p_pagetable p = pt.
Proof.
  intros ((HL & own & Hv & Ht) & Hc & Hme & (p & Hp & <- & Hne) & Hl). split; [done|]. exists own, p.
  destruct (Ht i p Hp Hne). by split.
Qed.

(** Loop bounds suffice. *)
Lemma copyin_fuel va n : 0 <= n -> va mod PGSIZE + n <= Z.of_nat (Z.to_nat (n / PGSIZE + 2)) * PGSIZE.
Proof.
  intros Hn. pose proof (Z.mod_pos_bound va PGSIZE ltac:(done)). pose proof (Z.mod_pos_bound n PGSIZE ltac:(done)).
  pose proof (Z.div_mod n PGSIZE ltac:(done)). pose proof (Z.div_pos n PGSIZE Hn ltac:(done)). unfold PGSIZE in *. lia.
Qed.

#[global] Instance vm_copy_laws : UserCopyLaws vm_copy.
Proof.
  split; cbn [XvMsg.copyin XvMsg.copyout vm_ok user_has user_room vm_copy].
  - exact vm_good_frame.
  - intros s s' pt va l H E. by rewrite E.
  - intros s s' pt va n H E. by rewrite E.
  - intros s pt va l k x H Hk. destruct (H k x Hk) as (Ha & w & Hw & Hu & Hm). pose proof MAXVA_val.
    split; [unfold is_u64; lia|]. intros [|j] y Hy; [|done]. injection Hy as <-. rewrite Z.add_0_r. eauto.
  - intros s pt va l k n H Hl Hn. split; [|apply space_has_take, space_has_drop; [done|lia]].
    destruct (lookup_lt_is_Some_2 l k) as [x Hx]; [lia|]. destruct (H k x Hx) as (Ha & _). pose proof MAXVA_val. unfold is_u64. lia.
  - intros rely pt va n s i (HL & own & p & Hrun & Ht & <-)%copy_ctx_running Hva Hn.
    kmono (apply (wpk_copyin_loop HL _ i p _ own); [done|done|done|by apply copyin_fuel|done]).
    intros [rc d] s' (own' & Hm & Hv & Hg & Hrc & Hd & Hh). split; [done|]. split; [|split; [simpl in Hrc; lia|]; split; [done|]].
    2: { intros E. by destruct (Hh E) as (l & -> & Hl). }
    split; [done|]. exists own'. split; [done|]. eapply tables_ok_step; [done|done|apply Hg].
  - intros rely pt va src n s i (HL & own & p & Hrun & Ht & <-)%copy_ctx_running Hva Hn Hb. unfold XvVm.copyout.
    rewrite Z.min_l by lia.
    kmono (apply (wpk_copyout_loop HL _ i p _ own); [done|done|done|apply copyin_fuel; lia|done]).
    intros rc s' (own' & Hm & Hv & Hg & Hrc). split; [done|]. split; [|done].
    split; [done|]. exists own'. split; [done|]. eapply tables_ok_step; [done|done|apply Hg].
  - intros rely pt va data s i (HL & own & p & Hrun & Ht & <-)%copy_ctx_running Hva Hs.
    apply (wpk_copyin_loop_has HL _ i p _ own); [done|done|apply copyin_fuel; lia|done].
  - intros rely pt va src n s i (HL & own & p & Hrun & Ht & <-)%copy_ctx_running Hva Hs Hn Hb. unfold XvVm.copyout.
    rewrite Z.min_l by lia. assert (len (take (Z.to_nat n) src) = n) as En by (rewrite length_take; lia).
    pose proof (Forall_take _ (Z.to_nat n) _ Hb) as Hbt. pose proof (take_drop (Z.to_nat n) src) as Hsplit.
    remember (take (Z.to_nat n) src) as d. remember (drop (Z.to_nat n) src) as r. rewrite <- Hsplit, <- En in *.
    kmono (apply (wpk_copyout_loop_room HL _ i p _ _ own); [done|done|apply copyin_fuel; lia|done|done]).
    intros rc s' [-> (Hm & Hv & _ & Hh & _)]. split; [done|]. split; [done|]. split; [|done].
    split; [done|]. exists own. split; [done|]. by eapply tables_ok_step.
  - intros rely pt va n l b s i (HL & own & p & Hrun & Ht & <-)%copy_ctx_running Hroom Hh Hn Hb. unfold XvVm.copyout.
    pose proof Hroom as [R1 _]. destruct (R1 (len l) ltac:(lia)) as [Ha _]. pose proof MAXVA_val.
    replace (u64 (va + len l)) with (va + len l) by (symmetry; apply Z.mod_small; lia). change (Z.min 1 (len [b])) with (len [b]).
    assert (space_room (k_mem s) (p_pagetable p) (va + len l) (len [b])) as Hroom1.
    { destruct Hroom as [_ R2]. split.
      - intros k Hk. simpl in Hk. rewrite <- Z.add_assoc. apply R1. lia.
      - intros k k' w w' Hk Hk'. simpl in Hk, Hk'. rewrite <- !Z.add_assoc. apply R2; lia. }
    kmono (apply (wpk_copyout_loop_room HL _ i p [] _ own _ _ [b]);
      [done|unfold is_u64; lia|apply copyin_fuel; lia|by constructor|done]).
    intros rc s' [-> Hs']. pose proof Hs' as (Hm & Hv & _). split; [done|]. split; [done|]. split.
    + split; [done|]. exists own. split; [done|]. by eapply tables_ok_step.
    + eapply wrote_next; [apply Hrun|apply Hrun|done..].
Qed.

End interface.
