(* ===== verification/XvExample.v ===== *)
(** A small machine on which the kernel theorems are tried: two processes, each
    with a page table, one page of memory at address 0 and four free pages. *)

From S2P Require Import Prelude XvMem XvString XvFsTypes XvKernel XvMsg XvVm XvPages XvWalk XvCopy.

#[local] Opaque wr le_bytes.

#[global] Instance ex_layout : Layout := {| kend := 0x80020000; etext := 0x80008000; trampoline := 0x80007000 |}.

Lemma ex_layout_ok : layout_ok.
Proof. unfold layout_ok, KERNBASE. simpl. lia. Qed.

Definition NPAGES : nat := 12.
Definition pg (n : Z) : Z := kend + n * PGSIZE.

(** Pages 0 to 3 and 4 to 7: root, middle and leaf table, data of an address
    space.  Pages 8 to 11 are free. *)
Definition ex_zero : mem := wr ∅ kend (replicate (NPAGES * 4096) 0).

Definition ex_owners0 : owners :=
  list_to_map [(pg 0, OTree (pg 0) []); (pg 1, OKern); (pg 2, OKern); (pg 3, OKern);
               (pg 4, OTree (pg 4) []); (pg 5, OKern); (pg 6, OKern); (pg 7, OKern);
               (pg 8, OKern); (pg 9, OKern); (pg 10, OKern); (pg 11, OKern)].

Lemma ex_owned pa o : ex_owners0 !! pa = Some o ->
  exists n, 0 <= n < 12 /\ pa = pg n /\ (o = OKern \/ (n = 0 \/ n = 4) /\ o = OTree pa []).
Proof.
  intros H%elem_of_list_to_map_2. unfold ex_owners0 in H.
  repeat (apply elem_of_cons in H as [[= -> ->]|H]; [eexists; split; [|split; [reflexivity|auto]]; lia|]).
  by apply elem_of_nil in H.
Qed.

Lemma ex_page n : 0 <= n < 12 -> is_page (pg n).
Proof.
  intros Hn. unfold is_page, pg, PHYSTOP, KERNBASE. simpl kend. unfold PGSIZE. split; [|lia].
  rewrite Z.mod_add by done. done.
Qed.

Lemma ex_zero_mapped n : 0 <= n < 12 -> mapped ex_zero (pg n) PGSIZE.
Proof.
  intros Hn i Hi. unfold ex_zero. rewrite lookup_wr, length_replicate. unfold pg, PGSIZE, NPAGES in *.
  destruct (Z.leb_spec kend (kend + n * 4096 + i)), (Z.ltb_spec (kend + n * 4096 + i) (kend + Z.of_nat (12 * 4096))); cbn [andb]; try lia.
  rewrite lookup_replicate_2 by lia. eauto.
Qed.

Lemma ex_zero_word n i : 0 <= n < 12 -> 0 <= i < 512 -> word ex_zero (pg n + 8 * i) = 0.
Proof.
  intros Hn Hi. unfold ex_zero, pg, PGSIZE, NPAGES. rewrite word_fill; [done|lia|lia].
Qed.

Lemma ex_core0 : vm_core ex_owners0 ex_zero.
Proof.
  split.
  - intros pa o (n & Hn & -> & _)%ex_owned. split; [by apply ex_page|by apply ex_zero_mapped].
  - apply bytes_mem_wr; [apply map_Forall_empty|]. by apply Forall_replicate.
  - intros pa pt (n & Hn & -> & [?|[_ [= ->]]])%ex_owned; done.
  - intros pa pt path (n & Hn & -> & [?|[_ [= -> ->]]])%ex_owned; [done|]. split; [simpl; lia|done].
  - intros pa pt path i (n & Hn & -> & _)%ex_owned _ Hi. rewrite ex_zero_word by done. done.
  - intros pa pt path i (n & Hn & -> & [?|[_ [= _ H]]])%ex_owned; [done|]. by destruct path.
Qed.

(** The entries that make the two address spaces, and the free list. *)
Definition ex_entry (p f : Z) : bytes := le_bytes 8 (Z.lor (PA2PTE p) f).
Definition RWU : Z := Z.lor (Z.lor PTE_R PTE_W) (Z.lor PTE_U PTE_V).

Definition ex_space (base : Z) (m : mem) : mem :=
  wr (wr (wr m (pg base + 8 * 0) (ex_entry (pg (base + 1)) PTE_V))
    (pg (base + 1) + 8 * 0) (ex_entry (pg (base + 2)) PTE_V))
    (pg (base + 2) + 8 * 0) (ex_entry (pg (base + 3)) RWU).

Definition ex_space_own (base : Z) (own : owners) : owners :=
  <[pg (base + 3) := OTree (pg base) [0; 0; 0]]> (<[pg (base + 2) := OTree (pg base) [0; 0]]>
    (<[pg (base + 1) := OTree (pg base) [0]]> own)).

Lemma flags_V path : flags_ok path PTE_V.
Proof. by repeat split. Qed.

Lemma flags_RWU i j : flags_ok [i; j] RWU.
Proof. split; [done|]. split; [done|]. simpl. lia. Qed.

Lemma ex_space_core base own m :
  0 <= base -> base + 3 < 12 -> vm_core own m -> own !! pg base = Some (OTree (pg base) []) ->
  (forall n, base < n <= base + 3 -> own !! pg n = Some OKern) ->
  (forall n i, base <= n <= base + 3 -> 0 <= i < 512 -> word m (pg n + 8 * i) = 0) ->
  vm_core (ex_space_own base own) (ex_space base m).
Proof.
  intros Hb0 Hb3 Hv Hr Hk Hz. unfold ex_space, ex_space_own, ex_entry.
  assert (forall a b, a <> b -> pg a <> pg b) as Hpg by (unfold pg, PGSIZE; lia).
  assert (forall a b m' l, a <> b -> base <= b <= base + 3 ->  len l = 8 -> forall i, 0 <= i < 512 ->
    word (wr m' (pg a + 8 * 0) l) (pg b + 8 * i) = word m' (pg b + 8 * i)) as Ho.
  { intros a b m' l Hab Hb Hl i Hi. apply word_wr_other. unfold pg, PGSIZE. rewrite Hl. nia. }
  pose proof (fun p f => le_bytes_length 8 (Z.lor (PA2PTE p) f)) as H8.
  apply (core_link ex_layout_ok _ _ (pg (base + 2)) (pg base) [0; 0] 0 (pg (base + 3)) RWU);
    [|apply lookup_insert_eq|simpl; lia|lia|rewrite !Ho, Hz by (rewrite ?H8; lia); done
     |rewrite !lookup_insert_ne by (apply Hpg; lia); apply Hk; lia|apply flags_RWU|simpl; lia].
  apply (core_link ex_layout_ok _ _ (pg (base + 1)) (pg base) [0] 0 (pg (base + 2)) PTE_V);
    [|apply lookup_insert_eq|simpl; lia|lia|rewrite !Ho, Hz by (rewrite ?H8; lia); done
     |rewrite !lookup_insert_ne by (apply Hpg; lia); apply Hk; lia|apply flags_V|].
  - apply (core_link ex_layout_ok _ _ (pg base) (pg base) [] 0 (pg (base + 1)) PTE_V);
      [done|done|simpl; lia|lia|rewrite Hz by lia; done|apply Hk; lia|apply flags_V|intros _ j Hj; apply Hz; lia].
  - intros _ j Hj. rewrite Ho by (rewrite ?H8; lia). apply Hz; lia.
Qed.

Definition ex_free (p f : Z) (m : mem) : mem := wr m p (le_bytes 8 f).

Lemma ex_give own m f p :
  vm_core own m -> free_ok own m f -> own !! p = Some OKern ->
  vm_core (<[p := OFree]> own) (ex_free p f m) /\ free_ok (<[p := OFree]> own) (ex_free p f m) p.
Proof.
  intros Hv Hf Hp. split.
  - eapply core_own; [|exact Hp|by right|by left]. eapply core_write; [done|exact Hp|done|lia| |apply le_bytes_ok].
    unfold PGSIZE. rewrite le_bytes_length. lia.
  - apply free_give; [done|done|done|]. by apply (free_head_range ex_layout_ok own m).
Qed.

(** The message of the first process, and the whole memory. *)
Definition ex_text : bytes := L"hello".

Definition ex_mem : mem :=
  wr (ex_free (pg 11) (pg 10) (ex_free (pg 10) (pg 9) (ex_free (pg 9) (pg 8) (ex_free (pg 8) 0
    (ex_space 4 (ex_space 0 ex_zero)))))) (pg 3) ex_text.

Definition ex_owners : owners :=
  <[pg 11 := OFree]> (<[pg 10 := OFree]> (<[pg 9 := OFree]> (<[pg 8 := OFree]>
    (ex_space_own 4 (ex_space_own 0 ex_owners0))))).

Lemma pg_ne a b : a <> b -> pg a <> pg b.
Proof. unfold pg, PGSIZE. lia. Qed.

Lemma ex_spaces : vm_core (ex_space_own 4 (ex_space_own 0 ex_owners0)) (ex_space 4 (ex_space 0 ex_zero)).
Proof.
  apply ex_space_core; [lia|lia| | | |].
  - apply ex_space_core; [lia|lia|apply ex_core0|done| |].
    + intros n Hn. assert (n = 1 \/ n = 2 \/ n = 3) as [->|[->| ->]] by lia; done.
    + intros n i Hn Hi. apply ex_zero_word; lia.
  - unfold ex_space_own. rewrite !lookup_insert_ne by (apply pg_ne; lia). done.
  - intros n Hn. unfold ex_space_own. rewrite !lookup_insert_ne by (apply pg_ne; lia).
    assert (n = 5 \/ n = 6 \/ n = 7) as [->|[->| ->]] by lia; done.
  - intros n i Hn Hi. unfold ex_space, ex_entry.
    rewrite !word_wr_other by (rewrite le_bytes_length; unfold pg, PGSIZE; lia). apply ex_zero_word; lia.
Qed.

Lemma ex_vm : vm_core ex_owners ex_mem /\ free_ok ex_owners ex_mem (pg 11).
Proof.
  assert (forall n, 8 <= n < 12 -> ex_space_own 4 (ex_space_own 0 ex_owners0) !! pg n = Some OKern) as Hk.
  { intros n Hn. unfold ex_space_own. rewrite !lookup_insert_ne by (apply pg_ne; lia).
    assert (n = 8 \/ n = 9 \/ n = 10 \/ n = 11) as [->|[->|[->| ->]]] by lia; done. }
  assert (free_ok (ex_space_own 4 (ex_space_own 0 ex_owners0)) (ex_space 4 (ex_space 0 ex_zero)) 0) as H0.
  { exists []. split; [done|]. split; [constructor|]. intros pa. split; [by intros ?%elem_of_nil|].
    unfold ex_space_own. intros H. exfalso. repeat (apply lookup_insert_Some in H as [[_ ?]|[_ H]]; [done|]).
    apply ex_owned in H as (? & _ & _ & [?|[_ ?]]); done. }
  destruct (ex_give _ _ _ (pg 8) ex_spaces H0) as [C1 F1]; [by apply Hk|].
  destruct (ex_give _ _ _ (pg 9) C1 F1) as [C2 F2]; [rewrite !lookup_insert_ne by (apply pg_ne; lia); by apply Hk|].
  destruct (ex_give _ _ _ (pg 10) C2 F2) as [C3 F3]; [rewrite !lookup_insert_ne by (apply pg_ne; lia); by apply Hk|].
  destruct (ex_give _ _ _ (pg 11) C3 F3) as [C4 F4]; [rewrite !lookup_insert_ne by (apply pg_ne; lia); by apply Hk|].
  fold ex_owners in C4, F4.
  assert (ex_owners !! pg 3 = Some (OTree (pg 0) [0; 0; 0])) as H3.
  { unfold ex_owners, ex_space_own. rewrite !lookup_insert_ne by (apply pg_ne; lia). apply lookup_insert_eq. }
  split.
  - eapply core_write; [done|exact H3|by intros ? ? [= <- <-]|lia|unfold PGSIZE; simpl; lia|by_decide].
  - eapply free_write; [done|done|exact H3|done|lia|unfold PGSIZE; simpl; lia].
Qed.

Definition ex_tf (args : list Z) : trapframe := mk_tf 0 0 (args ++ replicate (8 - length args) 0) [].

Definition ex_proc (st : procstate) (pid : Z) (parent : option nat) (pt sz : Z) (args : list Z) : proc :=
  mk_proc st None 0 0 0 pid parent 0 sz pt 0 (ex_tf args) (replicate NOFILE None) 0 (replicate 16 0) (replicate MAX_SHM 0).

Definition ex_cpu (i : nat) : cpu := mk_cpu 0 (Some i) 0 true true.

Definition ex_queues : list msgqueue :=
  replicate MAX_Q (mk_msgq 0 0 (replicate MAX_MSG (mk_msg 0 (replicate 128 0) 0 0)) 0).

(** Process [i] calls with [args]; queue 0 is in use, with key 7. *)
Definition ex_state (i : nat) (args : list Z) : kst :=
  mk_kst (ex_cpu i) ∅ ex_mem (pg 11)
    (ex_proc RUNNING 1 None (pg 0) PGSIZE args :: ex_proc RUNNING 2 (Some 0%nat) (pg 4) PGSIZE args ::
       replicate 62 (ex_proc UNUSED 0 None 0 0 []))
    3 0 (replicate MAX_SHM (mk_shm 0 0 0 0 [0; 0; 0; 0] 0))
    (<[0%nat := mk_msgq 7 1 (replicate MAX_MSG (mk_msg 0 (replicate 128 0) 0 0)) 0]> ex_queues)
    (replicate NKMUTEX (mk_mutex 0 0 0)) 0 ∅ ∅ (set_files (replicate NFILE (mk_file FD_NONE 0 0 0 0 0 0 0)) no_fs).

Lemma ex_state_vm i args : vm_good (ex_state i args).
Proof.
  split; [apply ex_layout_ok|]. exists ex_owners. split; [exact ex_vm|].
  intros j p Hp Hne. cbn [k_procs ex_state] in Hp.
  apply lookup_cons_Some in Hp as [[_ <-]|[_ Hp]].
  { split; [|done]. unfold ex_owners, ex_space_own. cbn [p_pagetable ex_proc]. by rewrite !lookup_insert_ne by (apply pg_ne; lia). }
  apply lookup_cons_Some in Hp as [[_ <-]|[_ Hp]].
  { split; [|done]. unfold ex_owners, ex_space_own. cbn [p_pagetable ex_proc]. by rewrite !lookup_insert_ne by (apply pg_ne; lia). }
  by apply lookup_replicate_1 in Hp as [-> _].
Qed.

Lemma ex_leaf0 : leaf ex_mem (pg 0) 0 = Some (Z.lor (PA2PTE (pg 3)) RWU).
Proof. vm_compute. reflexivity. Qed.

Lemma ex_leaf1 : leaf ex_mem (pg 4) 0 = Some (Z.lor (PA2PTE (pg 7)) RWU).
Proof. vm_compute. reflexivity. Qed.

#[global] Opaque ex_mem ex_owners.

Lemma ex_pg_ne n : 0 <= n -> pg n <> 0.
Proof. unfold pg, PGSIZE. simpl kend. lia. Qed.
