(* ===== verification/XvCopyClaims.v ===== *)
(** What the allocator and the copy routines of the kernel promise (kernel/kalloc.c,
    kernel/vm.c): pages are handed out once, address spaces are isolated, and
    what is copied out is copied back in. *)

From S2P Require Import Prelude XvMem XvString XvKernel XvMsg XvVm XvPages XvWalk XvCopy XvExample.

#[local] Opaque page_of wr le_bytes.

Section claims.
Context {Lay : Layout}.

(** The bytes [l] at [va], in pages that only this address space maps. *)
Definition private (own : owners) (m : mem) (pt va : Z) (l : bytes) : Prop :=
  space_has m pt va l /\
  forall k w, (k < length l)%nat -> leaf m pt (va + Z.of_nat k) = Some w ->
    exists path, length path = 3%nat /\ own !! PTE2PA w = Some (OTree pt path).


Lemma touches_private pt own m own' m' pt' va l :
  vm_core own m -> touches pt own m own' m' -> own !! pt' = Some (OTree pt' []) -> pt' <> pt ->
  private own m pt' va l -> private own' m' pt' va l.
Proof.
  intros Hv Ht Hr Hne [Hs Hp].
  assert (forall k w, (k < length l)%nat -> leaf m' pt' (va + Z.of_nat k) = Some w -> leaf m pt' (va + Z.of_nat k) = Some w) as Hback.
  { intros k w Hk Hw. destruct (lookup_lt_is_Some_2 l k Hk) as [x Hx]. destruct (Hs k x Hx) as (_ & w0 & Hw0 & _).
    by rewrite (touches_leaf _ _ _ _ _ _ _ _ Hv Ht Hr Hw0) in Hw; simplify_eq. }
  split.
  - intros k x Hx a. destruct (Hs k x Hx) as (Ha & w & Hw & Hu & Hm). split; [done|]. exists w.
    split; [by eapply touches_leaf|]. split; [done|].
    destruct (Hp k w (lookup_lt_Some _ _ _ Hx) Hw) as (path & Hlen & Ho). rewrite <- Hm.
    eapply (to_data _ _ _ _ _ Ht); [exact Ho|done|by intros ? ? [= <- <-]|done|congruence|]. by apply Z.mod_pos_bound.
  - intros k w Hk Hw%Hback; [|done]. destruct (Hp k w Hk Hw) as (path & Hlen & Ho). exists path. split; [done|].
    by apply (to_own _ _ _ _ _ Ht).
Qed.


(** What the kernel copies out to writable memory of the process it reads
    back with [copyin], byte for byte, also across page boundaries. *)
Theorem copyout_copyin rely own s i p va data :
  layout_ok -> running own i p s -> is_u64 va -> Forall is_byte data ->
  space_room (k_mem s) (p_pagetable p) va (len data) ->
  wpk rely (rc ← XvVm.copyout (p_pagetable p) va data (len data);
            '(rc', d) ← XvVm.copyin (p_pagetable p) va (len data);
            mret (rc, rc', d)) s (fun '(rc, rc', d) _ => rc = 0 /\ rc' = 0 /\ d = data).
Proof.
  intros HL Hrun Hva Hb Hroom. apply wpk_bind. unfold XvVm.copyout. rewrite Z.min_l by lia.
  replace data with (data ++ []) at 2 by (by rewrite app_nil_r).
  kmono (apply (wpk_copyout_loop_room HL _ i p _ _ own); [done|done|apply copyin_fuel; lia|done|done]).
  intros rc s' [-> (Hm & Hv & _ & Hh & _)]. apply wpk_bind.
  kmono (apply (wpk_copyin_loop_has HL _ i p _ own); [by eapply running_step|done|apply copyin_fuel; lia|done]).
  intros [rc' d] s'' (-> & -> & _). by apply wpk_ret.
Qed.

(** C38: the allocator.  [kalloc] hands out a page that was free and changes no
    page in use, or reports that memory is exhausted exactly when no page is
    free; [kfree] of a page of the kernel makes it free again.  Both keep the
    invariant: every page is free, part of one address space, shared, or the
    kernel's, and the free list holds the free pages, once each. *)
Theorem kalloc_exclusive rely own s :
  layout_ok -> vm_inv own s -> cpu_ok (k_cpu s) -> k_locks s !! LKmem = None ->
  wpk rely kalloc s (fun r s' =>
    (r = 0 /\ s' = s /\ (forall pa, own !! pa <> Some OFree)) \/
    (own !! r = Some OFree /\ vm_inv (<[r := OKern]> own) s' /\
     (forall pa o i, own !! pa = Some o -> pa <> r -> 0 <= i < PGSIZE -> k_mem s' !! (pa + i) = k_mem s !! (pa + i)) /\
     wpk rely (kfree r) s' (fun _ s'' => vm_inv (<[r := OFree]> own) s''))).
Proof.
  intros HL Hv Hc Hl. eapply wpk_kalloc; [done|done|done|..].
  - intros E. left. split; [done|]. split; [done|]. intros pa. by apply (none_free HL _ s).
  - intros s' r Hr Hfree Hv' Es'. right. split; [done|]. split; [done|]. split.
    + intros pa o i Hpa Hne Hi. rewrite Es'. kproj. apply lookup_wr_out. rewrite page_of_len.
      destruct Hv as [Hcore _]. destruct (pages_apart pa r); [by apply (vi_page _ _ Hcore pa o)|by apply (vi_page _ _ Hcore r OFree)|done|lia..].
    + eapply (wpk_kfree HL); [done|rewrite Es'; by kproj|rewrite Es'; by kproj|apply lookup_insert_eq|].
      intros s'' l Hv'' _ _. by rewrite insert_insert_eq in Hv''.
Qed.

End claims.

(** * On the example machine *)

Lemma ex_root0 : ex_owners !! pg 0 = Some (OTree (pg 0) []).
Proof.
  Transparent ex_owners. unfold ex_owners, ex_space_own. Opaque ex_owners.
  by rewrite !lookup_insert_ne by (apply pg_ne; lia).
Qed.

Lemma ex_root4 : ex_owners !! pg 4 = Some (OTree (pg 4) []).
Proof.
  Transparent ex_owners. unfold ex_owners, ex_space_own. Opaque ex_owners.
  by rewrite !lookup_insert_ne by (apply pg_ne; lia).
Qed.

Lemma ex_running args : running ex_owners 0 (ex_proc RUNNING 1 None (pg 0) PGSIZE args) (ex_state 0 args).
Proof. split; [exact ex_vm|split; [simpl; lia|split; [simpl; lia|done]]|done|done|done|exact ex_root0|done]. Qed.

Lemma ex_leaf_low m pt w a : leaf m pt 0 = Some w -> 0 <= a < PGSIZE -> leaf m pt a = Some w.
Proof.
  intros Hw Ha. rewrite (same_page_leaf m pt a 0); [exact Hw|unfold is_u64, PGSIZE in *; lia|done|].
  by rewrite Z.div_small.
Qed.

Lemma ex_entry_pa n : 0 <= n < 12 -> PTE2PA (Z.lor (PA2PTE (pg n)) RWU) = pg n.
Proof. intros Hn. apply (entry_page ex_layout_ok); [by apply ex_page|done]. Qed.

Lemma ex_private : private ex_owners ex_mem (pg 0) 0 ex_text.
Proof.
  split.
  - intros k x Hx a. pose proof (lookup_lt_Some _ _ _ Hx) as Hk. unfold ex_text in Hk. simpl in Hk.
    split; [unfold a; rewrite MAXVA_val; lia|]. eexists. split; [apply ex_leaf_low; [exact ex_leaf0|unfold a, PGSIZE; lia]|].
    split; [done|]. rewrite ex_entry_pa by lia. unfold a. rewrite Z.mod_small by (unfold PGSIZE; lia).
    rewrite Z.add_0_l. Transparent ex_mem. unfold ex_mem. Opaque ex_mem. by apply lookup_wr_in.
  - intros k w Hk Hw. unfold ex_text in Hk. simpl in Hk.
    rewrite (ex_leaf_low _ _ _ _ ex_leaf0) in Hw by (unfold PGSIZE; lia). simplify_eq. rewrite ex_entry_pa by lia.
    exists [0; 0; 0]. split; [done|]. Transparent ex_owners. unfold ex_owners, ex_space_own. Opaque ex_owners.
    rewrite !lookup_insert_ne by (apply pg_ne; lia). apply lookup_insert_eq.
Qed.

Lemma ex_room m pt n w : leaf m pt 0 = Some w -> flag w PTE_U = true -> flag w PTE_W = true -> n <= PGSIZE ->
  space_room m pt 0 n.
Proof.
  intros Hw Hu HW Hn. split.
  - intros k Hk. split; [rewrite MAXVA_val; unfold PGSIZE in *; lia|]. exists w. split; [apply ex_leaf_low; [exact Hw|lia]|by split].
  - intros k k' w1 w2 Hk Hk' _ _ _. rewrite !Z.div_small by lia. done.
Qed.


Lemma copyout_copyin_witness :
  wpk alone (rc ← XvVm.copyout (pg 0) 100 (L"data") 4; '(rc', d) ← XvVm.copyin (pg 0) 100 4; mret (rc, rc', d))
    (ex_state 0 []) (fun '(rc, rc', d) _ => rc = 0 /\ rc' = 0 /\ d = L"data").
Proof.
  apply (copyout_copyin alone ex_owners (ex_state 0 []) 0 (ex_proc RUNNING 1 None (pg 0) PGSIZE []) 100 (L"data")).
  - exact ex_layout_ok.
  - exact (ex_running []).
  - by_decide.
  - by_decide.
  - apply (room_tail ex_mem ex_mem (pg 0) 0 104 100); [|done|lia].
    apply (ex_room ex_mem (pg 0) 104 _ ex_leaf0); [done|done|unfold PGSIZE; lia].
Defined.

Lemma kalloc_exclusive_witness :
  wpk alone kalloc (ex_state 0 []) (fun r s' =>
    (r = 0 /\ s' = ex_state 0 [] /\ (forall pa, ex_owners !! pa <> Some OFree)) \/
    (ex_owners !! r = Some OFree /\ vm_inv (<[r := OKern]> ex_owners) s' /\
     (forall pa o i, ex_owners !! pa = Some o -> pa <> r -> 0 <= i < PGSIZE ->
        k_mem s' !! (pa + i) = k_mem (ex_state 0 []) !! (pa + i)) /\
     wpk alone (kfree r) s' (fun _ s'' => vm_inv (<[r := OFree]> ex_owners) s''))).
Proof.
  apply kalloc_exclusive.
  - exact ex_layout_ok.
  - exact ex_vm.
  - split; [simpl; lia|]. split; [simpl; lia|done].
  - done.
Defined.
