(* ===== verification/XvMsgClaims.v ===== *)
(** The message-queue system calls (kernel/sysproc.c, kernel/msg.c) refine queues
    that are bags of typed messages, and deliver what was sent. *)

From S2P Require Import Prelude XvMem XvString XvKernel XvMsg XvMsgProofs XvVm XvPages XvWalk XvCopy XvExample XvCopyClaims.

Import Msg MsgProofs.

#[local] Opaque ex_mem ex_owners.

(** * The abstract queues *)

(** A queue in use: its key and its messages, each a type and bytes. *)
Definition aqueue : Type := option (Z * list (Z * bytes)).

Definition abs_queue (q : msgqueue) : aqueue :=
  if mq_used q =? 0 then None else Some (mq_key q, contents q).

Definition abs_queues (qs : list msgqueue) : list aqueue := abs_queue <$> qs.

Inductive msg_call :=
  | MGet (key : Z)
  | MSend (quid type va n : Z)
  | MRecv (quid type va blen : Z)
  | MCount (quid : Z).

(** Registers of a call, and the code it runs. *)
Definition call_args (c : msg_call) : list Z :=
  match c with
  | MGet key => [key]
  | MSend quid type va n => [quid; type; va; n]
  | MRecv quid type va blen => [quid; type; va; blen]
  | MCount quid => [quid]
  end.

Section calls.
Context {Lay : Layout}.

Definition call_code (c : msg_call) : KM Z :=
  match c with
  | MGet _ => sys_msgget
  | MSend _ _ _ _ => sys_sendmsg
  | MRecv _ _ _ _ => sys_recvmsg
  | MCount _ => sys_msgcount
  end.

(** The queue in use with this identifier. *)
Definition queue_at (a : list aqueue) (quid : Z) : option (Z * list (Z * bytes)) :=
  if quid <? 0 then None else mjoin (a !! Z.to_nat quid).

(** What a call does: [a] and [a'] are the queues before and after, [r] is the
    result; [m] and [m'] are memory before and after, in which the caller's
    address space is [pt]. *)
Definition msg_spec (pt : Z) (m m' : mem) (c : msg_call) (a : list aqueue) (r : Z) (a' : list aqueue) : Prop :=
  match c with
  | MGet key =>
      (exists i ms, a !! i = Some (Some (i32 key, ms)) /\ r = Z.of_nat i /\ a' = a) \/
      (forall i ms, a !! i <> Some (Some (i32 key, ms))) /\
      ((exists i, a !! i = Some None /\ r = Z.of_nat i /\ a' = <[i := Some (i32 key, [])]> a) \/
       (forall i, a !! i <> Some None) /\ r = -1 /\ a' = a)
  | MSend quid type va n =>
      let fails := r = -1 /\ a' = a in
      match queue_at a (i32 quid) with
      | None => fails
      | Some (key, ms) =>
          if bool_decide (1 <= i32 n <= MAX_MSG_LEN /\ (length ms < MAX_MSG)%nat) then
            (r = 0 /\ exists d ms', len d = i32 n /\ space_has m' pt va d /\
               (forall d0, len d0 = i32 n -> space_has m pt va d0 -> d = d0) /\
               ms' ≡ₚ (i32 type, d) :: ms /\ a' = <[Z.to_nat (i32 quid) := Some (key, ms')]> a) \/
            fails /\ forall d0, len d0 = i32 n -> ~ space_has m pt va d0
          else fails
      end
  | MRecv quid type va blen =>
      let fails := r = -1 /\ a' = a in
      match queue_at a (i32 quid) with
      | None => fails
      | Some (key, ms) =>
          Forall (fun x => x.1 <> i32 type) ms /\ fails \/
          exists before d after, ms = before ++ (i32 type, d) :: after /\ Forall (fun x => x.1 <> i32 type) before /\
            let n := Z.min (len d) (i32 blen) in
            (r = n /\ a' = <[Z.to_nat (i32 quid) := Some (key, before ++ after)]> a /\
               (space_room m pt va n -> space_has m' pt va (take (Z.to_nat n) d)) \/
             fails /\ ~ space_room m pt va n)
      end
  | MCount quid =>
      a' = a /\ r = match queue_at a (i32 quid) with None => -1 | Some (_, ms) => len ms end
  end.

(** A length that [recvmsg] handles: see [recvmsg_negative_length] for the rest. *)
Definition call_ok (c : msg_call) : Prop :=
  match c with MRecv _ _ _ blen => 0 <= i32 blen | _ => True end.

(** ** Abstraction lemmas *)

Lemma abs_same qs qs' : same_messages qs qs' -> abs_queues qs' = abs_queues qs.
Proof.
  unfold same_messages, abs_queues. intros H.
  set (g := fun x : list (Z * bytes) * Z * Z => if x.2 =? 0 then None else Some (x.1.2, x.1.1)).
  assert (forall l : list msgqueue, abs_queue <$> l = g <$> ((fun q => (contents q, mq_key q, mq_used q)) <$> l)) as E.
  { intros l. rewrite <- list_fmap_compose. done. }
  by rewrite !E, H.
Qed.

Lemma abs_lookup qs quid q : valid_queue quid qs q -> abs_queues qs !! Z.to_nat quid = Some (Some (mq_key q, contents q)).
Proof.
  intros (_ & Hq & Hu). unfold abs_queues. rewrite list_lookup_fmap, Hq. simpl. unfold abs_queue.
  by destruct (Z.eqb_spec (mq_used q) 0).
Qed.

Lemma abs_insert qs quid q' : mq_used q' <> 0 ->
  abs_queues (<[quid := q']> qs) = <[quid := Some (mq_key q', contents q')]> (abs_queues qs).
Proof.
  intros Hu. unfold abs_queues. rewrite list_fmap_insert. unfold abs_queue at 1. by destruct (Z.eqb_spec (mq_used q') 0).
Qed.

Lemma abs_lookup_inv qs i key ms :
  abs_queues qs !! i = Some (Some (key, ms)) ->
  exists q, qs !! i = Some q /\ mq_used q <> 0 /\ mq_key q = key /\ contents q = ms.
Proof.
  unfold abs_queues. rewrite list_lookup_fmap. destruct (qs !! i) as [q|]; [|done]. simpl. unfold abs_queue.
  intros H. destruct (Z.eqb_spec (mq_used q) 0); [done|]. simplify_eq. eauto.
Qed.

Lemma queue_at_valid qs quid q :
  valid_queue quid qs q -> queue_at (abs_queues qs) quid = Some (mq_key q, contents q).
Proof.
  intros Hq. pose proof Hq as ([H0 _] & _). unfold queue_at. destruct (Z.ltb_spec quid 0); [lia|].
  by rewrite (abs_lookup qs quid q).
Qed.

Lemma queue_at_invalid qs quid :
  queues_ok qs -> (forall q, ~ valid_queue quid qs q) -> queue_at (abs_queues qs) quid = None.
Proof.
  intros (Hl & _) Hbad. unfold queue_at. destruct (Z.ltb_spec quid 0); [done|].
  destruct (abs_queues qs !! Z.to_nat quid) as [[[key ms]|]|] eqn:E; [|done..].
  apply abs_lookup_inv in E as (q & Hq & Hu & _). exfalso. apply (Hbad q). split; [|done].
  apply lookup_lt_Some in Hq. rewrite Hl in Hq. lia.
Qed.

(** A queue in use, or none. *)
Lemma valid_or_not quid qs : queues_ok qs -> (exists q, valid_queue quid qs q) \/ forall q, ~ valid_queue quid qs q.
Proof.
  intros (Hl & _). destruct (decide (0 <= quid < Z.of_nat MAX_Q)) as [Hr|Hr]; [|right; by intros q [? _]].
  destruct (qs !! Z.to_nat quid) as [q|] eqn:E; [|right; intros q (_ & E' & _); congruence].
  destruct (decide (mq_used q = 0)) as [Hu|Hu]; [right|left; by exists q].
  intros q' (_ & E' & Hu'). congruence.
Qed.

Lemma msgget_abs pt m m' key qs :
  queues_ok qs -> msg_spec pt m m' (MGet key) (abs_queues qs) (msgget_spec (i32 key) qs).1 (abs_queues (msgget_spec (i32 key) qs).2).
Proof.
  intros Hok. unfold msgget_spec. simpl.
  destruct (find_index (fun q => negb (mq_used q =? 0) && (mq_key q =? i32 key)) qs) as [i|] eqn:E1.
  - left. apply find_index_Some in E1 as (q & Hq & Ht & _). apply andb_true_iff in Ht as [Hu%negb_true_iff Hk].
    exists i, (contents q). simpl. split; [|done]. unfold abs_queues, abs_queue. rewrite list_lookup_fmap, Hq. simpl.
    rewrite Hu. do 3 f_equal. lia.
  - right. split.
    + intros i ms (q & Hq & Hu & Hk & _)%abs_lookup_inv. apply find_index_None in E1.
      pose proof (Forall_lookup_1 _ _ _ _ E1 Hq) as Hf. simpl in Hf. lia.
    + destruct (find_index (fun q => mq_used q =? 0) qs) as [i|] eqn:E2; [left|right].
      * apply find_index_Some in E2 as (q & Hq & Hu & _). exists i. simpl. split; [|split; [done|]].
        { unfold abs_queues, abs_queue. rewrite list_lookup_fmap, Hq. simpl. by rewrite Hu. }
        erewrite alter_is_insert by done. rewrite abs_insert by done. simpl. do 3 f_equal.
        destruct (queues_ok_lookup _ _ _ Hok Hq) as (_ & _ & _ & Hem). rewrite contents_unused. apply Hem. lia.
      * split; [|done]. intros i. unfold abs_queues. rewrite list_lookup_fmap. destruct (qs !! i) as [q|] eqn:Hq; [|done].
        apply find_index_None in E2. pose proof (Forall_lookup_1 _ _ _ _ E2 Hq) as Hf. simpl in *. unfold abs_queue.
        by rewrite Hf.
Qed.

Lemma send_abs pt va quid type n s r s' :
  queues_ok (k_msgq s) ->
  send_post quid type n (fun rc d m _ => (rc = 0 -> space_has m pt va d) /\
    (forall d0, len d0 = n /\ space_has (k_mem s) pt va d0 -> rc = 0 /\ d = d0)) s r s' ->
  forall quid' type' n', i32 quid' = quid -> i32 type' = type -> i32 n' = n ->
  msg_spec pt (k_mem s) (k_mem s') (MSend quid' type' va n') (abs_queues (k_msgq s)) r (abs_queues (k_msgq s')).
Proof.
  intros Hqs (qs' & Es & Hqs' & _ & Hr) quid' type' n' <- <- <-. unfold msg_spec. cbv zeta.
  assert (k_msgq s' = qs') as Eq by (rewrite Es; done). rewrite Eq.
  destruct (valid_or_not (i32 quid') (k_msgq s) Hqs) as [[q Hq]|Hbad].
  2: { rewrite (queue_at_invalid _ _ Hqs Hbad). destruct Hr as [(-> & Hsame & _)|(_ & d & q & q' & _ & _ & Hq & _)]; [|by apply Hbad in Hq].
       split; [done|]. by apply abs_same. }
  rewrite (queue_at_valid _ _ _ Hq). case_bool_decide as Hok.
  - destruct Hr as [(-> & Hsame & [Href|(d & _ & Hd)])|(-> & d & q1 & q' & [Hd1 Hd2] & Hd & Hq1 & -> & Ek & Eu & Hc)].
    + exfalso. destruct Href as [Hbad|[?|(q1 & Hq1 & Hl)]]; [by apply (Hbad q)|tauto|].
      destruct Hq as (_ & Hq & _), Hq1 as (_ & Hq1 & _). assert (q1 = q) as -> by congruence. lia.
    + right. split; [split; [done|by apply abs_same]|]. intros d0 Hl Hh. by destruct (Hd d0 (conj Hl Hh)).
    + left. split; [done|]. exists d, (contents q'). split; [done|]. split; [by apply Hd1|].
      split; [intros d0 Hl Hh; by apply (Hd2 d0)|].
      assert (q1 = q) as -> by (destruct Hq as (_ & Hq & _), Hq1 as (_ & Hq1 & _); congruence).
      split; [done|]. rewrite abs_insert by (rewrite Eu; apply Hq). by rewrite Ek.
  - destruct Hr as [(-> & Hsame & _)|(_ & d & q1 & q' & _ & Hd & Hq1 & -> & _ & Eu & Hc)]; [split; [done|by apply abs_same]|].
    exfalso. apply Hok. assert (q1 = q) as -> by (destruct Hq as (_ & Hq & _), Hq1 as (_ & Hq1 & _); congruence).
    assert (queue_ok q') as (Hl & Hms & _).
    { destruct Hqs' as (_ & Hall & _). apply (Forall_lookup_1 _ _ (Z.to_nat (i32 quid')) _ Hall), list_lookup_insert_eq.
      destruct Hq as (_ & Hq & _). by eapply lookup_lt_Some. }
    split.
    + assert ((i32 type', d) ∈ contents q') as (m & Hm & E)%list_elem_of_omap by (rewrite Hc; left).
      destruct (proj1 (Forall_forall _ _) Hms m Hm) as (Hdl & _ & Hn).
      destruct (Z.eqb_spec (ms_valid m) 0); [done|]. specialize (Hn ltac:(done)). injection E as _ E.
      rewrite <- E, length_take in Hd. lia.
    + pose proof (omap_length_le view (mq_msg q')) as Hle. rewrite <- contents_view, Hl in Hle.
      apply Permutation_length in Hc. simpl in Hc. lia.
Qed.

Lemma recv_abs pt va quid type blen s r s' :
  queues_ok (k_msgq s) ->
  recv_post quid type blen (fun rc d m _ => space_room (k_mem s) pt va (len d) -> rc = 0 /\ space_has m pt va d) s r s' ->
  0 <= blen -> forall quid' type' blen', i32 quid' = quid -> i32 type' = type -> i32 blen' = blen ->
  msg_spec pt (k_mem s) (k_mem s') (MRecv quid' type' va blen') (abs_queues (k_msgq s)) r (abs_queues (k_msgq s')).
Proof.
  intros Hqs (qs' & Es & Hqs' & _ & Hr) Hbl quid' type' blen' <- <- <-. unfold msg_spec. cbv zeta.
  assert (k_msgq s' = qs') as Eq by (rewrite Es; done). rewrite Eq.
  assert (forall d : bytes, len (take (Z.to_nat (Z.min (len d) (i32 blen'))) d) = Z.min (len d) (i32 blen')) as Hlen.
  { intros d. rewrite length_take. lia. }
  destruct (valid_or_not (i32 quid') (k_msgq s) Hqs) as [[q Hq]|Hbad].
  2: { rewrite (queue_at_invalid _ _ Hqs Hbad). destruct Hr as [(-> & -> & _)|(q & q' & b & d & a & Hq & _)]; [done|by apply Hbad in Hq]. }
  rewrite (queue_at_valid _ _ _ Hq).
  assert (forall q1, valid_queue (i32 quid') (k_msgq s) q1 -> q1 = q) as Huniq.
  { intros q1 (_ & Hq1 & _). destruct Hq as (_ & Hq & _). congruence. }
  destruct Hr as [(-> & -> & [Hnone|(q1 & b & d & a & Hq1 & Hc & Hb & HP)])|(q1 & q' & b & d & a & Hq1 & -> & Ek & Eu & Hc & Hc' & Hb & -> & HP)].
  - left. split; [by apply Hnone|done].
  - right. rewrite (Huniq q1 Hq1) in Hc. exists b, d, a. split; [done|]. split; [done|]. right. split; [done|].
    intros Hroom. rewrite <- (Hlen d) in Hroom. by destruct (HP Hroom).
  - right. rewrite (Huniq q1 Hq1) in *. exists b, d, a. split; [done|]. split; [done|]. left. split; [done|]. split.
    + rewrite abs_insert by (rewrite Eu; apply Hq). by rewrite Ek, Hc'.
    + intros Hroom. rewrite <- (Hlen d) in Hroom. by destruct (HP Hroom).
Qed.


(** ** Delivery *)

Lemma space_room_less m pt va n n' : space_room m pt va n -> n' <= n -> space_room m pt va n'.
Proof. intros [R1 R2] Hn. split; [intros; apply R1; lia|]. intros k k' w w' Hk Hk'. apply R2; lia. Qed.

(** A message goes in and comes out. *)
Definition deliverable (quid type : Z) (data : bytes) (qs : list msgqueue) : Prop :=
  exists q, valid_queue quid qs q /\ (length (contents q) < MAX_MSG)%nat /\ Forall (fun x => x.1 <> type) (contents q) /\
            1 <= len data <= MAX_MSG_LEN.

Lemma not_refused quid type data qs :
  deliverable quid type data qs -> ~ refused quid (len data) qs.
Proof.
  intros (q & Hq & Hl & _ & Hd) [H|[H|(q' & (_ & Hq' & _) & Hl')]]; [by apply (H q)|lia|].
  destruct Hq as (_ & Hq & _). simplify_eq. lia.
Qed.

Lemma first_of_type type d d' (l before after : list (Z * bytes)) :
  Forall (fun x => x.1 <> type) l -> before ++ (type, d') :: after ≡ₚ (type, d) :: l -> d' = d /\ before ++ after ≡ₚ l.
Proof.
  intros Hl Hp. assert ((type, d') ∈ (type, d) :: l) as Hin by (rewrite <- Hp; apply elem_of_app; right; left).
  apply elem_of_cons in Hin as [E|Hin]; [|by rewrite Forall_forall in Hl; destruct (Hl _ Hin)].
  injection E as ->. split; [done|]. rewrite <- Permutation_middle in Hp. by apply Permutation_cons_inv in Hp.
Qed.

(** C33: what one process sends another receives.  If the queue exists, has room
    and holds no message of the type, [sendmsg] of up to 128 bytes of mapped
    memory succeeds; and whenever the queues are still as it left them, a
    [recvmsg] of that type into a writable buffer that is long enough returns
    the length, stores exactly the bytes that were sent, and leaves the queues
    as they were before. *)
Theorem send_then_receive rely s i p quid type va n data :
  layout_ok -> msg_pre i [quid; type; va; n] s -> vm_good s -> k_procs s !! i = Some p -> p_pagetable p <> 0 ->
  k_locks s !! LKmem = None -> is_u64 va -> i32 n = len data -> Forall is_byte data ->
  space_has (k_mem s) (p_pagetable p) va data -> deliverable (i32 quid) (i32 type) data (k_msgq s) ->
  wpk rely sys_sendmsg s (fun r s1 => r = 0 /\
    forall s2 j p2 va2 blen, k_msgq s2 = k_msgq s1 -> msg_pre j [quid; type; va2; blen] s2 -> vm_good s2 ->
      k_procs s2 !! j = Some p2 -> p_pagetable p2 <> 0 -> k_locks s2 !! LKmem = None -> is_u64 va2 ->
      len data <= i32 blen -> space_room (k_mem s2) (p_pagetable p2) va2 (len data) ->
      wpk rely sys_recvmsg s2 (fun r' s3 => r' = len data /\ space_has (k_mem s3) (p_pagetable p2) va2 data /\
        Forall2 (fun q3 q => mq_key q3 = mq_key q /\ contents q3 ≡ₚ contents q) (k_msgq s3) (k_msgq s))).
Proof.
  intros HL Hpre Hvm Hp Hne Hlk Hva Hn Hb Hhas Hdel.
  kmono (eapply (wpk_sendmsg rely i quid type va n s p); [done|exact Hvm|done|]; intros [Hn0 _];
         apply copies_in_exact; [exact Hvm|done|done|done|done|lia]).
  intros r s1 (qs1 & Es1 & Hqs1 & _ & [(_ & _ & [Href|(d & _ & Hd)])|(-> & d & q & q1 & [_ Hd] & _ & Hq & Eq1 & Ek & Eu & Hc)]);
    [|by destruct (Hd data (conj (eq_sym Hn) Hhas))|destruct (Hd data (conj (eq_sym Hn) Hhas)) as [_ ->]].
  { rewrite Hn in Href. by destruct (not_refused _ _ _ _ Hdel). }
  split; [done|]. intros s2 j p2 va2 blen E2 Hpre2 Hvm2 Hp2 Hne2 Hlk2 Hva2 Hbl Hroom.
  kmono (eapply (wpk_recvmsg rely j quid type va2 blen s2 p2); [done|exact Hvm2|done|lia|];
         apply copies_out_exact; [exact Hvm2|done..]).
  assert (k_msgq s1 = <[Z.to_nat (i32 quid) := q1]> (k_msgq s)) as Eqs1 by (rewrite Es1; exact Eq1).
  destruct Hdel as (q0 & Hq0 & _ & Hno & Hlen). assert (q0 = q) as -> by (destruct Hq0 as (_ & ? & _), Hq as (_ & ? & _); congruence).
  assert (valid_queue (i32 quid) (k_msgq s2) q1) as Hq1.
  { rewrite E2, Eqs1. destruct Hq as (Hr & Hq & Hu). split; [done|]. split; [|by rewrite Eu].
    apply list_lookup_insert_eq. by eapply lookup_lt_Some. }
  assert (forall q' before d after, valid_queue (i32 quid) (k_msgq s2) q' -> contents q' = before ++ (i32 type, d) :: after ->
    d = data /\ before ++ after ≡ₚ contents q) as Hfirst.
  { intros q' before d after (_ & Hq' & _) Hc'. destruct Hq1 as (_ & Hq1 & _). assert (q' = q1) as -> by congruence.
    apply (first_of_type (i32 type)); [done|]. by rewrite <- Hc'. }
  intros r' s3 (qs3 & Es3 & _ & _ & [(-> & -> & [Hnone|(q' & b' & d & a' & Hq' & Hc' & _ & HP)])|(q' & q3 & b' & d & a' & Hq' & -> & Ek3 & _ & Hc' & Hc3 & _ & -> & HP)]).
  - exfalso. specialize (Hnone q1 Hq1). rewrite Hc in Hnone. by apply Forall_cons in Hnone as [? _].
  - exfalso. destruct (Hfirst _ _ _ _ Hq' Hc') as [-> _]. destruct HP as [[=] _]. eapply space_room_less; [exact Hroom|]. rewrite length_take. lia.
  - destruct (Hfirst _ _ _ _ Hq' Hc') as [-> Hperm]. rewrite Z.min_l in * by lia. rewrite Nat2Z.id, firstn_all in HP.
    split; [done|]. split; [by apply HP|].
    assert (q' = q1) as -> by (destruct Hq' as (_ & ? & _), Hq1 as (_ & ? & _); congruence).
    rewrite Es3. cbn [k_msgq set_msgq]. rewrite E2, Eqs1, list_insert_insert_eq. destruct Hq as (_ & Hq & _).
    rewrite <- (list_insert_id _ _ _ Hq) at 2. apply Forall2_insert.
    + apply Forall_Forall2_diag, Forall_true. by intros.
    + split; [by rewrite Ek3, Ek|by rewrite Hc3].
Qed.

End calls.

(** * On the example machine *)

Lemma ex_queue_ok key used : queue_ok (mk_msgq key used (replicate MAX_MSG (mk_msg 0 (replicate 128 0) 0 0)) 0).
Proof.
  split; [done|]. split; [|by split]. apply Forall_replicate. split; [done|]. split; [by apply Forall_replicate|done].
Qed.

Lemma ex_queues_ok i args : queues_ok (k_msgq (ex_state i args)).
Proof.
  split; [done|]. split.
  - apply Forall_insert; [apply Forall_replicate|]; apply ex_queue_ok.
  - assert (forall k q, k_msgq (ex_state i args) !! k = Some q -> mq_used q <> 0 -> k = 0%nat) as H.
    { intros k q Hk Hu. destruct k as [|k]; [done|]. exfalso. cbn [k_msgq ex_state] in Hk.
      rewrite list_lookup_insert_ne in Hk by done. by apply lookup_replicate_1 in Hk as [-> _]. }
    intros k k' q q' Hk Hk' Hu Hu' _. by rewrite (H k q), (H k' q').
Qed.

Lemma ex_msg_pre (i : nat) args : (i < 2)%nat -> (length args <= 8)%nat -> msg_pre i args (ex_state i args).
Proof.
  intros Hi Ha. split; [|split; [done|apply ex_queues_ok]]. split; [split; [simpl; lia|split; [simpl; lia|done]]|].
  split; [done|]. destruct i as [|[|i]]; [..|lia]; (eexists; split; [reflexivity|]); cbn [p_tf ex_proc tf_a ex_tf]; by eexists.
Qed.


Lemma send_then_receive_witness :
  wpk alone sys_sendmsg (ex_state 0 [0; 5; 0; 5]) (fun r s1 => r = 0 /\
    forall s2 j p2 va2 blen, k_msgq s2 = k_msgq s1 -> msg_pre j [0; 5; va2; blen] s2 -> vm_good s2 ->
      k_procs s2 !! j = Some p2 -> p_pagetable p2 <> 0 -> k_locks s2 !! LKmem = None -> is_u64 va2 ->
      len ex_text <= i32 blen -> space_room (k_mem s2) (p_pagetable p2) va2 (len ex_text) ->
      wpk alone sys_recvmsg s2 (fun r' s3 => r' = len ex_text /\ space_has (k_mem s3) (p_pagetable p2) va2 ex_text /\
        Forall2 (fun q3 q => mq_key q3 = mq_key q /\ contents q3 ≡ₚ contents q) (k_msgq s3)
          (k_msgq (ex_state 0 [0; 5; 0; 5])))).
Proof.
  apply (send_then_receive alone (ex_state 0 [0; 5; 0; 5]) 0 (ex_proc RUNNING 1 None (pg 0) PGSIZE [0; 5; 0; 5]) 0 5 0 5 ex_text).
  - exact ex_layout_ok.
  - apply ex_msg_pre; simpl; lia.
  - exact (ex_state_vm _ _).
  - reflexivity.
  - by apply ex_pg_ne.
  - reflexivity.
  - by_decide.
  - reflexivity.
  - by_decide.
  - exact (proj1 ex_private).
  - eexists. split; [split; [by_decide|split; [reflexivity|discriminate]]|]. split; [by_decide|]. split; [constructor|by_decide].
Defined.

(** A full-length message of type 5 waits in queue 0; the caller passes the length -1. *)
Definition ex_waiting : kst :=
  let s := ex_state 0 [0; 5; 0; u64 (-1)] in
  set_msgq (<[0%nat := mk_msgq 7 1 (mk_msg 5 (replicate 128 65) 128 1 :: replicate 9 (mk_msg 0 (replicate 128 0) 0 0)) 1]>
    (k_msgq s)) s.

