(* ===== verification/XvSched.v ===== *)
(** Scheduling, sleep and wakeup, signals and kernel mutexes: the parts of
    kernel/proc.c that change the state of processes, and the system calls of
    kernel/sysproc.c on them.  A loop that waits is followed through [fuel]
    wakeups. *)

From S2P Require Import Prelude XvMem XvFsTypes XvKernel XvMsg.

(** * Context switches *)

(** [myproc()] as a pointer that may be null. *)
Definition myproc_ptr : KM (option nat) :=
  push_off;;
  c ← mycpu;
  pop_off;;
  mret (c_proc c).

Definition sched : KM unit :=
  i ← myproc;
  h ← holding (LProc i);
  if negb h then panic (L"sched p->lock")
  else
    c ← mycpu;
    if negb (c_noff c =? 1) then panic (L"sched locks")
    else
      p ← get_proc i;
      if bool_decide (p_state p = RUNNING) then panic (L"sched RUNNING")
      else
        on ← intr_get;
        if (on : bool) then panic (L"sched interruptible")
        else
          c ← mycpu;
          let intena := c_intena c in
          swtch;;
          modify (fun s => set_cpu (set_intena intena (k_cpu s)) s).

Definition yield : KM unit :=
  i ← myproc;
  acquire (LProc i);;
  upd_proc i (set_pstate RUNNABLE);;
  sched;;
  release (LProc i).

Definition sleep (ch : chan) (lk : lockid) : KM unit :=
  i ← myproc;
  acquire (LProc i);;
  release lk;;
  upd_proc i (set_pchan (Some ch));;
  upd_proc i (set_pstate SLEEPING);;
  sched;;
  upd_proc i (set_pchan None);;
  release (LProc i);;
  acquire lk.

(** A null channel ([None]) is passed by [kexit] for a process without parent. *)
Definition wakeup (ch : option chan) : KM unit :=
  for_each (seq 0 NPROC) (fun i =>
    me ← myproc_ptr;
    if bool_decide (Some i = me) then mret tt
    else
      acquire (LProc i);;
      p ← get_proc i;
      (if bool_decide (p_state p = SLEEPING) && bool_decide (p_chan p = ch)
       then upd_proc i (set_pstate RUNNABLE) else mret tt);;
      release (LProc i)).

(** * Process numbers *)

Definition allocpid : KM Z :=
  acquire LPid;;
  pid ← gets k_nextpid;
  modify (fun s => set_nextpid (i32 (k_nextpid s + 1)) s);;
  release LPid;;
  mret pid.

(** * Sleep locks (kernel/sleeplock.c) *)

Definition get_sleep (a : sleepid) : KM sleeplock :=
  o ← gets (fun s => k_sleep s !! a);
  match o with Some l => mret l | None => kstuck BadAccess end.

Definition put_sleep (a : sleepid) (l : sleeplock) : KM unit :=
  modify (fun s => set_sleep (<[a := l]> (k_sleep s)) s).

Definition initsleeplock (a : sleepid) : KM unit :=
  initlock (LSleep a);;
  put_sleep a (mk_sleeplock 0 0).

(** [while (lk->locked) sleep(lk, &lk->lk)], through [fuel] wakeups. *)
Fixpoint acquiresleep_loop (fuel : nat) (a : sleepid) : KM unit :=
  l ← get_sleep a;
  if sl_locked l =? 0 then mret tt
  else
    sleep (CSleep a) (LSleep a);;
    match fuel with
    | O => kstuck Asleep
    | S f => acquiresleep_loop f a
    end.

Definition acquiresleep (fuel : nat) (a : sleepid) : KM unit :=
  acquire (LSleep a);;
  acquiresleep_loop fuel a;;
  l ← get_sleep a;
  put_sleep a (mk_sleeplock 1 (sl_pid l));;
  i ← myproc;
  p ← get_proc i;
  put_sleep a (mk_sleeplock 1 (p_pid p));;
  release (LSleep a).

Definition releasesleep (a : sleepid) : KM unit :=
  acquire (LSleep a);;
  _ ← get_sleep a;
  put_sleep a (mk_sleeplock 0 0);;
  wakeup (Some (CSleep a));;
  release (LSleep a).

Definition holdingsleep (a : sleepid) : KM bool :=
  acquire (LSleep a);;
  l ← get_sleep a;
  r ← (if sl_locked l =? 0 then mret false
       else i ← myproc; p ← get_proc i; mret (sl_pid l =? p_pid p));
  release (LSleep a);;
  mret r.

(** * The scheduler *)

(** One pass over the table: whether a process ran. *)
Fixpoint scheduler_pass (todo : list nat) (found : bool) : KM bool :=
  match todo with
  | [] => mret found
  | i :: rest =>
      acquire (LProc i);;
      p ← get_proc i;
      found' ← (if bool_decide (p_state p = RUNNABLE) && (p_frozen p =? 0) then
                  upd_proc i (set_pstate RUNNING);;
                  modify (fun s => set_cpu (set_cproc (Some i) (k_cpu s)) s);;
                  swtch;;
                  modify (fun s => set_cpu (set_cproc None (k_cpu s)) s);;
                  mret true
                else mret found);
      release (LProc i);;
      scheduler_pass rest found'
  end.

(** The loop runs until power-off; it is followed through [fuel] passes.  [wfi]
    after a pass that found nothing only delays the next one. *)
Fixpoint scheduler_loop (fuel : nat) : KM unit :=
  match fuel with
  | O => kstuck Asleep
  | S f =>
      intr_on;;
      intr_off;;
      _ ← scheduler_pass (seq 0 NPROC) false;
      scheduler_loop f
  end.

Definition scheduler (fuel : nat) : KM unit :=
  modify (fun s => set_cpu (set_cproc None (k_cpu s)) s);;
  scheduler_loop fuel.

(** * Signals *)

Definition kkill (pid : Z) : KM Z :=
  r ← for_some (seq 0 NPROC) (fun i =>
    acquire (LProc i);;
    p ← get_proc i;
    if p_pid p =? pid then
      upd_proc i (set_pkilled 1);;
      upd_proc i (set_pfrozen 0);;
      (if bool_decide (p_state p = SLEEPING) then upd_proc i (set_pstate RUNNABLE) else mret tt);;
      release (LProc i);;
      mret (Some 0)
    else release (LProc i);; mret None);
  mret (default (-1) r).

Definition kfreeze (pid : Z) : KM Z :=
  r ← for_some (seq 0 NPROC) (fun i =>
    acquire (LProc i);;
    p ← get_proc i;
    if (p_pid p =? pid) && negb (bool_decide (p_state p = UNUSED)) then
      upd_proc i (set_pfrozen 1);;
      release (LProc i);;
      mret (Some 0)
    else release (LProc i);; mret None);
  mret (default (-1) r).

Definition kthaw (pid : Z) : KM Z :=
  r ← for_some (seq 0 NPROC) (fun i =>
    acquire (LProc i);;
    p ← get_proc i;
    if (p_pid p =? pid) && negb (bool_decide (p_state p = UNUSED)) then
      upd_proc i (set_pfrozen 0);;
      release (LProc i);;
      mret (Some 0)
    else release (LProc i);; mret None);
  mret (default (-1) r).

Definition kgetprocstate (pid : Z) : KM Z :=
  r ← for_some (seq 0 NPROC) (fun i =>
    acquire (LProc i);;
    p ← get_proc i;
    if (p_pid p =? pid) && negb (bool_decide (p_state p = UNUSED)) then
      let state := state_code (p_state p) in
      release (LProc i);;
      mret (Some state)
    else release (LProc i);; mret None);
  mret (default (-1) r).

Definition ksignal_send (pid sig : Z) : KM Z :=
  if sig =? 1 then kkill pid
  else if sig =? 2 then kfreeze pid
  else if sig =? 3 then kthaw pid
  else mret (-1).

Definition setkilled (i : nat) : KM unit :=
  acquire (LProc i);;
  upd_proc i (set_pkilled 1);;
  release (LProc i).

Definition killed (i : nat) : KM Z :=
  acquire (LProc i);;
  p ← get_proc i;
  let k := p_killed p in
  release (LProc i);;
  mret k.

(** * System calls on processes *)

Definition sys_kill : KM Z := pid ← argint 0; kkill pid.
Definition sys_freeze : KM Z := pid ← argint 0; kfreeze pid.
Definition sys_thaw : KM Z := pid ← argint 0; kthaw pid.
Definition sys_signal_send : KM Z := pid ← argint 0; sig ← argint 1; ksignal_send pid sig.

Definition sys_getprocstate : KM Z :=
  pid ← argint 0;
  if pid <=? 0 then mret (-1) else kgetprocstate pid.

Definition sys_getpid : KM Z := i ← myproc; p ← get_proc i; mret (p_pid p).

Definition sys_getppid : KM Z :=
  i ← myproc;
  acquire LWait;;
  p ← get_proc i;
  ppid ← match p_parent p with
         | Some j => pp ← get_proc j; mret (p_pid pp)
         | None => mret 0
         end;
  release LWait;;
  mret ppid.

(** ** Time *)

Fixpoint pause_loop (fuel : nat) (ticks0 n : Z) : KM Z :=
  ticks ← gets k_ticks;
  if u32 (ticks - ticks0) <? u32 n then
    i ← myproc;
    k ← killed i;
    if negb (k =? 0) then
      release LTicks;;
      mret (-1)
    else
      sleep CTicks LTicks;;
      match fuel with
      | O => kstuck Asleep
      | S f => pause_loop f ticks0 n
      end
  else
    release LTicks;;
    mret 0.

Definition sys_pause (fuel : nat) : KM Z :=
  n ← argint 0;
  let n := if n <? 0 then 0 else n in
  acquire LTicks;;
  ticks0 ← gets k_ticks;
  pause_loop fuel ticks0 n.

Definition sys_uptime : KM Z :=
  acquire LTicks;;
  xticks ← gets k_ticks;
  release LTicks;;
  mret xticks.

(** ** Mutexes *)

Definition get_mutex (id : nat) : KM kmutex_entry :=
  o ← gets (fun s => k_mutex s !! id);
  match o with Some e => mret e | None => kstuck BadAccess end.

Definition put_mutex (id : nat) (e : kmutex_entry) : KM unit :=
  _ ← get_mutex id;
  modify (fun s => set_mutex (<[id := e]> (k_mutex s)) s).

Definition bad_mutex (id : Z) : bool := (id <? 0) || (Z.of_nat NKMUTEX <=? id).

Definition sys_mutex_create : KM Z :=
  acquire LWait;;
  r ← for_some (seq 0 NKMUTEX) (fun i =>
    e ← get_mutex i;
    if km_used e =? 0 then
      put_mutex i (mk_mutex 1 0 (-1));;
      release LWait;;
      mret (Some (Z.of_nat i))
    else mret None);
  match r with
  | Some v => mret v
  | None => release LWait;; mret (-1)
  end.

Fixpoint mutex_lock_loop (fuel : nat) (id : Z) (i : nat) : KM Z :=
  e ← get_mutex (Z.to_nat id);
  p ← get_proc i;
  if km_used e =? 0 then release LWait;; mret (-1)
  else if km_locked e =? 0 then
    put_mutex (Z.to_nat id) (mk_mutex (km_used e) 1 (p_pid p));;
    release LWait;;
    mret 0
  else if km_owner_pid e =? p_pid p then release LWait;; mret (-1)
  else
    sleep (CMutex id) LWait;;
    k ← killed i;
    if negb (k =? 0) then release LWait;; mret (-1)
    else
      match fuel with
      | O => kstuck Asleep
      | S f => mutex_lock_loop f id i
      end.

Definition sys_mutex_lock (fuel : nat) : KM Z :=
  id ← argint 0;
  if bad_mutex id then mret (-1)
  else
    i ← myproc;
    acquire LWait;;
    mutex_lock_loop fuel id i.

Definition sys_mutex_unlock : KM Z :=
  id ← argint 0;
  if bad_mutex id then mret (-1)
  else
    i ← myproc;
    acquire LWait;;
    e ← get_mutex (Z.to_nat id);
    if (km_used e =? 0) || (km_locked e =? 0) then release LWait;; mret (-1)
    else
      p ← get_proc i;
      if negb (km_owner_pid e =? p_pid p) then release LWait;; mret (-1)
      else
        put_mutex (Z.to_nat id) (mk_mutex (km_used e) 0 (-1));;
        wakeup (Some (CMutex id));;
        release LWait;;
        mret 0.

Definition sys_mutex_trylock : KM Z :=
  id ← argint 0;
  if bad_mutex id then mret (-1)
  else
    i ← myproc;
    acquire LWait;;
    e ← get_mutex (Z.to_nat id);
    if km_used e =? 0 then release LWait;; mret (-1)
    else if km_locked e =? 0 then
      p ← get_proc i;
      put_mutex (Z.to_nat id) (mk_mutex (km_used e) 1 (p_pid p));;
      release LWait;;
      mret 0
    else release LWait;; mret (-1).

Definition sys_mutex_owner : KM Z :=
  id ← argint 0;
  if bad_mutex id then mret (-1)
  else
    acquire LWait;;
    e ← get_mutex (Z.to_nat id);
    if km_used e =? 0 then release LWait;; mret (-1)
    else
      let owner := if km_locked e =? 0 then 0 else km_owner_pid e in
      release LWait;;
      mret owner.
