(* ===== verification/XvSchedProofs.v ===== *)
(** Specifications of the process-table code of [XvSched]: wakeup, the signals
    that look a process up by its pid, and the numbers [allocpid] hands out. *)

From S2P Require Import Prelude XvMem XvKernel XvMsg XvSched.

(** * The process table *)

(** No process lock is held. *)
Definition unlocked (s : kst) : Prop := forall i, k_locks s !! LProc i = None.

Definition table_ok (s : kst) : Prop := length (k_procs s) = NPROC.

(** [f] applied to the first [k] elements. *)
Definition upto {A} (k : nat) (f : nat -> A -> A) (l : list A) : list A :=
  imap (fun i x => if decide (i < k)%nat then f i x else x) l.

(** What [wakeup(ch)] by process [me] does to process [i]. *)
Definition woken (me : option nat) (ch : option chan) (i : nat) (p : proc) : proc :=
  if bool_decide (Some i = me) then p
  else if bool_decide (p_state p = SLEEPING) && bool_decide (p_chan p = ch) then set_pstate RUNNABLE p
  else p.

(** [p] was perhaps woken. *)
Definition woke (p p' : proc) : Prop := p' = p \/ p_state p = SLEEPING /\ p' = set_pstate RUNNABLE p.

(** What [kkill] does to its target. *)
Definition killing (p : proc) : proc :=
  let q := set_pfrozen 0 (set_pkilled 1 p) in
  if bool_decide (p_state p = SLEEPING) then set_pstate RUNNABLE q else q.

(** The test of [kfreeze], [kthaw] and [kgetprocstate]. *)
Definition live_pid (pid : Z) (p : proc) : bool :=
  (p_pid p =? pid) && negb (bool_decide (p_state p = UNUSED)).

(** * The scheduler *)

(** Process [i] and the scheduler change places: the lock of the process is the
    only one held, one [push_off] deep, with interrupts off. *)
Definition at_switch (i : nat) (s : kst) : Prop :=
  c_proc (k_cpu s) = Some i /\ k_locks s = {[LProc i := c_id (k_cpu s)]} /\
  c_noff (k_cpu s) = 1 /\ c_sie (k_cpu s) = false /\ table_ok s.

(** The scheduler leaves for a process that is now running and was not frozen;
    it comes back with what [sched] checks, and anything in the table. *)
Definition scheduling : protocol := mk_protocol true
  (fun s => exists i p, at_switch i s /\ k_procs s !! i = Some p /\ p_state p = RUNNING /\ p_frozen p = 0)
  (fun s s' => exists i, at_switch i s /\ at_switch i s').

(** The CPU runs the scheduler and holds no lock. *)
Definition idle (s : kst) : Prop :=
  c_noff (k_cpu s) = 0 /\ k_locks s = ∅ /\ table_ok s.

(** * Lemmas *)

Lemma upto_lookup {A} k (f : nat -> A -> A) l i :
  upto k f l !! i = (fun x => if decide (i < k)%nat then f i x else x) <$> l !! i.
Proof. apply list_lookup_imap. Qed.

Lemma upto_0 {A} (f : nat -> A -> A) l : upto 0 f l = l.
Proof. apply list_eq. intros i. rewrite upto_lookup. by destruct (l !! i). Qed.

Lemma upto_S {A} k (f : nat -> A -> A) l x :
  l !! k = Some x -> upto (S k) f l = <[k := f k x]> (upto k f l).
Proof.
  intros Hx. apply list_eq. intros i. destruct (decide (i = k)) as [->|Hne].
  - rewrite list_lookup_insert_eq by (unfold upto; rewrite length_imap; by eapply lookup_lt_Some).
    rewrite upto_lookup, Hx. simpl. by rewrite decide_True by lia.
  - rewrite list_lookup_insert_ne, !upto_lookup by done. destruct (l !! i); [|done]. simpl.
    repeat case_decide; [done|lia..|done].
Qed.

Lemma upto_all {A} (f : nat -> A -> A) l : upto (length l) f l = imap f l.
Proof.
  apply list_eq. intros i. rewrite upto_lookup, list_lookup_imap. destruct (l !! i) eqn:E; [|done].
  simpl. apply lookup_lt_Some in E. by rewrite decide_True by lia.
Qed.

Lemma woke_refl p : woke p p.
Proof. by left. Qed.

Lemma woke_parent p p' : woke p p' -> p_parent p' = p_parent p.
Proof. by intros [->|[_ ->]]. Qed.

Lemma woke_trans p q r : woke p q -> woke q r -> woke p r.
Proof. intros [->|[H ->]] [->|[H' ->]]; unfold woke; naive_solver. Qed.

Lemma woken_woke me ch j p : woke p (woken me ch j p).
Proof.
  unfold woken. case_bool_decide; [by left|]. destruct (bool_decide _ && _) eqn:E; [|by left].
  apply andb_true_iff in E as [E _]. right. split; [by apply bool_decide_eq_true in E|done].
Qed.

Lemma insert_same_procs i p s : k_procs s !! i = Some p -> set_procs (<[i := p]> (k_procs s)) s = s.
Proof. intros. kst_eq. by apply list_insert_id. Qed.

Lemma set_locks_cpu_id s : set_locks (k_locks s) (set_cpu (k_cpu s) s) = s.
Proof. by destruct s. Qed.

Section procs.
Context {rely : protocol}.

Lemma wpk_myproc_ptr s (Q : option nat -> kst -> Prop) :
  cpu_ok (k_cpu s) -> Q (c_proc (k_cpu s)) s -> wpk rely myproc_ptr s Q.
Proof.
  intros Hok HQ. unfold myproc_ptr. apply wpk_bind, wpk_push_off, wpk_bind, wpk_gets, wpk_bind.
  apply wpk_pop_off; [done|simpl; destruct Hok; lia|]. apply wpk_ret. kproj.
  rewrite cpu_on_off by done. replace (set_cpu _ _) with s; [exact HQ|]. by destruct s.
Qed.

(** Looking at one process under its lock, and perhaps changing it. *)
Lemma wpk_locked_upd {A} i p f (a : A) s (Q : A -> kst -> Prop) :
  cpu_ok (k_cpu s) -> k_locks s !! LProc i = None -> k_procs s !! i = Some p ->
  Q a (set_procs (<[i := f p]> (k_procs s)) s) ->
  wpk rely (upd_proc i f;; release (LProc i);; mret a) (lock_on (LProc i) s) Q.
Proof.
  intros Hok Hl Hp HQ. apply wpk_bind. eapply wpk_upd_proc; [by kproj|].
  apply wpk_bind. eapply (wpk_release_on _ s); [by kproj..|done|done|]. apply wpk_ret.
  match goal with |- Q _ ?t => replace t with (set_procs (<[i := f p]> (k_procs s)) s); [done|] end.
  by destruct s.
Qed.

Lemma wpk_locked_skip {A} i (a : A) s (Q : A -> kst -> Prop) :
  cpu_ok (k_cpu s) -> k_locks s !! LProc i = None -> Q a s ->
  wpk rely (release (LProc i);; mret a) (lock_on (LProc i) s) Q.
Proof.
  intros Hok Hl HQ. apply wpk_bind. eapply (wpk_release_on _ s); [by kproj..|done|done|]. apply wpk_ret.
  match goal with |- Q _ ?t => replace t with s; [done|] end. by destruct s.
Qed.

Lemma wpk_wakeup ch s (Q : unit -> kst -> Prop) :
  cpu_ok (k_cpu s) -> table_ok s ->
  (forall i, Some i <> c_proc (k_cpu s) -> k_locks s !! LProc i = None) ->
  Q tt (set_procs (imap (woken (c_proc (k_cpu s)) ch) (k_procs s)) s) ->
  wpk rely (wakeup ch) s Q.
Proof.
  intros Hok Hlen Hun HQ. unfold wakeup. set (me := c_proc (k_cpu s)) in *.
  apply (wpk_for_each _ _ (fun dn s' => s' = set_procs (upto (length dn) (woken me ch) (k_procs s)) s)).
  - kst_eq. by rewrite upto_0.
  - intros dn i rest s' El ->.
    assert (length dn = i) as Hi.
    { assert (seq 0 NPROC !! length dn = Some i) as Hi by (rewrite El; by apply list_lookup_middle).
      apply lookup_seq in Hi. lia. }
    assert (i < NPROC)%nat as Hlt.
    { assert (length (seq 0 NPROC) = length (dn ++ i :: rest)) as E by by f_equal.
      rewrite length_seq, length_app in E. simpl in E. lia. }
    destruct (lookup_lt_is_Some_2 (k_procs s) i) as [p Hp]; [by rewrite Hlen|].
    assert (upto i (woken me ch) (k_procs s) !! i = Some p) as Hp'.
    { rewrite upto_lookup, Hp. simpl. by rewrite decide_False by lia. }
    rewrite length_app. simpl. rewrite Hi, Nat.add_1_r, (upto_S _ _ _ _ Hp).
    apply wpk_bind, wpk_myproc_ptr; [done|]. kproj. fold me. unfold woken at 2.
    case_bool_decide as Hme.
    + apply wpk_ret. by rewrite (list_insert_id _ _ _ Hp').
    + apply wpk_bind, wpk_acquire; [kproj; by apply Hun|].
      apply wpk_bind. eapply wpk_get_proc; [by kproj|].
      destruct (bool_decide _ && bool_decide _).
      * apply wpk_bind. eapply wpk_upd_proc; [by kproj|].
        eapply (wpk_release_on _ (set_procs (upto i (woken me ch) (k_procs s)) s)); [by kproj..|done|kproj; by apply Hun|].
        kst_eq.
      * apply wpk_bind, wpk_ret.
        eapply (wpk_release_on _ (set_procs (upto i (woken me ch) (k_procs s)) s)); [by kproj..|done|kproj; by apply Hun|].
        kst_eq. by rewrite (list_insert_id _ _ _ Hp').
  - intros s' ->. rewrite length_seq, <- Hlen, upto_all. exact HQ.
Qed.

(** The search of the table that the signals share. *)
Lemma wpk_scan (test : proc -> bool) (hit : nat -> proc -> KM (option Z)) s (Q : Z -> kst -> Prop) :
  cpu_ok (k_cpu s) -> table_ok s -> unlocked s ->
  (forall i p, find_index test (k_procs s) = Some i -> k_procs s !! i = Some p -> test p = true ->
     wpk rely (hit i p) (lock_on (LProc i) s) (fun r s' => exists v, r = Some v /\ Q v s')) ->
  (find_index test (k_procs s) = None -> Q (-1) s) ->
  wpk rely (r ← for_some (seq 0 NPROC) (fun i =>
      acquire (LProc i);;
      p ← get_proc i;
      if test p then hit i p else release (LProc i);; mret None);
    mret (default (-1) r)) s Q.
Proof.
  intros Hok Hlen Hun Hhit Hnone. apply wpk_bind. rewrite <- Hlen.
  apply (wpk_for_find _ _ test).
  - intros i p Hp Ht. apply wpk_bind, wpk_acquire; [done|]. apply wpk_bind.
    eapply wpk_get_proc; [by kproj|]. rewrite Ht. by apply wpk_locked_skip.
  - intros i p Hf Hp Ht. apply wpk_bind, wpk_acquire; [done|]. apply wpk_bind.
    eapply wpk_get_proc; [by kproj|]. rewrite Ht. kmono (by apply Hhit).
    intros r s' (v & -> & HQ). split; [done|]. by apply wpk_ret.
  - intros Hf. by apply wpk_ret, Hnone.
Qed.

Lemma wpk_kkill pid s (Q : Z -> kst -> Prop) :
  cpu_ok (k_cpu s) -> table_ok s -> unlocked s ->
  (forall i p, find_index (fun p => p_pid p =? pid) (k_procs s) = Some i -> k_procs s !! i = Some p ->
     p_pid p = pid -> Q 0 (set_procs (<[i := killing p]> (k_procs s)) s)) ->
  (find_index (fun p => p_pid p =? pid) (k_procs s) = None -> Q (-1) s) ->
  wpk rely (kkill pid) s Q.
Proof.
  intros Hok Hlen Hun Hyes Hno. apply (wpk_scan (fun p => p_pid p =? pid)); [done..| |done].
  intros i p Hf Hp Ht. apply Z.eqb_eq in Ht. specialize (Hyes i p Hf Hp Ht).
  assert (i < length (k_procs s))%nat as Hi by by eapply lookup_lt_Some.
  apply wpk_bind. eapply wpk_upd_proc; [by kproj|]. apply wpk_bind. eapply wpk_upd_proc.
  { kproj. by apply list_lookup_insert_eq. }
  apply wpk_bind. unfold killing in Hyes. case_bool_decide.
  - eapply wpk_upd_proc.
    { kproj. rewrite list_insert_insert_eq. by apply list_lookup_insert_eq. }
    apply wpk_bind. eapply (wpk_release_on _ s); [by kproj..|done|done|]. apply wpk_ret.
    eexists. split; [done|]. erewrite kst_ext; [exact Hyes|kproj..]; try reflexivity.
    by rewrite !list_insert_insert_eq.
  - apply wpk_ret, wpk_bind. eapply (wpk_release_on _ s); [by kproj..|done|done|]. apply wpk_ret.
    eexists. split; [done|]. erewrite kst_ext; [exact Hyes|kproj..]; try reflexivity.
    by rewrite !list_insert_insert_eq.
Qed.

(** [kfreeze] and [kthaw]. *)
Lemma wpk_set_frozen z pid s (Q : Z -> kst -> Prop) :
  cpu_ok (k_cpu s) -> table_ok s -> unlocked s ->
  (forall i p, find_index (live_pid pid) (k_procs s) = Some i -> k_procs s !! i = Some p ->
     live_pid pid p = true -> Q 0 (set_procs (<[i := set_pfrozen z p]> (k_procs s)) s)) ->
  (find_index (live_pid pid) (k_procs s) = None -> Q (-1) s) ->
  wpk rely (r ← for_some (seq 0 NPROC) (fun i =>
    acquire (LProc i);;
    p ← get_proc i;
    if live_pid pid p then
      upd_proc i (set_pfrozen z);; release (LProc i);; mret (Some 0)
    else release (LProc i);; mret None);
  mret (default (-1) r)) s Q.
Proof.
  intros Hok Hlen Hun Hyes Hno.
  apply (wpk_scan (live_pid pid) (fun i p => upd_proc i (set_pfrozen z);; release (LProc i);; mret (Some 0))); [done..| |done].
  intros i p Hf Hp Ht. eapply wpk_locked_upd; [done..|]. eexists. split; [done|]. by apply Hyes.
Qed.

Lemma wpk_kgetprocstate pid s (Q : Z -> kst -> Prop) :
  cpu_ok (k_cpu s) -> table_ok s -> unlocked s ->
  (forall i p, find_index (live_pid pid) (k_procs s) = Some i -> k_procs s !! i = Some p ->
     live_pid pid p = true -> Q (state_code (p_state p)) s) ->
  (find_index (live_pid pid) (k_procs s) = None -> Q (-1) s) ->
  wpk rely (kgetprocstate pid) s Q.
Proof.
  intros Hok Hlen Hun Hyes Hno.
  apply (wpk_scan (live_pid pid) (fun i p => release (LProc i);; mret (Some (state_code (p_state p))))); [done..| |done].
  intros i p Hf Hp Ht. apply wpk_locked_skip; [done..|]. eexists. split; [done|]. by eapply Hyes.
Qed.

End procs.

(** * One pass of the scheduler *)

Lemma wpk_release_idle {A} rely l s (k : KM A) (Q : A -> kst -> Prop) :
  k_locks s = {[l := c_id (k_cpu s)]} -> c_noff (k_cpu s) = 1 -> c_sie (k_cpu s) = false -> table_ok s ->
  (forall s', idle s' -> k_procs s' = k_procs s -> k_mutex s' = k_mutex s -> wpk rely k s' Q) ->
  wpk rely (release l;; k) s Q.
Proof.
  intros Hl Hn Hs Ht HQ. apply wpk_bind, wpk_release; [|done|lia|].
  - rewrite Hl. apply lookup_singleton_eq.
  - apply HQ; kproj; [|done..]. unfold idle, table_ok. kproj. rewrite Hl, delete_singleton_eq. simpl. by rewrite Hn.
Qed.

Lemma wpk_pass_run {A} i p s (K : bool -> KM A) (Q : A -> kst -> Prop) :
  idle s -> k_procs s !! i = Some p -> p_frozen p = 0 ->
  (forall s', idle s' -> wpk scheduling (K true) s' Q) ->
  wpk scheduling (found ← (upd_proc i (set_pstate RUNNING);;
      modify (fun s => set_cpu (set_cproc (Some i) (k_cpu s)) s);;
      swtch;;
      modify (fun s => set_cpu (set_cproc None (k_cpu s)) s);;
      mret true);
    release (LProc i);; K found) (lock_on (LProc i) s) Q.
Proof.
  intros (Hn & Hl & Ht) Hp Hf HQ.
  apply wpk_bind, wpk_bind. eapply wpk_upd_proc; [by kproj|]. apply wpk_bind, wpk_modify, wpk_bind.
  assert (i < length (k_procs s))%nat as Hi by by eapply lookup_lt_Some.
  apply wpk_swtch.
  - exists i, (set_pstate RUNNING p). split.
    + unfold at_switch, table_ok. kproj. rewrite length_insert, Hl. simpl. rewrite Hn. done.
    + kproj. split; [by apply list_lookup_insert_eq|done].
  - intros s' (j & Hj & Hs'). assert (j = i) as ->.
    { destruct Hj as [Hj _]. cbn in Hj. congruence. }
    pose proof Hs' as (Hp' & Hl' & Hn' & Hsie & Ht').
    apply wpk_bind, wpk_modify, wpk_ret, wpk_release_idle; auto.
Qed.

Lemma wpk_scheduler_pass todo found s :
  idle s -> Forall (fun i => (i < NPROC)%nat) todo ->
  wpk scheduling (scheduler_pass todo found) s (fun _ s' => idle s').
Proof.
  intros Hs Htodo. revert found s Hs. induction Htodo as [|i todo Hi _ IH]; intros found s Hs; simpl.
  { by apply wpk_ret. }
  pose proof Hs as (Hn & Hl & Ht).
  destruct (lookup_lt_is_Some_2 (k_procs s) i) as [p Hp]; [by rewrite Ht|].
  apply wpk_bind, wpk_acquire; [by rewrite Hl|]. apply wpk_bind. eapply wpk_get_proc; [by kproj|].
  destruct (bool_decide (p_state p = RUNNABLE) && (p_frozen p =? 0)) eqn:Et.
  - apply andb_true_iff in Et as [_ Hf]. apply Z.eqb_eq in Hf.
    eapply (wpk_pass_run i p s (scheduler_pass todo)); [done..|]. intros s'. apply IH.
  - apply wpk_bind, wpk_ret, wpk_release_idle; kproj; simpl; [by rewrite Hl|by rewrite Hn|done|done|auto].
Qed.
