(* ===== verification/XvSignalClaims.v ===== *)
(** The calls that act on a process by its pid (kill, freeze, thaw, signal_send,
    getprocstate) against a map from pids to what they show and change; and the
    scheduler, which runs no frozen process. *)

From S2P Require Import Prelude XvMem XvKernel XvMsg XvSched XvSchedProofs XvVm XvExample.

(** * Processes by pid *)

(** What the calls see of a process: state, killed, frozen. *)
Definition view (p : proc) : procstate * Z * Z := (p_state p, p_killed p, p_frozen p).

Definition entry (p : proc) : option (Z * (procstate * Z * Z)) :=
  if bool_decide (p_state p = UNUSED) then None else Some (p_pid p, view p).

Definition live (s : kst) : gmap Z (procstate * Z * Z) := list_to_map (omap entry (k_procs s)).

(** A slot has pid 0 exactly when it is free, and pids are not shared. *)
Definition pids_ok (s : kst) : Prop :=
  (forall i p, k_procs s !! i = Some p -> 0 <= p_pid p /\ (p_state p = UNUSED <-> p_pid p = 0)) /\
  (forall i j p q, k_procs s !! i = Some p -> k_procs s !! j = Some q ->
     p_pid p = p_pid q -> p_pid p <> 0 -> i = j).

Inductive pid_call := PKill | PFreeze | PThaw | PState | PSignal (sig : Z).

Definition pid_code (c : pid_call) : KM Z :=
  match c with
  | PKill => sys_kill
  | PFreeze => sys_freeze
  | PThaw => sys_thaw
  | PState => sys_getprocstate
  | PSignal _ => sys_signal_send
  end.

Definition pid_args (c : pid_call) (pid : Z) : list Z :=
  match c with PSignal sig => [pid; sig] | _ => [pid] end.

Definition kill_view (v : procstate * Z * Z) : procstate * Z * Z :=
  (if bool_decide (v.1.1 = SLEEPING) then RUNNABLE else v.1.1, 1, 0).

(** The result for a process with view [v] and its new view; [None]: no such call. *)
Definition pid_spec (c : pid_call) (v : procstate * Z * Z) : option (Z * (procstate * Z * Z)) :=
  match c with
  | PKill => Some (0, kill_view v)
  | PFreeze => Some (0, (v.1.1, v.1.2, 1))
  | PThaw => Some (0, (v.1.1, v.1.2, 0))
  | PState => Some (state_code v.1.1, v)
  | PSignal sig =>
      if i32 sig =? 1 then Some (0, kill_view v)
      else if i32 sig =? 2 then Some (0, (v.1.1, v.1.2, 1))
      else if i32 sig =? 3 then Some (0, (v.1.1, v.1.2, 0))
      else None
  end.

(** The result and the new map of a call on [pid]. *)
Definition pid_result (c : pid_call) (pid : Z) (m : gmap Z (procstate * Z * Z)) :
    Z * gmap Z (procstate * Z * Z) :=
  match m !! pid ≫= pid_spec c with
  | Some (r, v) => (r, <[pid := v]> m)
  | None => (-1, m)
  end.

(** * The map of live processes *)

Lemma entry_Some p q v : entry p = Some (q, v) <-> p_pid p = q /\ p_state p <> UNUSED /\ v = view p.
Proof. unfold entry. case_bool_decide; naive_solver. Qed.

Lemma live_keys s : pids_ok s -> NoDup (omap entry (k_procs s)).*1.
Proof.
  intros [Hz Hu]. revert Hz Hu. generalize (k_procs s). clear s.
  induction l as [|p l IH]; intros Hz Hu; simpl; [constructor|].
  assert (NoDup (omap entry l).*1) as Hl.
  { apply IH; [intros i; apply (Hz (S i))|].
    intros i j a b Hi Hj E Hne. assert (S i = S j); [|congruence]. by eapply (Hu (S i) (S j)). }
  destruct (entry p) as [[q v]|] eqn:He; [|done]. simpl. constructor; [|done].
  intros Hin. apply list_elem_of_fmap in Hin as ([q' v'] & Eq & Hin). simpl in Eq. subst q'.
  apply list_elem_of_omap in Hin as (p' & Hp' & He').
  apply entry_Some in He as (Hq & Hs & ->), He' as (Hq' & Hs' & _).
  apply list_elem_of_lookup in Hp' as [j Hj].
  assert (p_pid p <> 0) as Hne by (intros E; by apply (Hz 0%nat p) in E).
  discriminate (Hu 0%nat (S j) p p' eq_refl Hj ltac:(congruence) Hne).
Qed.

Lemma live_lookup s q v :
  pids_ok s -> live s !! q = Some v <->
  exists i p, k_procs s !! i = Some p /\ p_pid p = q /\ p_state p <> UNUSED /\ v = view p.
Proof.
  intros Hok. unfold live. rewrite <- elem_of_list_to_map by by apply live_keys.
  rewrite list_elem_of_omap. setoid_rewrite entry_Some. split.
  - intros (p & Hp & Hq). apply list_elem_of_lookup in Hp as [i Hi]. by exists i, p.
  - intros (i & p & Hi & Hq). exists p. split; [by eapply list_elem_of_lookup_2|done].
Qed.

Lemma pids_ok_upd s i p p' :
  pids_ok s -> k_procs s !! i = Some p -> p_pid p' = p_pid p ->
  (p_state p' = UNUSED <-> p_state p = UNUSED) -> pids_ok (set_procs (<[i := p']> (k_procs s)) s).
Proof.
  intros [Hz Hu] Hp Hpid Hst.
  assert (forall j q, <[i := p']> (k_procs s) !! j = Some q ->
    exists q0, k_procs s !! j = Some q0 /\ p_pid q = p_pid q0 /\ (p_state q = UNUSED <-> p_state q0 = UNUSED)) as H.
  { intros j q Hq. apply list_lookup_insert_Some in Hq as [(-> & <- & _)|[_ Hq]]; eauto. }
  split; kproj.
  - intros j q Hq. destruct (H j q Hq) as (q0 & H0 & -> & ->). by apply (Hz j).
  - intros j k q r Hq Hr E Hne. destruct (H j q Hq) as (q0 & H0 & Eq & _), (H k r Hr) as (r0 & H1 & Er & _).
    eapply Hu; [exact H0|exact H1|congruence|congruence].
Qed.

Lemma live_upd s i p p' :
  pids_ok s -> k_procs s !! i = Some p -> p_pid p' = p_pid p -> p_state p <> UNUSED -> p_state p' <> UNUSED ->
  live (set_procs (<[i := p']> (k_procs s)) s) = <[p_pid p := view p']> (live s).
Proof.
  intros Hok Hp Hpid Hs Hs'. apply map_eq. intros q. apply option_eq. intros v.
  assert (pids_ok (set_procs (<[i := p']> (k_procs s)) s)) as Hok' by (eapply pids_ok_upd; naive_solver).
  assert (i < length (k_procs s))%nat as Hi by by eapply lookup_lt_Some.
  destruct Hok as [Hz Hu]. rewrite live_lookup by done. kproj.
  destruct (decide (q = p_pid p)) as [->|Hne].
  - rewrite lookup_insert_eq. split.
    + intros (j & p1 & Hj & Hpj & _ & ->). apply list_lookup_insert_Some in Hj as [(-> & <- & _)|[Hne Hj]]; [done|].
      destruct Hne. eapply Hu; [done..|]. intros E. by apply (Hz i) in E.
    + intros [= <-]. exists i, p'. by rewrite list_lookup_insert_eq.
  - rewrite lookup_insert_ne, live_lookup by done. split; intros (j & p1 & Hj & Hpj & Hsj & ->); exists j, p1.
    + apply list_lookup_insert_Some in Hj as [(-> & <- & _)|[_ Hj]]; [congruence|done].
    + rewrite list_lookup_insert_ne; [done|]. intros <-. congruence.
Qed.

Lemma live_found (test : proc -> bool) s pid :
  pids_ok s -> pid <> 0 -> (forall p, test p = true -> p_pid p = pid) ->
  (forall p, p_pid p = pid -> p_state p <> UNUSED -> test p = true) ->
  match find_index test (k_procs s) with
  | Some i => exists p, k_procs s !! i = Some p /\ p_pid p = pid /\ p_state p <> UNUSED
  | None => live s !! pid = None
  end.
Proof.
  intros Hok Hne Ht1 Ht2. destruct (find_index test (k_procs s)) as [i|] eqn:Hf.
  - apply find_index_Some in Hf as (p & Hp & Htp & _). apply Ht1 in Htp.
    exists p. do 2 (split; [done|]). intros E. apply (proj1 Hok i p Hp) in E. congruence.
  - apply find_index_None in Hf. apply eq_None_not_Some. intros [v Hv].
    apply live_lookup in Hv as (i & p & Hp & Hpid & Hs & _); [|done].
    pose proof (Forall_lookup_1 _ _ i p Hf Hp) as Hfalse. simpl in Hfalse.
    rewrite Ht2 in Hfalse; congruence.
Qed.

(** * The calls *)

Section calls.
Context {rely : protocol}.

(** What a call may assume of the machine. *)
Definition pid_ctx (i : nat) (c : pid_call) (pid : Z) (s : kst) : Prop :=
  calling i (pid_args c pid) s /\ table_ok s /\ unlocked s /\ pids_ok s.

(** The specification in terms of the first matching slot. *)
Definition pid_post (c : pid_call) (pid : Z) (s : kst) (r : Z) (s' : kst) : Prop :=
  (r, live s') = pid_result c pid (live s) /\ pids_ok s' /\ s' = set_procs (k_procs s') s /\
  (forall j q, k_procs s !! j = Some q -> p_pid q <> pid -> k_procs s' !! j = Some q).

Lemma pid_post_hit c pid s i p p' r v :
  pids_ok s -> k_procs s !! i = Some p -> p_pid p = pid -> p_state p <> UNUSED ->
  p_pid p' = pid -> p_state p' <> UNUSED -> pid_spec c (view p) = Some (r, v) -> v = view p' ->
  pid_post c pid s r (set_procs (<[i := p']> (k_procs s)) s).
Proof.
  intros Hok Hp Hpid Hs Hpid' Hs' Hc ->.
  assert (live s !! pid = Some (view p)) as Hv by (apply live_lookup; [done|]; by exists i, p).
  unfold pid_post, pid_result. rewrite Hv. simpl. rewrite Hc. split; [|split; [|split]].
  - f_equal. rewrite (live_upd s i p p') by (done || congruence). by rewrite Hpid.
  - eapply pids_ok_upd; [done..|congruence|naive_solver].
  - kst_eq.
  - intros j q Hq Hne. kproj. rewrite list_lookup_insert_ne; [done|]. intros <-. congruence.
Qed.

Lemma pid_post_miss c pid s :
  pids_ok s -> live s !! pid ≫= pid_spec c = None -> pid_post c pid s (-1) s.
Proof.
  intros Hok Hn. unfold pid_post, pid_result. rewrite Hn. do 2 (split; [done|]). split; [by destruct s|done].
Qed.

Lemma live_none c pid s : live s !! pid = None -> live s !! pid ≫= pid_spec c = None.
Proof. by intros ->. Qed.

Lemma kkill_post c pid s :
  (forall v, pid_spec c v = Some (0, kill_view v)) ->
  cpu_ok (k_cpu s) -> table_ok s -> unlocked s -> pids_ok s -> pid <> 0 ->
  wpk rely (kkill pid) s (pid_post c pid s).
Proof.
  intros Hc Hok Hlen Hun Hpids Hne.
  pose proof (live_found (fun p => p_pid p =? pid) s pid Hpids Hne) as Hf.
  apply wpk_kkill; [done..| |]; intros; rewrite H in Hf.
  - destruct Hf as (p1 & Hp1 & _ & Hs); [lia..|]. assert (p1 = p) as -> by congruence.
    eapply (pid_post_hit c pid s i p); [done..| | |by apply Hc|]; unfold killing, kill_view, view; simpl; by case_bool_decide.
  - apply pid_post_miss; [done|]. apply live_none, Hf; lia.
Qed.

Lemma live_pid_true pid p : live_pid pid p = true <-> p_pid p = pid /\ p_state p <> UNUSED.
Proof. unfold live_pid. by rewrite andb_true_iff, Z.eqb_eq, negb_true_iff, bool_decide_eq_false. Qed.

Lemma set_frozen_post c z pid s :
  (forall v, pid_spec c v = Some (0, (v.1.1, v.1.2, z))) ->
  cpu_ok (k_cpu s) -> table_ok s -> unlocked s -> pids_ok s -> pid <> 0 ->
  wpk rely (r ← for_some (seq 0 NPROC) (fun i =>
    acquire (LProc i);;
    p ← get_proc i;
    if live_pid pid p then
      upd_proc i (set_pfrozen z);; release (LProc i);; mret (Some 0)
    else release (LProc i);; mret None);
  mret (default (-1) r)) s (pid_post c pid s).
Proof.
  intros Hc Hok Hlen Hun Hpids Hne.
  pose proof (live_found (live_pid pid) s pid Hpids Hne) as Hf.
  apply wpk_set_frozen; [done..| |]; intros; rewrite H in Hf.
  - apply live_pid_true in H1 as [Hpid Hs]. by eapply (pid_post_hit c pid s i p).
  - apply pid_post_miss; [done|]. apply live_none, Hf; intros q; rewrite live_pid_true; tauto.
Qed.

Lemma kgetprocstate_post pid s :
  cpu_ok (k_cpu s) -> table_ok s -> unlocked s -> pids_ok s -> pid <> 0 ->
  wpk rely (kgetprocstate pid) s (pid_post PState pid s).
Proof.
  intros Hok Hlen Hun Hpids Hne.
  pose proof (live_found (live_pid pid) s pid Hpids Hne) as Hf.
  apply wpk_kgetprocstate; [done..| |]; intros; rewrite H in Hf.
  - apply live_pid_true in H1 as [Hpid Hs]. rewrite <- (insert_same_procs i p s) at 2 by done.
    by eapply (pid_post_hit PState pid s i p).
  - apply pid_post_miss; [done|]. apply live_none, Hf; intros q; rewrite live_pid_true; tauto.
Qed.

End calls.


(** Two live processes with pids 1 and 2, the other slots free. *)
Lemma two_pids s p q u n :
  k_procs s = p :: q :: replicate n u -> p_pid p = 1 -> p_state p <> UNUSED -> p_pid q = 2 -> p_state q <> UNUSED ->
  p_pid u = 0 -> p_state u = UNUSED -> pids_ok s.
Proof.
  intros E Hp Hps Hq Hqs Hu Hus.
  assert (forall j r, k_procs s !! j = Some r ->
    (j = 0%nat /\ r = p) \/ (j = 1%nat /\ r = q) \/ r = u) as H.
  { intros j r Hr. rewrite E in Hr.
    apply lookup_cons_Some in Hr as [[-> <-]|[Hj Hr]]; [by left|].
    apply lookup_cons_Some in Hr as [[Hj' <-]|[Hj' Hr]]; [right; left; split; [lia|done]|].
    apply lookup_replicate in Hr as [-> _]. by right; right. }
  split.
  - intros j r Hr. destruct (H j r Hr) as [[_ ->]|[[_ ->]| ->]]; (split; [lia|]); split; intros; try done; lia.
  - intros j k a b Ha Hb Eab Hne. destruct (H j a Ha) as [[-> ->]|[[-> ->]| ->]],
      (H k b Hb) as [[-> ->]|[[-> ->]| ->]]; try done; lia.
Qed.

Lemma ex_pids i args : pids_ok (ex_state i args).
Proof. by eapply two_pids. Qed.


(** * Pid 0 *)

Definition is_unused (p : proc) : bool := bool_decide (p_state p = UNUSED).

(** C36: kill(0) does not fail: free slots have pid 0, so it answers 0 and marks
    the first free slot as killed, a mark that nothing clears before the slot is
    used again. *)
Theorem kill_zero_marks_free_slot rely i s j p :
  pid_ctx i PKill 0 s -> find_index is_unused (k_procs s) = Some j -> k_procs s !! j = Some p ->
  wpk rely sys_kill s (fun r s' => r = 0 /\
    s' = set_procs (<[j := set_pfrozen 0 (set_pkilled 1 p)]> (k_procs s)) s).
Proof.
  intros (Hcall & Hlen & Hun & Hpids) Hj Hp. pose proof Hcall as [Hok _].
  assert (find_index (fun p => p_pid p =? i32 0) (k_procs s) = Some j) as Hf.
  { rewrite <- Hj. apply find_index_ext. intros k q Hq. unfold is_unused.
    apply eq_true_iff_eq. rewrite Z.eqb_eq, bool_decide_eq_true. symmetry. by apply (proj1 Hpids k). }
  apply wpk_bind. eapply wpk_argint; [done|reflexivity|lia|]. apply wpk_kkill; [done..| |].
  - intros k q Hk Hq _. assert (k = j) as -> by congruence. assert (q = p) as -> by congruence.
    split; [done|]. do 2 f_equal. unfold killing. rewrite bool_decide_eq_false_2; [done|].
    apply find_index_Some in Hj as (p' & Hp' & Hu & _). unfold is_unused in Hu.
    apply bool_decide_eq_true in Hu. congruence.
  - congruence.
Qed.

Lemma kill_zero_marks_free_slot_witness :
  exists p, k_procs (ex_state 0 [0]) !! 2%nat = Some p /\
  wpk alone sys_kill (ex_state 0 [0]) (fun r s' => r = 0 /\
    s' = set_procs (<[2%nat := set_pfrozen 0 (set_pkilled 1 p)]> (k_procs (ex_state 0 [0]))) (ex_state 0 [0])).
Proof.
  eexists. split; [reflexivity|].
  apply (kill_zero_marks_free_slot alone 0 (ex_state 0 [0]) 2); [|reflexivity|reflexivity].
  split; [|split; [reflexivity|split; [|apply ex_pids]]].
  - split; [by_decide|]. split; [reflexivity|]. eexists. split; [reflexivity|]. apply prefix_app_r. reflexivity.
  - intros j. reflexivity.
Defined.

(** * The scheduler *)

(** C32: the scheduler never returns, panics or blocks, and every process it
    switches to is marked running, is not frozen, and is entered with exactly its
    own lock held, for any table the processes leave behind. *)
Theorem scheduler_skips_frozen fuel s :
  idle s -> wpk scheduling (scheduler fuel) s (fun _ _ => False).
Proof.
  intros Hs. apply wpk_bind, wpk_modify.
  assert (idle (set_cpu (set_cproc None (k_cpu s)) s)) as H.
  { by destruct Hs. }
  revert H. generalize (set_cpu (set_cproc None (k_cpu s)) s). clear s Hs.
  induction fuel as [|fuel IH]; intros s Hs; cbn [scheduler_loop]; [done|].
  apply wpk_bind, wpk_modify, wpk_bind, wpk_modify, wpk_bind.
  kmono (apply wpk_scheduler_pass).
  - by destruct Hs as (Hn & Hl & Ht).
  - apply Forall_forall. intros i Hi. apply elem_of_seq in Hi. lia.
  - intros _ s' Hs'. by apply IH.
Qed.

(** Both processes of the example are runnable, the second one frozen. *)
Definition ex_boot : kst :=
  let s := ex_state 0 [] in
  set_cpu (mk_cpu 0 None 0 false false)
    (set_procs (set_pstate RUNNABLE <$> <[1%nat := set_pfrozen 1 (ex_proc RUNNING 2 None 0 0 [])]> (k_procs s)) s).

Lemma scheduler_skips_frozen_witness :
  idle ex_boot /\ wpk scheduling (scheduler 2) ex_boot (fun _ _ => False).
Proof.
  assert (idle ex_boot) as H by done.
  split; [exact H|]. apply (scheduler_skips_frozen 2 ex_boot). exact H.
Defined.
