(* ===== verification/XvSegments.v ===== *)
(** Kernel code between two context switches.  [wps G R s0 r Q]: each stretch of
    the code, from the state [s0] in which it was resumed to the state in which it
    switches away, satisfies the guarantee [G]; it is resumed in states that the
    rely condition [R] allows; when it returns, [Q] relates the start of the last
    stretch, the result and the state.  The specification of [sleep] is given in
    these terms.  [wpx] is the general form, in which a value [x] records what the
    stretches before did: [next x s0 s] is the record after the stretch from [s0]
    to [s].  [lasts n r] says that code which follows a wait through a number of
    wakeups does not give up in its first [n] waits. *)

From S2P Require Import Prelude XvMem XvKernel XvMsg XvSched XvSchedProofs.

Fixpoint wpx {A X} (next : X -> kst -> kst -> X) (G : X -> kst -> kst -> Prop) (R : kst -> kst -> Prop)
    (x : X) (s0 : kst) (r : kres A) (Q : X -> kst -> A -> kst -> Prop) : Prop :=
  match r with
  | KDone a s => Q x s0 a s
  | KPanic _ => False
  | KStuck Asleep => True
  | KStuck _ => False
  | KSwitch s k => G x s0 s /\ forall s', R s s' -> wpx next G R (next x s0 s) s' (k s') Q
  end.

Definition wps {A} (G R : kst -> kst -> Prop) (s0 : kst) (r : kres A) (Q : kst -> A -> kst -> Prop) : Prop :=
  wpx (fun _ _ _ => tt) (fun _ => G) R tt s0 r (fun _ => Q).

Fixpoint lasts {A} (n : nat) (r : kres A) {struct r} : Prop :=
  match r with
  | KStuck Asleep => False
  | KSwitch s k => match n with O => True | S n' => forall s', lasts n' (k s') end
  | _ => True
  end.

(** Code that does not switch. *)
Definition quiet : protocol := mk_protocol true (fun _ => False) (fun _ _ => True).

(** The only lock held is [l], by the CPU that runs process [i]. *)
Definition with_lock (l : lockid) (i : nat) (s : kst) : Prop :=
  c_proc (k_cpu s) = Some i /\ k_locks s = {[l := c_id (k_cpu s)]} /\
  c_noff (k_cpu s) = 1 /\ c_sie (k_cpu s) = false /\ table_ok s.

(** Process [i] runs in the kernel and holds no lock. *)
Definition entered (i : nat) (s : kst) : Prop :=
  c_proc (k_cpu s) = Some i /\ cpu_ok (k_cpu s) /\ idle s.

(** The states differ in CPU, locks and process table only. *)
Definition same_rest (s s' : kst) : Prop :=
  s' = set_cpu (k_cpu s') (set_locks (k_locks s') (set_procs (k_procs s') s)).

(** * Rules *)

Section rules.
Context {X : Type} (next : X -> kst -> kst -> X) (G : X -> kst -> kst -> Prop) (R : kst -> kst -> Prop).

Notation W := (wpx next G R).

Lemma wpx_mono {A} x s0 (r : kres A) (Q Q' : X -> kst -> A -> kst -> Prop) :
  W x s0 r Q -> (forall x s a s', Q x s a s' -> Q' x s a s') -> W x s0 r Q'.
Proof.
  intros H HQ. revert x s0 H. induction r as [a s|m|[]|s k IH]; intros x s0; simpl; auto.
  intros [? ?]. auto.
Qed.

Lemma wpx_bind {A B} x s0 (f : A -> KM B) (r : kres A) Q :
  W x s0 r (fun x1 s1 a s => W x1 s1 (f a s) Q) -> W x s0 (kbind f r) Q.
Proof. revert x s0. induction r as [a s|m|[]|s k IH]; intros x s0; simpl; auto. intros [? ?]. auto. Qed.

Lemma wpx_quiet {A} x s0 (m : KM A) s Q :
  wpk quiet m s (fun a s' => Q x s0 a s') -> W x s0 (m s) Q.
Proof. unfold wpk. destruct (m s) as [| |[]|]; simpl; naive_solver. Qed.

(** A step without a switch. *)
Lemma wpx_step {A B} x s0 (m : KM A) (f : A -> KM B) s Q :
  wpk quiet m s (fun a s' => W x s0 (f a s') Q) -> W x s0 ((m ≫= f) s) Q.
Proof. intros H. apply wpx_bind. by apply wpx_quiet. Qed.

Lemma wpx_seq {A B} x s0 (m : KM A) (f : A -> KM B) s Q :
  W x s0 (m s) (fun x1 s1 a s => W x1 s1 (f a s) Q) -> W x s0 ((m ≫= f) s) Q.
Proof. apply wpx_bind. Qed.

End rules.

(** The same without a record. *)
Section plain_rules.
Context (G R : kst -> kst -> Prop).

Lemma wps_mono {A} s0 (r : kres A) (Q Q' : kst -> A -> kst -> Prop) :
  wps G R s0 r Q -> (forall s a s', Q s a s' -> Q' s a s') -> wps G R s0 r Q'.
Proof. intros H HQ. eapply wpx_mono; [exact H|]. auto. Qed.

Lemma wps_bind {A B} s0 (f : A -> KM B) (r : kres A) Q :
  wps G R s0 r (fun s1 a s => wps G R s1 (f a s) Q) -> wps G R s0 (kbind f r) Q.
Proof. intros H. apply wpx_bind. eapply wpx_mono; [exact H|]. by intros []. Qed.

Lemma wps_quiet {A} s0 (m : KM A) s Q :
  wpk quiet m s (fun a s' => Q s0 a s') -> wps G R s0 (m s) Q.
Proof. apply (wpx_quiet (fun _ _ _ => tt) (fun _ => G) R tt s0 m s (fun _ => Q)). Qed.

Lemma wps_step {A B} s0 (m : KM A) (f : A -> KM B) s Q :
  wpk quiet m s (fun a s' => wps G R s0 (f a s') Q) -> wps G R s0 ((m ≫= f) s) Q.
Proof. intros H. apply wps_bind. by apply wps_quiet. Qed.

Lemma wps_seq {A B} s0 (m : KM A) (f : A -> KM B) s Q :
  wps G R s0 (m s) (fun s1 a s => wps G R s1 (f a s) Q) -> wps G R s0 ((m ≫= f) s) Q.
Proof. apply wps_bind. Qed.

Lemma wps_swtch {A} s0 s (f : unit -> KM A) Q :
  G s0 s -> (forall s', R s s' -> wps G R s' (f tt s') Q) -> wps G R s0 ((swtch ≫= f) s) Q.
Proof. done. Qed.

End plain_rules.

(** ** Giving up *)

(** Code that does not give up at all. *)
Definition calm {A} (m : KM A) : Prop := forall s n, lasts n (m s).

Lemma lasts_le {A} n n' (r : kres A) : (n' <= n)%nat -> lasts n r -> lasts n' r.
Proof.
  revert n n'. induction r as [a s|m|[]|s k IH]; intros n n' Hle; simpl; auto.
  destruct n'; [done|]. destruct n; [lia|]. intros H s'. eapply (IH s' n); [lia|apply H].
Qed.

Lemma lasts_bind {A B} n (f : A -> KM B) (r : kres A) :
  lasts n r -> (forall a s, lasts n (f a s)) -> lasts n (kbind f r).
Proof.
  revert n. induction r as [a s|m|[]|s k IH]; intros n Hr Hf; simpl in *; auto.
  destruct n; [done|]. intros s'. apply IH; [apply Hr|]. intros a s1. eapply lasts_le; [|apply Hf]. lia.
Qed.

Lemma lasts_seq {A B} n (m : KM A) (f : A -> KM B) s :
  calm m -> (forall a s, lasts n (f a s)) -> lasts n ((m ≫= f) s).
Proof. intros Hm Hf. apply lasts_bind; [apply Hm|done]. Qed.

Lemma calm_bind {A B} (m : KM A) (f : A -> KM B) : calm m -> (forall a, calm (f a)) -> calm (m ≫= f).
Proof. intros Hm Hf s n. apply lasts_seq; [done|]. intros a s'. apply Hf. Qed.

Lemma calm_ret {A} (a : A) : calm (mret a).
Proof. by intros s n. Qed.

Lemma calm_gets {A} (f : kst -> A) : calm (gets f).
Proof. by intros s n. Qed.

Lemma calm_modify f : calm (modify f).
Proof. by intros s n. Qed.

Lemma calm_panic {A} m : calm (panic m : KM A).
Proof. by intros s n. Qed.

Lemma calm_stuck {A} w : w <> Asleep -> calm (kstuck w : KM A).
Proof. intros Hw s n. by destruct w. Qed.

Lemma calm_mem {A} (c : MM A) : calm (on_mem c).
Proof. intros s n. unfold on_mem. by destruct (c (k_mem s)). Qed.

Lemma calm_swtch : calm swtch.
Proof. intros s [|n]; [done|]. by intros s'. Qed.

Lemma calm_each {Y} (l : list Y) f : (forall y, calm (f y)) -> calm (for_each l f).
Proof. intros Hf. induction l as [|y l IH]; simpl; [apply calm_ret|]. by apply calm_bind. Qed.

Create HintDb calm.
#[export] Hint Resolve calm_ret calm_gets calm_modify calm_panic calm_mem calm_swtch : calm.

(** Steps through code that does not give up. *)
Ltac calm_tac := repeat first
  [ progress eauto with calm
  | apply calm_bind; [|intros ?]
  | apply calm_each; intros ?
  | apply calm_stuck; discriminate
  | match goal with |- calm (match ?x with _ => _ end) => destruct x end ].

Lemma calm_acquire l : calm (acquire l).
Proof. unfold acquire, push_off, holding, intr_get, intr_off, mycpu, test_and_set. calm_tac. Qed.

Lemma calm_release l : calm (release l).
Proof. unfold release, pop_off, holding, intr_get, intr_on, mycpu. calm_tac. Qed.

Lemma calm_myproc : calm myproc.
Proof. unfold myproc, push_off, pop_off, intr_get, intr_off, intr_on, mycpu. calm_tac. Qed.

Lemma calm_get_proc i : calm (get_proc i).
Proof. unfold get_proc. calm_tac. Qed.

Lemma calm_upd_proc i f : calm (upd_proc i f).
Proof. unfold upd_proc, get_proc. calm_tac. Qed.

#[export] Hint Resolve calm_acquire calm_release calm_myproc calm_get_proc calm_upd_proc : calm.

Lemma calm_sched : calm sched.
Proof. unfold sched, holding, mycpu, intr_get. calm_tac. Qed.

Lemma calm_wakeup ch : calm (wakeup ch).
Proof. unfold wakeup, myproc_ptr, push_off, pop_off, intr_get, intr_off, intr_on, mycpu. calm_tac. Qed.

Lemma calm_killed i : calm (killed i).
Proof. unfold killed. calm_tac. Qed.

#[export] Hint Resolve calm_sched calm_wakeup calm_killed : calm.

(** * Locks *)

Lemma same_rest_refl s : same_rest s s.
Proof. by destruct s. Qed.

Lemma same_rest_trans s s1 s2 : same_rest s s1 -> same_rest s1 s2 -> same_rest s s2.
Proof. unfold same_rest. intros H1 H2. rewrite H2, H1. by destruct s, s1, s2. Qed.

Lemma with_lock_cpu l i s : with_lock l i s -> cpu_ok (k_cpu s).
Proof. intros (_ & _ & Hn & Hs & _). unfold cpu_ok. rewrite Hn. split; [lia|]. split; [done|lia]. Qed.

Section locks.
Context {rely : protocol}.

Lemma wpk_mycpu s (Q : cpu -> kst -> Prop) : Q (k_cpu s) s -> wpk rely mycpu s Q.
Proof. done. Qed.

Lemma wpk_intr_get s (Q : bool -> kst -> Prop) : Q (c_sie (k_cpu s)) s -> wpk rely intr_get s Q.
Proof. done. Qed.

Lemma wpk_enter l i s (Q : unit -> kst -> Prop) :
  entered i s ->
  (forall s', with_lock l i s' -> k_procs s' = k_procs s -> same_rest s s' -> Q tt s') ->
  wpk rely (acquire l) s Q.
Proof.
  intros (Hp & Hok & Hn & Hl & Ht) HQ. apply wpk_acquire; [by rewrite Hl|]. apply HQ.
  - unfold with_lock, table_ok. kproj. rewrite Hl. simpl. by rewrite Hn.
  - by kproj.
  - unfold same_rest. kst_eq.
Qed.

Lemma wpk_leave l i s (Q : unit -> kst -> Prop) :
  with_lock l i s ->
  (forall s', entered i s' -> k_procs s' = k_procs s -> same_rest s s' -> Q tt s') ->
  wpk rely (release l) s Q.
Proof.
  intros (Hp & Hl & Hn & Hs & Ht) HQ. apply wpk_release; [rewrite Hl; apply lookup_singleton_eq|done|lia|].
  apply HQ.
  - unfold entered, idle, table_ok. kproj. rewrite Hl, delete_singleton_eq.
    destruct (k_cpu s) as [id pr noff ie sie]; simpl in *. subst. unfold cpu_ok, cpu_on. simpl.
    split; [done|]. split; [|done]. split; [lia|]. split; [lia|]. by destruct ie.
  - by kproj.
  - unfold same_rest. kst_eq.
Qed.

End locks.

(** * sched, sleep and yield *)

Section sleep.
Context {X : Type} (next : X -> kst -> kst -> X) (G : X -> kst -> kst -> Prop) (R : kst -> kst -> Prop).

Notation W := (wpx next G R).

(** [sched] passes its checks; the code resumes where the scheduler switches back. *)
Lemma wpx_sched {A} i p x s0 s (f : unit -> KM A) Q :
  with_lock (LProc i) i s -> k_procs s !! i = Some p -> p_state p <> RUNNING ->
  G x s0 s ->
  (forall s', R s s' -> with_lock (LProc i) i s' /\
     forall s2, with_lock (LProc i) i s2 -> k_procs s2 = k_procs s' -> same_rest s' s2 ->
       W (next x s0 s) s' (f tt s2) Q) ->
  W x s0 ((sched ≫= f) s) Q.
Proof.
  intros Hw Hp Hst HG HR. pose proof (with_lock_cpu _ _ _ Hw) as Hok. pose proof Hw as (Hc & Hl & Hn & Hs & Ht).
  apply wpx_seq. unfold sched. apply wpx_step. eapply wpk_myproc; [done..|].
  apply wpx_step, wpk_gets. rewrite bool_decide_eq_true_2 by (rewrite Hl; apply lookup_singleton_eq). cbn [negb].
  apply wpx_step, wpk_mycpu. rewrite Hn. change (negb (1 =? 1)) with false. cbv iota.
  apply wpx_step. eapply wpk_get_proc; [done|]. rewrite bool_decide_eq_false_2 by done.
  apply wpx_step, wpk_intr_get. rewrite Hs. apply wpx_step, wpk_mycpu. split; [done|].
  intros s' Hr. destruct (HR s' Hr) as [Hw' Hk]. apply Hk; [| |].
  - destruct Hw' as (Hc' & Hl' & Hn' & Hs' & Ht'). unfold with_lock, table_ok. kproj. by simpl.
  - by kproj.
  - unfold same_rest. kst_eq.
Qed.

(** Exchanging the lock [lk] for the lock of the process. *)
Lemma wpx_swap_lock {A} i lk x s0 s (k : KM A) Q :
  with_lock lk i s -> lk <> LProc i ->
  (forall s', with_lock (LProc i) i s' -> k_procs s' = k_procs s -> same_rest s s' -> W x s0 (k s') Q) ->
  W x s0 ((acquire (LProc i);; release lk;; k) s) Q.
Proof.
  intros (Hc & Hl & Hn & Hs & Ht) Hne HQ.
  apply wpx_step, wpk_acquire; [by rewrite Hl, lookup_singleton_ne|]. apply wpx_step, wpk_release; kproj.
  - rewrite lookup_insert_ne, Hl by done. apply lookup_singleton_eq.
  - done.
  - simpl. lia.
  - apply HQ; [| |].
    + unfold with_lock, table_ok. kproj. rewrite Hl. simpl. rewrite Hn. do 2 (split; [try done|]).
      * rewrite delete_insert_ne, delete_singleton_eq by done. by rewrite insert_empty.
      * split; [done|]. split; [done|]. done.
    + by kproj.
    + unfold same_rest. kst_eq.
Qed.

Lemma with_lock_procs l i s ps :
  with_lock l i s -> length ps = length (k_procs s) -> with_lock l i (set_procs ps s).
Proof. intros (H1 & H2 & H3 & H4 & H5) Hlen. unfold with_lock, table_ok. kproj. by rewrite Hlen. Qed.

Lemma wpx_sleep {A} i p ch lk x s0 s (f : unit -> KM A) Q :
  with_lock lk i s -> lk <> LProc i -> k_procs s !! i = Some p ->
  (forall s1, with_lock (LProc i) i s1 ->
     k_procs s1 = <[i := set_pstate SLEEPING (set_pchan (Some ch) p)]> (k_procs s) -> same_rest s s1 ->
     G x s0 s1 /\ forall s', R s1 s' -> with_lock (LProc i) i s' /\ exists p', k_procs s' !! i = Some p' /\
       forall s2, with_lock lk i s2 -> k_procs s2 = <[i := set_pchan None p']> (k_procs s') ->
         same_rest s' s2 -> W (next x s0 s1) s' (f tt s2) Q) ->
  W x s0 ((sleep ch lk ≫= f) s) Q.
Proof.
  intros Hw Hne Hp H. assert (i < length (k_procs s))%nat as Hi by by eapply lookup_lt_Some.
  apply wpx_seq. unfold sleep. apply wpx_step. eapply wpk_myproc; [by destruct Hw|by eapply with_lock_cpu|].
  apply wpx_swap_lock; [done..|]. intros s1 Hw1 Hp1 Hr1.
  apply wpx_step. eapply wpk_upd_proc; [by rewrite Hp1|]. rewrite Hp1.
  apply wpx_step. eapply wpk_upd_proc; [kproj; by apply list_lookup_insert_eq|].
  kproj. rewrite list_insert_insert_eq. set (s2 := set_procs _ _).
  assert (with_lock (LProc i) i s2) as Hw2.
  { subst s2. apply with_lock_procs; [apply with_lock_procs; [done|]|]; kproj; by rewrite ?length_insert, ?Hp1. }
  destruct (H s2) as [HG HR]; [done|by kproj| |].
  { eapply same_rest_trans; [exact Hr1|]. subst s2. unfold same_rest. kst_eq. }
  eapply wpx_sched; [exact Hw2|subst s2; kproj; by apply list_lookup_insert_eq|done|exact HG|].
  intros s' Hs'. destruct (HR s' Hs') as (Hw' & p' & Hp' & Hk). split; [done|]. intros s3 Hw3 Hp3 Hr3.
  apply wpx_step. eapply wpk_upd_proc; [by rewrite Hp3|]. rewrite Hp3.
  apply wpx_step. eapply wpk_leave; [by apply with_lock_procs; [|rewrite length_insert, Hp3]|].
  intros s4 He4 Hp4 Hr4. apply wpx_quiet. eapply wpk_enter; [done|]. intros s5 Hw5 Hp5 Hr5.
  apply Hk; [done|rewrite Hp5, Hp4; by kproj|].
  eapply same_rest_trans; [exact Hr3|]. eapply same_rest_trans; [|exact Hr5].
  eapply same_rest_trans; [|exact Hr4]. unfold same_rest. kst_eq.
Qed.

(** [yield], from a state without locks. *)
Lemma wpx_yield i p x s0 s (Q : X -> kst -> unit -> kst -> Prop) :
  entered i s -> k_procs s !! i = Some p ->
  (forall s1, with_lock (LProc i) i s1 -> k_procs s1 = <[i := set_pstate RUNNABLE p]> (k_procs s) ->
     same_rest s s1 ->
     G x s0 s1 /\ forall s', R s1 s' -> with_lock (LProc i) i s' /\
       forall s2, entered i s2 -> k_procs s2 = k_procs s' -> same_rest s' s2 -> Q (next x s0 s1) s' tt s2) ->
  W x s0 (yield s) Q.
Proof.
  intros He Hp H. assert (i < length (k_procs s))%nat as Hi by by eapply lookup_lt_Some.
  unfold yield. apply wpx_step. destruct He as (Hc & Hok & Hidle).
  eapply wpk_myproc; [done..|]. apply wpx_step. eapply wpk_enter; [done|]. intros s1 Hw1 Hp1 Hr1.
  apply wpx_step. eapply wpk_upd_proc; [by rewrite Hp1|]. rewrite Hp1.
  set (s2 := set_procs _ _). assert (with_lock (LProc i) i s2) as Hw2.
  { apply with_lock_procs; [done|]. by rewrite length_insert, Hp1. }
  destruct (H s2) as [HG HR]; [done|by subst s2; kproj| |].
  { eapply same_rest_trans; [exact Hr1|]. subst s2. unfold same_rest. kst_eq. }
  eapply wpx_sched; [exact Hw2|subst s2; kproj; by apply list_lookup_insert_eq|done|exact HG|].
  intros s' Hs'. destruct (HR s' Hs') as (Hw' & Hk). split; [done|]. intros s3 Hw3 Hp3 Hr3.
  apply wpx_quiet. eapply wpk_leave; [done|]. intros s4 He4 Hp4 Hr4.
  apply Hk; [done|by rewrite Hp4|by eapply same_rest_trans].
Qed.

End sleep.

Section plain_sleep.
Context (G R : kst -> kst -> Prop).

Lemma wps_sleep {A} i p ch lk s0 s (f : unit -> KM A) Q :
  with_lock lk i s -> lk <> LProc i -> k_procs s !! i = Some p ->
  (forall s1, with_lock (LProc i) i s1 ->
     k_procs s1 = <[i := set_pstate SLEEPING (set_pchan (Some ch) p)]> (k_procs s) -> same_rest s s1 ->
     G s0 s1 /\ forall s', R s1 s' -> with_lock (LProc i) i s' /\ exists p', k_procs s' !! i = Some p' /\
       forall s2, with_lock lk i s2 -> k_procs s2 = <[i := set_pchan None p']> (k_procs s') ->
         same_rest s' s2 -> wps G R s' (f tt s2) Q) ->
  wps G R s0 ((sleep ch lk ≫= f) s) Q.
Proof. apply (wpx_sleep (fun _ _ _ => tt) (fun _ => G) R i p ch lk tt s0 s f (fun _ => Q)). Qed.

Lemma wps_yield i p s0 s (Q : kst -> unit -> kst -> Prop) :
  entered i s -> k_procs s !! i = Some p ->
  (forall s1, with_lock (LProc i) i s1 -> k_procs s1 = <[i := set_pstate RUNNABLE p]> (k_procs s) ->
     same_rest s s1 ->
     G s0 s1 /\ forall s', R s1 s' -> with_lock (LProc i) i s' /\
       forall s2, entered i s2 -> k_procs s2 = k_procs s' -> same_rest s' s2 -> Q s' tt s2) ->
  wps G R s0 (yield s) Q.
Proof. apply (wpx_yield (fun _ _ _ => tt) (fun _ => G) R i p tt s0 s (fun _ => Q)). Qed.

End plain_sleep.

(** Code that switches before it returns, and does not give up. *)
Definition waits {A} (r : kres A) : Prop :=
  match r with
  | KDone _ _ => False
  | _ => forall n, lasts n r
  end.

Lemma waits_lasts {A} (r : kres A) n : waits r -> lasts n r.
Proof. destruct r; [done|auto..]. Qed.

Lemma waits_bind {A B} (m : KM A) (f : A -> KM B) s :
  calm m -> (forall a s', waits (f a s')) -> waits ((m ≫= f) s).
Proof.
  intros Hm Hf. specialize (Hm s). change ((m ≫= f) s) with (kbind f (m s)).
  destruct (m s) as [a s'| | |s' k]; [apply Hf|done|exact Hm|].
  intros n. apply lasts_bind; [apply Hm|]. intros a s1. by apply waits_lasts.
Qed.

Lemma waits_then {A B} (m : KM A) (f : A -> KM B) s : waits (m s) -> (forall a, calm (f a)) -> waits ((m ≫= f) s).
Proof.
  intros Hm Hf. change ((m ≫= f) s) with (kbind f (m s)). destruct (m s) as [a s'| | |s' k]; [done|done|exact Hm|].
  intros n. apply lasts_bind; [apply Hm|]. intros a s1. apply Hf.
Qed.

Lemma waits_seq {A B} n (m : KM A) (f : A -> KM B) s :
  waits (m s) -> (forall a s', lasts (pred n) (f a s')) -> lasts n ((m ≫= f) s).
Proof.
  intros Hm Hf. change ((m ≫= f) s) with (kbind f (m s)). destruct (m s) as [a s'| |w|s' k]; [done|done|exact (Hm n)|].
  destruct n as [|n]; [done|]. simpl. intros s1. apply lasts_bind; [apply (Hm (S n))|apply Hf].
Qed.

Lemma waits_sched s : waits (sched s).
Proof.
  unfold sched. apply waits_bind; [auto with calm|intros i s1]. apply waits_bind; [apply calm_gets|intros [] s2]; [|done].
  apply waits_bind; [apply calm_gets|intros c s3]. simpl negb. destruct (negb _); [done|].
  apply waits_bind; [auto with calm|intros p s4]. destruct (bool_decide _); [done|].
  apply waits_bind; [apply calm_gets|intros [] s5]; [done|]. apply waits_bind; [apply calm_gets|intros c' s6].
  apply waits_then; [|intros; apply calm_modify]. intros [|n]; [done|]. by intros s'.
Qed.

(** Code behind [sleep] has one wait less to last. *)
Lemma lasts_sleep {A} n ch lk (f : unit -> KM A) s :
  (forall s', lasts (pred n) (f tt s')) -> lasts n ((sleep ch lk ≫= f) s).
Proof.
  intros Hf. apply waits_seq; [|intros []; exact Hf]. unfold sleep.
  do 5 (apply waits_bind; [auto with calm|intros ? ?]). apply waits_then; [apply waits_sched|].
  intros []. calm_tac.
Qed.
