(* ===== verification/XvMutex.v ===== *)
(** The kernel mutexes of kernel/sysproc.c under interleaving: what each call
    does to the table between two context switches, and the invariant that a
    process sleeps on a mutex only while the mutex is locked. *)

From S2P Require Import Prelude XvMem XvKernel XvMsg XvSched XvSchedProofs XvSignalClaims XvSegments.

Notation mtable := (list kmutex_entry).

(** * The calls and what they do to the table *)

Inductive mcall :=
  | MCreate
  | MLock (fuel : nat) (id : Z)
  | MUnlock (id : Z)
  | MTry (id : Z)
  | MOwner (id : Z)
  | MPid (c : pid_call) (pid : Z).

Definition mcode (c : mcall) : KM Z :=
  match c with
  | MCreate => sys_mutex_create
  | MLock fuel _ => sys_mutex_lock fuel
  | MUnlock _ => sys_mutex_unlock
  | MTry _ => sys_mutex_trylock
  | MOwner _ => sys_mutex_owner
  | MPid c _ => pid_code c
  end.

Definition margs (c : mcall) : list Z :=
  match c with
  | MCreate => []
  | MLock _ id | MUnlock id | MTry id | MOwner id => [id]
  | MPid c pid => pid_args c pid
  end.

Definition entry_of (id : Z) (t : mtable) : option kmutex_entry :=
  if bad_mutex (i32 id) then None
  else e ← t !! Z.to_nat (i32 id); if km_used e =? 0 then None else Some e.

Definition create_spec (t : mtable) : Z * mtable :=
  match find_index (fun e => km_used e =? 0) t with
  | Some k => (Z.of_nat k, <[k := mk_mutex 1 0 (-1)]> t)
  | None => (-1, t)
  end.

Definition try_spec (pid id : Z) (t : mtable) : Z * mtable :=
  match entry_of id t with
  | Some e => if km_locked e =? 0 then (0, <[Z.to_nat (i32 id) := mk_mutex (km_used e) 1 pid]> t) else (-1, t)
  | None => (-1, t)
  end.

Definition unlock_spec (pid id : Z) (t : mtable) : Z * mtable :=
  match entry_of id t with
  | Some e =>
      if (km_locked e =? 0) || negb (km_owner_pid e =? pid) then (-1, t)
      else (0, <[Z.to_nat (i32 id) := mk_mutex (km_used e) 0 (-1)]> t)
  | None => (-1, t)
  end.

Definition owner_spec (id : Z) (t : mtable) : Z :=
  match entry_of id t with
  | Some e => if km_locked e =? 0 then 0 else km_owner_pid e
  | None => -1
  end.

(** Result and table of a call by the process with pid [pid], seen from the last
    time it was resumed.  [mutex_lock] waits until it can do what [mutex_trylock]
    does, or gives up. *)
Definition effect (c : mcall) (pid r : Z) (t t' : mtable) : Prop :=
  match c with
  | MCreate => (r, t') = create_spec t
  | MLock _ id => (r, t') = (0, (try_spec pid id t).2) /\ (try_spec pid id t).1 = 0 \/ r = -1 /\ t' = t
  | MUnlock id => (r, t') = unlock_spec pid id t
  | MTry id => (r, t') = try_spec pid id t
  | MOwner id => r = owner_spec id t /\ t' = t
  | MPid _ _ => t' = t
  end.

(** * The invariant *)

(** A process that sleeps on a mutex waits for one that is locked. *)
Definition waits_for_locked (t : mtable) (p : proc) : Prop :=
  forall z, p_state p = SLEEPING -> p_chan p = Some (CMutex z) ->
    0 <= z /\ exists e, t !! Z.to_nat z = Some e /\ km_locked e <> 0.

Record minv (pids : list Z) (s : kst) : Prop := mk_minv {
  minv_len : length (k_mutex s) = NKMUTEX;
  minv_pids : p_pid <$> k_procs s = pids;
  minv_used : Forall (fun e => km_locked e <> 0 -> km_used e <> 0) (k_mutex s);
  minv_wait : Forall (waits_for_locked (k_mutex s)) (k_procs s);
  minv_table : pids_ok s;
}.

Definition running (i : nat) (s : kst) : Prop :=
  exists p, k_procs s !! i = Some p /\ p_state p = RUNNING.

(** What a stretch of the code of process [i] guarantees where it switches away,
    and what it relies on where it is resumed. *)
Definition guarantee (pids : list Z) (i : nat) (s0 s : kst) : Prop :=
  with_lock (LProc i) i s /\ minv pids s /\ k_mutex s = k_mutex s0 /\ ~ running i s.

Definition relies (pids : list Z) (i : nat) (s s' : kst) : Prop :=
  with_lock (LProc i) i s' /\ minv pids s' /\ running i s'.

(** Process [i] in the kernel without locks; with the lock [l]. *)
Definition outside (pids : list Z) (i : nat) (s : kst) : Prop := entered i s /\ minv pids s /\ running i s.
Definition inside (l : lockid) (pids : list Z) (i : nat) (s : kst) : Prop :=
  with_lock l i s /\ minv pids s /\ running i s.

Definition returns (c : mcall) (pids : list Z) (i : nat) (pid : Z) (s0 : kst) (r : Z) (s : kst) : Prop :=
  outside pids i s /\ effect c pid r (k_mutex s0) (k_mutex s).

(** * Lemmas *)

Lemma same_rest_mutex s s' : same_rest s s' -> k_mutex s' = k_mutex s.
Proof. by intros ->. Qed.

Lemma minv_same pids s s' :
  minv pids s -> k_mutex s' = k_mutex s -> k_procs s' = k_procs s -> minv pids s'.
Proof.
  intros [] Em Ep. constructor; rewrite ?Em, ?Ep; try done.
  unfold pids_ok. by rewrite Ep.
Qed.

Lemma waits_awake t p : p_state p <> SLEEPING -> waits_for_locked t p.
Proof. by intros H z Hz. Qed.

Lemma running_same i s s' : running i s -> k_procs s' = k_procs s -> running i s'.
Proof. unfold running. by intros H ->. Qed.

Section calls.
Context (pids : list Z) (i : nat) (pid : Z) (Hpid : pids !! i = Some pid).

Notation G := (guarantee pids i).
Notation R := (relies pids i).

Lemma inside_proc l s : inside l pids i s -> exists p, k_procs s !! i = Some p /\ p_state p = RUNNING /\ p_pid p = pid.
Proof.
  intros (_ & Hi & p & Hp & Hr). exists p. do 2 (split; [done|]).
  pose proof (minv_pids _ _ Hi) as E. apply (f_equal (.!! i)) in E.
  rewrite list_lookup_fmap, Hp, Hpid in E. by injection E.
Qed.

Lemma wps_lock {A} l s (f : unit -> KM A) Q :
  outside pids i s ->
  (forall s', inside l pids i s' -> k_mutex s' = k_mutex s -> wps G R s (f tt s') Q) ->
  wps G R s ((acquire l ≫= f) s) Q.
Proof.
  intros (He & Hi & Hr) H. apply wps_step. eapply wpk_enter; [done|]. intros s' Hw Hp Hs.
  apply H; [|by apply same_rest_mutex]. split; [done|].
  split; [by eapply minv_same; [|apply same_rest_mutex|]|by eapply running_same].
Qed.

Lemma wps_unlock {A} l s0 s (f : unit -> KM A) Q :
  inside l pids i s ->
  (forall s', outside pids i s' -> k_mutex s' = k_mutex s -> wps G R s0 (f tt s') Q) ->
  wps G R s0 ((release l ≫= f) s) Q.
Proof.
  intros (He & Hi & Hr) H. apply wps_step. eapply wpk_leave; [done|]. intros s' Hw Hp Hs.
  apply H; [|by apply same_rest_mutex]. split; [done|].
  split; [by eapply minv_same; [|apply same_rest_mutex|]|by eapply running_same].
Qed.

(** Leaving with the result [r]. *)
Lemma wps_leave c l s0 s r :
  inside l pids i s -> effect c pid r (k_mutex s0) (k_mutex s) ->
  wps G R s0 ((release l;; mret r) s) (returns c pids i pid).
Proof. intros Hs Hc. eapply wps_unlock; [done|]. intros s' Hs' E. split; [done|]. by rewrite E. Qed.

Lemma wpk_get_mutex {rely} k e s (Q : kmutex_entry -> kst -> Prop) :
  k_mutex s !! k = Some e -> Q e s -> wpk rely (get_mutex k) s Q.
Proof. intros E HQ. unfold get_mutex. apply wpk_bind, wpk_gets. by rewrite E. Qed.

Lemma wpk_put_mutex {rely} k e e' s (Q : unit -> kst -> Prop) :
  k_mutex s !! k = Some e -> Q tt (set_mutex (<[k := e']> (k_mutex s)) s) -> wpk rely (put_mutex k e') s Q.
Proof. intros E HQ. apply wpk_bind. eapply wpk_get_mutex; [done|]. by apply wpk_modify. Qed.

(** ** The table under the lock *)

Lemma inside_table l s t :
  inside l pids i s -> length t = NKMUTEX -> Forall (fun e => km_locked e <> 0 -> km_used e <> 0) t ->
  Forall (waits_for_locked t) (k_procs s) -> inside l pids i (set_mutex t s).
Proof.
  intros (Hw & [H1 H2 H3 H4 H5] & Hr) Hl Hu Hf. split; [exact Hw|]. split; [|exact Hr].
  by constructor; kproj.
Qed.

Lemma waits_take t k e u q p :
  waits_for_locked t p -> t !! k = Some e -> waits_for_locked (<[k := mk_mutex u 1 q]> t) p.
Proof.
  intros H He z Hs Hc. destruct (H z Hs Hc) as (Hz & e' & He' & Hl). split; [done|].
  destruct (decide (k = Z.to_nat z)) as [->|Hne].
  - exists (mk_mutex u 1 q). rewrite list_lookup_insert_eq by (by eapply lookup_lt_Some). by split.
  - exists e'. by rewrite list_lookup_insert_ne.
Qed.

Lemma waits_other t k e e' p :
  waits_for_locked t p -> t !! k = Some e ->
  (km_locked e = 0 \/ p_state p <> SLEEPING \/ p_chan p <> Some (CMutex (Z.of_nat k))) ->
  waits_for_locked (<[k := e']> t) p.
Proof.
  intros H He Hno z Hs Hc. destruct (H z Hs Hc) as (Hz & e1 & He1 & Hl). split; [done|].
  destruct (decide (k = Z.to_nat z)) as [->|Hne].
  - exfalso. rewrite Z2Nat.id in Hno by done. destruct Hno as [Hno|[Hno|Hno]]; congruence.
  - exists e1. by rewrite list_lookup_insert_ne.
Qed.

(** Taking a free mutex. *)
Lemma inside_take l s k e q :
  inside l pids i s -> k_mutex s !! k = Some e -> km_used e <> 0 ->
  inside l pids i (set_mutex (<[k := mk_mutex (km_used e) 1 q]> (k_mutex s)) s).
Proof.
  intros Hs He Hu. pose proof Hs as (_ & [H1 H2 H3 H4 H5] & _). apply inside_table; [done|by rewrite length_insert| |].
  - by apply Forall_insert.
  - eapply Forall_impl; [exact H4|]. intros p Hp. by eapply waits_take.
Qed.

(** Changing a mutex nobody can be waiting for. *)
Lemma inside_free l s k e e' :
  inside l pids i s -> k_mutex s !! k = Some e -> km_locked e' = 0 ->
  Forall (fun p => km_locked e = 0 \/ p_state p <> SLEEPING \/ p_chan p <> Some (CMutex (Z.of_nat k))) (k_procs s) ->
  inside l pids i (set_mutex (<[k := e']> (k_mutex s)) s).
Proof.
  intros Hs He Hu Hno. pose proof Hs as (_ & [H1 H2 H3 H4 H5] & _). apply inside_table; [done|by rewrite length_insert| |].
  - apply Forall_insert; [done|]. by intros ?.
  - apply Forall_lookup. intros j p Hp. eapply waits_other; [|done|].
    + exact (Forall_lookup_1 _ _ j p H4 Hp).
    + exact (Forall_lookup_1 _ _ j p Hno Hp).
Qed.

Lemma entry_good id (t : mtable) :
  length t = NKMUTEX -> bad_mutex (i32 id) = false -> exists e, t !! Z.to_nat (i32 id) = Some e /\ 0 <= i32 id /\
    entry_of id t = if km_used e =? 0 then None else Some e.
Proof.
  intros Hlen Hb. unfold entry_of. rewrite Hb. unfold bad_mutex in Hb. apply orb_false_iff in Hb as [Hb1 Hb2].
  apply Z.ltb_ge in Hb1. apply Z.leb_gt in Hb2.
  destruct (lookup_lt_is_Some_2 t (Z.to_nat (i32 id))) as [e He]; [rewrite Hlen; lia|].
  exists e. rewrite He. done.
Qed.

Lemma entry_bad id t : bad_mutex (i32 id) = true -> entry_of id t = None.
Proof. unfold entry_of. by intros ->. Qed.

(** ** The calls *)

Lemma wps_arg {A} args v n s0 s (f : Z -> KM A) Q :
  calling i args s -> args !! n = Some v -> (n <= 5)%nat -> wps G R s0 (f (i32 v) s) Q ->
  wps G R s0 ((argint n ≫= f) s) Q.
Proof. intros. apply wps_step. by eapply wpk_argint. Qed.

Lemma create_ok s :
  outside pids i s -> wps G R s (sys_mutex_create s) (returns MCreate pids i pid).
Proof.
  intros Hs. unfold sys_mutex_create. eapply wps_lock; [done|]. intros s1 Hs1 E1.
  pose proof Hs1 as (_ & [H1 H2 H3 H4 H5] & _).
  apply wps_seq. apply wps_quiet. rewrite <- H1.
  apply (wpk_for_find _ _ (fun e => km_used e =? 0)).
  - intros k e He Hu. apply wpk_bind. eapply wpk_get_mutex; [done|]. by rewrite Hu.
  - intros k e Hf He Hu. apply wpk_bind. eapply wpk_get_mutex; [done|]. rewrite Hu.
    apply wpk_bind. eapply wpk_put_mutex; [done|]. apply wpk_bind.
    assert (inside LWait pids i (set_mutex (<[k := mk_mutex 1 0 (-1)]> (k_mutex s1)) s1)) as Hs2.
    { eapply inside_free; [done..|]. apply Forall_true. intros p. left.
      pose proof (Forall_lookup_1 _ _ k e H3 He) as Hlu. simpl in Hlu. lia. }
    destruct Hs2 as (Hw2 & Hi2 & Hr2). eapply wpk_leave; [exact Hw2|]. intros s3 He3 Hp3 Hr3.
    apply wpk_ret. split; [done|]. apply same_rest_mutex in Hr3. split.
    + split; [done|]. split; [by eapply minv_same|by eapply running_same].
    + simpl. rewrite Hr3. kproj. unfold create_spec. by rewrite <- E1, Hf.
  - intros Hf. eapply wps_leave; [done|]. simpl. unfold create_spec. by rewrite <- E1, Hf.
Qed.

Lemma owner_ok id s :
  outside pids i s -> calling i [id] s -> wps G R s (sys_mutex_owner s) (returns (MOwner id) pids i pid).
Proof.
  intros Hs Hc. unfold sys_mutex_owner. eapply wps_arg; [done|reflexivity|lia|].
  destruct (bad_mutex (i32 id)) eqn:Hb.
  { split; [done|]. simpl. unfold owner_spec. by rewrite entry_bad. }
  eapply wps_lock; [done|]. intros s1 Hs1 E1. pose proof Hs1 as (_ & Hi & _).
  destruct (entry_good id (k_mutex s1) (minv_len _ _ Hi) Hb) as (e & He & _ & Eo).
  apply wps_step. eapply wpk_get_mutex; [done|]. destruct (km_used e =? 0) eqn:Hu.
  - eapply wps_leave; [done|]. simpl. unfold owner_spec. by rewrite <- E1, Eo.
  - eapply wps_leave; [done|]. simpl. unfold owner_spec. by rewrite <- E1, Eo.
Qed.

Lemma try_ok id s :
  outside pids i s -> calling i [id] s -> wps G R s (sys_mutex_trylock s) (returns (MTry id) pids i pid).
Proof.
  intros Hs Hc. unfold sys_mutex_trylock. eapply wps_arg; [done|reflexivity|lia|].
  destruct (bad_mutex (i32 id)) eqn:Hb.
  { split; [done|]. simpl. unfold try_spec. by rewrite entry_bad. }
  apply wps_step. eapply wpk_myproc; [by destruct Hs as [[]]|by destruct Hs as [(?&?&?)]|].
  eapply wps_lock; [done|]. intros s1 Hs1 E1. pose proof Hs1 as (_ & Hi & _).
  destruct (entry_good id (k_mutex s1) (minv_len _ _ Hi) Hb) as (e & He & _ & Eo).
  apply wps_step. eapply wpk_get_mutex; [done|]. destruct (km_used e =? 0) eqn:Hu.
  { eapply wps_leave; [done|]. simpl. unfold try_spec. by rewrite <- E1, Eo. }
  destruct (km_locked e =? 0) eqn:Hl.
  - destruct (inside_proc _ _ Hs1) as (p & Hp & _ & Epid). apply wps_step. eapply wpk_get_proc; [done|].
    apply wps_step. eapply wpk_put_mutex; [done|]. eapply wps_leave.
    + eapply inside_take; [done..|]. by apply Z.eqb_neq.
    + kproj. simpl. unfold try_spec. by rewrite <- E1, Eo, Hl, Epid.
  - eapply wps_leave; [done|]. simpl. unfold try_spec. by rewrite <- E1, Eo, Hl.
Qed.

(** ** Waking the processes that wait *)

Lemma pids_ok_map s (f : nat -> proc -> proc) :
  pids_ok s -> (forall j p, p_pid (f j p) = p_pid p /\ (p_state (f j p) = UNUSED <-> p_state p = UNUSED)) ->
  pids_ok (set_procs (imap f (k_procs s)) s).
Proof.
  intros [Hz Hu] Hf. unfold pids_ok. kproj.
  assert (forall j q, imap f (k_procs s) !! j = Some q -> exists q0, k_procs s !! j = Some q0 /\
    p_pid q = p_pid q0 /\ (p_state q = UNUSED <-> p_state q0 = UNUSED)) as H.
  { intros j q Hq. rewrite list_lookup_imap in Hq. apply fmap_Some in Hq as (q0 & Hq0 & ->). exists q0. by split. }
  split.
  - intros j q Hq. destruct (H j q Hq) as (q0 & H0 & -> & ->). by apply (Hz j).
  - intros j k q r Hq Hr E Hne. destruct (H j q Hq) as (q0 & H0 & Eq & _), (H k r Hr) as (r0 & H1 & Er & _).
    eapply Hu; [exact H0|exact H1|congruence|congruence].
Qed.

Lemma inside_woken l s ch :
  inside l pids i s -> inside l pids i (set_procs (imap (woken (Some i) ch) (k_procs s)) s).
Proof.
  intros (Hw & [H1 H2 H3 H4 H5] & p & Hp & Hr). split; [|split].
  - apply with_lock_procs; [done|]. apply length_imap.
  - constructor; kproj; try done.
    + rewrite <- H2. apply list_eq. intros j. rewrite !list_lookup_fmap, list_lookup_imap.
      destruct (k_procs s !! j); [|done]. simpl. unfold woken. by repeat case_match.
    + apply Forall_lookup. intros j q Hq. rewrite list_lookup_imap in Hq. apply fmap_Some in Hq as (q0 & Hq0 & ->).
      intros z. unfold woken. repeat case_match; try done; apply (Forall_lookup_1 _ _ j q0 H4 Hq0).
    + apply pids_ok_map; [done|]. intros j q. unfold woken. repeat case_match; try done.
      split; [done|]. apply andb_true_iff in H0 as [H0 _]. apply bool_decide_eq_true in H0. by rewrite H0.
  - exists p. kproj. rewrite list_lookup_imap, Hp. split; [|done]. simpl. unfold woken. by rewrite bool_decide_eq_true_2.
Qed.

Lemma unlock_ok id s :
  outside pids i s -> calling i [id] s -> wps G R s (sys_mutex_unlock s) (returns (MUnlock id) pids i pid).
Proof.
  intros Hs Hc. unfold sys_mutex_unlock. eapply wps_arg; [done|reflexivity|lia|].
  destruct (bad_mutex (i32 id)) eqn:Hb.
  { split; [done|]. simpl. unfold unlock_spec. by rewrite entry_bad. }
  apply wps_step. eapply wpk_myproc; [by destruct Hs as [[]]|by destruct Hs as [(?&?&?)]|].
  eapply wps_lock; [done|]. intros s1 Hs1 E1. pose proof Hs1 as (Hw1 & Hi & _).
  destruct (entry_good id (k_mutex s1) (minv_len _ _ Hi) Hb) as (e & He & Hz & Eo).
  apply wps_step. eapply wpk_get_mutex; [done|]. destruct (km_used e =? 0) eqn:Hu.
  { eapply wps_leave; [done|]. simpl. unfold unlock_spec. by rewrite <- E1, Eo. }
  destruct (km_locked e =? 0) eqn:Hl; simpl.
  { eapply wps_leave; [done|]. simpl. unfold unlock_spec. by rewrite <- E1, Eo, Hl. }
  destruct (inside_proc _ _ Hs1) as (p & Hp & Hrun & Epid). apply wps_step. eapply wpk_get_proc; [done|].
  rewrite Epid. destruct (km_owner_pid e =? pid) eqn:Ho; simpl.
  - apply wps_step. eapply wpk_put_mutex; [done|]. apply wps_step.
    pose proof Hw1 as (Hcp & Hlk & _ & _ & Ht). apply wpk_wakeup.
    + kproj. by eapply with_lock_cpu.
    + done.
    + kproj. intros j _. rewrite Hlk. by apply lookup_singleton_ne.
    + kproj. rewrite Hcp. set (e' := mk_mutex (km_used e) 0 (-1)).
      pose proof (inside_woken LWait s1 (Some (CMutex (i32 id))) Hs1) as Hs2.
      eapply (inside_free _ _ _ e e') in Hs2; [|by kproj|done|].
      * eapply wps_leave; [exact Hs2|]. kproj. simpl. unfold unlock_spec. by rewrite <- E1, Eo, Hl, Ho.
      * kproj. apply Forall_lookup. intros j q Hq. rewrite list_lookup_imap in Hq.
        apply fmap_Some in Hq as (q0 & Hq0 & ->). right. rewrite Z2Nat.id by done. unfold woken.
        case_bool_decide as Hji; [left; injection Hji as ->; congruence|].
        destruct (bool_decide (p_state q0 = SLEEPING)) eqn:E3; [|left; by apply bool_decide_eq_false in E3].
        destruct (bool_decide (p_chan q0 = Some (CMutex (i32 id)))) eqn:E4; [by left|].
        right. by apply bool_decide_eq_false in E4.
  - eapply wps_leave; [done|]. simpl. unfold unlock_spec. by rewrite <- E1, Eo, Hl, Ho.
Qed.

(** ** Changing one process *)

(** A change of process [j] that keeps what the invariant needs. *)
Definition mild (t : mtable) (p p' : proc) : Prop :=
  p_pid p' = p_pid p /\ (p_state p' = UNUSED <-> p_state p = UNUSED) /\ waits_for_locked t p'.

Lemma minv_upd s j p p' :
  minv pids s -> k_procs s !! j = Some p -> mild (k_mutex s) p p' ->
  minv pids (set_procs (<[j := p']> (k_procs s)) s).
Proof.
  intros [H1 H2 H3 H4 H5] Hp (Epid & Hst & Hwait). constructor; kproj; try done.
  - rewrite list_fmap_insert, Epid, H2. apply list_insert_id. by rewrite <- H2, list_lookup_fmap, Hp.
  - by apply Forall_insert.
  - by eapply pids_ok_upd.
Qed.

Lemma minv_waits s j p : minv pids s -> k_procs s !! j = Some p -> waits_for_locked (k_mutex s) p.
Proof. intros Hi. apply (Forall_lookup_1 _ _ j p (minv_wait _ _ Hi)). Qed.

Lemma outside_upd s j p p' :
  outside pids i s -> k_procs s !! j = Some p -> mild (k_mutex s) p p' ->
  (p_state p = RUNNING -> p_state p' = RUNNING) ->
  outside pids i (set_procs (<[j := p']> (k_procs s)) s).
Proof.
  intros ((Hc & Hok & Hn & Hl & Ht) & Hi & q & Hq & Hrun) Hp Hm Hr. split; [|split].
  - split; [done|]. split; [done|]. split; [done|]. split; [done|]. unfold table_ok. kproj. by rewrite length_insert.
  - by eapply minv_upd.
  - unfold running. kproj. destruct (decide (j = i)) as [->|Hne].
    + exists p'. rewrite list_lookup_insert_eq by (by eapply lookup_lt_Some). split; [done|]. apply Hr. congruence.
    + exists q. by rewrite list_lookup_insert_ne.
Qed.

Lemma wpk_killed {rely} j p s (Q : Z -> kst -> Prop) :
  cpu_ok (k_cpu s) -> k_locks s !! LProc j = None -> k_procs s !! j = Some p -> Q (p_killed p) s ->
  wpk rely (killed j) s Q.
Proof.
  intros Hok Hl Hp HQ. apply wpk_bind, wpk_acquire; [done|]. apply wpk_bind. eapply wpk_get_proc; [by kproj|].
  by apply wpk_locked_skip.
Qed.

(** ** Waiting for a mutex *)

Lemma sleep_minv s p z e :
  minv pids s -> k_procs s !! i = Some p -> p_state p = RUNNING -> 0 <= z ->
  k_mutex s !! Z.to_nat z = Some e -> km_locked e <> 0 ->
  minv pids (set_procs (<[i := set_pstate SLEEPING (set_pchan (Some (CMutex z)) p)]> (k_procs s)) s).
Proof.
  intros Hi Hp Hr Hz He Hl. eapply minv_upd; [done..|]. split; [done|]. split; [by rewrite Hr|].
  intros z' _ [= <-]. eauto.
Qed.

Lemma wps_mutex_sleep {A} z e s0 s (f : unit -> KM A) Q :
  inside LWait pids i s -> k_mutex s = k_mutex s0 -> 0 <= z ->
  k_mutex s !! Z.to_nat z = Some e -> km_locked e <> 0 ->
  (forall s' s2, inside LWait pids i s2 -> k_mutex s2 = k_mutex s' -> wps G R s' (f tt s2) Q) ->
  wps G R s0 ((sleep (CMutex z) LWait ≫= f) s) Q.
Proof.
  intros Hs E0 Hz He Hl Hk. destruct (inside_proc _ _ Hs) as (p & Hp & Hr & _). destruct Hs as (Hw & Hi & _).
  assert (i < length (k_procs s))%nat as Hlt by by eapply lookup_lt_Some.
  eapply wps_sleep; [done|done|done|]. intros s1 Hw1 Hp1 Hr1. apply same_rest_mutex in Hr1. split.
  - split; [done|]. split; [eapply minv_same; [by eapply sleep_minv|done|done]|]. split; [congruence|].
    intros (q & Hq & Hrun). rewrite Hp1, list_lookup_insert_eq in Hq by done. by simplify_eq.
  - intros s' (Hw' & Hi' & p' & Hp' & Hrun'). split; [done|]. exists p'. split; [done|].
    intros s2 Hw2 Hp2 Hr2. apply same_rest_mutex in Hr2. apply Hk; [|done]. split; [done|]. split.
    + eapply minv_same; [eapply (minv_upd s' i p' (set_pchan None p')); [done..|]|done|done].
      split; [done|]. split; [done|]. by intros ? ? ?.
    + exists (set_pchan None p'). rewrite Hp2, list_lookup_insert_eq by (by eapply lookup_lt_Some). done.
Qed.

(** One round of the loop of [mutex_lock]; [k] is the rest after a wakeup. *)
Lemma lock_round_ok fuel id s0 s (k : KM Z) :
  bad_mutex (i32 id) = false -> inside LWait pids i s -> k_mutex s = k_mutex s0 ->
  (forall s0 s, inside LWait pids i s -> k_mutex s = k_mutex s0 ->
     wps G R s0 (k s) (returns (MLock fuel id) pids i pid)) ->
  wps G R s0 ((e ← get_mutex (Z.to_nat (i32 id));
    p ← get_proc i;
    if km_used e =? 0 then release LWait;; mret (-1)
    else if km_locked e =? 0 then
      put_mutex (Z.to_nat (i32 id)) (mk_mutex (km_used e) 1 (p_pid p));; release LWait;; mret 0
    else if km_owner_pid e =? p_pid p then release LWait;; mret (-1)
    else
      sleep (CMutex (i32 id)) LWait;;
      kl ← killed i;
      if negb (kl =? 0) then release LWait;; mret (-1) else k) s) (returns (MLock fuel id) pids i pid).
Proof.
  intros Hb Hs E0 Hk. pose proof Hs as (Hw & Hi & _).
  destruct (entry_good id (k_mutex s) (minv_len _ _ Hi) Hb) as (e & He & Hz & Eo),
    (inside_proc _ _ Hs) as (p & Hp & _ & Epid).
  apply wps_step. eapply wpk_get_mutex; [done|]. apply wps_step. eapply wpk_get_proc; [done|].
  destruct (km_used e =? 0) eqn:Hu; [eapply wps_leave; [done|]; by right|].
  destruct (km_locked e =? 0) eqn:Hl.
  { apply wps_step. eapply wpk_put_mutex; [done|]. eapply wps_leave.
    - eapply inside_take; [done..|by apply Z.eqb_neq].
    - kproj. left. unfold try_spec. by rewrite <- E0, Eo, Hl, Epid. }
  destruct (km_owner_pid e =? p_pid p); [eapply wps_leave; [done|]; by right|].
  eapply wps_mutex_sleep; [done..|by apply Z.eqb_neq|]. intros s1 s2 Hs2 E2.
  destruct (inside_proc _ _ Hs2) as (p2 & Hp2 & _ & _). pose proof Hs2 as (Hw2 & _).
  apply wps_step. eapply wpk_killed; [by eapply with_lock_cpu| |done|].
  { destruct Hw2 as (_ & -> & _). by apply lookup_singleton_ne. }
  destruct (negb (p_killed p2 =? 0)); [eapply wps_leave; [done|]; by right|]. by apply Hk.
Qed.

Lemma lock_loop_ok fuel fuel' id s0 s :
  bad_mutex (i32 id) = false -> inside LWait pids i s -> k_mutex s = k_mutex s0 ->
  wps G R s0 (mutex_lock_loop fuel (i32 id) i s) (returns (MLock fuel' id) pids i pid).
Proof.
  intros Hb. revert s0 s. induction fuel as [|fuel IH]; intros s0 s Hs E0; cbn [mutex_lock_loop];
    apply lock_round_ok; done.
Qed.

Lemma lock_ok fuel id s :
  outside pids i s -> calling i [id] s -> wps G R s (sys_mutex_lock fuel s) (returns (MLock fuel id) pids i pid).
Proof.
  intros Hs Hc. unfold sys_mutex_lock. eapply wps_arg; [done|reflexivity|lia|].
  destruct (bad_mutex (i32 id)) eqn:Hb. { split; [done|]. by right. }
  apply wps_step. eapply wpk_myproc; [by destruct Hs as [[]]|by destruct Hs as [(?&?&?)]|].
  eapply wps_lock; [done|]. intros s1 Hs1 E1. by apply lock_loop_ok.
Qed.

(** ** Signals *)

Lemma outside_facts s : outside pids i s -> cpu_ok (k_cpu s) /\ table_ok s /\ unlocked s.
Proof. intros ((_ & Hok & _ & Hl & Ht) & _). do 2 (split; [done|]). intros j. by rewrite Hl. Qed.

Lemma kkill_ok c q s q' : outside pids i s -> wps G R s (kkill q s) (returns (MPid c q') pids i pid).
Proof.
  intros Hs. destruct (outside_facts s Hs) as (Hok & Ht & Hu). apply wps_quiet, wpk_kkill; [done..| |by split].
  intros j p _ Hp _. split; [|by kproj]. eapply outside_upd; [done..| |].
  - pose proof (minv_waits s j p (proj1 (proj2 Hs)) Hp) as Hwait. unfold killing.
    case_bool_decide as Hsl; (split; [done|]).
    + split; [by rewrite Hsl|]. intros z Hz. discriminate Hz.
    + by split.
  - unfold killing. case_bool_decide; [congruence|done].
Qed.

Lemma set_frozen_ok c z q s q' :
  outside pids i s ->
  wps G R s ((r ← for_some (seq 0 NPROC) (fun i =>
    acquire (LProc i);;
    p ← get_proc i;
    if live_pid q p then upd_proc i (set_pfrozen z);; release (LProc i);; mret (Some 0)
    else release (LProc i);; mret None);
  mret (default (-1) r)) s) (returns (MPid c q') pids i pid).
Proof.
  intros Hs. destruct (outside_facts s Hs) as (Hok & Ht & Hu). apply wps_quiet, wpk_set_frozen; [done..| |by split].
  intros j p _ Hp _. split; [|by kproj]. eapply outside_upd; [done..| |done].
  split; [done|]. split; [done|]. apply (minv_waits s j p (proj1 (proj2 Hs)) Hp).
Qed.

Lemma pid_ok c q s :
  outside pids i s -> calling i (pid_args c q) s -> wps G R s (pid_code c s) (returns (MPid c q) pids i pid).
Proof.
  intros Hs Hc. destruct (outside_facts s Hs) as (Hok & Ht & Hu).
  destruct c as [| | | |sig]; simpl in *; (eapply wps_arg; [done|reflexivity|lia|]).
  - by apply kkill_ok.
  - by apply set_frozen_ok.
  - by apply set_frozen_ok.
  - destruct (i32 q <=? 0); [by split|]. apply wps_quiet, wpk_kgetprocstate; [done..| |]; by split.
  - eapply wps_arg; [done|reflexivity|lia|]. unfold ksignal_send. repeat case_match.
    + by apply kkill_ok.
    + by apply set_frozen_ok.
    + by apply set_frozen_ok.
    + by split.
Qed.

(** Every call keeps the invariant in each stretch and does what [effect] says. *)
Lemma mcall_ok c s :
  outside pids i s -> calling i (margs c) s -> wps G R s (mcode c s) (returns c pids i pid).
Proof.
  destruct c; simpl; intros Hs Hc.
  - by apply create_ok.
  - by apply lock_ok.
  - by apply unlock_ok.
  - by apply try_ok.
  - by apply owner_ok.
  - by apply pid_ok.
Qed.

End calls.
