(* ===== verification/XvMutexPool.v ===== *)
(** Processes that use kernel mutexes, interleaved by the scheduler.  A process
    is a user program that makes mutex calls and signals others; the kernel code
    of a call runs from one context switch to the next, entered and left through
    the code of the scheduler.  Which process runs next is arbitrary. *)

From S2P Require Import Prelude XvMem XvFsTypes XvKernel XvMsg XvSched XvSchedProofs XvSignalClaims XvSegments XvMutex XvVm XvExample.

(** * The system *)

(** A user program: the next call and what follows each result. *)
Inductive uprog :=
  | UStop
  | UCall (c : mcall) (next : Z -> uprog).

(** A process that does not run: preempted in user mode (in [yield], [k] is the
    rest of it) or waiting inside a call.  [held] are the mutexes it has taken
    and not released, by the results it has seen. *)
Inductive uthread :=
  | TUser (held : list nat) (u : uprog) (k : kst -> kres unit)
  | TCall (held : list nat) (c : mcall) (next : Z -> uprog) (k : kst -> kres Z).

Definition held_of (t : uthread) : list nat :=
  match t with TUser held _ _ | TCall held _ _ _ => held end.

Record mpool := mk_mpool {
  mp_s : kst;
  mp_threads : list uthread;      (* by index in the process table *)
}.

(** What a process holds after call [c] returned [r]. *)
Definition after (c : mcall) (r : Z) (held : list nat) : list nat :=
  match c with
  | MLock _ id | MTry id => if r =? 0 then Z.to_nat (i32 id) :: held else held
  | MUnlock id => if r =? 0 then filter (fun k => k <> Z.to_nat (i32 id)) held else held
  | _ => held
  end.

(** The system call: the arguments are in the registers. *)
Definition with_args (args : list Z) (p : proc) : proc :=
  let tf := p_tf p in set_ptf (mk_tf (tf_epc tf) (tf_ra tf) (args ++ drop (length args) (tf_a tf)) (tf_rest tf)) p.

Definition trap (i : nat) (c : mcall) : KM Z :=
  upd_proc i (with_args (margs c));;
  mcode c.

(** The end of a stretch: the process waits in its call, or has returned to user
    mode and is preempted there. *)
Inductive stretch (held : list nat) (c : mcall) (next : Z -> uprog) : kres Z -> kst -> uthread -> Prop :=
  | st_wait s k : stretch held c next (KSwitch s k) s (TCall held c next k)
  | st_return r s s' k : yield s = KSwitch s' k ->
      stretch held c next (KDone r s) s' (TUser (after c r held) (next r) k).

Inductive mstep : mpool -> mpool -> Prop :=
  | ms_call s th i held c next k s1 back s2 t b s3 :
      th !! i = Some (TUser held (UCall c next) k) ->
      scheduler_pass [i] false s = KSwitch s1 back ->
      stretch held c next (kbind (fun _ => trap i c) (k s1)) s2 t ->
      back s2 = KDone b s3 ->
      mstep (mk_mpool s th) (mk_mpool s3 (<[i := t]> th))
  | ms_preempt s th i held u k s1 back s1' s2 k' b s3 :
      th !! i = Some (TUser held u k) ->
      scheduler_pass [i] false s = KSwitch s1 back ->
      k s1 = KDone tt s1' -> yield s1' = KSwitch s2 k' ->
      back s2 = KDone b s3 ->
      mstep (mk_mpool s th) (mk_mpool s3 (<[i := TUser held u k']> th))
  | ms_resume s th i held c next k s1 back s2 t b s3 :
      th !! i = Some (TCall held c next k) ->
      scheduler_pass [i] false s = KSwitch s1 back ->
      stretch held c next (k s1) s2 t ->
      back s2 = KDone b s3 ->
      mstep (mk_mpool s th) (mk_mpool s3 (<[i := t]> th)).

(** At first every process is new (it starts in [forkret], which releases its
    lock), no mutex is in use and nobody waits for one. *)
Definition minit (pids : list Z) (P : mpool) : Prop :=
  idle (mp_s P) /\ minv pids (mp_s P) /\
  Forall (fun e => km_locked e = 0) (k_mutex (mp_s P)) /\
  (forall i t, mp_threads P !! i = Some t -> (exists u, t = TUser [] u (release (LProc i))) /\
     exists pid, pids !! i = Some pid /\ pid <> 0).

Definition mreach (pids : list Z) (P : mpool) : Prop := exists P0, minit pids P0 /\ rtc mstep P0 P.

(** * The invariant *)

Definition thread_ok (pids : list Z) (i : nat) (t : uthread) : Prop :=
  match t with
  | TUser _ _ k => forall s s', relies pids i s s' ->
      wps (guarantee pids i) (relies pids i) s' (k s') (fun s1 _ s2 => outside pids i s2 /\ k_mutex s2 = k_mutex s1)
  | TCall _ c _ k => exists pid, pids !! i = Some pid /\ forall s s', relies pids i s s' ->
      wps (guarantee pids i) (relies pids i) s' (k s') (returns c pids i pid)
  end.

(** The mutexes a process believes to hold are those the table says it owns. *)
Definition owns (t : mtable) (pid : Z) (k : nat) : Prop :=
  exists e, t !! k = Some e /\ km_locked e <> 0 /\ km_owner_pid e = pid.

Record pool_ok (pids : list Z) (P : mpool) : Prop := mk_pool_ok {
  po_idle : idle (mp_s P);
  po_minv : minv pids (mp_s P);
  po_threads : forall i t, mp_threads P !! i = Some t ->
    thread_ok pids i t /\ exists pid, pids !! i = Some pid /\ pid <> 0 /\
      forall k, k ∈ held_of t <-> owns (k_mutex (mp_s P)) pid k;
  po_locked : forall k e, k_mutex (mp_s P) !! k = Some e -> km_locked e <> 0 ->
    exists i t, mp_threads P !! i = Some t /\ pids !! i = Some (km_owner_pid e);
}.

(** * Scheduling *)

Definition picked (i : nat) (s s1 : kst) : Prop :=
  exists p, k_procs s !! i = Some p /\ p_state p = RUNNABLE /\ with_lock (LProc i) i s1 /\
    k_procs s1 = <[i := set_pstate RUNNING p]> (k_procs s) /\ same_rest s s1.

Lemma pass_stretch i p s :
  idle s -> k_procs s !! i = Some p ->
  wps (picked i) (fun _ s2 => with_lock (LProc i) i s2) s (scheduler_pass [i] false s)
    (fun s2 _ s3 => idle s3 /\ k_procs s3 = k_procs s2 /\ k_mutex s3 = k_mutex s2).
Proof.
  intros Hs Hp. pose proof Hs as (Hn & Hl & Ht). cbn [scheduler_pass].
  apply wps_step, wpk_acquire; [by rewrite Hl|]. apply wps_step. eapply wpk_get_proc; [by kproj|].
  assert (i < length (k_procs s))%nat as Hi by by eapply lookup_lt_Some.
  destruct (bool_decide (p_state p = RUNNABLE) && (p_frozen p =? 0)) eqn:Et.
  - apply andb_true_iff in Et as [Hr _]. apply bool_decide_eq_true in Hr.
    apply wps_seq. apply wps_step. eapply wpk_upd_proc; [by kproj|].
    apply wps_step, wpk_modify. apply wps_swtch.
    + exists p. do 2 (split; [done|]). split; [|split].
      * unfold with_lock, table_ok. kproj. rewrite length_insert, Hl. simpl. by rewrite Hn.
      * by kproj.
      * unfold same_rest. kst_eq.
    + intros s' (Hc' & Hl' & Hn' & Hs' & Ht').
      apply wps_step, wpk_modify, wps_quiet, wpk_ret, wps_quiet.
      apply wpk_release_idle; kproj; [done..|]. intros s3 Hi3 Hp3 Hm3. apply wpk_ret.
      split; [done|]. by rewrite Hp3, Hm3.
  - apply wps_step, wpk_ret. apply wps_quiet. apply wpk_release_idle; kproj; simpl; [by rewrite Hl|by rewrite Hn|done|done|].
    intros s3 Hi3 Hp3 Hm3. by apply wpk_ret.
Qed.

(** * What a call does to the owners *)

Inductive trans (pid : Z) (t : mtable) : mtable -> (list nat -> list nat) -> Prop :=
  | tr_same : trans pid t t id
  | tr_take k e u : t !! k = Some e -> km_locked e = 0 -> trans pid t (<[k := mk_mutex u 1 pid]> t) (cons k)
  | tr_drop k e u : t !! k = Some e -> km_locked e <> 0 -> km_owner_pid e = pid ->
      trans pid t (<[k := mk_mutex u 0 (-1)]> t) (filter (fun j => j <> k))
  | tr_reset k e u : t !! k = Some e -> km_locked e = 0 -> trans pid t (<[k := mk_mutex u 0 (-1)]> t) id.

Lemma entry_of_Some id t e : entry_of id t = Some e -> t !! Z.to_nat (i32 id) = Some e.
Proof.
  unfold entry_of. destruct (bad_mutex (i32 id)); [done|]. destruct (t !! _) as [e'|]; [|done]. simpl.
  by destruct (km_used e' =? 0).
Qed.

Lemma try_trans pid id t r t' :
  (r, t') = try_spec pid id t ->
  trans pid t t' (fun held => if r =? 0 then Z.to_nat (i32 id) :: held else held).
Proof.
  unfold try_spec. destruct (entry_of id t) as [e|] eqn:E; [|intros [= -> ->]; constructor].
  apply entry_of_Some in E. destruct (Z.eqb_spec (km_locked e) 0) as [Hl|Hl]; intros [= -> ->]; [|constructor].
  by eapply tr_take.
Qed.

Lemma effect_trans c pid r t t' :
  Forall (fun e => km_locked e <> 0 -> km_used e <> 0) t -> effect c pid r t t' -> trans pid t t' (after c r).
Proof.
  intros Hu. destruct c as [|fuel id|id|id|id|c q]; simpl.
  - unfold create_spec. destruct (find_index _ t) as [k|] eqn:Hf; intros [= -> ->]; [|constructor].
    apply find_index_Some in Hf as (e & He & Hz & _). eapply tr_reset; [done|].
    pose proof (Forall_lookup_1 _ _ k e Hu He) as H. simpl in H. lia.
  - intros [[[= -> ->] Hr]|[-> ->]]; [|constructor].
    apply (try_trans pid id t 0). by destruct (try_spec pid id t); simpl in *; subst.
  - unfold unlock_spec. destruct (entry_of id t) as [e|] eqn:E; [|intros [= -> ->]; constructor].
    apply entry_of_Some in E. destruct (Z.eqb_spec (km_locked e) 0) as [Hl|Hl]; [intros [= -> ->]; constructor|].
    destruct (Z.eqb_spec (km_owner_pid e) pid) as [Ho|Ho]; intros [= -> ->]; [|constructor].
    by eapply tr_drop.
  - apply try_trans.
  - intros [_ ->]. constructor.
  - intros ->. constructor.
Qed.

Lemma owns_insert t k e e' q j :
  t !! k = Some e -> owns (<[k := e']> t) q j <->
  (j = k /\ km_locked e' <> 0 /\ km_owner_pid e' = q) \/ (j <> k /\ owns t q j).
Proof.
  intros He. assert (k < length t)%nat as Hk by by eapply lookup_lt_Some. unfold owns.
  destruct (decide (j = k)) as [->|Hne].
  - rewrite list_lookup_insert_eq by done. naive_solver.
  - rewrite list_lookup_insert_ne by done. naive_solver.
Qed.

Lemma not_owns t k e q : t !! k = Some e -> km_locked e = 0 -> ~ owns t q k.
Proof. intros He Hl (e' & He' & Hl' & _). congruence. Qed.

(** The caller's list follows the table; what others own does not change. *)
Lemma trans_owns pid t t' f held :
  trans pid t t' f -> (forall k, k ∈ held <-> owns t pid k) ->
  (forall k, k ∈ f held <-> owns t' pid k) /\
  (forall q k, q <> pid -> owns t' q k <-> owns t q k).
Proof.
  intros [|k e u He Hl|k e u He Hl Ho|k e u He Hl] H; [done|..].
  - pose proof (not_owns t k e) as Hno. split; intros *; [|intros Hq]; rewrite (owns_insert _ _ _ _ _ _ He); simpl.
    + rewrite elem_of_cons, H. destruct (decide (k0 = k)) as [->|]; naive_solver.
    + destruct (decide (k0 = k)) as [->|]; naive_solver.
  - split; intros *; [|intros Hq]; rewrite (owns_insert _ _ _ _ _ _ He); simpl.
    + rewrite list_elem_of_filter, H. naive_solver.
    + destruct (decide (k0 = k)) as [->|]; [|naive_solver]. split; [naive_solver|].
      intros (e' & He' & _ & Ho'). congruence.
  - pose proof (not_owns t k e) as Hno. split; intros *; [|intros Hq]; rewrite (owns_insert _ _ _ _ _ _ He); simpl;
      rewrite ?H; destruct (decide (k0 = k)) as [->|]; naive_solver.
Qed.

(** * The invariant is kept *)

Section inv.
Context (pids : list Z).

Lemma picked_relies i s s1 :
  minv pids s -> picked i s s1 -> relies pids i s s1 /\ k_mutex s1 = k_mutex s.
Proof.
  intros Hi (p & Hp & Hr & Hw & Hp1 & Hs). apply same_rest_mutex in Hs. split; [|done]. split; [done|]. split.
  - eapply minv_same; [eapply (minv_upd pids s i p (set_pstate RUNNING p)); [done..|]|done|done].
    split; [done|]. split; [by rewrite Hr|]. intros z Hz. discriminate Hz.
  - exists (set_pstate RUNNING p). rewrite Hp1, list_lookup_insert_eq by (by eapply lookup_lt_Some). done.
Qed.

(** Preemption in user mode. *)
Lemma yield_stretch i s0 s s2 k held u :
  outside pids i s -> k_mutex s = k_mutex s0 -> yield s = KSwitch s2 k ->
  guarantee pids i s0 s2 /\ thread_ok pids i (TUser held u k).
Proof.
  intros (He & Hi & p & Hp & Hr) E0 Hy.
  assert (wps (guarantee pids i) (relies pids i) s0 (yield s)
    (fun s1 _ s2 => outside pids i s2 /\ k_mutex s2 = k_mutex s1)) as H.
  { eapply wps_yield; [done..|]. intros s1 Hw1 Hp1 Hr1. apply same_rest_mutex in Hr1. split.
    - split; [done|]. split; [|split; [congruence|]].
      + eapply minv_same; [eapply (minv_upd pids s i p (set_pstate RUNNABLE p)); [done..|]|done|done].
        split; [done|]. split; [by rewrite Hr|]. intros z Hz. discriminate Hz.
      + intros (q & Hq & Hrun). rewrite Hp1, list_lookup_insert_eq in Hq by (by eapply lookup_lt_Some). by simplify_eq.
    - intros s' (Hw' & Hi' & Hrun'). split; [done|]. intros s3 He3 Hp3 Hr3. apply same_rest_mutex in Hr3.
      split; [|done]. split; [done|]. split; [by eapply minv_same|by eapply running_same]. }
  rewrite Hy in H. destruct H as [HG HR]. split; [done|]. intros s1 s' Hrel. apply HR. exact Hrel.
Qed.

Lemma pids_inj s i j pid : minv pids s -> pids !! i = Some pid -> pids !! j = Some pid -> pid <> 0 -> i = j.
Proof.
  intros Hi. rewrite <- (minv_pids _ _ Hi), !list_lookup_fmap. intros H1 H2 Hne.
  apply fmap_Some in H1 as (p & Hp & ->). apply fmap_Some in H2 as (q & Hq & E).
  by eapply (proj2 (minv_table _ _ Hi)).
Qed.

(** A process that is resumed keeps the invariant to its next switch and changes
    the table as a transition of its own. *)
Lemma stretch_ok i pid held c next r s1 s2 t :
  pids !! i = Some pid -> wps (guarantee pids i) (relies pids i) s1 r (returns c pids i pid) ->
  minv pids s1 -> stretch held c next r s2 t ->
  with_lock (LProc i) i s2 /\ minv pids s2 /\ thread_ok pids i t /\
  exists f, trans pid (k_mutex s1) (k_mutex s2) f /\ held_of t = f held.
Proof.
  intros Hpid Hr Hi Hst. destruct Hst as [s k|v s s' k Hy]; unfold wps in Hr; cbn [wpx] in Hr.
  - destruct Hr as [(Hw & Hm & E & _) HR]. do 2 (split; [done|]). split.
    + exists pid. split; [done|]. intros sa sb Hrel. apply HR. exact Hrel.
    + exists id. split; [rewrite E; constructor|done].
  - destruct Hr as [Ho Heff]. destruct (yield_stretch i s s s' k (after c v held) (next v) Ho eq_refl Hy) as [(Hw & Hm & E & _) Ht].
    do 3 (split; [done|]). exists (after c v). split; [|done]. rewrite E.
    apply effect_trans; [|done]. apply (minv_used _ _ Hi).
Qed.

(** The system after process [i] ran from [s] to [s2] and the scheduler took over. *)
Lemma pool_ok_step s th i t0 t pid s1 s2 s3 f :
  pool_ok pids (mk_mpool s th) -> th !! i = Some t0 -> pids !! i = Some pid ->
  k_mutex s1 = k_mutex s -> minv pids s2 -> thread_ok pids i t ->
  trans pid (k_mutex s1) (k_mutex s2) f -> held_of t = f (held_of t0) ->
  idle s3 -> k_procs s3 = k_procs s2 -> k_mutex s3 = k_mutex s2 ->
  pool_ok pids (mk_mpool s3 (<[i := t]> th)).
Proof.
  intros [Hidle Hi Hth Hlk] Hti Hpid E1 Hi2 Ht Htr Eh Hidle3 Ep3 Em3. simpl in *. rewrite E1 in Htr.
  destruct (Hth i t0 Hti) as (_ & pid' & Hpid' & Hnz & Hheld). assert (pid' = pid) as -> by congruence.
  destruct (trans_owns _ _ _ _ (held_of t0) Htr Hheld) as [Hown Hother].
  assert (i < length th)%nat as Hlt by by eapply lookup_lt_Some.
  constructor; simpl; [done|by eapply minv_same| |].
  - intros j tj Hj. apply list_lookup_insert_Some in Hj as [(<- & <- & _)|[Hne Hj]].
    + split; [done|]. exists pid. do 2 (split; [done|]). intros k. by rewrite Eh, Em3.
    + destruct (Hth j tj Hj) as (Htj & q & Hq & Hqz & Hqheld). split; [done|]. exists q. do 2 (split; [done|]).
      intros k. rewrite Em3, Hother; [done|]. intros ->. apply Hne. eapply pids_inj; [exact Hi|done..].
  - intros k e He Hl. rewrite Em3 in He. destruct (decide (km_owner_pid e = pid)) as [->|Hne].
    + exists i, t. by rewrite list_lookup_insert_eq.
    + destruct (proj1 (Hother (km_owner_pid e) k Hne)) as (e0 & He0 & Hl0 & Eo0); [by exists e|].
      destruct (Hlk k e0 He0 Hl0) as (j & tj & Hj & Hpj). rewrite Eo0 in Hpj. exists j.
      destruct (decide (i = j)) as [<-|Hij]; [exists t|exists tj].
      * by rewrite list_lookup_insert_eq.
      * by rewrite list_lookup_insert_ne.
Qed.

(** The start of a stretch matters only for its mutex table. *)
Lemma wps_start i c pid s0 s0' r :
  k_mutex s0 = k_mutex s0' -> wps (guarantee pids i) (relies pids i) s0 r (returns c pids i pid) ->
  wps (guarantee pids i) (relies pids i) s0' r (returns c pids i pid).
Proof.
  intros E. destruct r as [v s| |[]|s k]; unfold wps; cbn [wpx]; try done.
  - unfold returns. by rewrite E.
  - unfold guarantee. by rewrite E.
Qed.

Lemma trap_ok i pid c s0 s :
  pids !! i = Some pid -> outside pids i s -> k_mutex s = k_mutex s0 ->
  wps (guarantee pids i) (relies pids i) s0 (trap i c s) (returns c pids i pid).
Proof.
  intros Hpid Hs E. pose proof Hs as (_ & Hi & p & Hp & Hr). apply wps_step. eapply wpk_upd_proc; [done|].
  assert (outside pids i (set_procs (<[i := with_args (margs c) p]> (k_procs s)) s)) as Hs'.
  { eapply outside_upd; [done..| |done]. split; [done|]. split; [done|]. apply (minv_waits pids s i p Hi Hp). }
  eapply wps_start; [|apply mcall_ok; [done|done|]]; [done|].
  destruct Hs' as ((Hc & Hok & _) & _). split; [done|]. split; [done|].
  exists (with_args (margs c) p). kproj. rewrite list_lookup_insert_eq by (by eapply lookup_lt_Some).
  split; [done|]. simpl. by apply prefix_app_r.
Qed.

Lemma pass_inv i pid s s1 back :
  idle s -> minv pids s -> pids !! i = Some pid -> scheduler_pass [i] false s = KSwitch s1 back ->
  picked i s s1 /\ forall s2 b s3, with_lock (LProc i) i s2 -> back s2 = KDone b s3 ->
    idle s3 /\ k_procs s3 = k_procs s2 /\ k_mutex s3 = k_mutex s2.
Proof.
  intros Hs Hi Hpid E. rewrite <- (minv_pids _ _ Hi), list_lookup_fmap in Hpid. apply fmap_Some in Hpid as (p & Hp & _).
  pose proof (pass_stretch i p s Hs Hp) as H. rewrite E in H. destruct H as [HG HR]. split; [done|].
  intros s2 b s3 Hw Eb. specialize (HR s2 Hw). by rewrite Eb in HR.
Qed.

Lemma mstep_ok P P' : pool_ok pids P -> mstep P P' -> pool_ok pids P'.
Proof.
  intros HP Hst. destruct Hst as [s th i held c next k s1 back s2 t b s3 Hti Hpass Hr Hb
    |s th i held u k s1 back s1' s2 k' b s3 Hti Hpass Hk Hy Hb
    |s th i held c next k s1 back s2 t b s3 Hti Hpass Hr Hb];
    pose proof HP as [Hidle Hi Hth _]; simpl in *;
    destruct (Hth i _ Hti) as (Htok & pid & Hpid & _);
    destruct (pass_inv i pid s s1 back Hidle Hi Hpid Hpass) as [Hpick Hback];
    destruct (picked_relies i s s1 Hi Hpick) as [Hrel E1].
  - specialize (Htok s s1 Hrel). eapply stretch_ok in Hr as (Hw2 & Hi2 & Ht2 & f & Htr & Eh); [|done| |by destruct Hrel as (_ & ? & _)].
    + destruct (Hback s2 b s3 Hw2 Hb) as (? & ? & ?). by eapply pool_ok_step.
    + apply wps_bind. eapply wps_mono; [exact Htok|]. intros sa [] sb [Ho Em]. by apply trap_ok.
  - specialize (Htok s s1 Hrel). rewrite Hk in Htok. destruct Htok as [Ho Em].
    destruct (yield_stretch i s1 s1' s2 k' held u Ho Em Hy) as [(Hw2 & Hi2 & E2 & _) Ht2].
    destruct (Hback s2 b s3 Hw2 Hb) as (? & ? & ?).
    eapply (pool_ok_step s th i _ (TUser held u k') pid s1 s2 s3 id); try done. rewrite E2. constructor.
  - destruct Htok as (pid' & Hpid' & Htok). assert (pid' = pid) as -> by congruence. specialize (Htok s s1 Hrel).
    eapply stretch_ok in Hr as (Hw2 & Hi2 & Ht2 & f & Htr & Eh); [|done|done|by destruct Hrel as (_ & ? & _)].
    destruct (Hback s2 b s3 Hw2 Hb) as (? & ? & ?). by eapply pool_ok_step.
Qed.

Lemma minit_ok P : minit pids P -> pool_ok pids P.
Proof.
  intros (Hidle & Hi & Hfree & Hth). rewrite Forall_forall in Hfree.
  assert (forall k e, k_mutex (mp_s P) !! k = Some e -> km_locked e = 0) as Hno.
  { intros k e He. apply Hfree. by eapply list_elem_of_lookup_2. }
  constructor; [done|done| |].
  - intros i t Hit. destruct (Hth i t Hit) as ((u & ->) & pid & Hpid & Hnz). split.
    + intros s s' (Hw & Hi' & Hr). apply wps_quiet. eapply wpk_leave; [done|]. intros s2 He2 Hp2 Hr2.
      apply same_rest_mutex in Hr2. split; [|done]. split; [done|]. split; [by eapply minv_same|by eapply running_same].
    + exists pid. do 2 (split; [done|]). intros k. simpl. split; [by intros ?%not_elem_of_nil|].
      intros (e & He & Hl & _). by apply Hno in He.
  - intros k e He Hl. by apply Hno in He.
Qed.

Lemma mreach_ok P : mreach pids P -> pool_ok pids P.
Proof.
  intros (P0 & Hinit & Hst). apply minit_ok in Hinit. induction Hst as [|P0 P1 P2 H _ IH]; [done|].
  apply IH. by eapply mstep_ok.
Qed.

End inv.

(** * Claims *)



(** The kernel code a process runs when the scheduler picks it. *)
Definition stretch_code (i : nat) (t : uthread) (s1 : kst) : kres Z :=
  match t with
  | TUser _ (UCall c _) k => kbind (fun _ => trap i c) (k s1)
  | TUser _ UStop k => kbind (fun _ => mret 0) (k s1)
  | TCall _ _ _ k => k s1
  end.

(** C27: in every reachable state, the kernel code of whichever process is picked
    neither panics, nor spins on a lock, nor touches memory out of bounds, up to
    its next switch. *)
Theorem mutex_code_safe pids P i t s1 back :
  mreach pids P -> mp_threads P !! i = Some t -> scheduler_pass [i] false (mp_s P) = KSwitch s1 back ->
  match stretch_code i t s1 with
  | KPanic _ => False
  | KStuck w => w = Asleep
  | KDone _ s | KSwitch s _ => minv pids s
  end.
Proof.
  intros [Hidle Hi Hth _]%mreach_ok Ht Hpass. destruct (Hth i t Ht) as (Htok & pid & Hpid & _).
  destruct (pass_inv pids i pid _ s1 back Hidle Hi Hpid Hpass) as [Hpick _].
  destruct (picked_relies pids i _ s1 Hi Hpick) as [Hrel _].
  assert (wps (guarantee pids i) (relies pids i) s1 (stretch_code i t s1) (fun _ _ s => minv pids s)) as H.
  { destruct t as [held [|c next] k|held c next k]; cbn [stretch_code].
    - apply wps_bind. eapply wps_mono; [exact (Htok _ _ Hrel)|]. intros sa [] sb [(_ & Hm & _) _]. done.
    - apply wps_bind. eapply wps_mono; [exact (Htok _ _ Hrel)|]. intros sa [] sb [Ho Em].
      eapply wps_mono; [by apply trap_ok|]. by intros ? ? ? [(_ & Hm & _) _].
    - destruct Htok as (pid' & _ & Htok). eapply wps_mono; [exact (Htok _ _ Hrel)|].
      by intros ? ? ? [(_ & Hm & _) _]. }
  destruct (stretch_code i t s1) as [v s| |[]|s k]; try done. by destruct H as [(_ & Hm & _) _].
Qed.

(** * A run *)

(** One step of process [i], computed. *)
Definition finish (held : list nat) (c : mcall) (next : Z -> uprog) (r : kres Z) : option (kst * uthread) :=
  match r with
  | KSwitch s k => Some (s, TCall held c next k)
  | KDone v s =>
      match yield s with KSwitch s' k => Some (s', TUser (after c v held) (next v) k) | _ => None end
  | _ => None
  end.

Definition run_one (i : nat) (P : mpool) : option mpool :=
  match scheduler_pass [i] false (mp_s P), mp_threads P !! i with
  | KSwitch s1 back, Some t =>
      o ← match t with
          | TUser held (UCall c next) k => finish held c next (kbind (fun _ => trap i c) (k s1))
          | TCall held c next k => finish held c next (k s1)
          | TUser _ UStop _ => None
          end;
      match back o.1 with
      | KDone _ s3 => Some (mk_mpool s3 (<[i := o.2]> (mp_threads P)))
      | _ => None
      end
  | _, _ => None
  end.

Lemma finish_stretch held c next r s t : finish held c next r = Some (s, t) -> stretch held c next r s t.
Proof.
  destruct r as [v s'| | |s' k]; simpl; try done.
  - destruct (yield s') eqn:E; try done. intros [= <- <-]. by apply st_return.
  - intros [= <- <-]. constructor.
Qed.

Lemma run_one_step i P P' : run_one i P = Some P' -> mstep P P'.
Proof.
  destruct P as [s th]. unfold run_one. cbn [mp_s mp_threads].
  destruct (scheduler_pass [i] false s) as [| | |s1 back] eqn:Ep; try done.
  destruct (th !! i) as [t|] eqn:Et; [|discriminate]. intros H. apply bind_Some in H as ([s2 t'] & Hf & Hb). simpl in Hb.
  destruct (back s2) eqn:Eb; try done. injection Hb as <-.
  destruct t as [held [|c next] k|held c next k]; [done| |]; apply finish_stretch in Hf.
  - by eapply ms_call.
  - by eapply ms_resume.
Qed.

(** The first process creates a mutex and takes it, the second one waits for it. *)
Definition ex_pool : mpool :=
  mk_mpool
    (mk_kst (mk_cpu 0 None 0 false false) ∅ ∅ 0
      (ex_proc RUNNABLE 1 None 0 0 [] :: ex_proc RUNNABLE 2 None 0 0 [] :: replicate 62 (ex_proc UNUSED 0 None 0 0 []))
      3 0 [] [] (replicate NKMUTEX (mk_mutex 0 0 0)) 0 ∅ ∅ no_fs)
    [TUser [] (UCall MCreate (fun _ => UCall (MLock 3 0) (fun _ => UStop))) (release (LProc 0));
     TUser [] (UCall (MLock 3 0) (fun _ => UStop)) (release (LProc 1))].

Definition ex_pids2 : list Z := 1 :: 2 :: replicate 62 0.

Definition ex_run (l : list nat) : mpool := foldl (fun P i => default P (run_one i P)) ex_pool l.

Lemma ex_run_reach l :
  (forall k, (k < length l)%nat -> exists i, l !! k = Some i /\ is_Some (run_one i (ex_run (take k l)))) ->
  rtc mstep ex_pool (ex_run l).
Proof.
  induction l as [|i l IH] using rev_ind; [constructor|]. intros H.
  eapply rtc_r; [apply IH|].
  - intros k Hk. destruct (H k) as (j & Hj & Hr); [rewrite length_app; lia|].
    rewrite lookup_app_l in Hj by done. rewrite take_app_le in Hr by lia. by exists j.
  - destruct (H (length l)) as (j & Hj & P' & Hr); [rewrite length_app; simpl; lia|].
    rewrite (list_lookup_middle l [] i) in Hj by done. injection Hj as <-. rewrite take_app_length in Hr.
    replace (ex_run (l ++ [i])) with (default (ex_run l) (run_one i (ex_run l))) by (unfold ex_run; by rewrite foldl_app).
    rewrite Hr. by apply (run_one_step i).
Qed.

Lemma ex_minit : minit ex_pids2 ex_pool.
Proof.
  split; [done|]. split; [|split].
  - constructor; [reflexivity|reflexivity| | |by eapply two_pids].
    + by repeat constructor.
    + apply Forall_cons. split; [by apply waits_awake|]. apply Forall_cons. split; [by apply waits_awake|].
      apply Forall_replicate. by apply waits_awake.
  - by repeat constructor.
  - intros [|[|i]] t [= <-]; (split; [by eexists|]); by eexists.
Qed.

Lemma ex_reach : mreach ex_pids2 (ex_run [0; 0; 1]%nat).
Proof.
  exists ex_pool. split; [exact ex_minit|]. apply ex_run_reach.
  intros [|[|[|k]]] Hk; simpl in Hk; [| | |lia]; eexists; (split; [reflexivity|]);
    match goal with |- is_Some (run_one ?i ?P) => destruct (run_one i P) eqn:E; [by eexists|] end; exfalso;
    match type of E with run_one ?i ?P = None =>
      assert (match run_one i P with Some _ => true | None => false end = true) as H by (vm_compute; reflexivity) end;
    by rewrite E in H.
Qed.

(** Process 0 holds mutex 0 ... *)
Lemma ex_holds : exists t, mp_threads (ex_run [0; 0; 1]%nat) !! 0%nat = Some t /\ 0%nat ∈ held_of t.
Proof.
  assert (held_of <$> mp_threads (ex_run [0; 0; 1]%nat) !! 0%nat = Some [0%nat]) as H by (vm_compute; reflexivity).
  apply fmap_Some in H as (t & Ht & Eh). exists t. split; [done|]. rewrite <- Eh. by apply list_elem_of_singleton.
Qed.

(** ... and process 1 sleeps on it. *)
Lemma ex_sleeps : exists p, k_procs (mp_s (ex_run [0; 0; 1]%nat)) !! 1%nat = Some p /\
  p_state p = SLEEPING /\ p_chan p = Some (CMutex 0).
Proof.
  assert ((fun p => (p_state p, p_chan p)) <$> k_procs (mp_s (ex_run [0; 0; 1]%nat)) !! 1%nat
    = Some (SLEEPING, Some (CMutex 0))) as H by (vm_compute; reflexivity).
  apply fmap_Some in H as (p & Hp & E). injection E as Hs Hc. exists p.
  split; [exact Hp|]. split; [symmetry; exact Hs|symmetry; exact Hc].
Qed.



Lemma mutex_code_safe_witness :
  exists t s1 back, mp_threads (ex_run [0; 0; 1]%nat) !! 0%nat = Some t /\
    scheduler_pass [0%nat] false (mp_s (ex_run [0; 0; 1]%nat)) = KSwitch s1 back /\
    match stretch_code 0 t s1 with
    | KPanic _ => False
    | KStuck w => w = Asleep
    | KDone _ s | KSwitch s _ => minv ex_pids2 s
    end.
Proof.
  destruct ex_holds as (t & Ht & _).
  destruct (scheduler_pass [0%nat] false (mp_s (ex_run [0; 0; 1]%nat))) as [b s|m|w|s1 back] eqn:E.
  1-3: exfalso; assert (match scheduler_pass [0%nat] false (mp_s (ex_run [0; 0; 1]%nat)) with KSwitch _ _ => true | _ => false end = true)
    as H by (vm_compute; reflexivity); rewrite E in H; discriminate H.
  exists t, s1, back. split; [exact Ht|]. split; [reflexivity|].
  exact (mutex_code_safe ex_pids2 _ 0 t s1 back ex_reach Ht E).
Defined.
