(* ===== verification/XvPipe.v ===== *)
(** Pipes (kernel/pipe.c) and the open-file table they live in (kernel/file.c).
    A pipe is the object at the address [kalloc] returned; freeing the page ends
    it.  Loops that wait are followed through a number of wakeups. *)

From S2P Require Import Prelude XvMem XvFsTypes XvKernel XvMsg XvSched XvVm.

Definition PIPESIZE : Z := 512.

(** * Access to the tables *)

Definition get_pipe (a : Z) : KM pipe :=
  o ← gets (fun s => k_pipes s !! a);
  match o with Some pi => mret pi | None => kstuck BadAccess end.

Definition put_pipe (a : Z) (pi : pipe) : KM unit :=
  modify (fun s => set_pipes (<[a := pi]> (k_pipes s)) s).

Definition get_file (f : nat) : KM file :=
  o ← gets (fun s => fs_files (k_fs s) !! f);
  match o with Some x => mret x | None => kstuck BadAccess end.

Definition upd_file (f : nat) (g : file -> file) : KM unit :=
  x ← get_file f;
  modify (fun s => set_fs (set_files (<[f := g x]> (fs_files (k_fs s))) (k_fs s)) s).

Definition set_fref r f := mk_file (f_type f) r (f_readable f) (f_writable f) (f_pipe f) (f_ip f) (f_off f) (f_major f).
Definition set_ftype t f := mk_file t (f_ref f) (f_readable f) (f_writable f) (f_pipe f) (f_ip f) (f_off f) (f_major f).
Definition set_fpipe r w a f := mk_file FD_PIPE (f_ref f) r w a (f_ip f) (f_off f) (f_major f).

(** * Reading and writing *)

Section pipe.
Context {U : UserCopy}.

Definition pipe_full (pi : pipe) : bool := pi_nwrite pi =? u32 (pi_nread pi + PIPESIZE).

(** The end of [pipewrite] after [i] bytes. *)
Definition pipewrite_end (a i : Z) : KM Z :=
  wakeup (Some (CPipeRead a));;
  release (LPipe a);;
  mret i.

(** Every round stores a byte or waits, so that a loop that runs out of
    [sleeps + n] rounds has waited more than [sleeps] times. *)
Fixpoint pipewrite_loop (fuel : nat) (pr : nat) (a addr n i : Z) : KM Z :=
  if i <? n then
    match fuel with
    | O => kstuck Asleep
    | S f =>
        pi ← get_pipe a;
        stop ← (if pi_readopen pi =? 0 then mret true
                else k ← killed pr; mret (negb (k =? 0)));
        if (stop : bool) then
          release (LPipe a);;
          mret (-1)
        else if pipe_full pi then
          wakeup (Some (CPipeRead a));;
          sleep (CPipeWrite a) (LPipe a);;
          pipewrite_loop f pr a addr n i
        else
          p ← get_proc pr;
          '(rc, data) ← XvMsg.copyin (p_pagetable p) (u64 (addr + i)) 1;
          if rc =? -1 then pipewrite_end a i
          else
            match data with
            | ch :: _ =>
                put_pipe a (mk_pipe (<[Z.to_nat (pi_nwrite pi mod PIPESIZE) := ch]> (pi_data pi)) (pi_nread pi)
                  (u32 (pi_nwrite pi + 1)) (pi_readopen pi) (pi_writeopen pi));;
                pipewrite_loop f pr a addr n (i + 1)
            | [] => kstuck BadAccess
            end
    end
  else pipewrite_end a i.

Definition pipewrite (sleeps : nat) (a addr n : Z) : KM Z :=
  pr ← myproc;
  acquire (LPipe a);;
  pipewrite_loop (sleeps + Z.to_nat n) pr a addr n 0.

(** [while(pi->nread == pi->nwrite && pi->writeopen)]: [true] when the call was
    left because the process is killed. *)
Fixpoint piperead_wait (fuel : nat) (pr : nat) (a : Z) : KM bool :=
  pi ← get_pipe a;
  if (pi_nread pi =? pi_nwrite pi) && negb (pi_writeopen pi =? 0) then
    k ← killed pr;
    if negb (k =? 0) then
      release (LPipe a);;
      mret true
    else
      sleep (CPipeRead a) (LPipe a);;
      match fuel with
      | O => kstuck Asleep
      | S f => piperead_wait f pr a
      end
  else mret false.

(** [todo] is [n - i]. *)
Fixpoint piperead_copy (todo : nat) (pr : nat) (a addr i : Z) : KM Z :=
  match todo with
  | O => mret i
  | S todo' =>
      pi ← get_pipe a;
      if pi_nread pi =? pi_nwrite pi then mret i
      else
        match pi_data pi !! Z.to_nat (pi_nread pi mod PIPESIZE) with
        | None => kstuck BadAccess
        | Some ch =>
            p ← get_proc pr;
            rc ← XvMsg.copyout (p_pagetable p) (u64 (addr + i)) [ch] 1;
            if rc =? -1 then mret (if i =? 0 then -1 else i)
            else
              put_pipe a (mk_pipe (pi_data pi) (u32 (pi_nread pi + 1)) (pi_nwrite pi) (pi_readopen pi) (pi_writeopen pi));;
              piperead_copy todo' pr a addr (i + 1)
        end
  end.

Definition piperead (sleeps : nat) (a addr n : Z) : KM Z :=
  pr ← myproc;
  acquire (LPipe a);;
  gone ← piperead_wait sleeps pr a;
  if (gone : bool) then mret (-1)
  else
    i ← piperead_copy (Z.to_nat n) pr a addr 0;
    wakeup (Some (CPipeWrite a));;
    release (LPipe a);;
    mret i.

End pipe.

(** * Closing and opening *)

(** What files and processes need of the file system (kernel/fs.c, kernel/log.c):
    giving an inode back inside a transaction ([begin_op], [iput], [end_op]),
    another reference to an inode, and the inode of the root directory. *)
Class Inodes := {
  release_inode : Z -> KM unit;
  idup : Z -> KM Z;
  namei_root : KM Z;
}.

Section files.
Context {Lay : Layout}.

Definition pipeclose (a writable : Z) : KM unit :=
  acquire (LPipe a);;
  pi ← get_pipe a;
  (if negb (writable =? 0) then
     put_pipe a (mk_pipe (pi_data pi) (pi_nread pi) (pi_nwrite pi) (pi_readopen pi) 0);;
     wakeup (Some (CPipeRead a))
   else
     put_pipe a (mk_pipe (pi_data pi) (pi_nread pi) (pi_nwrite pi) 0 (pi_writeopen pi));;
     wakeup (Some (CPipeWrite a)));;
  pi ← get_pipe a;
  if (pi_readopen pi =? 0) && (pi_writeopen pi =? 0) then
    release (LPipe a);;
    kfree a;;
    modify (fun s => set_pipes (delete a (k_pipes s)) s)
  else release (LPipe a).

Definition fileinit : KM unit := initlock LFtable.

(** The index of the file, [None] for a null pointer. *)
Definition filealloc : KM (option nat) :=
  acquire LFtable;;
  r ← for_some (seq 0 NFILE) (fun f =>
    x ← get_file f;
    if f_ref x =? 0 then
      upd_file f (set_fref 1);;
      release LFtable;;
      mret (Some f)
    else mret None);
  match r with
  | Some f => mret (Some f)
  | None => release LFtable;; mret None
  end.

Definition filedup (f : nat) : KM nat :=
  acquire LFtable;;
  x ← get_file f;
  if f_ref x <? 1 then panic (L"filedup")
  else
    upd_file f (set_fref (i32 (f_ref x + 1)));;
    release LFtable;;
    mret f.

Context {FS : Inodes}.

Definition fileclose (f : nat) : KM unit :=
  acquire LFtable;;
  x ← get_file f;
  if f_ref x <? 1 then panic (L"fileclose")
  else
    upd_file f (set_fref (f_ref x - 1));;
    if 0 <? f_ref x - 1 then release LFtable
    else
      upd_file f (fun g => set_ftype FD_NONE (set_fref 0 g));;
      release LFtable;;
      match f_type x with
      | FD_PIPE => pipeclose (f_pipe x) (f_writable x)
      | FD_INODE | FD_DEVICE => release_inode (f_ip x)
      | FD_NONE => mret tt
      end.

(** Both files and 0, or [None] and -1 after giving everything back.  The page
    itself is the last thing to be allocated, so that [kfree(pi)] at [bad] is
    never reached. *)
Definition pipealloc : KM (Z * option (nat * nat)) :=
  let bad (f0 f1 : option nat) : KM (Z * option (nat * nat)) :=
    (match f0 with Some f => fileclose f | None => mret tt end);;
    (match f1 with Some f => fileclose f | None => mret tt end);;
    mret (-1, None) in
  f0 ← filealloc;
  match f0 with
  | None => bad None None
  | Some f =>
      f1 ← filealloc;
      match f1 with
      | None => bad (Some f) None
      | Some g =>
          pi ← kalloc;
          if pi =? 0 then bad (Some f) (Some g)
          else
            (* [data] follows the 24 bytes of the lock and holds what [kalloc] left there *)
            junk ← on_mem (load_block (Z.to_nat PIPESIZE) (pi + 24));
            put_pipe pi (mk_pipe junk 0 0 1 1);;
            initlock (LPipe pi);;
            upd_file f (set_fpipe 1 0 pi);;
            upd_file g (set_fpipe 0 1 pi);;
            mret (0, Some (f, g))
      end
  end.

End files.
