(* ===== verification/XvPipeProofs.v ===== *)
(** Pipes as bounded queues of bytes: the circular buffer with its two 32-bit
    counters, and what [pipewrite] and [piperead] do to it. *)

From S2P Require Import Prelude XvMem XvKernel XvMsg XvSched XvSchedProofs XvSegments XvSignalClaims XvMutex XvVm XvPipe.

(** * The circular buffer *)

(** The bytes between the counters, which wrap around at 2^32 separately. *)
Definition pending (pi : pipe) : nat := Z.to_nat (u32 (pi_nwrite pi - pi_nread pi)).

Definition slot (pi : pipe) (k : nat) : nat := Z.to_nat ((pi_nread pi + Z.of_nat k) mod PIPESIZE).

Definition queue (pi : pipe) : bytes := (fun k => pi_data pi !!! slot pi k) <$> seq 0 (pending pi).

Record pipe_ok (pi : pipe) : Prop := mk_pipe_ok {
  po_data : length (pi_data pi) = Z.to_nat PIPESIZE;
  po_bytes : Forall is_byte (pi_data pi);
  po_nread : 0 <= pi_nread pi < 2 ^ 32;
  po_nwrite : 0 <= pi_nwrite pi < 2 ^ 32;
  po_fits : u32 (pi_nwrite pi - pi_nread pi) <= PIPESIZE;
}.

Definition push (ch : Z) (pi : pipe) : pipe :=
  mk_pipe (<[Z.to_nat (pi_nwrite pi mod PIPESIZE) := ch]> (pi_data pi)) (pi_nread pi)
    (u32 (pi_nwrite pi + 1)) (pi_readopen pi) (pi_writeopen pi).

Definition pop (pi : pipe) : pipe :=
  mk_pipe (pi_data pi) (u32 (pi_nread pi + 1)) (pi_nwrite pi) (pi_readopen pi) (pi_writeopen pi).

Lemma u32_wrap_mod z : u32 z mod PIPESIZE = z mod PIPESIZE.
Proof. unfold u32, PIPESIZE. apply Z.mod_mod_divide. exists (2 ^ 23). reflexivity. Qed.

Lemma u32_sub_eq a b : 0 <= a < 2 ^ 32 -> 0 <= b < 2 ^ 32 -> u32 (a - b) = if b <=? a then a - b else a - b + 2 ^ 32.
Proof.
  intros Ha Hb. unfold u32. destruct (Z.leb_spec b a).
  - apply Z.mod_small. lia.
  - symmetry. apply Z.mod_unique with (-1); lia.
Qed.

Lemma u32_succ a : 0 <= a < 2 ^ 32 -> u32 (a + 1) = if a =? 2 ^ 32 - 1 then 0 else a + 1.
Proof.
  intros Ha. unfold u32. destruct (Z.eqb_spec a (2 ^ 32 - 1)) as [->|]; [reflexivity|]. apply Z.mod_small. lia.
Qed.

Ltac leb_cases := repeat match goal with
  | |- context [?a <=? ?b] => destruct (Z.leb_spec a b)
  | H : context [?a <=? ?b] |- _ => destruct (Z.leb_spec a b)
  end; try lia.

Lemma queue_length pi : length (queue pi) = pending pi.
Proof. unfold queue. by rewrite length_fmap, length_seq. Qed.

Lemma queue_lookup pi k : (k < pending pi)%nat -> queue pi !! k = Some (pi_data pi !!! slot pi k).
Proof. intros Hk. unfold queue. rewrite list_lookup_fmap, lookup_seq_lt by done. done. Qed.

Lemma slot_lt pi k : (slot pi k < Z.to_nat PIPESIZE)%nat.
Proof. unfold slot. pose proof (Z.mod_pos_bound (pi_nread pi + Z.of_nat k) PIPESIZE ltac:(done)). unfold PIPESIZE in *. lia. Qed.

(** Different places in the queue are different slots. *)
Lemma slot_inj pi j k : (j < Z.to_nat PIPESIZE)%nat -> (k < Z.to_nat PIPESIZE)%nat -> slot pi j = slot pi k -> j = k.
Proof.
  unfold slot, PIPESIZE. intros Hj Hk E.
  pose proof (Z.mod_pos_bound (pi_nread pi + Z.of_nat j) 512 ltac:(done)).
  pose proof (Z.mod_pos_bound (pi_nread pi + Z.of_nat k) 512 ltac:(done)).
  pose proof (Z.div_mod (pi_nread pi + Z.of_nat j) 512 ltac:(done)).
  pose proof (Z.div_mod (pi_nread pi + Z.of_nat k) 512 ltac:(done)). lia.
Qed.

Lemma pipe_full_spec pi : pipe_ok pi -> pipe_full pi = bool_decide (len (queue pi) = PIPESIZE).
Proof.
  intros [_ _ Hr Hw Hf]. unfold pipe_full. rewrite queue_length. unfold pending.
  pose proof (u32_range (pi_nwrite pi - pi_nread pi)). rewrite Z2Nat.id by lia.
  apply eq_true_iff_eq. rewrite Z.eqb_eq, bool_decide_eq_true. unfold PIPESIZE in *.
  rewrite u32_sub_eq in * by done. unfold u32.
  destruct (Z.leb_spec (pi_nread pi) (pi_nwrite pi)).
  - split; intros E; [|rewrite Z.mod_small by lia; lia].
    destruct (Z_lt_ge_dec (pi_nread pi + 512) (2 ^ 32)); [rewrite Z.mod_small in E by lia; lia|].
    rewrite <- (Z.mod_unique _ _ 1 (pi_nread pi + 512 - 2 ^ 32)) in E by lia. lia.
  - split; intros E; [|rewrite <- (Z.mod_unique _ _ 1 (pi_nread pi + 512 - 2 ^ 32)) by lia; lia].
    destruct (Z_lt_ge_dec (pi_nread pi + 512) (2 ^ 32)); [rewrite Z.mod_small in E by lia; lia|].
    rewrite <- (Z.mod_unique _ _ 1 (pi_nread pi + 512 - 2 ^ 32)) in E by lia. lia.
Qed.

Lemma pipe_empty_spec pi : pipe_ok pi -> (pi_nread pi =? pi_nwrite pi) = bool_decide (queue pi = []).
Proof.
  intros [_ _ Hr Hw Hf]. apply eq_true_iff_eq. rewrite Z.eqb_eq, bool_decide_eq_true, <- length_zero_iff_nil, queue_length.
  unfold pending. rewrite u32_sub_eq in * by done. destruct (Z.leb_spec (pi_nread pi) (pi_nwrite pi)); lia.
Qed.

Lemma u32_grow a b : 0 <= a < 2 ^ 32 -> 0 <= b < 2 ^ 32 -> u32 (a - b) < 2 ^ 32 - 1 ->
  u32 (u32 (a + 1) - b) = u32 (a - b) + 1.
Proof.
  intros Ha Hb Hlt. rewrite (u32_sub_eq a b) in * by done. rewrite u32_succ by done.
  destruct (Z.eqb_spec a (2 ^ 32 - 1)); rewrite u32_sub_eq by lia; leb_cases.
Qed.

Lemma u32_shrink a b : 0 <= a < 2 ^ 32 -> 0 <= b < 2 ^ 32 -> 0 < u32 (a - b) ->
  u32 (a - u32 (b + 1)) = u32 (a - b) - 1.
Proof.
  intros Ha Hb Hlt. rewrite (u32_sub_eq a b) in * by done. rewrite u32_succ by done.
  destruct (Z.eqb_spec b (2 ^ 32 - 1)); rewrite u32_sub_eq by lia; leb_cases.
Qed.

Lemma pending_push ch pi : pipe_ok pi -> len (queue pi) < PIPESIZE -> pending (push ch pi) = S (pending pi).
Proof.
  intros [_ _ Hr Hw Hf] Hl. rewrite queue_length in Hl. unfold pending, push in *. simpl.
  pose proof (u32_range (pi_nwrite pi - pi_nread pi)). unfold PIPESIZE in *. rewrite u32_grow by lia. lia.
Qed.

Lemma push_ok ch pi : pipe_ok pi -> is_byte ch -> len (queue pi) < PIPESIZE -> pipe_ok (push ch pi).
Proof.
  intros Hok Hb Hl. pose proof (pending_push ch pi Hok Hl) as Hp. pose proof Hok as [H1 H2 H3 H4 H5].
  rewrite queue_length in Hl. constructor; simpl.
  - by rewrite length_insert.
  - by apply Forall_insert.
  - done.
  - apply u32_range.
  - unfold pending, push in Hp. simpl in Hp. pose proof (u32_range (u32 (pi_nwrite pi + 1) - pi_nread pi)).
    unfold pending in Hl. lia.
Qed.

(** The slot written is the one behind the last byte. *)
Lemma push_slot pi : pipe_ok pi -> Z.to_nat (pi_nwrite pi mod PIPESIZE) = slot pi (pending pi).
Proof.
  intros [_ _ Hr Hw Hf]. unfold slot, pending. f_equal. pose proof (u32_range (pi_nwrite pi - pi_nread pi)).
  rewrite Z2Nat.id by lia. rewrite u32_sub_eq by done. destruct (Z.leb_spec (pi_nread pi) (pi_nwrite pi)).
  - f_equal. lia.
  - replace (pi_nread pi + (pi_nwrite pi - pi_nread pi + 2 ^ 32)) with (pi_nwrite pi + 2 ^ 23 * PIPESIZE) by (unfold PIPESIZE; lia).
    by rewrite Z.mod_add.
Qed.

Lemma queue_push ch pi : pipe_ok pi -> len (queue pi) < PIPESIZE -> queue (push ch pi) = queue pi ++ [ch].
Proof.
  intros Hok Hl. pose proof (pending_push ch pi Hok Hl) as Hp. pose proof (push_slot pi Hok) as Hs.
  rewrite queue_length in Hl. apply list_eq. intros k. destruct (decide (k < S (pending pi))%nat) as [Hk|Hk].
  - rewrite queue_lookup by lia. change (slot (push ch pi) k) with (slot pi k).
    change (pi_data (push ch pi)) with (<[Z.to_nat (pi_nwrite pi mod PIPESIZE) := ch]> (pi_data pi)). rewrite Hs.
    destruct (decide (k = pending pi)) as [->|Hne].
    + rewrite list_lookup_total_insert_eq by (rewrite (po_data _ Hok); apply slot_lt).
      by rewrite lookup_app_r, queue_length, Nat.sub_diag by (rewrite queue_length; lia).
    + rewrite list_lookup_total_insert_ne by (intros E; apply slot_inj in E; unfold PIPESIZE in *; lia).
      rewrite lookup_app_l by (rewrite queue_length; lia). by rewrite queue_lookup by lia.
  - rewrite !lookup_ge_None_2; [done|rewrite length_app, queue_length; simpl; lia|rewrite queue_length; lia].
Qed.

Lemma queue_pop pi : pipe_ok pi -> queue pi <> [] ->
  exists ch, pi_data pi !! Z.to_nat (pi_nread pi mod PIPESIZE) = Some ch /\ is_byte ch /\
    queue pi = ch :: queue (pop pi) /\ pipe_ok (pop pi).
Proof.
  intros Hok Hne. pose proof Hok as [H1 H2 H3 H4 H5].
  assert (0 < pending pi)%nat as Hpos. { rewrite <- queue_length. destruct (queue pi); [done|simpl; lia]. }
  assert (u32 (pi_nwrite pi - u32 (pi_nread pi + 1)) = u32 (pi_nwrite pi - pi_nread pi) - 1) as Hd.
  { unfold pending in Hpos. apply u32_shrink; [done|done|lia]. }
  assert (pending pi = S (pending (pop pi))) as Hp.
  { unfold pending in *. simpl. rewrite Hd. lia. }
  assert (slot pi 0 = Z.to_nat (pi_nread pi mod PIPESIZE)) as Hs0 by (unfold slot; by rewrite Z.add_0_r).
  destruct (lookup_lt_is_Some_2 (pi_data pi) (slot pi 0)) as [ch Hch]; [rewrite H1; apply slot_lt|].
  exists ch. rewrite <- Hs0. split; [done|]. split; [exact (Forall_lookup_1 _ _ _ _ H2 Hch)|]. split.
  - apply list_eq. intros [|k].
    + rewrite queue_lookup by lia. simpl. f_equal. by apply list_lookup_total_correct.
    + simpl. destruct (decide (k < pending (pop pi))%nat) as [Hk|Hk].
      * rewrite !queue_lookup by lia. do 2 f_equal. unfold slot. simpl. f_equal.
        rewrite <- (Z.add_mod_idemp_l (u32 _)), u32_wrap_mod, Z.add_mod_idemp_l by done. f_equal. lia.
      * rewrite !lookup_ge_None_2; [done|rewrite queue_length; lia..].
  - constructor; simpl; [done|done|apply u32_range|done|]. rewrite Hd. unfold PIPESIZE in *. lia.
Qed.

(** * The operations *)

Section ops.
Context {U : UserCopy} {UL : UserCopyLaws U} {rely : protocol}.

(** Process [pr] holds the lock of pipe [a] and is not killed. *)
Record in_pipe (pr : nat) (p : proc) (a : Z) (pi : pipe) (s : kst) : Prop := mk_in_pipe {
  ip_lock : with_lock (LPipe a) pr s;
  ip_vm : vm_ok s;
  ip_proc : k_procs s !! pr = Some p;
  ip_table : p_pagetable p <> 0;
  ip_alive : p_killed p = 0;
  ip_pipe : k_pipes s !! a = Some pi;
  ip_ok : pipe_ok pi;
}.

Lemma in_pipe_copy pr p a pi s : in_pipe pr p a pi s -> copy_ctx pr (p_pagetable p) s.
Proof.
  intros [Hw Hvm Hp Hpt _ _ _]. split; [done|]. split; [by eapply with_lock_cpu|].
  destruct Hw as (Hc & Hl & _). split; [done|]. split; [by exists p|]. rewrite Hl. by apply lookup_singleton_ne.
Qed.

Lemma in_pipe_put pr p a pi pi' s :
  in_pipe pr p a pi s -> pipe_ok pi' -> in_pipe pr p a pi' (set_pipes (<[a := pi']> (k_pipes s)) s).
Proof.
  intros [H1 H2 H3 H4 H5 H6 H7] Hok. constructor; try done.
  - eapply vm_ok_frame; [done|]. by split.
  - kproj. apply lookup_insert_eq.
Qed.

(** The end of an operation: the other side is woken and the lock released. *)
Definition finished (pr : nat) (ch : chan) (s s' : kst) : Prop :=
  entered pr s' /\ k_procs s' = imap (woken (Some pr) (Some ch)) (k_procs s) /\ same_rest s s'.

Lemma wpk_wake_release pr a ch i s (Q : Z -> kst -> Prop) :
  with_lock (LPipe a) pr s -> (forall s', finished pr ch s s' -> Q i s') ->
  wpk rely (wakeup (Some ch);; release (LPipe a);; mret i) s Q.
Proof.
  intros Hw HQ. pose proof Hw as (Hc & Hl & _ & _ & Ht). apply wpk_bind, wpk_wakeup.
  - by eapply with_lock_cpu.
  - done.
  - intros j _. rewrite Hl. by apply lookup_singleton_ne.
  - rewrite Hc. apply wpk_bind. eapply wpk_leave.
    { apply with_lock_procs; [done|]. apply length_imap. }
    intros s' He Hp Hr. apply wpk_ret, HQ. split; [done|]. split; [by rewrite Hp|].
    eapply same_rest_trans; [|exact Hr]. unfold same_rest. kst_eq.
Qed.

(** ** Writing *)

Definition wrote_pipe (pr : nat) (a : Z) (pi : pipe) (data : bytes) (s s' : kst) : Prop :=
  exists pi', pipe_ok pi' /\ queue pi' = queue pi ++ data /\
    pi_readopen pi' = pi_readopen pi /\ pi_writeopen pi' = pi_writeopen pi /\
    finished pr (CPipeRead a) (set_pipes (<[a := pi']> (k_pipes s)) s) s'.

Lemma set_pipes_id s a pi : k_pipes s !! a = Some pi -> set_pipes (<[a := pi]> (k_pipes s)) s = s.
Proof. intros H. kst_eq. by apply insert_id. Qed.

Lemma pipewrite_end_ok pr p a pi i s :
  in_pipe pr p a pi s -> wpk rely (pipewrite_end a i) s (fun r s' => r = i /\ wrote_pipe pr a pi [] s s').
Proof.
  intros [Hw _ _ _ _ Hpi Hok]. unfold pipewrite_end. eapply wpk_wake_release; [exact Hw|]. intros s' Hs'. split; [reflexivity|].
  exists pi. rewrite app_nil_r, set_pipes_id by exact Hpi. repeat (split; [done|]). exact Hs'.
Qed.

Lemma pipewrite_loop_ok pr p a addr data : forall fuel i pi s,
  in_pipe pr p a pi s -> pi_readopen pi <> 0 -> user_has s (p_pagetable p) addr data -> Forall is_byte data ->
  (i <= length data)%nat -> (length data - i <= fuel)%nat -> len (queue pi) + (len data - Z.of_nat i) <= PIPESIZE ->
  wpk rely (pipewrite_loop fuel pr a addr (len data) (Z.of_nat i)) s
    (fun r s' => r = len data /\ wrote_pipe pr a pi (drop i data) s s').
Proof.
  induction fuel as [|fuel IH]; intros i pi s Hin Hro Hus Hb Hi Hfuel Hroom; cbn [pipewrite_loop].
  all: destruct (Z.ltb_spec (Z.of_nat i) (len data)) as [Hlt|Hge];
    [try lia|assert (i = length data) as -> by lia; rewrite drop_all; by eapply pipewrite_end_ok].
  pose proof Hin as [Hw Hvm Hp Hpt Hk Hpi Hok].
  destruct (lookup_lt_is_Some_2 data i) as [x Hx]; [lia|].
  apply wpk_bind. unfold get_pipe. apply wpk_bind, wpk_gets. rewrite Hpi. apply wpk_ret.
  apply wpk_bind. destruct (Z.eqb_spec (pi_readopen pi) 0) as [|_]; [done|]. apply wpk_bind.
  eapply wpk_killed; [by eapply with_lock_cpu| |done|].
  { destruct Hw as (_ & -> & _). by apply lookup_singleton_ne. }
  rewrite Hk. apply wpk_ret. cbv iota. change (negb (0 =? 0)) with false. cbv iota.
  rewrite pipe_full_spec by done. rewrite bool_decide_eq_false_2 by lia.
  apply wpk_bind. eapply wpk_get_proc; [done|]. apply wpk_bind.
  destruct (user_has_byte s _ addr data i x Hus Hx) as [Hu64 Hbyte].
  assert (u64 (addr + Z.of_nat i) = addr + Z.of_nat i) as -> by (apply Z.mod_small; exact Hu64).
  kmono (by apply (wpk_copyin_has rely _ _ [x] s pr (in_pipe_copy _ _ _ _ _ Hin))).
  intros [rc d] s' (-> & -> & ->). cbv iota. change (0 =? -1) with false. cbv iota.
  apply wpk_bind, wpk_modify. fold (push x pi).
  assert (is_byte x) as Hbx by exact (Forall_lookup_1 _ _ _ _ Hb Hx).
  assert (len (queue pi) < PIPESIZE) as Hl by lia.
  assert (in_pipe pr p a (push x pi) (set_pipes (<[a := push x pi]> (k_pipes s)) s)) as Hin'.
  { eapply in_pipe_put; [done|]. by apply push_ok. }
  replace (Z.of_nat i + 1) with (Z.of_nat (S i)) by lia.
  kmono (apply (IH (S i) (push x pi)); [done|done|by eapply user_has_frame|done|lia|lia|]).
  { rewrite queue_push by done. rewrite length_app. simpl. lia. }
  intros r s' (-> & pi' & Hok' & Hq' & Er & Ew & Hf). split; [done|]. exists pi'. split; [done|].
  rewrite queue_push in Hq' by done. rewrite <- app_assoc in Hq'. rewrite (drop_S _ _ _ Hx).
  do 3 (split; [done|]). revert Hf. kproj. rewrite insert_insert_eq. by destruct s.
Qed.

Lemma wpk_pipewrite sleeps pr p a pi addr data s :
  entered pr s -> vm_ok s -> k_procs s !! pr = Some p -> p_pagetable p <> 0 -> p_killed p = 0 ->
  k_pipes s !! a = Some pi -> pipe_ok pi -> pi_readopen pi <> 0 ->
  user_has s (p_pagetable p) addr data -> Forall is_byte data -> len (queue pi) + len data <= PIPESIZE ->
  wpk rely (pipewrite sleeps a addr (len data)) s (fun r s' => r = len data /\ exists s1,
    with_lock (LPipe a) pr s1 /\ k_procs s1 = k_procs s /\ same_rest s s1 /\ wrote_pipe pr a pi data s1 s').
Proof.
  intros He Hvm Hp Hpt Hk Hpi Hok Hro Hus Hb Hroom. unfold pipewrite. apply wpk_bind.
  destruct He as (Hc & Hcpu & Hidle). eapply wpk_myproc; [done..|]. apply wpk_bind. eapply wpk_enter; [done|].
  intros s1 Hw1 Hp1 Hr1.
  assert (k_mem s1 = k_mem s /\ k_freelist s1 = k_freelist s /\ k_pipes s1 = k_pipes s) as (Em & Ef & Epi) by by rewrite Hr1.
  kmono (apply (pipewrite_loop_ok pr p a addr data _ 0 pi s1)); try done; try lia.
  - constructor; try done; [|by rewrite Hp1|by rewrite Epi].
    eapply vm_ok_frame; [exact Hvm|]. unfold same_vm. by rewrite Em, Ef, Hp1.
  - by eapply user_has_frame.
  - intros r s' [-> Hs']. split; [done|]. exists s1. by rewrite drop_0 in Hs'.
Qed.

(** ** Reading *)

(** Memory, allocator and the pipe changed. *)
Definition read_only (a : Z) (pi : pipe) (s s' : kst) : Prop :=
  s' = set_mem (k_mem s') (set_freelist (k_freelist s') (set_pipes (<[a := pi]> (k_pipes s)) s)).

Lemma in_pipe_mem pr p a pi s s' : in_pipe pr p a pi s -> mem_only s s' -> vm_ok s' -> in_pipe pr p a pi s'.
Proof.
  intros [Hw Hvm Hp Hpt Hk Hpi Hok] Hm Hvm'. unfold mem_only in Hm.
  constructor; try done; rewrite Hm; [|done|done]. exact Hw.
Qed.

Definition read_pipe (pr : nat) (p : proc) (a : Z) (pi : pipe) (addr : Z) (got : bytes) (k : nat) (s s' : kst) : Prop :=
  exists pi', in_pipe pr p a pi' s' /\ queue pi' = drop k (queue pi) /\
    pi_readopen pi' = pi_readopen pi /\ pi_writeopen pi' = pi_writeopen pi /\
    user_has s' (p_pagetable p) addr (got ++ take k (queue pi)) /\ read_only a pi' s s'.

Lemma read_pipe_nothing pr p a pi addr got s :
  in_pipe pr p a pi s -> user_has s (p_pagetable p) addr got -> read_pipe pr p a pi addr got 0 s s.
Proof.
  intros Hin Hus. exists pi. rewrite drop_0, take_0, app_nil_r. do 5 (split; [done|]).
  unfold read_only. rewrite set_pipes_id by apply Hin. kst_eq.
Qed.

Lemma piperead_copy_ok pr p a addr n : forall todo got pi s,
  in_pipe pr p a pi s -> user_room s (p_pagetable p) addr n -> user_has s (p_pagetable p) addr got ->
  len got + Z.of_nat todo <= n ->
  wpk rely (piperead_copy todo pr a addr (len got)) s (fun r s' =>
    r = len got + Z.of_nat (todo `min` length (queue pi)) /\
    read_pipe pr p a pi addr got (todo `min` length (queue pi)) s s').
Proof.
  induction todo as [|todo IH]; intros got pi s Hin Hroom Hus Hn; cbn [piperead_copy].
  { apply wpk_ret. split; [simpl; lia|]. by apply read_pipe_nothing. }
  pose proof Hin as [Hw Hvm Hp Hpt Hk Hpi Hok].
  apply wpk_bind. unfold get_pipe. apply wpk_bind, wpk_gets. rewrite Hpi. apply wpk_ret.
  rewrite pipe_empty_spec by done. case_bool_decide as Hq.
  { apply wpk_ret. rewrite Hq, Nat.min_0_r. split; [lia|]. by apply read_pipe_nothing. }
  destruct (queue_pop pi Hok Hq) as (ch & Hch & Hb & Eq & Hok'). rewrite Hch.
  apply wpk_bind. eapply wpk_get_proc; [done|]. apply wpk_bind.
  kmono (apply (wpk_copyout_next rely _ addr n got ch s pr (in_pipe_copy _ _ _ _ _ Hin)); [done|done|lia|done]).
  intros rc s1 (-> & Hm & Hvm1 & Hroom1 & Hus1). change (0 =? -1) with false. cbv iota.
  apply wpk_bind, wpk_modify. fold (pop pi).
  pose proof (in_pipe_mem _ _ _ _ _ _ Hin Hm Hvm1) as Hin1.
  pose proof (in_pipe_put _ _ _ _ (pop pi) _ Hin1 Hok') as Hin2.
  replace (len got + 1) with (len (got ++ [ch])) by (rewrite length_app; simpl; lia).
  kmono (apply (IH (got ++ [ch]) (pop pi)); [done|by eapply user_room_frame|by eapply user_has_frame|rewrite length_app; simpl; lia]).
  intros r s' (-> & pi' & Hin' & Hq' & Er & Ew & Hus' & Hro). unfold read_pipe. rewrite Eq.
  cbn [length Nat.min]. split; [rewrite length_app; simpl; lia|].
  exists pi'. do 4 (split; [done|]). split; [by rewrite <- app_assoc in Hus'|].
  unfold read_only, mem_only in *. rewrite Hro, Hm. kst_eq. by rewrite insert_insert_eq.
Qed.

Lemma wpk_piperead sleeps pr p a pi addr n s :
  entered pr s -> vm_ok s -> k_procs s !! pr = Some p -> p_pagetable p <> 0 -> p_killed p = 0 ->
  k_pipes s !! a = Some pi -> pipe_ok pi -> queue pi <> [] \/ pi_writeopen pi = 0 ->
  0 <= n -> user_room s (p_pagetable p) addr n -> user_has s (p_pagetable p) addr [] ->
  let k := (Z.to_nat n `min` length (queue pi))%nat in
  wpk rely (piperead sleeps a addr n) s (fun r s' => r = Z.of_nat k /\
    user_has s' (p_pagetable p) addr (take k (queue pi)) /\
    exists pi', k_pipes s' !! a = Some pi' /\ pipe_ok pi' /\ queue pi' = drop k (queue pi) /\ entered pr s').
Proof.
  intros He Hvm Hp Hpt Hk Hpi Hok Hgo Hn Hroom Hnil k. unfold piperead. apply wpk_bind.
  destruct He as (Hc & Hcpu & Hidle). eapply wpk_myproc; [done..|]. apply wpk_bind. eapply wpk_enter; [done|].
  intros s1 Hw1 Hp1 Hr1.
  assert (k_mem s1 = k_mem s /\ k_freelist s1 = k_freelist s /\ k_pipes s1 = k_pipes s) as (Em & Ef & Epi) by by rewrite Hr1.
  assert (in_pipe pr p a pi s1) as Hin.
  { constructor; try done; [|by rewrite Hp1|by rewrite Epi].
    eapply vm_ok_frame; [exact Hvm|]. unfold same_vm. by rewrite Em, Ef, Hp1. }
  apply wpk_bind.
  assert (forall Q : bool -> kst -> Prop, Q false s1 -> wpk rely (piperead_wait sleeps pr a) s1 Q) as Hwait.
  { intros Q HQ. assert ((pi_nread pi =? pi_nwrite pi) && negb (pi_writeopen pi =? 0) = false) as E.
    { rewrite pipe_empty_spec by done. destruct Hgo as [Hq|Hwo]; [by rewrite bool_decide_eq_false_2|].
      rewrite Hwo. by rewrite andb_false_r. }
    destruct sleeps; cbn [piperead_wait]; apply wpk_bind; unfold get_pipe; apply wpk_bind, wpk_gets;
      rewrite (ip_pipe _ _ _ _ _ Hin); apply wpk_ret; rewrite E; by apply wpk_ret. }
  apply Hwait. apply wpk_bind.
  kmono (apply (piperead_copy_ok pr p a addr n (Z.to_nat n) [] pi s1);
    [done|by eapply user_room_frame|by eapply user_has_frame|simpl; lia]).
  intros r s2 [-> (pi' & Hin' & Hq' & _ & _ & Hus' & _)]. eapply wpk_wake_release; [apply Hin'|].
  intros s3 (He3 & _ & Hr3). split; [simpl; lia|].
  assert (k_mem s3 = k_mem s2 /\ k_pipes s3 = k_pipes s2) as [Em3 Epi3] by by rewrite Hr3.
  split; [by eapply user_has_frame|]. exists pi'. rewrite Epi3. by destruct Hin'.
Qed.

End ops.
