(* ===== verification/XvPipeClaims.v ===== *)
(** A pipe between two processes, on the page tables of the machine: what one
    writes the other reads, in order. *)

From S2P Require Import Prelude XvMem XvKernel XvMsg XvSched XvSchedProofs XvSegments XvVm XvPages XvWalk XvCopy XvExample XvCopyClaims XvPipe XvPipeProofs.

Section claims.
Context {Lay : Layout}.

(** Process [i] is in the kernel, alive, with a page table, and pipe [a] is there. *)
Definition pipe_user (i : nat) (p : proc) (a : Z) (pi : pipe) (s : kst) : Prop :=
  entered i s /\ vm_good s /\ k_procs s !! i = Some p /\ p_pagetable p <> 0 /\ p_killed p = 0 /\
  k_pipes s !! a = Some pi /\ pipe_ok pi.


End claims.

(** * On the example machine *)

(** An open pipe whose counters are about to wrap around. *)
Definition ex_pipe : pipe := mk_pipe (replicate 512 0) (2 ^ 32 - 2) (2 ^ 32 - 2) 1 1.

Definition ex_pipe_state (i : nat) : kst := set_pipes {[4096 := ex_pipe]} (ex_state i []).

Lemma ex_pipe_user :
  pipe_user 0 (ex_proc RUNNING 1 None (pg 0) PGSIZE []) 4096 ex_pipe (ex_pipe_state 0).
Proof.
  split; [|split; [|split; [reflexivity|split; [by apply ex_pg_ne|split; [reflexivity|split; [reflexivity|]]]]]].
  - split; [reflexivity|]. split; [by_decide|]. split; [reflexivity|]. split; [reflexivity|]. reflexivity.
  - eapply (vm_good_frame (ex_state 0 [])); [exact (ex_state_vm 0 [])|]. done.
  - constructor; [reflexivity|by apply Forall_replicate|by_decide|by_decide|by_decide].
Qed.

