(* ===== verification/XvProc.v ===== *)
(** The life of a process (kernel/proc.c): creation, fork, exit, wait, and the
    system calls of kernel/sysproc.c on them; shared memory segments, which a
    process gives back when it is freed.  The saved context of a process that
    does not run is its resumption, so [allocproc] has no context to set up. *)

From S2P Require Import Prelude XvMem XvString XvKernel XvMsg XvSched XvVm XvPipe.

(** * Shared memory segments (kernel/shm.c, kernel/sysproc.c) *)

Section proc.
Context {Lay : Layout} {FS : Inodes}.

Definition get_shm (id : nat) : KM shmseg :=
  o ← gets (fun s => k_shm s !! id);
  match o with Some e => mret e | None => kstuck BadAccess end.

Definition put_shm (id : nat) (e : shmseg) : KM unit :=
  modify (fun s => set_shm (<[id := e]> (k_shm s)) s).

Definition shm_pa (e : shmseg) (j : nat) : KM Z :=
  match sh_pa e !! j with Some pa => mret pa | None => kstuck BadAccess end.

(** [shmtable[id].pa[j] = pa]; a store past the array is stuck. *)
Definition set_shm_pa (id : nat) (e : shmseg) (j : nat) (pa : Z) : KM unit :=
  if (j <? length (sh_pa e))%nat then
    put_shm id (mk_shm (sh_used e) (sh_key e) (sh_size e) (sh_npages e) (<[j := pa]> (sh_pa e)) (sh_refcount e))
  else kstuck BadAccess.

Definition shminit : KM unit := initlock LShm.

(** The slot's address in the table of process [i]. *)
Definition shm_va (i id : nat) : KM Z :=
  p ← get_proc i;
  match p_shm_va p !! id with Some va => mret va | None => kstuck BadAccess end.

Definition set_shm_va (i id : nat) (va : Z) : KM unit :=
  upd_proc i (fun p => set_pshm_va (<[id := va]> (p_shm_va p)) p).

(** One user less: [refcount--], and the pages and the slot are freed when it
    was the last.  The same code is in [sys_shmdt] and [freeproc]. *)
Definition shm_release (id : nat) : KM unit :=
  e ← get_shm id;
  let refcount := i32 (sh_refcount e - 1) in
  put_shm id (mk_shm (sh_used e) (sh_key e) (sh_size e) (sh_npages e) (sh_pa e) refcount);;
  if refcount <=? 0 then
    for_each (seq 0 (Z.to_nat (sh_npages e))) (fun j =>
      e ← get_shm id;
      pa ← shm_pa e j;
      kfree pa;;
      e ← get_shm id;
      set_shm_pa id e j 0);;
    e ← get_shm id;
    put_shm id (mk_shm 0 0 0 0 (sh_pa e) 0)
  else mret tt.

(** The pages of a new segment; [false] when memory ran out and those already
    allocated were given back. *)
Fixpoint shm_alloc (todo : list nat) (id : nat) : KM bool :=
  match todo with
  | [] => mret true
  | j :: rest =>
      mem ← kalloc;
      if mem =? 0 then
        for_each (seq 0 j) (fun k => e ← get_shm id; pa ← shm_pa e k; kfree pa);;
        mret false
      else
        on_mem (KString.memset mem 0 PGSIZE);;
        e ← get_shm id;
        set_shm_pa id e j mem;;
        shm_alloc rest id
  end.

Definition sys_shmget : KM Z :=
  key ← argint 0;
  size ← argint 1;
  if (size <=? 0) || (MAX_SHM_SIZE <? size) then mret (-1)
  else
    let npages := (size + PGSIZE - 1) / PGSIZE in
    acquire LShm;;
    r ← for_some (seq 0 MAX_SHM) (fun i =>
      e ← get_shm i;
      if negb (sh_used e =? 0) && (sh_key e =? key) then
        release LShm;;
        mret (Some (Z.of_nat i))
      else mret None);
    match r with
    | Some v => mret v
    | None =>
        r ← for_some (seq 0 MAX_SHM) (fun i =>
          e ← get_shm i;
          if sh_used e =? 0 then
            put_shm i (mk_shm 1 key size npages (sh_pa e) 0);;
            ok ← shm_alloc (seq 0 (Z.to_nat npages)) i;
            if (ok : bool) then
              release LShm;;
              mret (Some (Z.of_nat i))
            else
              e ← get_shm i;
              put_shm i (mk_shm 0 (sh_key e) (sh_size e) (sh_npages e) (sh_pa e) (sh_refcount e));;
              release LShm;;
              mret (Some (-1))
          else mret None);
        match r with
        | Some v => mret v
        | None => release LShm;; mret (-1)
        end
    end.

(** The loop of [sys_shmat]: [false] when a page could not be mapped and the
    pages mapped before were unmapped again. *)
Fixpoint shm_map (todo : list nat) (pagetable va : Z) (e : shmseg) : KM bool :=
  match todo with
  | [] => mret true
  | j :: rest =>
      pa ← shm_pa e j;
      rc ← mappages pagetable (u64 (va + Z.of_nat j * PGSIZE)) PGSIZE pa (Z.lor (Z.lor PTE_R PTE_W) PTE_U);
      if negb (rc =? 0) then
        for_each (seq 0 j) (fun k => uvmunmap pagetable (u64 (va + Z.of_nat k * PGSIZE)) 1 false);;
        mret false
      else shm_map rest pagetable va e
  end.

Definition bad_shm (id : Z) : bool := (id <? 0) || (Z.of_nat MAX_SHM <=? id).

Definition sys_shmat : KM Z :=
  id ← argint 0;
  if bad_shm id then mret (-1)
  else
    i ← myproc;
    acquire LShm;;
    e ← get_shm (Z.to_nat id);
    if sh_used e =? 0 then release LShm;; mret (-1)
    else
      old ← shm_va i (Z.to_nat id);
      if negb (old =? 0) then release LShm;; mret old
      else
        let va := u64 (TRAPFRAME - (id + 1) * MAX_SHM_SIZE) in
        p ← get_proc i;
        ok ← shm_map (seq 0 (Z.to_nat (sh_npages e))) (p_pagetable p) va e;
        if negb ok then release LShm;; mret (-1)
        else
          set_shm_va i (Z.to_nat id) va;;
          put_shm (Z.to_nat id) (mk_shm (sh_used e) (sh_key e) (sh_size e) (sh_npages e) (sh_pa e) (i32 (sh_refcount e + 1)));;
          release LShm;;
          mret va.

Definition sys_shmdt : KM Z :=
  id ← argint 0;
  if bad_shm id then mret (-1)
  else
    i ← myproc;
    acquire LShm;;
    e ← get_shm (Z.to_nat id);
    va ← shm_va i (Z.to_nat id);
    if (sh_used e =? 0) || (va =? 0) then release LShm;; mret (-1)
    else
      p ← get_proc i;
      uvmunmap (p_pagetable p) va (sh_npages e) false;;
      set_shm_va i (Z.to_nat id) 0;;
      shm_release (Z.to_nat id);;
      release LShm;;
      mret 0.

(** * Address spaces of processes *)

(** A page table has three levels, so that [freewalk] is three calls deep. *)
Definition LEVELS : nat := 3.

Definition proc_pagetable (i : nat) : KM Z :=
  pagetable ← uvmcreate;
  if pagetable =? 0 then mret 0
  else
    rc ← mappages pagetable TRAMPOLINE PGSIZE trampoline (Z.lor PTE_R PTE_X);
    if rc <? 0 then
      uvmfree LEVELS pagetable 0;;
      mret 0
    else
      p ← get_proc i;
      rc ← mappages pagetable TRAPFRAME PGSIZE (p_trapframe p) (Z.lor PTE_R PTE_W);
      if rc <? 0 then
        uvmunmap pagetable TRAMPOLINE 1 false;;
        uvmfree LEVELS pagetable 0;;
        mret 0
      else mret pagetable.

Definition proc_freepagetable (pagetable sz : Z) : KM unit :=
  uvmunmap pagetable TRAMPOLINE 1 false;;
  uvmunmap pagetable TRAPFRAME 1 false;;
  uvmfree LEVELS pagetable sz.

Definition growproc (n : Z) : KM Z :=
  i ← myproc;
  p ← get_proc i;
  let sz := p_sz p in
  if 0 <? n then
    if TRAPFRAME <? u64 (sz + n) then mret (-1)
    else
      sz' ← uvmalloc (p_pagetable p) sz (u64 (sz + n)) PTE_W;
      if sz' =? 0 then mret (-1)
      else upd_proc i (set_psz sz');; mret 0
  else if n <? 0 then
    sz' ← uvmdealloc (p_pagetable p) sz (u64 (sz + n));
    upd_proc i (set_psz sz');;
    mret 0
  else upd_proc i (set_psz sz);; mret 0.

Definition SBRK_EAGER : Z := 1.

Definition sys_sbrk : KM Z :=
  n ← argint 0;
  t ← argint 1;
  i ← myproc;
  p ← get_proc i;
  let addr := p_sz p in
  if (t =? SBRK_EAGER) || (n <? 0) then
    r ← growproc n;
    if r <? 0 then mret (-1) else mret addr
  else if u64 (addr + n) <? addr then mret (-1)
  else if TRAPFRAME <? u64 (addr + n) then mret (-1)
  else
    i ← myproc;
    upd_proc i (fun p => set_psz (u64 (p_sz p + n)) p);;
    mret addr.

(** * Allocating and freeing *)

Definition procinit : KM unit :=
  initlock LPid;;
  initlock LWait;;
  for_each (seq 0 NPROC) (fun i =>
    initlock (LProc i);;
    upd_proc i (set_pstate UNUSED);;
    upd_proc i (set_pkstack (KSTACK (Z.of_nat i)))).

(** The detaching loop of [freeproc]. *)
Definition freeproc_shm (i : nat) : KM unit :=
  acquire LShm;;
  for_each (seq 0 MAX_SHM) (fun id =>
    va ← shm_va i id;
    e ← get_shm id;
    if negb (va =? 0) && negb (sh_used e =? 0) then
      p ← get_proc i;
      uvmunmap (p_pagetable p) va (sh_npages e) false;;
      set_shm_va i id 0;;
      shm_release id
    else mret tt);;
  release LShm.

Definition freeproc (i : nat) : KM unit :=
  freeproc_shm i;;
  p ← get_proc i;
  (if p_trapframe p =? 0 then mret tt else kfree (p_trapframe p));;
  upd_proc i (set_ptrapframe 0);;
  (if p_pagetable p =? 0 then mret tt else proc_freepagetable (p_pagetable p) (p_sz p));;
  upd_proc i (fun p => mk_proc UNUSED None 0 0 0 0 None (p_kstack p) 0 0 (p_trapframe p) (p_tf p)
    (p_ofile p) (p_cwd p) (<[0%nat := 0]> (p_name p)) (p_shm_va p)).

(** The index of the process, with its lock held; [None] for a null pointer. *)
Definition allocproc : KM (option nat) :=
  found ← for_some (seq 0 NPROC) (fun i =>
    acquire (LProc i);;
    p ← get_proc i;
    if bool_decide (p_state p = UNUSED) then mret (Some i)
    else release (LProc i);; mret None);
  match found with
  | None => mret None
  | Some i =>
      pid ← allocpid;
      upd_proc i (set_ppid pid);;
      upd_proc i (set_pstate USED);;
      upd_proc i (set_pfrozen 0);;
      upd_proc i (set_pshm_va (replicate MAX_SHM 0));;
      tf ← kalloc;
      upd_proc i (set_ptrapframe tf);;
      if tf =? 0 then
        freeproc i;;
        release (LProc i);;
        mret None
      else
        pt ← proc_pagetable i;
        upd_proc i (set_ppagetable pt);;
        if pt =? 0 then
          freeproc i;;
          release (LProc i);;
          mret None
        else mret (Some i)
  end.

Definition userinit : KM unit :=
  o ← allocproc;
  match o with
  | None => kstuck BadAccess
  | Some i =>
      modify (set_initproc i);;
      cwd ← namei_root;
      upd_proc i (set_pcwd cwd);;
      upd_proc i (set_pstate RUNNABLE);;
      release (LProc i)
  end.

(** * Creating *)

(** Open files of [p] shared with the new process [np]. *)
Definition dup_files (i np : nat) : KM unit :=
  for_each (seq 0 NOFILE) (fun fd =>
    p ← get_proc i;
    match p_ofile p !! fd with
    | Some (Some f) =>
        f' ← filedup f;
        upd_proc np (fun q => set_pofile (<[fd := Some f']> (p_ofile q)) q)
    | Some None => mret tt
    | None => kstuck BadAccess
    end).

(** [safestrcpy(np->name, p->name, sizeof(p->name))] on the contents of the two
    arrays: up to [n - 1] characters, then a zero behind the last one stored. *)
Fixpoint name_copy (n : nat) (s t : bytes) : bytes :=
  match n with
  | O => s
  | S O => 0 :: tail s
  | S n' =>
      match t with
      | [] => s
      | c :: t' => if c =? 0 then 0 :: 0 :: tail (tail s) else c :: name_copy n' (tail s) t'
      end
  end.

(** What [kfork] and [kthread_create] share after the registers are copied: files,
    directory and name, then the parent, then the new process may run. *)
Definition fork_finish (i np : nat) : KM Z :=
  dup_files i np;;
  p ← get_proc i;
  cwd ← idup (p_cwd p);
  upd_proc np (set_pcwd cwd);;
  upd_proc np (fun q => set_pname (name_copy 16 (p_name q) (p_name p)) q);;
  q ← get_proc np;
  let pid := p_pid q in
  release (LProc np);;
  acquire LWait;;
  upd_proc np (set_pparent (Some i));;
  release LWait;;
  acquire (LProc np);;
  upd_proc np (set_pstate RUNNABLE);;
  release (LProc np);;
  mret pid.

(** The copy of memory, size and registers; [regs] is what the child changes in
    its registers. *)
Definition fork_with (i : nat) (regs : trapframe -> trapframe) : KM Z :=
  o ← allocproc;
  match o with
  | None => mret (-1)
  | Some np =>
      p ← get_proc i;
      q ← get_proc np;
      rc ← uvmcopy (p_pagetable p) (p_pagetable q) (p_sz p);
      if rc <? 0 then
        freeproc np;;
        release (LProc np);;
        mret (-1)
      else
        upd_proc np (set_psz (p_sz p));;
        upd_proc np (set_ptf (regs (p_tf p)));;
        fork_finish i np
  end.

Definition kfork : KM Z :=
  i ← myproc;
  fork_with i (fun tf => mk_tf (tf_epc tf) (tf_ra tf) (<[0%nat := 0]> (tf_a tf)) (tf_rest tf)).

Fixpoint kforkn_loop (todo : nat) (created : Z) : KM Z :=
  match todo with
  | O => mret created
  | S todo' =>
      rc ← kfork;
      if rc <? 0 then mret created
      else if rc =? 0 then mret 0
      else kforkn_loop todo' (created + 1)
  end.

Definition kforkn (n : Z) : KM Z := kforkn_loop (Z.to_nat n) 0.

Definition kthread_create (fn arg : Z) : KM Z :=
  i ← myproc;
  p ← get_proc i;
  if p_sz p <=? fn then mret (-1)
  else fork_with i (fun tf => mk_tf fn 0 (<[0%nat := arg]> (tf_a tf)) (tf_rest tf)).

(** * Ending *)

Definition reparent (i : nat) : KM unit :=
  for_each (seq 0 NPROC) (fun pp =>
    q ← get_proc pp;
    if bool_decide (p_parent q = Some i) then
      init ← gets k_initproc;
      upd_proc pp (set_pparent (Some init));;
      wakeup (Some (CProc init))
    else mret tt).

Definition close_files (i : nat) : KM unit :=
  for_each (seq 0 NOFILE) (fun fd =>
    p ← get_proc i;
    match p_ofile p !! fd with
    | Some (Some f) =>
        fileclose f;;
        upd_proc i (fun q => set_pofile (<[fd := None]> (p_ofile q)) q)
    | Some None => mret tt
    | None => kstuck BadAccess
    end).

(** The second half of [kexit]: the process leaves its children to init, tells
    its parent and stops for good. *)
Definition kexit_zombie (i : nat) (status : Z) : KM unit :=
  acquire LWait;;
  reparent i;;
  p ← get_proc i;
  wakeup (CProc <$> p_parent p);;
  acquire (LProc i);;
  upd_proc i (set_pxstate status);;
  upd_proc i (set_pstate ZOMBIE);;
  release LWait;;
  sched;;
  panic (L"zombie exit").

Definition kexit (status : Z) : KM unit :=
  i ← myproc;
  init ← gets k_initproc;
  if bool_decide (i = init) then panic (L"init exiting")
  else
    close_files i;;
    p ← get_proc i;
    release_inode (p_cwd p);;
    upd_proc i (set_pcwd 0);;
    kexit_zombie i status.

(** * Waiting *)

(** A zombie found: its status is copied out and it is freed. *)
Definition reap (i pp : nat) (addr : Z) : KM Z :=
  q ← get_proc pp;
  let pid := p_pid q in
  rc ← (if addr =? 0 then mret 0
        else p ← get_proc i; XvVm.copyout (p_pagetable p) addr (le_bytes 4 (u32 (p_xstate q))) 4);
  if negb (addr =? 0) && (rc <? 0) then
    release (LProc pp);;
    release LWait;;
    mret (-1)
  else
    freeproc pp;;
    release (LProc pp);;
    release LWait;;
    mret pid.

(** The scan of [kwait]: whether there are children ([inl]), or the result. *)
Fixpoint wait_scan (todo : list nat) (i : nat) (addr : Z) (havekids : bool) : KM (bool + Z) :=
  match todo with
  | [] => mret (inl havekids)
  | pp :: rest =>
      q ← get_proc pp;
      if bool_decide (p_parent q = Some i) then
        acquire (LProc pp);;
        q ← get_proc pp;
        if bool_decide (p_state q = ZOMBIE) then
          r ← reap i pp addr;
          mret (inr r)
        else
          release (LProc pp);;
          wait_scan rest i addr true
      else wait_scan rest i addr havekids
  end.

(** The wait loop over a scan of the table, through [fuel] wakeups. *)
Fixpoint wait_loop (fuel : nat) (scan : KM (bool + Z)) (i : nat) : KM Z :=
  r ← scan;
  match r with
  | inr v => mret v
  | inl havekids =>
      k ← (if (havekids : bool) then killed i else mret 1);
      if negb (k =? 0) then
        release LWait;;
        mret (-1)
      else
        sleep (CProc i) LWait;;
        match fuel with
        | O => kstuck Asleep
        | S f => wait_loop f scan i
        end
  end.

Definition kwait (fuel : nat) (addr : Z) : KM Z :=
  i ← myproc;
  acquire LWait;;
  wait_loop fuel (wait_scan (seq 0 NPROC) i addr false) i.

(** The scan of [kwaitpid], which stops at the child with the pid. *)
Fixpoint waitpid_scan (todo : list nat) (i : nat) (target addr : Z) : KM (bool + Z) :=
  match todo with
  | [] => mret (inl false)
  | pp :: rest =>
      q ← get_proc pp;
      if bool_decide (p_parent q = Some i) && (p_pid q =? target) then
        acquire (LProc pp);;
        q ← get_proc pp;
        if bool_decide (p_state q = ZOMBIE) then
          r ← reap i pp addr;
          mret (inr r)
        else
          release (LProc pp);;
          mret (inl true)
      else waitpid_scan rest i target addr
  end.

Definition kwaitpid (fuel : nat) (target addr : Z) : KM Z :=
  i ← myproc;
  if target <=? 0 then mret (-1)
  else
    acquire LWait;;
    wait_loop fuel (waitpid_scan (seq 0 NPROC) i target addr) i.

(** * System calls *)

Definition sys_exit : KM Z := n ← argint 0; kexit n;; mret 0.
Definition sys_fork : KM Z := kfork.

Definition sys_forkn : KM Z :=
  n ← argint 0;
  if n <=? 0 then mret (-1) else kforkn n.

Definition sys_thread_create : KM Z :=
  fn ← argaddr 0;
  arg ← argaddr 1;
  kthread_create fn arg.

Definition sys_wait (fuel : nat) : KM Z := p ← argaddr 0; kwait fuel p.

Definition sys_waitpid (fuel : nat) : KM Z :=
  pid ← argint 0;
  status_addr ← argaddr 1;
  kwaitpid fuel pid status_addr.

End proc.
