(* ===== verification/XvExit.v ===== *)
(** The end of a process: what [kexit] leaves behind when it switches to the
    scheduler for the last time. *)

From S2P Require Import Prelude XvMem XvKernel XvMsg XvSched XvSchedProofs XvSegments XvVm XvPipe XvProc XvExample.

(** A child of [i] now belongs to [init]. *)
Definition adopted (i init : nat) (p : proc) : proc :=
  if bool_decide (p_parent p = Some i) then set_pparent (Some init) p else p.

(** Process [j] waits for a child to exit. *)
Definition waiting (j : nat) (p : proc) : Prop := p_state p = SLEEPING /\ p_chan p = Some (CProc j).

(** The table [ps'] in which process [i] has ended, from the table [ps]. *)
Definition ended (i init : nat) (status : Z) (ps ps' : list proc) : Prop :=
  length ps' = length ps /\
  (forall pi, ps !! i = Some pi ->
     ps' !! i = Some (set_pstate ZOMBIE (set_pxstate status (adopted i init pi))) /\
     forall j p', p_parent (adopted i init pi) = Some j -> j <> i -> ps' !! j = Some p' -> ~ waiting j p') /\
  (forall j p, ps !! j = Some p -> j <> i -> exists p', ps' !! j = Some p' /\ woke (adopted i init p) p') /\
  (forall k p p', ps !! k = Some p -> p_parent p = Some i -> ps' !! init = Some p' -> ~ waiting init p').

(** * The loop of [reparent] *)

(** After the first [k] processes. *)
Definition partly (i init k : nat) (ps ps' : list proc) : Prop :=
  length ps' = length ps /\
  (forall j p, ps !! j = Some p -> exists p', ps' !! j = Some p' /\
     let q := if decide (j < k)%nat then adopted i init p else p in
     woke q p' /\ (j = i -> p' = q)) /\
  (forall c p p', ps !! c = Some p -> (c < k)%nat -> p_parent p = Some i -> ps' !! init = Some p' -> ~ waiting init p').

Lemma woken_not_waiting me j p : me <> Some j -> ~ waiting j (woken me (Some (CProc j)) j p).
Proof.
  intros Hne [Hs Hc]. unfold woken in *. rewrite bool_decide_eq_false_2 in * by congruence.
  destruct (bool_decide (p_state p = SLEEPING) && bool_decide (p_chan p = Some (CProc j))) eqn:E; [done|].
  by rewrite !bool_decide_eq_true_2 in E.
Qed.

Lemma woken_waiting me ch j k p : waiting k (woken me ch j p) -> waiting k p.
Proof. unfold waiting, woken. repeat case_match; simpl; intuition congruence. Qed.

Lemma woke_adopt i init p p' : woke p p' -> woke (adopted i init p) (adopted i init p').
Proof.
  intros H. unfold adopted. rewrite (woke_parent _ _ H). case_bool_decide; [|done].
  destruct H as [->|[Hs ->]]; [by left|right]. by split.
Qed.

(** Process [c] is no child of [i]: nothing to do. *)
Lemma partly_skip i init c p ps ps' :
  ps !! c = Some p -> p_parent p <> Some i -> partly i init c ps ps' -> partly i init (S c) ps ps'.
Proof.
  intros Hc Hpar (Hlen & Hall & Hini). split; [done|]. split.
  - intros j q Hq. destruct (Hall j q Hq) as (q' & Hq' & H). exists q'. split; [done|].
    destruct (decide (j = c)) as [->|Hne].
    + rewrite decide_False in H by lia. rewrite decide_True by lia. assert (q = p) as -> by congruence.
      unfold adopted. by rewrite bool_decide_eq_false_2.
    + repeat case_decide; try lia; done.
  - intros d q q' Hd Hlt Hq Hq'. destruct (decide (d = c)) as [->|]; [congruence|].
    eapply Hini; [exact Hd|lia|done|done].
Qed.

(** Process [c] goes to [init], and [init] is woken. *)
Lemma partly_adopt i init c p q ps ps' :
  i <> init -> ps !! c = Some p -> p_parent p = Some i -> ps' !! c = Some q -> partly i init c ps ps' ->
  partly i init (S c) ps (imap (woken (Some i) (Some (CProc init))) (<[c := set_pparent (Some init) q]> ps')).
Proof.
  intros Hne Hc Hpar Hq (Hlen & Hall & Hini). assert (c < length ps')%nat as Hlt by by eapply lookup_lt_Some.
  assert (woke p q /\ (c = i -> q = p)) as [Hwq Heq].
  { destruct (Hall c p Hc) as (q' & Hq' & H). rewrite decide_False in H by lia.
    assert (q' = q) as -> by congruence. done. }
  assert (adopted i init p = set_pparent (Some init) p) as Ead by (unfold adopted; by rewrite bool_decide_eq_true_2).
  split; [by rewrite length_imap, length_insert|]. split.
  - intros j r Hr. destruct (decide (j = c)) as [->|Hjc].
    + assert (r = p) as -> by congruence. eexists. rewrite list_lookup_imap, list_lookup_insert_eq by done.
      split; [done|]. rewrite decide_True by lia. rewrite Ead. split.
      * eapply woke_trans; [|apply woken_woke]. rewrite <- Ead.
        replace (set_pparent (Some init) q) with (adopted i init q); [by apply woke_adopt|].
        unfold adopted. rewrite bool_decide_eq_true_2; [done|]. by rewrite (woke_parent _ _ Hwq).
      * intros ->. unfold woken. rewrite bool_decide_eq_true_2 by done. by rewrite Heq.
    + destruct (Hall j r Hr) as (r' & Hr' & H & Hi). eexists. rewrite list_lookup_imap, list_lookup_insert_ne, Hr' by done.
      split; [done|].
      assert ((if decide (j < S c)%nat then adopted i init r else r) = (if decide (j < c)%nat then adopted i init r else r)) as ->.
      { repeat case_decide; try lia; done. }
      split; [eapply woke_trans; [exact H|apply woken_woke]|]. intros ->. unfold woken.
      rewrite bool_decide_eq_true_2 by done. by apply Hi.
  - intros d r r' _ _ _ Hr'. rewrite list_lookup_imap in Hr'. apply fmap_Some in Hr' as (r0 & _ & ->).
    apply woken_not_waiting. congruence.
Qed.

Section reparent.
Context {rely : protocol}.

Lemma wpk_initproc init s (Q : nat -> kst -> Prop) :
  k_initproc s = init -> Q init s -> wpk rely (gets k_initproc) s Q.
Proof. by intros <-. Qed.

Lemma wpk_reparent i init s (Q : unit -> kst -> Prop) :
  with_lock LWait i s -> k_initproc s = init -> i <> init ->
  (forall s', with_lock LWait i s' -> partly i init NPROC (k_procs s) (k_procs s') -> same_rest s s' -> Q tt s') ->
  wpk rely (reparent i) s Q.
Proof.
  intros Hw Hinit Hne HQ. unfold reparent.
  apply (wpk_for_each _ _ (fun dn s' => with_lock LWait i s' /\ partly i init (length dn) (k_procs s) (k_procs s') /\ same_rest s s')).
  - split; [done|]. split; [|apply same_rest_refl]. split; [done|]. split; [|simpl; lia].
    intros j p Hp. exists p. split; [done|]. rewrite decide_False by (simpl; lia). split; [apply woke_refl|done].
  - intros dn c rest s1 El (Hw1 & Hpar & Hr1).
    assert (length dn = c) as Hc.
    { assert (seq 0 NPROC !! length dn = Some c) as Hc by (rewrite El; by apply list_lookup_middle).
      apply lookup_seq in Hc. lia. }
    assert (c < NPROC)%nat as Hcl.
    { assert (length (seq 0 NPROC) = length (dn ++ c :: rest)) as E by by f_equal.
      rewrite length_seq, length_app in E. simpl in E. lia. }
    rewrite length_app. simpl. rewrite Hc, Nat.add_1_r in *.
    pose proof Hw as (_ & _ & _ & _ & Ht). pose proof Hw1 as (Hcp & Hlk & _ & _ & Ht1).
    destruct (lookup_lt_is_Some_2 (k_procs s) c) as [p Hp]; [by rewrite Ht|].
    destruct (lookup_lt_is_Some_2 (k_procs s1) c) as [q Hq]; [by rewrite Ht1|].
    assert (p_parent q = p_parent p) as Epar.
    { destruct Hpar as (_ & Hall & _). destruct (Hall c p Hp) as (q' & Hq' & H & _). rewrite decide_False in H by lia.
      assert (q' = q) as -> by congruence. by apply woke_parent. }
    apply wpk_bind. eapply wpk_get_proc; [done|]. rewrite Epar. case_bool_decide as Hpi.
    + apply wpk_bind. eapply (wpk_initproc init); [rewrite Hr1; exact Hinit|].
      apply wpk_bind. eapply wpk_upd_proc; [done|].
      apply wpk_wakeup; kproj.
      * by eapply with_lock_cpu.
      * unfold table_ok. kproj. by rewrite length_insert.
      * intros j _. rewrite Hlk. by apply lookup_singleton_ne.
      * rewrite Hcp. split; [|split].
        -- apply with_lock_procs; [apply with_lock_procs; [done|]|]; kproj; by rewrite ?length_imap, ?length_insert.
        -- kproj. by eapply partly_adopt.
        -- eapply same_rest_trans; [exact Hr1|]. unfold same_rest. kst_eq.
    + apply wpk_ret. split; [done|]. split; [|done]. by eapply partly_skip.
  - intros s' (Hw' & Hp & Hr). apply HQ; [done| |done]. by rewrite length_seq in Hp.
Qed.

End reparent.

(** * The last switch *)

(** Where process [i] leaves for the scheduler, the table is that of a process
    that has ended, and it is not resumed. *)
Definition exiting (i init : nat) (status : Z) (s : kst) : protocol :=
  mk_protocol true
    (fun s' => with_lock (LProc i) i s' /\ ended i init status (k_procs s) (k_procs s') /\ same_rest s s')
    (fun _ _ => False).

(** Waking the parent of [i] and marking [i] as a zombie. *)
Lemma partly_ended i init status pi ps ps1 :
  ps !! i = Some pi -> partly i init (length ps) ps ps1 ->
  ended i init status ps (<[i := set_pstate ZOMBIE (set_pxstate status (adopted i init pi))]>
    (imap (woken (Some i) (CProc <$> p_parent (adopted i init pi))) ps1)).
Proof.
  intros Hpi (Hlen & Hall & Hini). assert (i < length ps)%nat as Hi by by eapply lookup_lt_Some.
  split; [by rewrite length_insert, length_imap|]. split; [|split].
  - intros pi' Hpi'. assert (pi' = pi) as -> by congruence. split.
    { apply list_lookup_insert_eq. by rewrite length_imap, Hlen. }
    intros j p' Hj Hne Hp'. rewrite list_lookup_insert_ne, list_lookup_imap in Hp' by done.
    apply fmap_Some in Hp' as (q & _ & ->). rewrite Hj. apply woken_not_waiting. congruence.
  - intros j p Hp Hne. destruct (Hall j p Hp) as (q & Hq & H & _).
    rewrite decide_True in H by (by eapply lookup_lt_Some). eexists.
    rewrite list_lookup_insert_ne, list_lookup_imap, Hq by done. split; [done|].
    eapply woke_trans; [exact H|apply woken_woke].
  - intros k p p' Hk Hpar Hp' Hwait. assert (k < length ps)%nat as Hlt by by eapply lookup_lt_Some.
    apply list_lookup_insert_Some in Hp' as [(-> & <- & _)|[_ Hp']]; [by destruct Hwait|].
    rewrite list_lookup_imap in Hp'. apply fmap_Some in Hp' as (q & Hq & ->). apply woken_waiting in Hwait.
    by eapply Hini.
Qed.

(** A switch from which the code is not resumed. *)
Lemma wpk_sched_last {A} rely i p s (f : unit -> KM A) Q :
  with_lock (LProc i) i s -> k_procs s !! i = Some p -> p_state p <> RUNNING -> guar rely s ->
  (forall s', ~ rel rely s s') -> wpk rely (sched ≫= f) s Q.
Proof.
  intros Hw Hp Hst HG HR. pose proof (with_lock_cpu _ _ _ Hw) as Hok. destruct Hw as (Hc & Hl & Hn & Hs & Ht).
  apply wpk_bind. unfold sched. apply wpk_bind. eapply wpk_myproc; [done..|].
  apply wpk_bind, wpk_gets. rewrite bool_decide_eq_true_2 by (rewrite Hl; apply lookup_singleton_eq). cbn [negb].
  apply wpk_bind, wpk_mycpu. rewrite Hn. change (negb (1 =? 1)) with false. cbv iota.
  apply wpk_bind. eapply wpk_get_proc; [done|]. rewrite bool_decide_eq_false_2 by done.
  apply wpk_bind, wpk_intr_get. rewrite Hs. apply wpk_bind, wpk_mycpu. apply wpk_bind, wpk_swtch; [done|].
  intros s' Hr. by apply HR in Hr.
Qed.

(** The lock of the process is taken, the state changed, [wait_lock] released. *)
Lemma wpk_become {A} rely i p g g' s (k : KM A) Q :
  with_lock LWait i s -> k_procs s !! i = Some p ->
  (forall s', with_lock (LProc i) i s' -> k_procs s' = <[i := g' (g p)]> (k_procs s) -> same_rest s s' -> wpk rely k s' Q) ->
  wpk rely (acquire (LProc i);; upd_proc i g;; upd_proc i g';; release LWait;; k) s Q.
Proof.
  intros (Hc & Hl & Hn & Hs & Ht) Hp HQ. assert (i < length (k_procs s))%nat as Hi by by eapply lookup_lt_Some.
  apply wpk_bind, wpk_acquire; [rewrite Hl; by apply lookup_singleton_ne|].
  apply wpk_bind. eapply wpk_upd_proc; [by kproj|].
  apply wpk_bind. eapply wpk_upd_proc; [kproj; by apply list_lookup_insert_eq|].
  apply wpk_bind, wpk_release; kproj.
  - rewrite lookup_insert_ne, Hl by done. apply lookup_singleton_eq.
  - done.
  - simpl. lia.
  - apply HQ.
    + unfold with_lock, table_ok. kproj. rewrite Hl, !length_insert. simpl. rewrite Hn.
      split; [done|]. split; [|done]. rewrite delete_insert_ne, delete_singleton_eq by done. by rewrite insert_empty.
    + kproj. by rewrite list_insert_insert_eq.
    + unfold same_rest. kst_eq.
Qed.


