(* ===== verification/XvShm.v ===== *)
(** Shared memory segments: [shmget] finds or makes the segment of a key, with
    pages of its own that are zeroed, and gives every page back when memory runs
    out half way. *)

From S2P Require Import Prelude XvMem XvString XvKernel XvMsg XvSched XvSchedProofs XvSegments XvVm XvPages XvWalk XvPipe XvProc XvExample.

(** * Pages taken from the allocator *)

(** The owners after the pages [ps] were allocated to the kernel. *)
Definition takes (own : owners) (ps : list Z) : owners := foldr (fun p o => <[p := OKern]> o) own ps.

Lemma takes_lookup own ps q : takes own ps !! q = if decide (q ∈ ps) then Some OKern else own !! q.
Proof.
  induction ps as [|p ps IH]; simpl; [done|]. destruct (decide (p = q)) as [->|Hne].
  - rewrite lookup_insert_eq, decide_True; [done|left].
  - rewrite lookup_insert_ne, IH by done. repeat case_decide; set_solver.
Qed.

Lemma takes_snoc own ps r : takes own (ps ++ [r]) = <[r := OKern]> (takes own ps).
Proof.
  apply map_eq. intros q. rewrite takes_lookup. destruct (decide (r = q)) as [->|Hne].
  - rewrite lookup_insert_eq, decide_True; [done|set_solver].
  - rewrite lookup_insert_ne, takes_lookup by done. repeat case_decide; set_solver.
Qed.

(** Giving back the first of them. *)
Lemma takes_give own p ps :
  own !! p = Some OFree -> p ∉ ps -> <[p := OFree]> (takes own (p :: ps)) = takes own ps.
Proof.
  intros Hp Hn. simpl. rewrite insert_insert_eq. apply insert_id. by rewrite takes_lookup, decide_False.
Qed.

(** * Filling a segment *)

Definition zeroed (m : mem) (p : Z) : Prop := forall i, 0 <= i < 512 -> word m (p + 8 * i) = 0.

(** The pages that were in use keep their contents. *)
Definition kept (own : owners) (m m' : mem) : Prop :=
  forall t o i, own !! t = Some o -> o <> OFree -> 0 <= i < 512 -> word m' (t + 8 * i) = word m (t + 8 * i).

Definition with_pa (e : shmseg) (pa : list Z) : shmseg :=
  mk_shm (sh_used e) (sh_key e) (sh_size e) (sh_npages e) pa (sh_refcount e).

(** Only memory, the free list and the entry [id] changed. *)
Definition shm_only (id : nat) (e : shmseg) (s s' : kst) : Prop :=
  s' = set_mem (k_mem s') (set_freelist (k_freelist s') (set_shm (<[id := e]> (k_shm s)) s)).

(** * What [shmget] promises *)

Definition shm_table_ok (s : kst) : Prop :=
  length (k_shm s) = MAX_SHM /\ Forall (fun e => length (sh_pa e) = Z.to_nat MAX_SHM_PG) (k_shm s).

Definition shm_named (key : Z) (e : shmseg) : bool := negb (sh_used e =? 0) && (sh_key e =? key).
Definition shm_unused (e : shmseg) : bool := sh_used e =? 0.

(** The pages of [size] bytes. *)
Definition shm_pages (size : Z) : Z := (size + PGSIZE - 1) / PGSIZE.

Section shm.
Context {Lay : Layout}.

Inductive shmget_spec (own : owners) (key size : Z) (s : kst) : Z -> kst -> Prop :=
| shm_refused :
    ~ 0 < size <= MAX_SHM_SIZE -> shmget_spec own key size s (-1) s
| shm_found k s' :
    0 < size <= MAX_SHM_SIZE -> find_index (shm_named key) (k_shm s) = Some k ->
    k_shm s' = k_shm s -> k_mem s' = k_mem s -> k_freelist s' = k_freelist s ->
    shmget_spec own key size s (Z.of_nat k) s'
| shm_full s' :
    0 < size <= MAX_SHM_SIZE -> find_index (shm_named key) (k_shm s) = None ->
    find_index shm_unused (k_shm s) = None ->
    k_shm s' = k_shm s -> k_mem s' = k_mem s -> k_freelist s' = k_freelist s ->
    shmget_spec own key size s (-1) s'
| shm_made k pa ps s' :
    0 < size <= MAX_SHM_SIZE -> find_index (shm_named key) (k_shm s) = None ->
    find_index shm_unused (k_shm s) = Some k ->
    k_shm s' = <[k := mk_shm 1 key size (shm_pages size) pa 0]> (k_shm s) ->
    take (length ps) pa = ps -> Z.of_nat (length ps) = shm_pages size -> NoDup ps ->
    Forall (fun p => own !! p = Some OFree) ps -> Forall (zeroed (k_mem s')) ps ->
    vm_inv (takes own ps) s' -> kept own (k_mem s) (k_mem s') ->
    shmget_spec own key size s (Z.of_nat k) s'
| shm_no_memory k e ps s' :
    0 < size <= MAX_SHM_SIZE -> find_index (shm_named key) (k_shm s) = None ->
    find_index shm_unused (k_shm s) = Some k ->
    Z.of_nat (length ps) < shm_pages size -> (forall p, own !! p = Some OFree -> p ∈ ps) ->
    k_shm s' = <[k := e]> (k_shm s) -> sh_used e = 0 ->
    vm_inv own s' -> kept own (k_mem s) (k_mem s') ->
    shmget_spec own key size s (-1) s'.

(** Pages [ps], free before, fill the first places of segment [id], whose entry
    is [e]; [m] is the memory before the first was allocated. *)
Record filling (own : owners) (m : mem) (id : nat) (e : shmseg) (ps : list Z) (s : kst) : Prop := mk_filling {
  fi_cpu : cpu_ok (k_cpu s);
  fi_lock : k_locks s !! LKmem = None;
  fi_vm : vm_inv (takes own ps) s;
  fi_entry : k_shm s !! id = Some e;
  fi_pa : take (length ps) (sh_pa e) = ps;
  fi_nodup : NoDup ps;
  fi_free : Forall (fun p => own !! p = Some OFree) ps;
  fi_zero : Forall (zeroed (k_mem s)) ps;
  fi_kept : kept own m (k_mem s);
}.

Lemma mem_only_shm s s' : mem_only s s' -> k_shm s' = k_shm s /\ k_cpu s' = k_cpu s /\ k_locks s' = k_locks s.
Proof. unfold mem_only. by intros ->. Qed.

Lemma shm_only_mem id e s s' : k_shm s !! id = Some e -> mem_only s s' -> shm_only id e s s'.
Proof.
  intros He Hm. unfold shm_only. rewrite list_insert_id by done.
  replace (set_shm (k_shm s) s) with s by kst_eq. exact Hm.
Qed.

Lemma shm_only_put id e s s1 : mem_only s s1 -> shm_only id e s (set_shm (<[id := e]> (k_shm s1)) s1).
Proof.
  intros Hm. destruct (mem_only_shm _ _ Hm) as (E & _ & _). unfold shm_only, mem_only in *.
  rewrite E. kst_eq; by rewrite Hm.
Qed.

Lemma shm_only_trans id e e' s s1 s2 : shm_only id e s s1 -> shm_only id e' s1 s2 -> shm_only id e' s s2.
Proof.
  unfold shm_only. intros H1 H2. rewrite H2. rewrite H1 at 1 2. kst_eq. apply list_insert_insert_eq.
Qed.

Lemma takes_free own ps r : takes own ps !! r = Some OFree -> own !! r = Some OFree /\ r ∉ ps.
Proof. rewrite takes_lookup. by case_decide. Qed.

Lemma filling_next own m id e ps s s1 r :
  filling own m id e ps s -> (length ps < length (sh_pa e))%nat ->
  mem_only s s1 -> takes own ps !! r = Some OFree -> vm_inv (<[r := OKern]> (takes own ps)) s1 ->
  kept (takes own ps) (k_mem s) (k_mem s1) -> zeroed (k_mem s1) r ->
  let e' := with_pa e (<[length ps := r]> (sh_pa e)) in
  filling own m id e' (ps ++ [r]) (set_shm (<[id := e']> (k_shm s1)) s1).
Proof.
  intros [Hc Hl Hv He Hpa Hnd Hf Hz Hk] Hlen Hm [Hr Hn]%takes_free Hv1 Hk1 Hz1 e'.
  destruct (mem_only_shm _ _ Hm) as (E1 & E2 & E3).
  assert (forall p, p ∈ ps -> takes own ps !! p = Some OKern) as Hin by (intros; by rewrite takes_lookup, decide_True).
  split; kproj.
  - by rewrite E2.
  - by rewrite E3.
  - by rewrite takes_snoc.
  - rewrite E1. apply list_lookup_insert_eq. by eapply lookup_lt_Some.
  - rewrite length_app. simpl. rewrite Nat.add_1_r, (take_S_r _ _ r).
    + by rewrite take_insert_ge, Hpa.
    + by apply list_lookup_insert_eq.
  - apply NoDup_app. split; [done|]. split; [set_solver|apply NoDup_singleton].
  - apply Forall_app. by split; [|apply Forall_singleton].
  - apply Forall_app. split; [|by apply Forall_singleton]. rewrite Forall_forall in *. intros p Hp i Hi.
    rewrite (Hk1 p OKern) by auto. by apply Hz.
  - intros t o i Ht Ho Hi. rewrite <- (Hk t o i) by done. apply (Hk1 t o); try done.
    rewrite takes_lookup, decide_False; [done|]. rewrite Forall_forall in Hf. intros Hp%Hf. congruence.
Qed.

Context {FS : Inodes} {rely : protocol} (HL : layout_ok).

Lemma wpk_get_shm id e s (Q : shmseg -> kst -> Prop) :
  k_shm s !! id = Some e -> Q e s -> wpk rely (get_shm id) s Q.
Proof. intros E HQ. unfold get_shm. apply wpk_bind, wpk_gets. rewrite E. by apply wpk_ret. Qed.

(** One page is given back: the first of those still taken. *)
Lemma wpk_give_one own m p ps s (Q : unit -> kst -> Prop) :
  vm_inv (takes own (p :: ps)) s -> cpu_ok (k_cpu s) -> k_locks s !! LKmem = None ->
  own !! p = Some OFree -> p ∉ ps -> kept own m (k_mem s) -> Forall (fun q => own !! q = Some OFree) ps ->
  (forall s', vm_inv (takes own ps) s' -> mem_only s s' -> kept own m (k_mem s') -> Q tt s') ->
  wpk rely (kfree p) s Q.
Proof.
  intros Hv Hc Hl Hp Hn Hk Hf HQ.
  eapply (wpk_kfree HL); [exact Hv|done|done|apply lookup_insert_eq|].
  intros s' l Hv' Hlen Es'. rewrite takes_give in Hv' by done. apply HQ; [done|rewrite Es'; unfold mem_only; kst_eq|].
  intros t o i Ht Ho Hi. rewrite <- (Hk t o i) by done. rewrite Es'. kproj. apply word_wr_other.
  assert (t <> p) as Hne by congruence. rewrite Forall_forall in Hf.
  assert (takes own (p :: ps) !! t = Some o) as Ht'.
  { rewrite takes_lookup, decide_False; [done|]. rewrite elem_of_cons. intros [->|Hq%Hf]; congruence. }
  destruct Hv as [Hcore _].
  destruct (vi_page _ _ Hcore t o Ht') as [Pt _], (vi_page _ _ Hcore p OKern (lookup_insert_eq _ _ _)) as [Pp _].
  destruct (pages_apart t p Pt Pp Hne); unfold PGSIZE in *; lia.
Qed.

(** The pages already allocated are given back. *)
Lemma wpk_give_back own m id e ps s (Q : unit -> kst -> Prop) :
  filling own m id e ps s ->
  (forall s', vm_inv own s' -> mem_only s s' -> kept own m (k_mem s') -> Q tt s') ->
  wpk rely (for_each (seq 0 (length ps)) (fun k => e ← get_shm id; pa ← shm_pa e k; kfree pa)) s Q.
Proof.
  intros [Hc Hl Hv He Hpa Hnd Hf _ Hk] HQ.
  apply (wpk_for_each _ _ (fun dn s' =>
    vm_inv (takes own (drop (length dn) ps)) s' /\ mem_only s s' /\ kept own m (k_mem s'))).
  - split; [exact Hv|]. split; [unfold mem_only; kst_eq|exact Hk].
  - intros dn k rest s' El (Hv' & Hm & Hk'). destruct (mem_only_shm _ _ Hm) as (E1 & E2 & E3).
    assert (seq 0 (length ps) !! length dn = Some k) as Hs by (rewrite El; by apply list_lookup_middle).
    apply lookup_seq in Hs as [-> Hlt]. cbn [Nat.add] in *.
    destruct (lookup_lt_is_Some_2 ps _ Hlt) as [p Hp].
    assert (sh_pa e !! length dn = Some p) as Hep by (rewrite <- Hpa, lookup_take_lt in Hp; done).
    rewrite (drop_S _ _ _ Hp) in Hv'.
    apply wpk_bind. eapply wpk_get_shm; [by rewrite E1|]. apply wpk_bind. unfold shm_pa. rewrite Hep. apply wpk_ret.
    eapply (wpk_give_one own m); [exact Hv'|by rewrite E2|by rewrite E3|exact (Forall_lookup_1 _ _ _ _ Hf Hp)| |done|by apply Forall_drop|].
    + rewrite <- (take_drop (length dn) ps), (drop_S _ _ _ Hp) in Hnd. apply NoDup_app in Hnd as (_ & _ & Hnd).
      by apply NoDup_cons in Hnd as [? _].
    + intros s2 Hv2 Hm2 Hk2. rewrite length_app. cbn [length]. rewrite Nat.add_1_r.
      split; [done|]. split; [by eapply mem_only_trans|done].
  - intros s' (Hv' & Hm & Hk'). rewrite length_seq, drop_all in Hv'. by apply HQ.
Qed.

(** The allocation loop: [n] pages more, or every page given back when no page
    is free any more. *)
Lemma wpk_shm_alloc own m id n : forall ps e s (Q : bool -> kst -> Prop),
  filling own m id e ps s -> (length ps + n <= length (sh_pa e))%nat ->
  (forall s' ps' pa, let e' := with_pa e pa in filling own m id e' ps' s' ->
     length ps' = (length ps + n)%nat -> shm_only id e' s s' -> Q true s') ->
  (forall s' ps' pa, let e' := with_pa e pa in vm_inv own s' -> kept own m (k_mem s') -> shm_only id e' s s' ->
     (length ps' < length ps + n)%nat -> (forall p, own !! p = Some OFree -> p ∈ ps') -> Q false s') ->
  wpk rely (shm_alloc (seq (length ps) n) id) s Q.
Proof.
  induction n as [|n IH]; intros ps e s Q Hfi Hlen H1 H0; cbn [seq shm_alloc].
  - apply wpk_ret, (H1 s ps (sh_pa e)); [by destruct e|lia|].
    apply shm_only_mem; [by destruct e; apply Hfi|unfold mem_only; kst_eq].
  - eapply wpk_kalloc_zero; [apply Hfi|apply Hfi|apply Hfi|..].
    + intros E. apply wpk_bind. eapply wpk_give_back; [exact Hfi|]. intros s' Hv' Hm Hk'.
      apply wpk_ret, (H0 s' ps (sh_pa e)); [done|done| |lia|].
      * apply shm_only_mem; [by destruct e; apply Hfi|done].
      * intros p Hp. destruct (decide (p ∈ ps)) as [|Hn]; [done|].
        exfalso. apply (none_free HL (takes own ps) s p); [apply Hfi|done|by rewrite takes_lookup, decide_False].
    + intros s1 r Hm Hr Hrf Hv1 _ Hk1 Hz1. destruct (mem_only_shm _ _ Hm) as (E1 & _ & _).
      apply wpk_bind. eapply wpk_get_shm; [rewrite E1; apply Hfi|]. apply wpk_bind. unfold set_shm_pa.
      destruct (Nat.ltb_spec (length ps) (length (sh_pa e))); [apply wpk_modify|lia].
      pose proof (filling_next _ _ _ _ _ _ _ _ Hfi ltac:(lia) Hm Hrf Hv1 Hk1 Hz1) as Hfi'.
      replace (S (length ps)) with (length (ps ++ [r])) by (rewrite length_app; simpl; lia).
      assert (shm_only id (with_pa e (<[length ps := r]> (sh_pa e))) s
                (set_shm (<[id := with_pa e (<[length ps := r]> (sh_pa e))]> (k_shm s1)) s1)) as Hso.
      { by apply shm_only_put. }
      eapply (IH _ _ _ _ Hfi').
      * cbn [sh_pa with_pa]. rewrite length_insert, length_app. simpl. lia.
      * intros s' ps' pa e' Hf' Hl' Hs'. apply (H1 s' ps' pa); [exact Hf'|rewrite Hl', length_app; simpl; lia|].
        by eapply shm_only_trans.
      * intros s' ps' pa e' Hv' Hk' Hs' Hl' Hall. apply (H0 s' ps' pa); [done|done|by eapply shm_only_trans| |done].
        rewrite length_app in Hl'. simpl in Hl'. lia.
Qed.

(** * The system call *)

Lemma with_lock_shm id e i s s' : with_lock LShm i s -> shm_only id e s s' -> with_lock LShm i s'.
Proof. unfold shm_only. by intros H ->. Qed.

Lemma filling_start own i id e s :
  with_lock LShm i s -> vm_inv own s -> k_shm s !! id = Some e -> filling own (k_mem s) id e [] s.
Proof.
  intros Hw Hv He. pose proof Hw as (_ & Hl & _). split; try done.
  - by eapply with_lock_cpu.
  - rewrite Hl. by apply lookup_singleton_ne.
  - constructor.
Qed.

Lemma shm_pages_bound size : 0 < size <= MAX_SHM_SIZE -> 0 <= shm_pages size <= MAX_SHM_PG.
Proof.
  unfold shm_pages, MAX_SHM_SIZE, MAX_SHM_PG, PGSIZE. intros H. split.
  - apply Z.div_pos; lia.
  - apply Z.lt_succ_r, Z.div_lt_upper_bound; lia.
Qed.

(** Leaving the lock keeps memory, free list and segments. *)
Lemma same_rest_shm s s' :
  same_rest s s' -> k_shm s' = k_shm s /\ k_mem s' = k_mem s /\ k_freelist s' = k_freelist s.
Proof. unfold same_rest. by intros ->. Qed.

Lemma vm_inv_same own s s' : k_mem s' = k_mem s -> k_freelist s' = k_freelist s -> vm_inv own s -> vm_inv own s'.
Proof. unfold vm_inv. by intros -> ->. Qed.

(** The body of the second loop, at the first unused slot. *)
Lemma wpk_shm_make own key size i s0 s id e :
  0 < size <= MAX_SHM_SIZE -> with_lock LShm i s -> shm_table_ok s -> vm_inv own s ->
  k_procs s = k_procs s0 -> k_shm s = k_shm s0 -> k_mem s = k_mem s0 ->
  find_index (shm_named key) (k_shm s0) = None -> find_index shm_unused (k_shm s0) = Some id ->
  k_shm s !! id = Some e ->
  wpk rely (put_shm id (mk_shm 1 key size (shm_pages size) (sh_pa e) 0);;
    ok ← shm_alloc (seq 0 (Z.to_nat (shm_pages size))) id;
    if (ok : bool) then release LShm;; mret (Some (Z.of_nat id))
    else
      e ← get_shm id;
      put_shm id (mk_shm 0 (sh_key e) (sh_size e) (sh_npages e) (sh_pa e) (sh_refcount e));;
      release LShm;;
      mret (Some (-1))) s
    (fun r s' => exists v, r = Some v /\ entered i s' /\ k_procs s' = k_procs s0 /\ shmget_spec own key size s0 v s').
Proof.
  intros Hsz Hw [_ Ht] Hv Ep Es Em Hno Hid He. pose proof (shm_pages_bound _ Hsz) as Hb.
  pose proof (Forall_lookup_1 _ _ _ _ Ht He) as Hpa. pose proof (lookup_lt_Some _ _ _ He) as Hlt.
  set (e1 := mk_shm 1 key size (shm_pages size) (sh_pa e) 0). set (s1 := set_shm (<[id := e1]> (k_shm s)) s).
  assert (shm_only id e1 s s1) as H01 by (unfold shm_only, s1; kst_eq).
  apply wpk_bind, wpk_modify. fold s1. apply wpk_bind.
  eapply (wpk_shm_alloc own (k_mem s1) id _ [] e1 s1).
  - apply (filling_start _ i); [by eapply with_lock_shm|exact Hv|]. unfold s1. kproj. by apply list_lookup_insert_eq.
  - cbn [length sh_pa e1]. unfold MAX_SHM_PG in *. lia.
  - intros s2 ps pa e2 Hfi Hlen H12. pose proof (shm_only_trans _ _ _ _ _ _ H01 H12) as H02. apply wpk_bind.
    eapply wpk_leave; [by eapply with_lock_shm|]. intros s3 He3 Hp3 (E1 & E2 & E3)%same_rest_shm.
    apply wpk_ret. eexists. split; [done|]. split; [done|]. split; [rewrite Hp3, H02; exact Ep|].
    apply (shm_made _ _ _ _ _ pa ps); try done; rewrite ?E1, ?E2.
    + rewrite H02. kproj. by rewrite Es.
    + apply Hfi.
    + cbn [length] in Hlen. lia.
    + apply Hfi.
    + apply Hfi.
    + apply Hfi.
    + eapply vm_inv_same; [done..|apply Hfi].
    + rewrite <- Em. exact (fi_kept _ _ _ _ _ _ Hfi).
  - intros s2 ps pa e2 Hv2 Hk2 H12 Hlen Hall. pose proof (shm_only_trans _ _ _ _ _ _ H01 H12) as H02.
    apply wpk_bind. eapply (wpk_get_shm _ e2).
    { rewrite H02. kproj. by apply list_lookup_insert_eq. }
    apply wpk_bind, wpk_modify, wpk_bind. set (e3 := mk_shm 0 _ _ _ _ _).
    eapply wpk_leave; [exact (with_lock_shm id e2 i s s2 Hw H02)|]. intros s3 He3 Hp3 (E1 & E2 & E3)%same_rest_shm.
    apply wpk_ret. eexists. split; [done|]. split; [done|]. split; [rewrite Hp3; kproj; rewrite H02; exact Ep|].
    apply (shm_no_memory _ _ _ _ id e3 ps); try done.
    + cbn [length] in Hlen. lia.
    + rewrite E1. kproj. rewrite H02. kproj. by rewrite list_insert_insert_eq, Es.
    + eapply vm_inv_same; [exact E2|exact E3|exact Hv2].
    + rewrite E2. kproj. by rewrite <- Em.
Qed.

Lemma negb_size size : (size <=? 0) || (MAX_SHM_SIZE <? size) = negb (bool_decide (0 < size <= MAX_SHM_SIZE)).
Proof. case_bool_decide; destruct (Z.leb_spec size 0), (Z.ltb_spec MAX_SHM_SIZE size); simpl; try done; lia. Qed.

End shm.

Section claims.
Context {Lay : Layout} {FS : Inodes} {rely : protocol}.

(** C30: [shmget(key, size)] refuses a size that is not between 1 and four pages
    and changes nothing.  Otherwise it returns the slot that has the key, if
    there is one, and nothing changes.  If not, the first unused slot becomes
    the segment: its pages are distinct, were all free, hold zeros, and now
    belong to the kernel, and no page in use before has changed.  It fails only
    when every slot is in use, or when fewer pages are free than the segment
    needs; then every page it took is free again and the slot is unused.  It never
    panics and never stores past the page array of a segment. *)
Theorem shmget_ok own i key size s :
  layout_ok -> entered i s -> calling i [key; size] s -> shm_table_ok s -> vm_inv own s ->
  wpk rely sys_shmget s (fun r s' =>
    entered i s' /\ k_procs s' = k_procs s /\ shmget_spec own (i32 key) (i32 size) s r s').
Proof.
  intros HL He Hcall Ht Hv. unfold sys_shmget.
  apply wpk_bind. eapply wpk_argint; [done|reflexivity|lia|].
  apply wpk_bind. eapply wpk_argint; [done|reflexivity|lia|]. rewrite negb_size.
  case_bool_decide as Hsz; cbn [negb]; [|apply wpk_ret; split; [done|]; split; [done|]; by apply shm_refused].
  apply wpk_bind. eapply wpk_enter; [done|]. intros s1 Hw Hp1 (E1 & E2 & E3)%same_rest_shm.
  assert (shm_table_ok s1) as Ht1 by (unfold shm_table_ok; by rewrite E1).
  apply wpk_bind. rewrite <- (proj1 Ht1).
  apply (wpk_for_find _ _ (shm_named (i32 key))).
  { intros k e Hk Hn. apply wpk_bind. eapply wpk_get_shm; [done|]. unfold shm_named in Hn. rewrite Hn. by apply wpk_ret. }
  { intros k e Hf Hk Hn. apply wpk_bind. eapply wpk_get_shm; [done|]. unfold shm_named in Hn. rewrite Hn.
    apply wpk_bind. eapply wpk_leave; [done|]. intros s2 He2 Hp2 (F1 & F2 & F3)%same_rest_shm.
    apply wpk_ret. split; [done|]. apply wpk_ret. split; [done|]. split; [congruence|].
    apply shm_found; congruence. }
  intros Hno. apply wpk_bind. fold (shm_pages (i32 size)).
  apply (wpk_for_find _ _ shm_unused).
  { intros k e Hk Hn. apply wpk_bind. eapply wpk_get_shm; [done|]. unfold shm_unused in Hn. rewrite Hn. by apply wpk_ret. }
  { intros k e Hf Hk Hn. apply wpk_bind. eapply wpk_get_shm; [done|]. unfold shm_unused in Hn. rewrite Hn.
    eapply wpk_mono.
    - apply (wpk_shm_make HL own (i32 key) (i32 size) i s); try done; try congruence. by apply (vm_inv_same own s).
    - intros r s2 (v & -> & H). split; [done|]. by apply wpk_ret. }
  intros Hfull. apply wpk_bind. eapply wpk_leave; [done|]. intros s2 He2 Hp2 (F1 & F2 & F3)%same_rest_shm.
  apply wpk_ret. split; [done|]. split; [congruence|]. apply shm_full; congruence.
Qed.

End claims.

Lemma shmget_ok_witness :
  wpk alone sys_shmget (ex_state 1 [5; 5000]) (fun r s' =>
    entered 1 s' /\ k_procs s' = k_procs (ex_state 1 [5; 5000]) /\
    shmget_spec ex_owners (i32 5) (i32 5000) (ex_state 1 [5; 5000]) r s').
Proof.
  apply (shmget_ok ex_owners 1 5 5000 (ex_state 1 [5; 5000])).
  - exact ex_layout_ok.
  - split; [reflexivity|]. split; [by_decide|]. split; [reflexivity|]. split; [reflexivity|]. reflexivity.
  - split; [by_decide|]. split; [reflexivity|]. eexists. split; [reflexivity|]. eexists. reflexivity.
  - split; [reflexivity|]. apply Forall_replicate. reflexivity.
  - exact ex_vm.
Defined.
