(* ===== verification/XvBio.v ===== *)
(** The buffer cache (kernel/bio.c).  The table holds the [NBUF] buffers and then
    the list head; the links are the pointers of the code, and walks over them
    are bounded by the number of buffers. *)

From S2P Require Import Prelude XvMem XvFsTypes XvKernel XvMsg XvSched.

Definition BSIZE : Z := 1024.
Definition NBUF : nat := 30.
Definition ROOTDEV : Z := 1.

(** What the file system runs on: the disk driver's read (0) and write (1) of a
    buffer, and how many wakeups code that waits for a lock or for log space is
    followed through. *)
Class BlockDev := {
  virtio_disk_rw : nat -> Z -> KM unit;
  naps : nat;
}.

(** * Access to the state *)

Definition fs_gets {A} (g : fsst -> A) : KM A := gets (fun s => g (k_fs s)).
Definition fs_modify (g : fsst -> fsst) : KM unit := modify (fun s => set_fs (g (k_fs s)) s).

Definition get_buf (b : nat) : KM buf :=
  o ← fs_gets (fun f => fs_buf f !! b);
  match o with Some x => mret x | None => kstuck BadAccess end.

Definition put_buf (b : nat) (x : buf) : KM unit := fs_modify (fun f => set_buf (<[b := x]> (fs_buf f)) f).

Definition upd_buf (b : nat) (g : buf -> buf) : KM unit :=
  x ← get_buf b;
  put_buf b (g x).

(** * Contents of blocks *)

(** The little-endian number of some bytes. *)
Definition le_num (l : bytes) : Z := foldr (fun x r => x + 256 * r) 0 l.

(** The [n] bytes at [off]. *)
Definition slice (off n : Z) (d : bytes) : bytes := take (Z.to_nat n) (drop (Z.to_nat off) d).

(** [l] written over the bytes at [off]. *)
Definition splice (off : Z) (l d : bytes) : bytes :=
  take (Z.to_nat off) d ++ l ++ drop (Z.to_nat off + length l) d.

(** Reads and writes of [b->data]. *)
Definition bdata_get (b : nat) (off n : Z) : KM bytes :=
  x ← get_buf b;
  if (0 <=? off) && (0 <=? n) && (off + n <=? len (b_data x)) then mret (slice off n (b_data x))
  else kstuck BadAccess.

Definition bdata_put (b : nat) (off : Z) (l : bytes) : KM unit :=
  x ← get_buf b;
  if (0 <=? off) && (off + len l <=? len (b_data x)) then put_buf b (set_bdata (splice off l (b_data x)) x)
  else kstuck BadAccess.

(** * bio.c *)

Section bio.
Context {BD : BlockDev}.

(** The loop of [binit]: buffer [b] goes to the front of the list. *)
Definition binit_link (b : nat) : KM unit :=
  h ← get_buf NBUF;
  upd_buf b (set_bnext (b_next h));;
  upd_buf b (set_bprev NBUF);;
  initsleeplock (SBuf b);;
  upd_buf (b_next h) (set_bprev b);;
  upd_buf NBUF (set_bnext b).

Definition binit : KM unit :=
  initlock LBcache;;
  upd_buf NBUF (set_bprev NBUF);;
  upd_buf NBUF (set_bnext NBUF);;
  for_each (seq 0 NBUF) binit_link.

(** The buffer of the block, from [b] along [next]. *)
Fixpoint bget_cached (fuel : nat) (b : nat) (dev blockno : Z) : KM (option nat) :=
  if (b =? NBUF)%nat then mret None
  else
    match fuel with
    | O => kstuck NoFuel
    | S fuel' =>
        x ← get_buf b;
        if (b_dev x =? dev) && (b_blockno x =? blockno) then mret (Some b)
        else bget_cached fuel' (b_next x) dev blockno
    end.

(** An unused buffer, from [b] along [prev]. *)
Fixpoint bget_unused (fuel : nat) (b : nat) : KM (option nat) :=
  if (b =? NBUF)%nat then mret None
  else
    match fuel with
    | O => kstuck NoFuel
    | S fuel' =>
        x ← get_buf b;
        if b_refcnt x =? 0 then mret (Some b) else bget_unused fuel' (b_prev x)
    end.

Definition bget (dev blockno : Z) : KM nat :=
  acquire LBcache;;
  h ← get_buf NBUF;
  r ← bget_cached NBUF (b_next h) dev blockno;
  match r with
  | Some b =>
      upd_buf b (fun x => set_brefcnt (u32 (b_refcnt x + 1)) x);;
      release LBcache;;
      acquiresleep naps (SBuf b);;
      mret b
  | None =>
      h ← get_buf NBUF;
      r ← bget_unused NBUF (b_prev h);
      match r with
      | Some b =>
          upd_buf b (fun x => mk_buf 0 (b_disk x) dev blockno 1 (b_prev x) (b_next x) (b_data x));;
          release LBcache;;
          acquiresleep naps (SBuf b);;
          mret b
      | None => panic (L"bget: no buffers")
      end
  end.

Definition bread (dev blockno : Z) : KM nat :=
  b ← bget dev blockno;
  x ← get_buf b;
  (if b_valid x =? 0 then
     virtio_disk_rw b 0;;
     upd_buf b (set_bvalid 1)
   else mret tt);;
  mret b.

Definition bwrite (b : nat) : KM unit :=
  h ← holdingsleep (SBuf b);
  if negb h then panic (L"bwrite") else virtio_disk_rw b 1.

Definition brelse (b : nat) : KM unit :=
  h ← holdingsleep (SBuf b);
  if negb h then panic (L"brelse")
  else
    releasesleep (SBuf b);;
    acquire LBcache;;
    upd_buf b (fun x => set_brefcnt (u32 (b_refcnt x - 1)) x);;
    x ← get_buf b;
    (if b_refcnt x =? 0 then
       upd_buf (b_next x) (set_bprev (b_prev x));;
       x ← get_buf b;
       upd_buf (b_prev x) (set_bnext (b_next x));;
       h ← get_buf NBUF;
       upd_buf b (set_bnext (b_next h));;
       upd_buf b (set_bprev NBUF);;
       h ← get_buf NBUF;
       upd_buf (b_next h) (set_bprev b);;
       upd_buf NBUF (set_bnext b)
     else mret tt);;
    release LBcache.

Definition bpin (b : nat) : KM unit :=
  acquire LBcache;;
  upd_buf b (fun x => set_brefcnt (u32 (b_refcnt x + 1)) x);;
  release LBcache.

Definition bunpin (b : nat) : KM unit :=
  acquire LBcache;;
  upd_buf b (fun x => set_brefcnt (u32 (b_refcnt x - 1)) x);;
  release LBcache.

End bio.
