(* ===== verification/XvBlock.v ===== *)
(** Reading and writing parts of a block. *)

From S2P Require Import Prelude XvMem XvFsTypes XvKernel XvMsg XvSched XvBio.

Lemma lookup_slice off n d k :
  slice off n d !! k = if decide (k < Z.to_nat n)%nat then d !! (Z.to_nat off + k)%nat else None.
Proof.
  unfold slice. case_decide.
  - by rewrite lookup_take_lt, lookup_drop by done.
  - rewrite lookup_take_ge by lia. done.
Qed.

Lemma length_slice off n d : 0 <= off -> 0 <= n -> off + n <= len d -> len (slice off n d) = n.
Proof. intros. unfold slice. rewrite length_take, length_drop. lia. Qed.

Lemma lookup_splice off l d k :
  0 <= off <= len d ->
  splice off l d !! k =
    if decide (Z.to_nat off <= k < Z.to_nat off + length l)%nat then l !! (k - Z.to_nat off)%nat else d !! k.
Proof.
  intros Ho. unfold splice. assert (length (take (Z.to_nat off) d) = Z.to_nat off) as Et by (rewrite length_take; lia).
  destruct (decide (k < Z.to_nat off)%nat) as [Hk|Hk].
  - rewrite lookup_app_l by lia. rewrite lookup_take_lt by lia. rewrite decide_False by lia. done.
  - rewrite lookup_app_r by lia. rewrite Et. case_decide.
    + rewrite lookup_app_l by lia. done.
    + rewrite lookup_app_r by lia. rewrite lookup_drop. f_equal. lia.
Qed.

Lemma length_splice off l d : 0 <= off -> off + len l <= len d -> len (splice off l d) = len d.
Proof. intros. unfold splice. rewrite !length_app, length_take, length_drop. lia. Qed.

Lemma slice_splice off l d : 0 <= off -> off + len l <= len d -> slice off (len l) (splice off l d) = l.
Proof.
  intros Ho Hl. apply list_eq. intros k. rewrite lookup_slice, Nat2Z.id. case_decide.
  - rewrite lookup_splice, decide_True by lia. f_equal. lia.
  - symmetry. apply lookup_ge_None. lia.
Qed.

Lemma slice_splice_other off l d off' n :
  0 <= off -> off + len l <= len d -> 0 <= off' -> 0 <= n -> off' + n <= off \/ off + len l <= off' ->
  slice off' n (splice off l d) = slice off' n d.
Proof.
  intros Ho Hl Ho' Hn Hd. apply list_eq. intros k. rewrite !lookup_slice. case_decide; [|done].
  rewrite lookup_splice by lia. by rewrite decide_False by lia.
Qed.

Lemma slice_all d n : len d = n -> slice 0 n d = d.
Proof. intros <-. unfold slice. by rewrite Nat2Z.id, drop_0, take_ge. Qed.

Lemma splice_all l d : len l = len d -> splice 0 l d = l.
Proof.
  intros E. unfold splice. cbn [Z.to_nat]. rewrite take_0. simpl. rewrite drop_ge by lia. by rewrite app_nil_r.
Qed.

(** * Numbers *)

Lemma le_num_bytes n v : le_num (le_bytes n v) = v mod 256 ^ Z.of_nat n.
Proof.
  revert v. induction n as [|n IH]; intros v; [by rewrite Z.mod_1_r|].
  cbn [le_bytes le_num foldr]. fold (le_num (le_bytes n (v / 256))). rewrite IH. unfold u8. change (2 ^ 8) with 256.
  rewrite Nat2Z.inj_succ, Z.pow_succ_r by lia. rewrite Z.rem_mul_r by lia. done.
Qed.

Lemma le_num_range l : Forall is_byte l -> 0 <= le_num l < 256 ^ len l.
Proof.
  induction 1 as [|x l Hx _ IH]; [done|]. cbn [le_num foldr length]. fold (le_num l). unfold is_byte in Hx.
  rewrite Nat2Z.inj_succ, Z.pow_succ_r by lia. lia.
Qed.

Lemma le_num_inj l l' : length l = length l' -> Forall is_byte l -> Forall is_byte l' -> le_num l = le_num l' -> l = l'.
Proof.
  revert l'. induction l as [|x l IH]; intros [|y l'] Hl H1 H2 E; simpl in *; try done.
  apply Forall_cons in H1 as [Hx H1]. apply Forall_cons in H2 as [Hy H2]. unfold is_byte in *.
  assert (x = y) as -> by lia. f_equal. apply IH; [lia|done|done|lia].
Qed.

Lemma le_bytes_num n l : length l = n -> Forall is_byte l -> le_bytes n (le_num l) = l.
Proof.
  intros <- Hb. apply le_num_inj; [by rewrite le_bytes_length|apply le_bytes_ok|done|].
  rewrite le_num_bytes. apply Z.mod_small. by apply le_num_range.
Qed.

(** The 32-bit number at [off]. *)
Definition num32 (off : Z) (d : bytes) : Z := le_num (slice off 4 d).

Lemma num32_put off v d : 0 <= off -> off + 4 <= len d -> num32 off (splice off (le_bytes 4 v) d) = u32 v.
Proof.
  intros. unfold num32. replace 4 with (len (le_bytes 4 v)) at 1 by (by rewrite le_bytes_length).
  rewrite slice_splice by (rewrite ?le_bytes_length; lia). by rewrite le_num_bytes.
Qed.

Lemma num32_put_other off off' v d :
  0 <= off -> off + 4 <= len d -> 0 <= off' -> off' + 4 <= off \/ off + 4 <= off' ->
  num32 off' (splice off (le_bytes 4 v) d) = num32 off' d.
Proof. intros. unfold num32. rewrite slice_splice_other by (rewrite ?le_bytes_length; lia). done. Qed.

Lemma i32_u32 z : i32 (u32 z) = i32 z.
Proof. unfold i32, u32. rewrite Zplus_mod_idemp_l. done. Qed.
