(* ===== verification/XvLog.v ===== *)
(** The log (kernel/log.c): transactions of several disk blocks that happen as a
    whole or not at all. *)

From S2P Require Import Prelude XvMem XvFsTypes XvKernel XvMsg XvSched XvBio.

Definition MAXOPBLOCKS : Z := 10.
Definition LOGBLOCKS : Z := MAXOPBLOCKS * 3.

Definition get_log : KM logstate := fs_gets fs_log.
Definition upd_log (g : logstate -> logstate) : KM unit := fs_modify (fun f => set_log (g (fs_log f)) f).

(** [log.lh.block[i]]; outside the array the access is undefined. *)
Definition lh_block (i : Z) : KM Z :=
  l ← get_log;
  match zlookup (lg_block l) i with Some b => mret b | None => kstuck BadAccess end.

Definition set_lh_block (i v : Z) : KM unit :=
  l ← get_log;
  if (0 <=? i) && (i <? len (lg_block l)) then upd_log (set_lgblock (<[Z.to_nat i := v]> (lg_block l)))
  else kstuck BadAccess.

(** The fields of the header block: [n] first, then the block numbers. *)
Definition head_block (i : Z) : Z := 4 + 4 * i.

Section log.
Context {BD : BlockDev}.

(** [for(i = 0; i < log.lh.n; i++)]; the body does not change [n]. *)
Definition for_lh (f : Z -> KM unit) : KM unit :=
  l ← get_log;
  for_each (Z.of_nat <$> seq 0 (Z.to_nat (lg_n l))) f.

(** The body of the loop of [install_trans]; the message printed when recovering
    goes to the console. *)
Definition install_block (recovering : bool) (tail : Z) : KM unit :=
  l ← get_log;
  lbuf ← bread (u32 (lg_dev l)) (u32 (lg_start l + tail + 1));
  blockno ← lh_block tail;
  dbuf ← bread (u32 (lg_dev l)) (u32 blockno);
  data ← bdata_get lbuf 0 BSIZE;
  bdata_put dbuf 0 data;;
  bwrite dbuf;;
  (if recovering then mret tt else bunpin dbuf);;
  brelse lbuf;;
  brelse dbuf.

Definition install_trans (recovering : bool) : KM unit := for_lh (install_block recovering).

Definition read_head : KM unit :=
  l ← get_log;
  b ← bread (u32 (lg_dev l)) (u32 (lg_start l));
  n ← bdata_get b 0 4;
  upd_log (set_lgn (i32 (le_num n)));;
  for_lh (fun i =>
    v ← bdata_get b (head_block i) 4;
    set_lh_block i (i32 (le_num v)));;
  brelse b.

Definition write_head : KM unit :=
  l ← get_log;
  b ← bread (u32 (lg_dev l)) (u32 (lg_start l));
  bdata_put b 0 (le_bytes 4 (lg_n l));;
  for_lh (fun i =>
    v ← lh_block i;
    bdata_put b (head_block i) (le_bytes 4 v));;
  bwrite b;;
  brelse b.

Definition recover_from_log : KM unit :=
  read_head;;
  install_trans true;;
  upd_log (set_lgn 0);;
  write_head.

(** [sizeof(struct logheader)] is 124, below [BSIZE]. *)
Definition initlog (dev : Z) (sb : superblock) : KM unit :=
  (if BSIZE <=? 4 + 4 * LOGBLOCKS then panic (L"initlog: too big logheader") else mret tt);;
  initlock LLog;;
  upd_log (fun l => mk_log (i32 (sb_logstart sb)) (lg_outstanding l) (lg_committing l) dev (lg_n l) (lg_block l));;
  recover_from_log.

(** [while(1)] in [begin_op], through [fuel] wakeups. *)
Fixpoint begin_op_loop (fuel : nat) : KM unit :=
  l ← get_log;
  if negb (lg_committing l =? 0) || (LOGBLOCKS <? lg_n l + (lg_outstanding l + 1) * MAXOPBLOCKS) then
    sleep CLog LLog;;
    match fuel with
    | O => kstuck Asleep
    | S f => begin_op_loop f
    end
  else
    upd_log (set_outstanding (lg_outstanding l + 1));;
    release LLog.

Definition begin_op : KM unit :=
  acquire LLog;;
  begin_op_loop naps.

(** The body of the loop of [write_log]. *)
Definition log_block (tail : Z) : KM unit :=
  l ← get_log;
  to ← bread (u32 (lg_dev l)) (u32 (lg_start l + tail + 1));
  blockno ← lh_block tail;
  from ← bread (u32 (lg_dev l)) (u32 blockno);
  data ← bdata_get from 0 BSIZE;
  bdata_put to 0 data;;
  bwrite to;;
  brelse from;;
  brelse to.

Definition write_log : KM unit := for_lh log_block.

Definition commit : KM unit :=
  l ← get_log;
  if 0 <? lg_n l then
    write_log;;
    write_head;;
    install_trans false;;
    upd_log (set_lgn 0);;
    write_head
  else mret tt.

Definition end_op : KM unit :=
  acquire LLog;;
  upd_log (fun l => set_outstanding (lg_outstanding l - 1) l);;
  l ← get_log;
  if negb (lg_committing l =? 0) then panic (L"log.committing")
  else
    do_commit ← (if lg_outstanding l =? 0 then
                   upd_log (set_committing 1);; mret true
                 else
                   wakeup (Some CLog);; mret false);
    release LLog;;
    if (do_commit : bool) then
      commit;;
      acquire LLog;;
      upd_log (set_committing 0);;
      wakeup (Some CLog);;
      release LLog
    else mret tt.

(** The index at which the search for [blockno] among the first [n] ends. *)
Definition lh_find (blockno n : Z) (l : list Z) : Z :=
  match find_index (Z.eqb blockno) (take (Z.to_nat n) l) with Some i => Z.of_nat i | None => n end.

Definition log_write (b : nat) : KM unit :=
  acquire LLog;;
  l ← get_log;
  if LOGBLOCKS <=? lg_n l then panic (L"too big a transaction")
  else if lg_outstanding l <? 1 then panic (L"log_write outside of trans")
  else
    x ← get_buf b;
    let i := lh_find (i32 (b_blockno x)) (lg_n l) (lg_block l) in
    set_lh_block i (i32 (b_blockno x));;
    (if i =? lg_n l then
       bpin b;;
       upd_log (fun l => set_lgn (lg_n l + 1) l)
     else mret tt);;
    release LLog.

End log.
