(* ===== verification/XvFs.v ===== *)
(** The file system (kernel/fs.c): block allocation, inodes, their contents,
    directories and path names.

    A pointer to an inode is 0 or one more than its index in the table.  Text that
    the kernel prints goes to the console and is left out.  What is read into, or
    written from, an object of the kernel is passed as the list of its bytes. *)

From S2P Require Import Prelude XvMem XvFsTypes XvKernel XvMsg XvSched XvBio XvLog.

Module Fs.

Definition FSMAGIC : Z := 0x10203040.
Definition ROOTINO : Z := 1.
Definition NINODE : nat := 50.
Definition NDIRECT : Z := 12.
Definition NINDIRECT : Z := BSIZE / 4.
Definition MAXFILE : Z := NDIRECT + NINDIRECT.
Definition IPB : Z := BSIZE / 64.
Definition BPB : Z := BSIZE * 8.
Definition DIRSIZ : nat := 14.
Definition T_DIR : Z := 1.
Definition T_FILE : Z := 2.
Definition T_DEVICE : Z := 3.

Definition IBLOCK (i : Z) (sb : superblock) : Z := u32 (i / IPB + sb_inodestart sb).
Definition BBLOCK (b : Z) (sb : superblock) : Z := u32 (b / BPB + sb_bmapstart sb).

(** [0], [step], [2 * step], ... below [bound]. *)
Definition steps (step bound : Z) : list Z :=
  (fun k => step * Z.of_nat k) <$> seq 0 (Z.to_nat ((bound + step - 1) / step)).

(** * Structures on the disk *)

Definition sb_of (d : bytes) : superblock :=
  let w k := le_num (slice (4 * k) 4 d) in
  mk_sb (w 0) (w 1) (w 2) (w 3) (w 4) (w 5) (w 6) (w 7).

(** [struct dinode]: four shorts, the size, 13 block numbers. *)
Definition dinode_of (d : bytes) : dinode :=
  let h k := i16 (le_num (slice (2 * k) 2 d)) in
  let w k := le_num (slice (4 * k) 4 d) in
  mk_dinode (h 0) (h 1) (h 2) (h 3) (w 2) ((fun k => w (3 + Z.of_nat k)) <$> seq 0 13).

Definition dinode_bytes (x : dinode) : bytes :=
  le_bytes 2 (di_type x) ++ le_bytes 2 (di_major x) ++ le_bytes 2 (di_minor x) ++ le_bytes 2 (di_nlink x) ++
  le_bytes 4 (di_size x) ++ concat (le_bytes 4 <$> di_addrs x).

(** Where inode [inum] is in its block. *)
Definition dinode_off (inum : Z) : Z := 64 * (inum mod IPB).

(** [struct dirent]: inode number and name. *)
Definition de_inum (de : bytes) : Z := le_num (slice 0 2 de).
Definition de_name (de : bytes) : bytes := slice 2 14 de.
Definition dirent (inum : Z) (name : bytes) : bytes := le_bytes 2 inum ++ name.

(** [struct stat]. *)
Record stat := mk_stat {
  st_dev : Z;
  st_ino : Z;
  st_type : Z;
  st_nlink : Z;
  st_size : Z;
}.

(** * Access to the state *)

Definition get_sb : KM superblock := fs_gets fs_sb.

Definition ip_slot (ip : Z) : nat := Z.to_nat (ip - 1).
Definition ip_ptr (k : nat) : Z := Z.of_nat k + 1.

Definition get_ip (ip : Z) : KM inode :=
  o ← fs_gets (fun f => if 0 <? ip then fs_inode f !! ip_slot ip else None);
  match o with Some x => mret x | None => kstuck BadAccess end.

Definition upd_ip (ip : Z) (g : inode -> inode) : KM unit :=
  x ← get_ip ip;
  fs_modify (fun f => set_inode (<[ip_slot ip := g x]> (fs_inode f)) f).

Definition upd_d (ip : Z) (g : dinode -> dinode) : KM unit := upd_ip ip (fun x => set_id (g (i_d x)) x).

(** [ip->addrs[k]]. *)
Definition ip_addr (ip k : Z) : KM Z :=
  x ← get_ip ip;
  match zlookup (di_addrs (i_d x)) k with Some a => mret a | None => kstuck BadAccess end.

Definition set_ip_addr (ip k a : Z) : KM unit :=
  x ← get_ip ip;
  if (0 <=? k) && (k <? len (di_addrs (i_d x))) then upd_d ip (fun d => set_diaddrs (<[Z.to_nat k := a]> (di_addrs d)) d)
  else kstuck BadAccess.

Definition ip_lock (ip : Z) : sleepid := SInode (ip_slot ip).

(** * Blocks *)

Section fs.
Context {BD : BlockDev}.

Definition readsb (dev : Z) : KM unit :=
  bp ← bread dev 1;
  d ← bdata_get bp 0 32;
  fs_modify (set_sb (sb_of d));;
  brelse bp.

Definition bzero (dev bno : Z) : KM unit :=
  bp ← bread dev bno;
  bdata_put bp 0 (replicate (Z.to_nat BSIZE) 0);;
  log_write bp;;
  brelse bp.

(** The loop of [balloc] over the bits of the bitmap block in [bp], whose first
    bit is for block [b]. *)
Definition balloc_scan (dev size b : Z) (bp : nat) : KM (option Z) :=
  for_some (steps 1 (Z.min BPB (size - b))) (fun bi =>
    x ← bdata_get bp (bi / 8) 1;
    let m := Z.shiftl 1 (bi mod 8) in
    if Z.land (le_num x) m =? 0 then
      bdata_put bp (bi / 8) [u8 (Z.lor (le_num x) m)];;
      log_write bp;;
      brelse bp;;
      bzero dev (b + bi);;
      mret (Some (b + bi))
    else mret None).

Definition balloc (dev : Z) : KM Z :=
  sb ← get_sb;
  r ← for_some (steps BPB (sb_size sb)) (fun b =>
    bp ← bread dev (BBLOCK b sb);
    r ← balloc_scan dev (sb_size sb) b bp;
    match r with
    | Some a => mret (Some a)
    | None => brelse bp;; mret None
    end);
  match r with
  | Some a => mret (u32 a)
  | None => mret 0
  end.

Definition bfree (dev b : Z) : KM unit :=
  sb ← get_sb;
  bp ← bread dev (BBLOCK b sb);
  let bi := b mod BPB in
  let m := Z.shiftl 1 (bi mod 8) in
  x ← bdata_get bp (bi / 8) 1;
  if Z.land (le_num x) m =? 0 then panic (L"freeing free block")
  else
    bdata_put bp (bi / 8) [u8 (Z.land (le_num x) (Z.lnot m))];;
    log_write bp;;
    brelse bp.

(** * Inodes *)

Definition iinit : KM unit :=
  initlock LItable;;
  for_each (seq 0 NINODE) (fun k => initsleeplock (SInode k)).

(** The loop of [iget]: the entry of the inode, or else the first empty one. *)
Fixpoint iget_scan (todo : list nat) (dev inum : Z) (empty : Z) : KM (Z * Z) :=
  match todo with
  | [] => mret (0, empty)
  | k :: todo' =>
      x ← get_ip (ip_ptr k);
      if (0 <? i_ref x) && (i_dev x =? dev) && (i_inum x =? inum) then mret (ip_ptr k, empty)
      else iget_scan todo' dev inum (if (empty =? 0) && (i_ref x =? 0) then ip_ptr k else empty)
  end.

Definition iget (dev inum : Z) : KM Z :=
  acquire LItable;;
  '(ip, empty) ← iget_scan (seq 0 NINODE) dev inum 0;
  if negb (ip =? 0) then
    upd_ip ip (fun x => set_iref (i32 (i_ref x + 1)) x);;
    release LItable;;
    mret ip
  else if empty =? 0 then panic (L"iget: no inodes")
  else
    upd_ip empty (fun x => mk_inode dev inum 1 0 (i_d x));;
    release LItable;;
    mret empty.

Definition ialloc (dev type : Z) : KM Z :=
  sb ← get_sb;
  r ← for_some (tail (steps 1 (sb_ninodes sb))) (fun inum =>
    bp ← bread dev (IBLOCK inum sb);
    t ← bdata_get bp (dinode_off inum) 2;
    if i16 (le_num t) =? 0 then
      bdata_put bp (dinode_off inum) (replicate 64 0);;
      bdata_put bp (dinode_off inum) (le_bytes 2 type);;
      log_write bp;;
      brelse bp;;
      ip ← iget dev inum;
      mret (Some ip)
    else
      brelse bp;;
      mret None);
  match r with Some ip => mret ip | None => mret 0 end.

Definition iupdate (ip : Z) : KM unit :=
  x ← get_ip ip;
  sb ← get_sb;
  bp ← bread (i_dev x) (IBLOCK (i_inum x) sb);
  x ← get_ip ip;
  bdata_put bp (dinode_off (i_inum x)) (dinode_bytes (i_d x));;
  log_write bp;;
  brelse bp.

Definition idup (ip : Z) : KM Z :=
  acquire LItable;;
  upd_ip ip (fun x => set_iref (i32 (i_ref x + 1)) x);;
  release LItable;;
  mret ip.

Definition ilock (ip : Z) : KM unit :=
  if ip =? 0 then panic (L"ilock")
  else
    x ← get_ip ip;
    if i_ref x <? 1 then panic (L"ilock")
    else
      acquiresleep naps (ip_lock ip);;
      x ← get_ip ip;
      if i_valid x =? 0 then
        sb ← get_sb;
        bp ← bread (i_dev x) (IBLOCK (i_inum x) sb);
        d ← bdata_get bp (dinode_off (i_inum x)) 64;
        upd_d ip (fun _ => dinode_of d);;
        brelse bp;;
        upd_ip ip (set_ivalid 1);;
        x ← get_ip ip;
        if di_type (i_d x) =? 0 then panic (L"ilock: no type") else mret tt
      else mret tt.

Definition iunlock (ip : Z) : KM unit :=
  if ip =? 0 then panic (L"iunlock")
  else
    h ← holdingsleep (ip_lock ip);
    if negb h then panic (L"iunlock")
    else
      x ← get_ip ip;
      if i_ref x <? 1 then panic (L"iunlock") else releasesleep (ip_lock ip).

(** * The blocks of an inode *)

(** Entry [bn] of the indirect block, which is at [addr]. *)
Definition bmap_entry (ip addr bn : Z) : KM Z :=
  x ← get_ip ip;
  bp ← bread (i_dev x) addr;
  a ← bdata_get bp (4 * bn) 4;
  addr ← (if le_num a =? 0 then
            addr ← balloc (i_dev x);
            (if addr =? 0 then mret tt
             else
               bdata_put bp (4 * bn) (le_bytes 4 addr);;
               log_write bp);;
            mret addr
          else mret (le_num a));
  brelse bp;;
  mret addr.

Definition bmap (ip bn : Z) : KM Z :=
  if bn <? NDIRECT then
    addr ← ip_addr ip bn;
    if addr =? 0 then
      x ← get_ip ip;
      addr ← balloc (i_dev x);
      if addr =? 0 then mret 0
      else
        set_ip_addr ip bn addr;;
        mret addr
    else mret addr
  else
    let bn := bn - NDIRECT in
    if bn <? NINDIRECT then
      addr ← ip_addr ip NDIRECT;
      addr ← (if addr =? 0 then
                x ← get_ip ip;
                addr ← balloc (i_dev x);
                (if addr =? 0 then mret tt else set_ip_addr ip NDIRECT addr);;
                mret addr
              else mret addr);
      if addr =? 0 then mret 0
      else
        bmap_entry ip addr bn
    else panic (L"bmap: out of range").

Definition itrunc (ip : Z) : KM unit :=
  for_each (steps 1 NDIRECT) (fun i =>
    a ← ip_addr ip i;
    if a =? 0 then mret tt
    else
      x ← get_ip ip;
      bfree (i_dev x) a;;
      set_ip_addr ip i 0);;
  a ← ip_addr ip NDIRECT;
  (if a =? 0 then mret tt
   else
     x ← get_ip ip;
     bp ← bread (i_dev x) a;
     for_each (steps 1 NINDIRECT) (fun j =>
       v ← bdata_get bp (4 * j) 4;
       if le_num v =? 0 then mret tt else bfree (i_dev x) (le_num v));;
     brelse bp;;
     a ← ip_addr ip NDIRECT;
     bfree (i_dev x) a;;
     set_ip_addr ip NDIRECT 0);;
  upd_d ip (set_disize 0);;
  iupdate ip.

Definition iput (ip : Z) : KM unit :=
  acquire LItable;;
  x ← get_ip ip;
  (if (i_ref x =? 1) && negb (i_valid x =? 0) && (di_nlink (i_d x) =? 0) then
     acquiresleep naps (ip_lock ip);;
     release LItable;;
     itrunc ip;;
     upd_d ip (set_ditype 0);;
     iupdate ip;;
     upd_ip ip (set_ivalid 0);;
     releasesleep (ip_lock ip);;
     acquire LItable
   else mret tt);;
  upd_ip ip (fun x => set_iref (i_ref x - 1) x);;
  release LItable.

Definition iunlockput (ip : Z) : KM unit :=
  iunlock ip;;
  iput ip.

Definition ireclaim (dev : Z) : KM unit :=
  sb ← get_sb;
  for_each (tail (steps 1 (sb_ninodes sb))) (fun inum =>
    bp ← bread dev (IBLOCK inum sb);
    d ← bdata_get bp (dinode_off inum) 64;
    ip ← (if negb (di_type (dinode_of d) =? 0) && (di_nlink (dinode_of d) =? 0) then iget dev inum else mret 0);
    brelse bp;;
    if ip =? 0 then mret tt
    else
      begin_op;;
      ilock ip;;
      iunlock ip;;
      iput ip;;
      end_op).

Definition fsinit (dev : Z) : KM unit :=
  readsb dev;;
  sb ← get_sb;
  if negb (sb_magic sb =? FSMAGIC) then panic (L"invalid file system")
  else
    initlog dev sb;;
    ireclaim dev.

Definition stati (ip : Z) : KM stat :=
  x ← get_ip ip;
  mret (mk_stat (i32 (i_dev x)) (i_inum x) (di_type (i_d x)) (di_nlink (i_d x)) (di_size (i_d x))).

(** * Contents *)

Context {U : UserCopy}.

(** Where data goes: to user memory at an address, or to an object of the kernel. *)
Definition either_copyout (dst : option Z) (src : bytes) : KM Z :=
  i ← myproc;
  p ← get_proc i;
  match dst with
  | Some va => copyout (p_pagetable p) va src (len src)
  | None => mret 0
  end.

(** Where data comes from: user memory at an address, or the bytes of an object
    of the kernel. *)
Inductive source :=
  | User (va : Z)
  | Kernel (obj : bytes).

(** [n] bytes at [at] of the source; also the bytes that were copied. *)
Definition either_copyin (src : source) (at_ n : Z) : KM (Z * bytes) :=
  i ← myproc;
  p ← get_proc i;
  match src with
  | User va => copyin (p_pagetable p) (u64 (va + at_)) n
  | Kernel obj => if at_ + n <=? len obj then mret (0, slice at_ n obj) else kstuck BadAccess
  end.

(** The loop of [readi]: the result, and the bytes copied so far. *)
Fixpoint readi_loop (fuel : nat) (ip : Z) (dst : option Z) (n tot off : Z) (got : bytes) : KM (Z * bytes) :=
  if tot <? n then
    match fuel with
    | O => kstuck NoFuel
    | S fuel' =>
        addr ← bmap ip (off / BSIZE);
        if addr =? 0 then mret (tot, got)
        else
          x ← get_ip ip;
          bp ← bread (i_dev x) addr;
          let m := Z.min (n - tot) (BSIZE - off mod BSIZE) in
          data ← bdata_get bp (off mod BSIZE) m;
          rc ← either_copyout dst data;
          brelse bp;;
          if rc =? -1 then mret (-1, got)
          else readi_loop fuel' ip ((fun va => u64 (va + m)) <$> dst) n (tot + m) (off + m) (got ++ data)
    end
  else mret (tot, got).

(** Each round but the first and the last is for a whole block. *)
Definition rounds (n : Z) : nat := Z.to_nat (n / BSIZE + 2).

Definition readi (ip : Z) (dst : option Z) (off n : Z) : KM (Z * bytes) :=
  x ← get_ip ip;
  let size := di_size (i_d x) in
  if (size <? off) || (u32 (off + n) <? off) then mret (0, [])
  else
    let n := if size <? u32 (off + n) then size - off else n in
    '(tot, got) ← readi_loop (rounds n) ip dst n 0 off [];
    mret (i32 tot, got).

(** The loop of [writei]: how much was written, and the offset behind it. *)
Fixpoint writei_loop (fuel : nat) (ip : Z) (src : source) (n tot off : Z) : KM (Z * Z) :=
  if tot <? n then
    match fuel with
    | O => kstuck NoFuel
    | S fuel' =>
        addr ← bmap ip (off / BSIZE);
        if addr =? 0 then mret (tot, off)
        else
          x ← get_ip ip;
          bp ← bread (i_dev x) addr;
          let m := Z.min (n - tot) (BSIZE - off mod BSIZE) in
          '(rc, data) ← either_copyin src tot m;
          bdata_put bp (off mod BSIZE) data;;
          if rc =? -1 then
            brelse bp;;
            mret (tot, off)
          else
            log_write bp;;
            brelse bp;;
            writei_loop fuel' ip src n (tot + m) (off + m)
    end
  else mret (tot, off).

Definition writei (ip : Z) (src : source) (off n : Z) : KM Z :=
  x ← get_ip ip;
  if (di_size (i_d x) <? off) || (u32 (off + n) <? off) then mret (-1)
  else if MAXFILE * BSIZE <? u32 (off + n) then mret (-1)
  else
    '(tot, off) ← writei_loop (rounds n) ip src n 0 off;
    x ← get_ip ip;
    (if di_size (i_d x) <? off then upd_d ip (set_disize off) else mret tt);;
    iupdate ip;;
    mret (i32 tot).

(** * Directories *)

(** [strncmp] on the contents of two arrays; [None] when it would read behind one. *)
Fixpoint strncmp (n : nat) (p q : bytes) : option Z :=
  match n with
  | O => Some 0
  | S n' =>
      match p, q with
      | x :: p', y :: q' => if negb (x =? 0) && (x =? y) then strncmp n' p' q' else Some (x - y)
      | _, _ => None
      end
  end.

(** What [strncpy] stores. *)
Fixpoint strncpy (n : nat) (t : bytes) : option bytes :=
  match n with
  | O => Some []
  | S n' =>
      match t with
      | [] => None
      | x :: t' => if x =? 0 then Some (replicate n 0) else (cons x) <$> strncpy n' t'
      end
  end.

Definition need {A} (o : option A) : KM A := match o with Some x => mret x | None => kstuck BadAccess end.

Definition namecmp (s t : bytes) : KM Z := need (strncmp DIRSIZ s t).

(** The entry at [off], or panic with [msg]. *)
Definition read_dirent (dp off : Z) (msg : bytes) : KM bytes :=
  '(r, de) ← readi dp None off 16;
  if negb (r =? 16) then panic msg else mret de.

(** The inode, and the offset of the entry. *)
Definition dirlookup (dp : Z) (name : bytes) : KM (Z * Z) :=
  x ← get_ip dp;
  if negb (di_type (i_d x) =? T_DIR) then panic (L"dirlookup not DIR")
  else
    r ← for_some (steps 16 (di_size (i_d x))) (fun off =>
      de ← read_dirent dp off (L"dirlookup read");
      if de_inum de =? 0 then mret None
      else
        c ← namecmp name (de_name de);
        if c =? 0 then
          ip ← iget (i_dev x) (de_inum de);
          mret (Some (ip, off))
        else mret None);
    match r with
    | Some r => mret r
    | None => mret (0, 0)
    end.

Definition dirlink (dp : Z) (name : bytes) (inum : Z) : KM Z :=
  '(ip, _) ← dirlookup dp name;
  if negb (ip =? 0) then
    iput ip;;
    mret (-1)
  else
    x ← get_ip dp;
    let offs := steps 16 (di_size (i_d x)) in
    r ← for_some offs (fun off =>
      de ← read_dirent dp off (L"dirlink read");
      if de_inum de =? 0 then mret (Some off) else mret None);
    let off := match r with Some off => off | None => 16 * len offs end in
    nm ← need (strncpy DIRSIZ name);
    r ← writei dp (Kernel (dirent inum nm)) off 16;
    if negb (r =? 16) then mret (-1) else mret 0.

(** * Paths *)

(** [path] is a string without its NUL, and [name] the array that is filled. *)
Fixpoint skip_slashes (path : bytes) : bytes :=
  match path with
  | c :: path' => if c =? 47 then skip_slashes path' else path
  | [] => []
  end.

(** The characters before the next slash, and the rest. *)
Fixpoint split_elem (path : bytes) : bytes * bytes :=
  match path with
  | c :: path' => if c =? 47 then ([], path) else let '(s, r) := split_elem path' in (c :: s, r)
  | [] => ([], [])
  end.

Definition skipelem (path name : bytes) : option (bytes * bytes) :=
  match skip_slashes path with
  | [] => None
  | path =>
      let '(s, rest) := split_elem path in
      Some (skip_slashes rest,
            if Z.of_nat DIRSIZ <=? len s then splice 0 (take DIRSIZ s) name else splice 0 (s ++ [0]) name)
  end.

Fixpoint namex_loop (fuel : nat) (ip : Z) (path : bytes) (nameiparent : bool) (name : bytes) : KM (Z * bytes) :=
  match skipelem path name with
  | None =>
      if nameiparent then
        iput ip;;
        mret (0, name)
      else mret (ip, name)
  | Some (path, name) =>
      match fuel with
      | O => kstuck NoFuel
      | S fuel' =>
          ilock ip;;
          x ← get_ip ip;
          if negb (di_type (i_d x) =? T_DIR) then
            iunlockput ip;;
            mret (0, name)
          else if nameiparent && (len path =? 0) then
            iunlock ip;;
            mret (ip, name)
          else
            '(next, _) ← dirlookup ip name;
            if next =? 0 then
              iunlockput ip;;
              mret (0, name)
            else
              iunlockput ip;;
              namex_loop fuel' next path nameiparent name
      end
  end.

(** Every round takes a character of the path. *)
Definition namex (path : bytes) (nameiparent : bool) (name : bytes) : KM (Z * bytes) :=
  ip ← (match path with
        | 47 :: _ => iget ROOTDEV ROOTINO
        | _ => i ← myproc; p ← get_proc i; idup (p_cwd p)
        end);
  namex_loop (length path) ip path nameiparent name.

(** What the array [name] holds at first is not read. *)
Definition namei (path : bytes) : KM Z :=
  '(ip, _) ← namex path false (replicate DIRSIZ 0);
  mret ip.

Definition nameiparent (path name : bytes) : KM (Z * bytes) := namex path true name.

End fs.

End Fs.
