(* ===== verification/XvSysfile.v ===== *)
(** Open files of inodes and devices (kernel/file.c), string arguments
    (kernel/syscall.c) and the file-system calls (kernel/sysfile.c). *)

From S2P Require Import Prelude XvMem XvString XvFsTypes XvKernel XvMsg XvVm XvSched XvPipe XvBio XvLog XvFs.

Definition MAXPATH : Z := 128.
Definition MAXARG : nat := 32.
Definition NDEV : Z := 10.

Definition O_RDONLY : Z := 0.
Definition O_WRONLY : Z := 1.
Definition O_RDWR : Z := 2.
Definition O_CREATE : Z := 0x200.
Definition O_TRUNC : Z := 0x400.

Definition set_foff x f := mk_file (f_type f) (f_ref f) (f_readable f) (f_writable f) (f_pipe f) (f_ip f) x (f_major f).
Definition set_fip x f := mk_file (f_type f) (f_ref f) (f_readable f) (f_writable f) (f_pipe f) x (f_off f) (f_major f).
Definition set_fmajor x f := mk_file (f_type f) (f_ref f) (f_readable f) (f_writable f) (f_pipe f) (f_ip f) (f_off f) x.
Definition set_fmode r w f := mk_file (f_type f) (f_ref f) r w (f_pipe f) (f_ip f) (f_off f) (f_major f).

(** [devsw]: the read and write functions of the devices, by major number. *)
Class Devices := {
  dev_read : Z -> option (Z -> Z -> KM Z);
  dev_write : Z -> option (Z -> Z -> KM Z);
}.

(** The bytes of a NUL-terminated string. *)
Fixpoint cstr (buf : bytes) : bytes :=
  match buf with
  | [] => []
  | x :: buf' => if x =? 0 then [] else x :: cstr buf'
  end.

Definition b2z (b : bool) : Z := if b then 1 else 0.

Section files.
Context {Lay : Layout} {U : UserCopy} {BD : BlockDev} {DV : Devices}.

(** What kernel/file.c and kernel/proc.c call. *)
#[global] Instance fs_inodes : Inodes := {|
  release_inode ip := begin_op;; Fs.iput ip;; end_op;
  XvPipe.idup := Fs.idup;
  namei_root := Fs.namei (L"/");
|}.

(** * syscall.c *)

(** Result, and the word that was read. *)
Definition fetchaddr (addr : Z) : KM (Z * Z) :=
  i ← myproc;
  p ← get_proc i;
  if (p_sz p <=? addr) || (p_sz p <? u64 (addr + 8)) then mret (-1, 0)
  else
    '(rc, data) ← copyin (p_pagetable p) addr 8;
    if negb (rc =? 0) then mret (-1, 0) else mret (0, le_num data).

(** Result, and what was stored in the buffer. *)
Definition fetchstr (addr max : Z) : KM (Z * bytes) :=
  i ← myproc;
  p ← get_proc i;
  '(rc, buf) ← copyinstr (p_pagetable p) addr max;
  if rc <? 0 then mret (-1, buf) else mret (len (cstr buf), buf).

Definition argstr (n : nat) (max : Z) : KM (Z * bytes) :=
  addr ← argaddr n;
  fetchstr addr max.

(** * file.c *)

(** [struct stat] in memory; the four bytes before [size] are padding. *)
Definition stat_bytes (st : Fs.stat) (pad : bytes) : bytes :=
  le_bytes 4 (Fs.st_dev st) ++ le_bytes 4 (Fs.st_ino st) ++ le_bytes 2 (Fs.st_type st) ++ le_bytes 2 (Fs.st_nlink st) ++
  pad ++ le_bytes 8 (Fs.st_size st).

(** [pad] is what the stack held where the padding is. *)
Definition filestat (f : nat) (addr : Z) (pad : bytes) : KM Z :=
  i ← myproc;
  p ← get_proc i;
  x ← get_file f;
  match f_type x with
  | FD_INODE | FD_DEVICE =>
      Fs.ilock (f_ip x);;
      st ← Fs.stati (f_ip x);
      Fs.iunlock (f_ip x);;
      rc ← copyout (p_pagetable p) addr (stat_bytes st pad) 24;
      if rc <? 0 then mret (-1) else mret 0
  | _ => mret (-1)
  end.

(** The device function, if the number is in range and the device has one. *)
Definition devsw (table : Z -> option (Z -> Z -> KM Z)) (major : Z) : option (Z -> Z -> KM Z) :=
  if (major <? 0) || (NDEV <=? major) then None else table major.

Definition fileread (f : nat) (addr n : Z) : KM Z :=
  x ← get_file f;
  if f_readable x =? 0 then mret (-1)
  else
    match f_type x with
    | FD_PIPE => piperead naps (f_pipe x) addr n
    | FD_DEVICE =>
        match devsw dev_read (f_major x) with
        | None => mret (-1)
        | Some rd => rd addr n
        end
    | FD_INODE =>
        Fs.ilock (f_ip x);;
        x ← get_file f;
        '(r, _) ← Fs.readi (f_ip x) (Some addr) (f_off x) (u32 n);
        (if 0 <? r then upd_file f (fun x => set_foff (u32 (f_off x + r)) x) else mret tt);;
        Fs.iunlock (f_ip x);;
        mret r
    | FD_NONE => panic (L"fileread")
    end.

(** Bytes written in one transaction. *)
Definition write_max : Z := (MAXOPBLOCKS - 1 - 1 - 2) / 2 * BSIZE.

(** The loop of [filewrite]: how much was written. *)
Fixpoint filewrite_loop (fuel : nat) (f : nat) (addr n i : Z) : KM Z :=
  if i <? n then
    match fuel with
    | O => kstuck NoFuel
    | S fuel' =>
        let n1 := Z.min (n - i) write_max in
        begin_op;;
        x ← get_file f;
        Fs.ilock (f_ip x);;
        x ← get_file f;
        r ← Fs.writei (f_ip x) (Fs.User (u64 (addr + i))) (f_off x) n1;
        (if 0 <? r then upd_file f (fun x => set_foff (u32 (f_off x + r)) x) else mret tt);;
        Fs.iunlock (f_ip x);;
        end_op;;
        if negb (r =? n1) then mret i else filewrite_loop fuel' f addr n (i + r)
    end
  else mret i.

Definition filewrite (f : nat) (addr n : Z) : KM Z :=
  x ← get_file f;
  if f_writable x =? 0 then mret (-1)
  else
    match f_type x with
    | FD_PIPE => pipewrite naps (f_pipe x) addr n
    | FD_DEVICE =>
        match devsw dev_write (f_major x) with
        | None => mret (-1)
        | Some wr => wr addr n
        end
    | FD_INODE =>
        i ← filewrite_loop (Z.to_nat (n / write_max + 1)) f addr n 0;
        mret (if i =? n then n else -1)
    | FD_NONE => panic (L"filewrite")
    end.

(** * Descriptors *)

(** The descriptor and the file, [None] for -1. *)
Definition argfd (n : nat) : KM (option (Z * nat)) :=
  fd ← argint n;
  if (fd <? 0) || (Z.of_nat NOFILE <=? fd) then mret None
  else
    i ← myproc;
    p ← get_proc i;
    match zlookup (p_ofile p) fd with
    | Some (Some f) => mret (Some (fd, f))
    | Some None => mret None
    | None => kstuck BadAccess
    end.

Definition set_ofile (i : nat) (fd : Z) (o : option nat) : KM unit :=
  p ← get_proc i;
  if fd <? len (p_ofile p) then upd_proc i (fun p => set_pofile (<[Z.to_nat fd := o]> (p_ofile p)) p)
  else kstuck BadAccess.

Definition fdalloc (f : nat) : KM Z :=
  i ← myproc;
  r ← for_some (Z.of_nat <$> seq 0 NOFILE) (fun fd =>
    p ← get_proc i;
    match zlookup (p_ofile p) fd with
    | Some None =>
        set_ofile i fd (Some f);;
        mret (Some fd)
    | Some (Some _) => mret None
    | None => kstuck BadAccess
    end);
  match r with Some fd => mret fd | None => mret (-1) end.

Definition sys_dup : KM Z :=
  o ← argfd 0;
  match o with
  | None => mret (-1)
  | Some (_, f) =>
      fd ← fdalloc f;
      if fd <? 0 then mret (-1)
      else
        filedup f;;
        mret fd
  end.

Definition sys_read : KM Z :=
  p ← argaddr 1;
  n ← argint 2;
  o ← argfd 0;
  match o with
  | None => mret (-1)
  | Some (_, f) => fileread f p n
  end.

Definition sys_write : KM Z :=
  p ← argaddr 1;
  n ← argint 2;
  o ← argfd 0;
  match o with
  | None => mret (-1)
  | Some (_, f) => filewrite f p n
  end.

Definition sys_close : KM Z :=
  o ← argfd 0;
  match o with
  | None => mret (-1)
  | Some (fd, f) =>
      i ← myproc;
      set_ofile i fd None;;
      fileclose f;;
      mret 0
  end.

Definition sys_fstat (pad : bytes) : KM Z :=
  st ← argaddr 1;
  o ← argfd 0;
  match o with
  | None => mret (-1)
  | Some (_, f) => filestat f st pad
  end.

(** * Names *)

(** A new array for a name; what it holds at first is not read. *)
Definition name0 : bytes := replicate Fs.DIRSIZ 0.

(** The end of a call that failed. *)
Definition fail_op : KM Z := end_op;; mret (-1).

Definition add_nlink (ip d : Z) : KM unit :=
  Fs.upd_d ip (fun x => set_dinlink (i16 (di_nlink x + d)) x).

(** [bad] of [sys_link]. *)
Definition link_bad (ip : Z) : KM Z :=
  Fs.ilock ip;;
  add_nlink ip (-1);;
  Fs.iupdate ip;;
  Fs.iunlockput ip;;
  fail_op.

Definition sys_link : KM Z :=
  '(r, old) ← argstr 0 MAXPATH;
  if r <? 0 then mret (-1)
  else
    '(r, new) ← argstr 1 MAXPATH;
    if r <? 0 then mret (-1)
    else
      begin_op;;
      ip ← Fs.namei (cstr old);
      if ip =? 0 then fail_op
      else
        Fs.ilock ip;;
        x ← Fs.get_ip ip;
        if di_type (i_d x) =? Fs.T_DIR then
          Fs.iunlockput ip;;
          fail_op
        else
          add_nlink ip 1;;
          Fs.iupdate ip;;
          Fs.iunlock ip;;
          '(dp, name) ← Fs.nameiparent (cstr new) name0;
          if dp =? 0 then link_bad ip
          else
            Fs.ilock dp;;
            y ← Fs.get_ip dp;
            x ← Fs.get_ip ip;
            r ← (if negb (i_dev y =? i_dev x) then mret (-1) else Fs.dirlink dp name (i_inum x));
            if r <? 0 then
              Fs.iunlockput dp;;
              link_bad ip
            else
              Fs.iunlockput dp;;
              Fs.iput ip;;
              end_op;;
              mret 0.

Definition isdirempty (dp : Z) : KM bool :=
  x ← Fs.get_ip dp;
  r ← for_some (drop 2 (Fs.steps 16 (di_size (i_d x)))) (fun off =>
    de ← Fs.read_dirent dp off (L"isdirempty: readi");
    if negb (Fs.de_inum de =? 0) then mret (Some false) else mret None);
  match r with Some b => mret b | None => mret true end.

(** [bad] of [sys_unlink]. *)
Definition unlink_bad (dp : Z) : KM Z :=
  Fs.iunlockput dp;;
  fail_op.

Definition sys_unlink : KM Z :=
  '(r, path) ← argstr 0 MAXPATH;
  if r <? 0 then mret (-1)
  else
    begin_op;;
    '(dp, name) ← Fs.nameiparent (cstr path) name0;
    if dp =? 0 then fail_op
    else
      Fs.ilock dp;;
      c ← Fs.namecmp name (L"." ++ [0]);
      dots ← (if c =? 0 then mret true else c ← Fs.namecmp name (L".." ++ [0]); mret (c =? 0));
      if (dots : bool) then unlink_bad dp
      else
        '(ip, off) ← Fs.dirlookup dp name;
        if ip =? 0 then unlink_bad dp
        else
          Fs.ilock ip;;
          x ← Fs.get_ip ip;
          if di_nlink (i_d x) <? 1 then panic (L"unlink: nlink < 1")
          else
            full ← (if di_type (i_d x) =? Fs.T_DIR then e ← isdirempty ip; mret (negb e) else mret false);
            if (full : bool) then
              Fs.iunlockput ip;;
              unlink_bad dp
            else
              r ← Fs.writei dp (Fs.Kernel (replicate 16 0)) off 16;
              if negb (r =? 16) then panic (L"unlink: writei")
              else
                x ← Fs.get_ip ip;
                (if di_type (i_d x) =? Fs.T_DIR then
                   add_nlink dp (-1);;
                   Fs.iupdate dp
                 else mret tt);;
                Fs.iunlockput dp;;
                add_nlink ip (-1);;
                Fs.iupdate ip;;
                Fs.iunlockput ip;;
                end_op;;
                mret 0.

(** [fail] of [create]. *)
Definition create_fail (ip dp : Z) : KM Z :=
  Fs.upd_d ip (set_dinlink 0);;
  Fs.iupdate ip;;
  Fs.iunlockput ip;;
  Fs.iunlockput dp;;
  mret 0.

Definition create (path : bytes) (type major minor : Z) : KM Z :=
  '(dp, name) ← Fs.nameiparent path name0;
  if dp =? 0 then mret 0
  else
    Fs.ilock dp;;
    '(ip, _) ← Fs.dirlookup dp name;
    if negb (ip =? 0) then
      Fs.iunlockput dp;;
      Fs.ilock ip;;
      x ← Fs.get_ip ip;
      if (type =? Fs.T_FILE) && ((di_type (i_d x) =? Fs.T_FILE) || (di_type (i_d x) =? Fs.T_DEVICE)) then mret ip
      else
        Fs.iunlockput ip;;
        mret 0
    else
      d ← Fs.get_ip dp;
      ip ← Fs.ialloc (i_dev d) type;
      if ip =? 0 then
        Fs.iunlockput dp;;
        mret 0
      else
        Fs.ilock ip;;
        Fs.upd_d ip (fun x => mk_dinode (di_type x) major minor 1 (di_size x) (di_addrs x));;
        Fs.iupdate ip;;
        x ← Fs.get_ip ip;
        d ← Fs.get_ip dp;
        dots ← (if type =? Fs.T_DIR then
                  r ← Fs.dirlink ip (L"." ++ [0]) (i_inum x);
                  if r <? 0 then mret false
                  else
                    r ← Fs.dirlink ip (L".." ++ [0]) (i_inum d);
                    mret (negb (r <? 0))
                else mret true);
        if negb dots then create_fail ip dp
        else
          r ← Fs.dirlink dp name (i_inum x);
          if r <? 0 then create_fail ip dp
          else
            (if type =? Fs.T_DIR then
               add_nlink dp 1;;
               Fs.iupdate dp
             else mret tt);;
            Fs.iunlockput dp;;
            mret ip.

(** * open and the like *)

(** The inode that [open] opens, locked; 0 on failure. *)
Definition open_inode (path : bytes) (omode : Z) : KM Z :=
  if flag omode O_CREATE then create path Fs.T_FILE 0 0
  else
    ip ← Fs.namei path;
    if ip =? 0 then mret 0
    else
      Fs.ilock ip;;
      x ← Fs.get_ip ip;
      if (di_type (i_d x) =? Fs.T_DIR) && negb (omode =? O_RDONLY) then
        Fs.iunlockput ip;;
        mret 0
      else mret ip.

Definition sys_open : KM Z :=
  omode ← argint 1;
  '(n, path) ← argstr 0 MAXPATH;
  if n <? 0 then mret (-1)
  else
    begin_op;;
    ip ← open_inode (cstr path) omode;
    if ip =? 0 then fail_op
    else
      x ← Fs.get_ip ip;
      let d := i_d x in
      if (di_type d =? Fs.T_DEVICE) && ((di_major d <? 0) || (NDEV <=? di_major d)) then
        Fs.iunlockput ip;;
        fail_op
      else
        f ← filealloc;
        fd ← (match f with Some f => fdalloc f | None => mret (-1) end);
        match f with
        | Some f =>
            if fd <? 0 then
              fileclose f;;
              Fs.iunlockput ip;;
              fail_op
            else
              (if di_type d =? Fs.T_DEVICE then
                 upd_file f (fun x => set_fmajor (di_major d) (set_ftype FD_DEVICE x))
               else upd_file f (fun x => set_foff 0 (set_ftype FD_INODE x)));;
              upd_file f (set_fip ip);;
              upd_file f (set_fmode (b2z (negb (flag omode O_WRONLY))) (b2z (flag omode O_WRONLY || flag omode O_RDWR)));;
              (if flag omode O_TRUNC && (di_type d =? Fs.T_FILE) then Fs.itrunc ip else mret tt);;
              Fs.iunlock ip;;
              end_op;;
              mret fd
        | None =>
            Fs.iunlockput ip;;
            fail_op
        end.

Definition sys_mkdir : KM Z :=
  begin_op;;
  '(r, path) ← argstr 0 MAXPATH;
  ip ← (if r <? 0 then mret 0 else create (cstr path) Fs.T_DIR 0 0);
  if ip =? 0 then fail_op
  else
    Fs.iunlockput ip;;
    end_op;;
    mret 0.

Definition sys_mknod : KM Z :=
  begin_op;;
  major ← argint 1;
  minor ← argint 2;
  '(r, path) ← argstr 0 MAXPATH;
  ip ← (if r <? 0 then mret 0 else create (cstr path) Fs.T_DEVICE (i16 major) (i16 minor));
  if ip =? 0 then fail_op
  else
    Fs.iunlockput ip;;
    end_op;;
    mret 0.

Definition sys_chdir : KM Z :=
  i ← myproc;
  begin_op;;
  '(r, path) ← argstr 0 MAXPATH;
  ip ← (if r <? 0 then mret 0 else Fs.namei (cstr path));
  if ip =? 0 then fail_op
  else
    Fs.ilock ip;;
    x ← Fs.get_ip ip;
    if negb (di_type (i_d x) =? Fs.T_DIR) then
      Fs.iunlockput ip;;
      fail_op
    else
      Fs.iunlock ip;;
      p ← get_proc i;
      Fs.iput (p_cwd p);;
      end_op;;
      upd_proc i (set_pcwd ip);;
      mret 0.

Definition sys_pipe : KM Z :=
  i ← myproc;
  fdarray ← argaddr 0;
  '(r, o) ← pipealloc;
  match o with
  | None => mret (-1)
  | Some (rf, wf) =>
      fd0 ← fdalloc rf;
      fd1 ← (if fd0 <? 0 then mret (-1) else fdalloc wf);
      if (fd0 <? 0) || (fd1 <? 0) then
        (if 0 <=? fd0 then set_ofile i fd0 None else mret tt);;
        fileclose rf;;
        fileclose wf;;
        mret (-1)
      else
        p ← get_proc i;
        r0 ← copyout (p_pagetable p) fdarray (le_bytes 4 fd0) 4;
        r1 ← (if r0 <? 0 then mret (-1) else copyout (p_pagetable p) (u64 (fdarray + 4)) (le_bytes 4 fd1) 4);
        if r1 <? 0 then
          set_ofile i fd0 None;;
          set_ofile i fd1 None;;
          fileclose rf;;
          fileclose wf;;
          mret (-1)
        else mret 0
  end.

End files.
