(* ===== verification/XvExec.v ===== *)
(** Replacing the image of a process (kernel/exec.c, [sys_exec] of
    kernel/sysfile.c). *)

From S2P Require Import Prelude XvMem XvString XvFsTypes XvKernel XvMsg XvVm XvSched XvPipe XvProc XvBio XvLog XvFs XvSysfile.

Definition ELF_MAGIC : Z := 0x464C457F.
Definition ELF_PROG_LOAD : Z := 1.
Definition USERSTACK : Z := 1.

(** The fields of [struct elfhdr] and [struct proghdr] that are used. *)
Definition field (off n : Z) (d : bytes) : Z := le_num (slice off n d).

Definition elf_magic (e : bytes) : Z := field 0 4 e.
Definition elf_entry (e : bytes) : Z := field 24 8 e.
Definition elf_phoff (e : bytes) : Z := field 32 8 e.
Definition elf_phnum (e : bytes) : Z := field 56 2 e.

Definition ph_type (h : bytes) : Z := field 0 4 h.
Definition ph_flags (h : bytes) : Z := field 4 4 h.
Definition ph_off (h : bytes) : Z := field 8 8 h.
Definition ph_vaddr (h : bytes) : Z := field 16 8 h.
Definition ph_filesz (h : bytes) : Z := field 32 8 h.
Definition ph_memsz (h : bytes) : Z := field 40 8 h.

Definition flags2perm (flags : Z) : Z :=
  let perm := if flag flags 1 then PTE_X else 0 in
  if flag flags 2 then Z.lor perm PTE_W else perm.

Definition set_tf_a x tf := mk_tf (tf_epc tf) (tf_ra tf) x (tf_rest tf).

(** [epc] and [sp], the first of the other registers. *)
Definition set_tf_start epc sp tf := mk_tf epc (tf_ra tf) (tf_a tf) (sp :: tail (tf_rest tf)).

(** What follows the last slash of the path. *)
Fixpoint last_elem (last s : bytes) : bytes :=
  match s with
  | [] => last
  | c :: s' => if c =? 47 then last_elem s' s' else last_elem last s'
  end.

Section exec.
Context {Lay : Layout} {U : UserCopy} {BD : BlockDev}.

(** [va] is page-aligned; [i] runs through the pages. *)
Definition loadseg (pagetable va ip offset sz : Z) : KM Z :=
  r ← for_some (Fs.steps PGSIZE sz) (fun i =>
    pa ← walkaddr pagetable (u64 (va + i));
    if pa =? 0 then panic (L"loadseg: address should exist")
    else
      let n := if sz - i <? PGSIZE then sz - i else PGSIZE in
      '(r, data) ← Fs.readi ip None (u32 (offset + i)) n;
      on_mem (store_block pa data);;
      if negb (r =? n) then mret (Some (-1)) else mret None);
  match r with Some v => mret v | None => mret 0 end.

(** One program header: whether to go on, and the size. *)
Definition load_ph (pagetable ip off sz : Z) : KM (bool * Z) :=
  '(r, ph) ← Fs.readi ip None (u32 off) 56;
  if negb (r =? 56) then mret (false, sz)
  else if negb (ph_type ph =? ELF_PROG_LOAD) then mret (true, sz)
  else if ph_memsz ph <? ph_filesz ph then mret (false, sz)
  else if u64 (ph_vaddr ph + ph_memsz ph) <? ph_vaddr ph then mret (false, sz)
  else if negb (ph_vaddr ph mod PGSIZE =? 0) then mret (false, sz)
  else
    sz1 ← uvmalloc pagetable sz (u64 (ph_vaddr ph + ph_memsz ph)) (flags2perm (ph_flags ph));
    if sz1 =? 0 then mret (false, sz)
    else
      r ← loadseg pagetable (ph_vaddr ph) ip (u32 (ph_off ph)) (u32 (ph_filesz ph));
      mret (negb (r <? 0), sz1).

Fixpoint load_phs (todo : nat) (pagetable ip off sz : Z) : KM (bool * Z) :=
  match todo with
  | O => mret (true, sz)
  | S todo' =>
      '(ok, sz) ← load_ph pagetable ip off sz;
      if negb ok then mret (false, sz) else load_phs todo' pagetable ip (off + 56) sz
  end.

(** [bad] of [kexec]; null pointers for what there is not. *)
Definition exec_bad (pagetable sz ip : Z) : KM Z :=
  (if pagetable =? 0 then mret tt else proc_freepagetable pagetable sz);;
  (if ip =? 0 then mret tt
   else
     Fs.iunlockput ip;;
     end_op);;
  mret (-1).

(** The loop over [argv], a list of addresses of strings: the stack pointer and
    [ustack], or [None] for [goto bad]. *)
Fixpoint push_args (argv : list Z) (pagetable sp stackbase : Z) (ustack : list Z) : KM (option (Z * list Z)) :=
  match argv with
  | [] => mret (Some (sp, ustack))
  | a :: argv' =>
      if Z.of_nat MAXARG <=? len ustack then mret None
      else
        n ← on_mem (KString.strlen (S (Z.to_nat PGSIZE)) a);
        let sp := u64 (sp - (n + 1)) in
        let sp := sp - sp mod 16 in
        if sp <? stackbase then mret None
        else
          s ← on_mem (load_block (Z.to_nat (n + 1)) a);
          rc ← copyout pagetable sp s (n + 1);
          if rc <? 0 then mret None else push_args argv' pagetable sp stackbase (ustack ++ [sp])
  end.

(** From the second use of the stack on: [entry] is [elf.entry]. *)
Definition exec_stack (i : nat) (path : bytes) (argv : list Z) (pagetable sz entry : Z) : KM Z :=
  p ← get_proc i;
  let oldsz := p_sz p in
  let sz := PGROUNDUP sz in
  sz1 ← uvmalloc pagetable sz (u64 (sz + (USERSTACK + 1) * PGSIZE)) PTE_W;
  if sz1 =? 0 then exec_bad pagetable sz 0
  else
    let sz := sz1 in
    uvmclear pagetable (u64 (sz - (USERSTACK + 1) * PGSIZE));;
    let stackbase := sz - USERSTACK * PGSIZE in
    r ← push_args argv pagetable sz stackbase [];
    match r with
    | None => exec_bad pagetable sz 0
    | Some (sp, ustack) =>
        let argc := len ustack in
        let sp := u64 (sp - (argc + 1) * 8) in
        let sp := sp - sp mod 16 in
        if sp <? stackbase then exec_bad pagetable sz 0
        else
          rc ← copyout pagetable sp (concat (le_bytes 8 <$> (ustack ++ [0]))) ((argc + 1) * 8);
          if rc <? 0 then exec_bad pagetable sz 0
          else
            upd_proc i (fun p => set_ptf (set_tf_a (<[1%nat := sp]> (tf_a (p_tf p))) (p_tf p)) p);;
            upd_proc i (fun p => set_pname (name_copy 16 (p_name p) (last_elem path path ++ [0])) p);;
            p ← get_proc i;
            let oldpagetable := p_pagetable p in
            upd_proc i (set_ppagetable pagetable);;
            upd_proc i (set_psz sz);;
            upd_proc i (fun p => set_ptf (set_tf_start entry sp (p_tf p)) p);;
            proc_freepagetable oldpagetable oldsz;;
            mret argc
    end.

Definition kexec (path : bytes) (argv : list Z) : KM Z :=
  i ← myproc;
  begin_op;;
  ip ← Fs.namei path;
  if ip =? 0 then
    end_op;;
    mret (-1)
  else
    Fs.ilock ip;;
    '(r, elf) ← Fs.readi ip None 0 64;
    if negb (r =? 64) then exec_bad 0 0 ip
    else if negb (elf_magic elf =? ELF_MAGIC) then exec_bad 0 0 ip
    else
      pagetable ← proc_pagetable i;
      if pagetable =? 0 then exec_bad 0 0 ip
      else
        '(ok, sz) ← load_phs (Z.to_nat (elf_phnum elf)) pagetable ip (i32 (elf_phoff elf)) 0;
        if negb ok then exec_bad pagetable sz ip
        else
          Fs.iunlockput ip;;
          end_op;;
          i ← myproc;
          exec_stack i path argv pagetable sz (elf_entry elf).

(** The loop of [sys_exec] that fetches the arguments: whether it went well, and
    the pages that were allocated. *)
Fixpoint exec_args (todo : nat) (uargv i : Z) (argv : list Z) : KM (bool * list Z) :=
  match todo with
  | O => mret (false, argv)
  | S todo' =>
      '(r, uarg) ← fetchaddr (u64 (uargv + 8 * i));
      if r <? 0 then mret (false, argv)
      else if uarg =? 0 then mret (true, argv)
      else
        page ← kalloc;
        if page =? 0 then mret (false, argv)
        else
          '(r, buf) ← fetchstr uarg PGSIZE;
          on_mem (store_block page buf);;
          if r <? 0 then mret (false, argv ++ [page]) else exec_args todo' uargv (i + 1) (argv ++ [page])
  end.

Definition sys_exec : KM Z :=
  uargv ← argaddr 1;
  '(r, path) ← argstr 0 MAXPATH;
  if r <? 0 then mret (-1)
  else
    '(ok, argv) ← exec_args MAXARG uargv 0 [];
    if negb ok then
      for_each argv kfree;;
      mret (-1)
    else
      ret ← kexec (cstr path) argv;
      for_each argv kfree;;
      mret ret.

End exec.
