(* ===== verification/XvConsole.v ===== *)
(** The console (kernel/console.c) and the UART driver (kernel/uart.c).  What the
    device's registers say is an argument of the interrupt handler, and a byte
    written to its transmit register is sent. *)

From S2P Require Import Prelude XvMem XvFsTypes XvKernel XvMsg XvSched XvBio XvFs XvSysfile.

Definition BACKSPACE : Z := 0x100.
Definition INPUT_BUF_SIZE : Z := 128.
Definition CONSOLE : Z := 1.

(** [C(x)], the control character of a letter. *)
Definition ctrl (x : Z) : Z := x - 64.

Definition get_cons : KM console := fs_gets fs_cons.
Definition upd_cons (g : console -> console) : KM unit := fs_modify (fun f => set_cons (g (fs_cons f)) f).

Definition set_cnbuf x c := mk_cons x (cn_r c) (cn_w c) (cn_e c) (cn_busy c) (cn_out c).
Definition set_cnr x c := mk_cons (cn_buf c) x (cn_w c) (cn_e c) (cn_busy c) (cn_out c).
Definition set_cnw x c := mk_cons (cn_buf c) (cn_r c) x (cn_e c) (cn_busy c) (cn_out c).
Definition set_cne x c := mk_cons (cn_buf c) (cn_r c) (cn_w c) x (cn_busy c) (cn_out c).
Definition set_cnbusy x c := mk_cons (cn_buf c) (cn_r c) (cn_w c) (cn_e c) x (cn_out c).
Definition set_cnout x c := mk_cons (cn_buf c) (cn_r c) (cn_w c) (cn_e c) (cn_busy c) x.

(** [cons.buf[i % INPUT_BUF_SIZE]]. *)
Definition cons_at (i : Z) : KM Z :=
  c ← get_cons;
  match zlookup (cn_buf c) (i mod INPUT_BUF_SIZE) with Some x => mret x | None => kstuck BadAccess end.

Definition cons_put (i x : Z) : KM unit :=
  c ← get_cons;
  if i mod INPUT_BUF_SIZE <? len (cn_buf c) then
    upd_cons (fun c => set_cnbuf (<[Z.to_nat (i mod INPUT_BUF_SIZE) := x]> (cn_buf c)) c)
  else kstuck BadAccess.

Section console.
Context {U : UserCopy} {BD : BlockDev}.

(** * uart.c *)

Definition write_thr (x : Z) : KM unit := upd_cons (fun c => set_cnout (cn_out c ++ [u8 x]) c).

(** [while(tx_busy != 0) sleep(&tx_chan, &tx_lock)], through [fuel] wakeups. *)
Fixpoint uart_wait (fuel : nat) : KM unit :=
  c ← get_cons;
  if cn_busy c =? 0 then mret tt
  else
    sleep CUart LUart;;
    match fuel with
    | O => kstuck Asleep
    | S f => uart_wait f
    end.

Definition uartwrite (buf : bytes) : KM unit :=
  acquire LUart;;
  for_each buf (fun x =>
    uart_wait naps;;
    write_thr x;;
    upd_cons (set_cnbusy 1));;
  release LUart.

(** No panic is under way; the register becomes free. *)
Definition uartputc_sync (x : Z) : KM unit :=
  push_off;;
  write_thr x;;
  pop_off.

(** * console.c *)

Definition consputc (c : Z) : KM unit :=
  if c =? BACKSPACE then
    uartputc_sync 8;;
    uartputc_sync 32;;
    uartputc_sync 8
  else uartputc_sync c.

Fixpoint consolewrite_loop (fuel : nat) (src : Fs.source) (n i : Z) : KM Z :=
  if i <? n then
    match fuel with
    | O => kstuck NoFuel
    | S fuel' =>
        let nn := Z.min 32 (n - i) in
        '(rc, buf) ← Fs.either_copyin src i nn;
        if rc =? -1 then mret i
        else
          uartwrite buf;;
          consolewrite_loop fuel' src n (i + nn)
    end
  else mret i.

Definition consolewrite (src : Fs.source) (n : Z) : KM Z := consolewrite_loop (Z.to_nat (n / 32 + 1)) src n 0.

(** The loop that waits for input; whether the process was killed, in which case
    the lock is released. *)
Fixpoint cons_wait (fuel : nat) : KM bool :=
  c ← get_cons;
  if cn_r c =? cn_w c then
    i ← myproc;
    k ← killed i;
    if negb (k =? 0) then
      release LCons;;
      mret true
    else
      sleep CCons LCons;;
      match fuel with
      | O => kstuck Asleep
      | S f => cons_wait f
      end
  else mret false.

(** The loop of [consoleread], for at most [todo] bytes: what is left of [n], or
    [None] when killed; and the bytes copied. *)
Fixpoint consoleread_loop (todo : nat) (dst : option Z) (n target : Z) (got : bytes) : KM (option Z * bytes) :=
  match todo with
  | O => mret (Some n, got)
  | S todo' =>
      gone ← cons_wait naps;
      if (gone : bool) then mret (None, got)
      else
        s ← get_cons;
        c ← cons_at (cn_r s);
        upd_cons (fun s => set_cnr (u32 (cn_r s + 1)) s);;
        if c =? ctrl 68 then
          (if n <? target then upd_cons (fun s => set_cnr (u32 (cn_r s - 1)) s) else mret tt);;
          mret (Some n, got)
        else
          rc ← Fs.either_copyout dst [c];
          if rc =? -1 then mret (Some n, got)
          else if c =? 10 then mret (Some (n - 1), got ++ [c])
          else consoleread_loop todo' ((fun va => u64 (va + 1)) <$> dst) (n - 1) target (got ++ [c])
  end.

(** The result, and the bytes copied to an object of the kernel. *)
Definition consoleread (dst : option Z) (n : Z) : KM (Z * bytes) :=
  acquire LCons;;
  '(r, got) ← consoleread_loop (Z.to_nat n) dst n (u32 n) [];
  match r with
  | None => mret (-1, got)
  | Some m =>
      release LCons;;
      mret (i32 (u32 n - m), got)
  end.

(** The loop for control-U, for at most [todo] characters. *)
Fixpoint kill_line (todo : nat) : KM unit :=
  match todo with
  | O => mret tt
  | S todo' =>
      s ← get_cons;
      c ← cons_at (u32 (cn_e s - 1));
      if c =? 10 then mret tt
      else
        upd_cons (fun s => set_cne (u32 (cn_e s - 1)) s);;
        consputc BACKSPACE;;
        kill_line todo'
  end.

(** The process list that control-P prints is left out. *)
Definition consoleintr (c : Z) : KM unit :=
  acquire LCons;;
  (if c =? ctrl 80 then mret tt
   else if c =? ctrl 85 then
     s ← get_cons;
     kill_line (Z.to_nat (u32 (cn_e s - cn_w s)))
   else if (c =? ctrl 72) || (c =? 0x7f) then
     s ← get_cons;
     if cn_e s =? cn_w s then mret tt
     else
       upd_cons (fun s => set_cne (u32 (cn_e s - 1)) s);;
       consputc BACKSPACE
   else
     s ← get_cons;
     if negb (c =? 0) && (u32 (cn_e s - cn_r s) <? INPUT_BUF_SIZE) then
       let c := if c =? 13 then 10 else c in
       consputc c;;
       cons_put (cn_e s) c;;
       upd_cons (fun s => set_cne (u32 (cn_e s + 1)) s);;
       s ← get_cons;
       if (c =? 10) || (c =? ctrl 68) || (u32 (cn_e s - cn_r s) =? INPUT_BUF_SIZE) then
         upd_cons (set_cnw (cn_e s));;
         wakeup (Some CCons)
       else mret tt
     else mret tt);;
  release LCons.

(** [idle]: the device can send; [input]: the characters it has. *)
Definition uartintr (idle : bool) (input : bytes) : KM unit :=
  acquire LUart;;
  (if idle then
     upd_cons (set_cnbusy 0);;
     wakeup (Some CUart)
   else mret tt);;
  release LUart;;
  for_each input consoleintr.

Definition consoleinit : KM unit :=
  initlock LCons;;
  initlock LUart.

(** [devsw], as [consoleinit] leaves it. *)
#[global] Instance console_devices : Devices := {|
  dev_read major := if major =? CONSOLE then Some (fun addr n => '(r, _) ← consoleread (Some addr) n; mret r) else None;
  dev_write major := if major =? CONSOLE then Some (fun addr n => consolewrite (Fs.User addr) n) else None;
|}.

End console.
