(* ===== verification/XvVirtio.v ===== *)
(** The disk driver (kernel/virtio_disk.c): requests through a queue that driver
    and device share, and the interrupt that says they are done. *)

From S2P Require Import Prelude XvMem XvFsTypes XvKernel XvMsg XvSched XvBio.

Definition NUM : Z := 8.
Definition VRING_DESC_F_NEXT : Z := 1.
Definition VRING_DESC_F_WRITE : Z := 2.
Definition VIRTIO_BLK_T_IN : Z := 0.
Definition VIRTIO_BLK_T_OUT : Z := 1.

Definition set_vkdesc x v := mk_vdisk x (vk_avail_idx v) (vk_avail_ring v) (vk_used_at v) (vk_used_ring v) (vk_free v) (vk_used_idx v) (vk_info_b v) (vk_status v) (vk_ops v).
Definition set_vkavail i r v := mk_vdisk (vk_desc v) i r (vk_used_at v) (vk_used_ring v) (vk_free v) (vk_used_idx v) (vk_info_b v) (vk_status v) (vk_ops v).
Definition set_vkused i r v := mk_vdisk (vk_desc v) (vk_avail_idx v) (vk_avail_ring v) i r (vk_free v) (vk_used_idx v) (vk_info_b v) (vk_status v) (vk_ops v).
Definition set_vkfree x v := mk_vdisk (vk_desc v) (vk_avail_idx v) (vk_avail_ring v) (vk_used_at v) (vk_used_ring v) x (vk_used_idx v) (vk_info_b v) (vk_status v) (vk_ops v).
Definition set_vkused_idx x v := mk_vdisk (vk_desc v) (vk_avail_idx v) (vk_avail_ring v) (vk_used_at v) (vk_used_ring v) (vk_free v) x (vk_info_b v) (vk_status v) (vk_ops v).
Definition set_vkinfo x v := mk_vdisk (vk_desc v) (vk_avail_idx v) (vk_avail_ring v) (vk_used_at v) (vk_used_ring v) (vk_free v) (vk_used_idx v) x (vk_status v) (vk_ops v).
Definition set_vkstatus x v := mk_vdisk (vk_desc v) (vk_avail_idx v) (vk_avail_ring v) (vk_used_at v) (vk_used_ring v) (vk_free v) (vk_used_idx v) (vk_info_b v) x (vk_ops v).
Definition set_vkops x v := mk_vdisk (vk_desc v) (vk_avail_idx v) (vk_avail_ring v) (vk_used_at v) (vk_used_ring v) (vk_free v) (vk_used_idx v) (vk_info_b v) (vk_status v) x.

(** * Access to [struct disk] *)

Definition get_vd : KM vdisk := fs_gets fs_vd.
Definition upd_vd (g : vdisk -> vdisk) : KM unit := fs_modify (fun f => set_vd (g (fs_vd f)) f).

(** The element at an index; outside the array the access is undefined. *)
Definition at_ {A} (l : list A) (i : Z) : KM A := match zlookup l i with Some x => mret x | None => kstuck BadAccess end.

(** [i] is an index of the array. *)
Definition in_array (i : Z) : KM unit := if (0 <=? i) && (i <? NUM) then mret tt else kstuck BadAccess.

Definition zset {A} (i : Z) (x : A) (l : list A) : list A := <[Z.to_nat i := x]> l.

Definition put_desc (i : Z) (x : virtq_desc) : KM unit := in_array i;; upd_vd (fun v => set_vkdesc (zset i x (vk_desc v)) v).
Definition put_free (i x : Z) : KM unit := in_array i;; upd_vd (fun v => set_vkfree (zset i x (vk_free v)) v).
Definition put_op (i : Z) (x : virtio_blk_req) : KM unit := in_array i;; upd_vd (fun v => set_vkops (zset i x (vk_ops v)) v).
Definition put_status (i x : Z) : KM unit := in_array i;; upd_vd (fun v => set_vkstatus (zset i x (vk_status v)) v).
Definition put_info (i : Z) (x : option nat) : KM unit := in_array i;; upd_vd (fun v => set_vkinfo (zset i x (vk_info_b v)) v).

(** * Descriptors *)

Definition alloc_desc : KM Z :=
  r ← for_some (Z.of_nat <$> seq 0 (Z.to_nat NUM)) (fun i =>
    v ← get_vd;
    x ← at_ (vk_free v) i;
    if negb (x =? 0) then
      put_free i 0;;
      mret (Some i)
    else mret None);
  match r with Some i => mret i | None => mret (-1) end.

Definition free_desc (i : Z) : KM unit :=
  if NUM <=? i then panic (L"free_desc 1")
  else
    v ← get_vd;
    x ← at_ (vk_free v) i;
    if negb (x =? 0) then panic (L"free_desc 2")
    else
      put_desc i (mk_desc DNull 0 0 0);;
      put_free i 1;;
      wakeup (Some CDescs).

(** A chain has at most [NUM] descriptors. *)
Fixpoint free_chain (fuel : nat) (i : Z) : KM unit :=
  match fuel with
  | O => kstuck NoFuel
  | S fuel' =>
      v ← get_vd;
      d ← at_ (vk_desc v) i;
      free_desc i;;
      if negb (Z.land (vd_flags d) VRING_DESC_F_NEXT =? 0) then free_chain fuel' (vd_next d) else mret tt
  end.

(** The three descriptors, [None] for -1. *)
Definition alloc3_desc : KM (option (Z * Z * Z)) :=
  i0 ← alloc_desc;
  if i0 <? 0 then mret None
  else
    i1 ← alloc_desc;
    if i1 <? 0 then
      free_desc i0;;
      mret None
    else
      i2 ← alloc_desc;
      if i2 <? 0 then
        free_desc i0;;
        free_desc i1;;
        mret None
      else mret (Some (i0, i1, i2)).

(** * Requests *)

(** [while(1)] until there are three descriptors, through [fuel] wakeups. *)
Fixpoint get_descs (fuel : nat) : KM (Z * Z * Z) :=
  r ← alloc3_desc;
  match r with
  | Some idx => mret idx
  | None =>
      sleep CDescs LVdisk;;
      match fuel with
      | O => kstuck Asleep
      | S f => get_descs f
      end
  end.

(** [while(b->disk == 1)], through [fuel] wakeups. *)
Fixpoint disk_wait (fuel : nat) (b : nat) : KM unit :=
  x ← get_buf b;
  if b_disk x =? 1 then
    sleep (CBuf b) LVdisk;;
    match fuel with
    | O => kstuck Asleep
    | S f => disk_wait f b
    end
  else mret tt.

(** The three descriptors of a request for the buffer, and the request itself. *)
Definition format_request (b : nat) (write sector i0 i1 i2 : Z) : KM unit :=
  put_op i0 (mk_req (if write =? 0 then VIRTIO_BLK_T_IN else VIRTIO_BLK_T_OUT) 0 sector);;
  put_desc i0 (mk_desc (DReq (Z.to_nat i0)) 16 VRING_DESC_F_NEXT i1);;
  put_desc i1 (mk_desc (DData b) BSIZE (Z.lor (if write =? 0 then VRING_DESC_F_WRITE else 0) VRING_DESC_F_NEXT) i2);;
  put_status i0 0xff;;
  put_desc i2 (mk_desc (DStatus (Z.to_nat i0)) 1 VRING_DESC_F_WRITE 0).

Definition disk_rw (fuel : nat) (b : nat) (write : Z) : KM unit :=
  x ← get_buf b;
  let sector := u32 (b_blockno x * (BSIZE / 512)) in
  acquire LVdisk;;
  '(i0, i1, i2) ← get_descs fuel;
  format_request b write sector i0 i1 i2;;
  upd_buf b (set_bdisk 1);;
  put_info i0 (Some b);;
  upd_vd (fun v => set_vkavail (vk_avail_idx v) (zset (vk_avail_idx v mod NUM) i0 (vk_avail_ring v)) v);;
  upd_vd (fun v => set_vkavail (u16 (vk_avail_idx v + 1)) (vk_avail_ring v) v);;
  disk_wait fuel b;;
  put_info i0 None;;
  free_chain (Z.to_nat NUM) i0;;
  release LVdisk.

(** The driver as the file system sees it. *)
Definition virtio_driver (fuel : nat) : BlockDev := {| virtio_disk_rw := disk_rw fuel; naps := fuel |}.

(** The loop of the interrupt handler, for at most [todo] entries. *)
Fixpoint intr_loop (todo : nat) : KM unit :=
  v ← get_vd;
  if vk_used_idx v =? vk_used_at v then mret tt
  else
    match todo with
    | O => kstuck NoFuel
    | S todo' =>
        id ← at_ (vk_used_ring v) (vk_used_idx v mod NUM);
        st ← at_ (vk_status v) id;
        if negb (st =? 0) then panic (L"virtio_disk_intr status")
        else
          o ← at_ (vk_info_b v) id;
          match o with
          | None => kstuck BadAccess
          | Some b =>
              upd_buf b (set_bdisk 0);;
              wakeup (Some (CBuf b));;
              upd_vd (fun v => set_vkused_idx (u16 (vk_used_idx v + 1)) v);;
              intr_loop todo'
          end
    end.

(** Acknowledging the interrupt is a write to a device register. *)
Definition virtio_disk_intr : KM unit :=
  acquire LVdisk;;
  v ← get_vd;
  intr_loop (Z.to_nat (u16 (vk_used_at v - vk_used_idx v)));;
  release LVdisk.
