(* ===== verification/XvFsLogic.v ===== *)
(** A program logic for file-system code.  [wpf h m f sl Q] speaks of the state of
    the file system [f] and of the sleep locks [sl] only: [m], run by process [i]
    with the spinlocks [h] held (the last one taken first), ends with a result,
    locks, file system and sleep locks for which [Q] holds; the rest of the machine
    stays as it is, except for processes that were woken. *)

From S2P Require Import Prelude XvMem XvFsTypes XvKernel XvMsg XvSched XvSchedProofs XvSegments XvBio.

Definition locks_of (id : Z) (h : list lockid) : gmap lockid Z := list_to_map ((fun l => (l, id)) <$> h).

Definition not_proc (l : lockid) : Prop := forall j, l <> LProc j.

(** What is known of user memory and page tables: code that leaves memory,
    allocator and page-table pointers alone preserves it. *)
Class Ambient := {
  amb : kst -> Prop;
  amb_frame s s' : amb s -> same_vm s s' -> amb s';
}.

(** Process [i], with entry [p], runs in the kernel and holds the locks [h]. *)
Record inside {AM : Ambient} (i : nat) (p : proc) (h : list lockid) (s : kst) : Prop := mk_inside {
  in_proc : c_proc (k_cpu s) = Some i;
  in_cpu : cpu_ok (k_cpu s);
  in_noff : c_noff (k_cpu s) = len h;
  in_locks : k_locks s = locks_of (c_id (k_cpu s)) h;
  in_table : table_ok s;
  in_entry : k_procs s !! i = Some p;
  in_nodup : NoDup h;
  in_plain : Forall not_proc h;
  in_run : p_state p = RUNNING /\ p_chan p = None;
  in_amb : amb s;
}.

(** Everything but file system, sleep locks, CPU, spinlocks and memory is the same,
    up to processes that were woken. *)
Definition others (s s' : kst) : Prop :=
  s' = set_fs (k_fs s') (set_sleep (k_sleep s') (set_procs (k_procs s') (set_locks (k_locks s') (set_cpu (k_cpu s')
         (set_mem (k_mem s') (set_freelist (k_freelist s') s)))))) /\
  Forall2 woke (k_procs s) (k_procs s').

Lemma others_refl s : others s s.
Proof. split; [by destruct s|]. apply Forall_Forall2_diag, Forall_true. apply woke_refl. Qed.

Lemma others_trans s s1 s2 : others s s1 -> others s1 s2 -> others s s2.
Proof.
  intros [E1 W1] [E2 W2]. split; [|by eapply Forall2_trans; [intros ???; apply woke_trans|..]].
  rewrite E2, E1. kst_eq.
Qed.

Lemma others_set_fs f s : others s (set_fs f s).
Proof. split; [kst_eq|]. kproj. apply Forall_Forall2_diag, Forall_true. apply woke_refl. Qed.

Lemma locks_of_None id h l : l ∉ h -> locks_of id h !! l = None.
Proof.
  intros Hl. apply not_elem_of_list_to_map_1. rewrite <- list_fmap_compose.
  intros (x & -> & Hx)%list_elem_of_fmap. by apply Hl.
Qed.

Lemma locks_of_cons id l h : locks_of id (l :: h) = <[l := id]> (locks_of id h).
Proof. done. Qed.

Lemma woke_fmap {B} (g : proc -> B) l l' : (forall q, g (set_pstate RUNNABLE q) = g q) -> Forall2 woke l l' -> g <$> l' = g <$> l.
Proof. intros Hg. induction 1 as [|q q' l l' [->|[_ ->]] _ IH]; [done|..]; rewrite !fmap_cons, IH; by rewrite ?Hg. Qed.

Lemma amb_procs {AM : Ambient} s s' :
  amb s -> k_mem s' = k_mem s -> k_freelist s' = k_freelist s -> Forall2 woke (k_procs s) (k_procs s') -> amb s'.
Proof. intros Ha Hm Hf Hw. eapply amb_frame; [exact Ha|]. split; [done|]. split; [done|]. by split; apply woke_fmap. Qed.

Lemma amb_same {AM : Ambient} s s' :
  amb s -> k_mem s' = k_mem s -> k_freelist s' = k_freelist s -> k_procs s' = k_procs s -> amb s'.
Proof. intros Ha Hm Hf Hp. eapply amb_frame; [exact Ha|]. unfold same_vm. by rewrite Hp. Qed.

Section wpf.
Context {AM : Ambient} {rely : protocol} (i : nat) (p : proc).

Definition wpf {A} (h : list lockid) (m : KM A) (f : fsst) (sl : gmap sleepid sleeplock)
    (Q : A -> list lockid -> fsst -> gmap sleepid sleeplock -> Prop) : Prop :=
  forall s, inside i p h s -> k_fs s = f -> k_sleep s = sl ->
    wpk rely m s (fun a s' => exists h', inside i p h' s' /\ others s s' /\ Q a h' (k_fs s') (k_sleep s')).

Lemma wpf_mono {A} h (m : KM A) f sl (Q Q' : A -> list lockid -> fsst -> gmap sleepid sleeplock -> Prop) :
  wpf h m f sl Q -> (forall a h' f' sl', Q a h' f' sl' -> Q' a h' f' sl') -> wpf h m f sl Q'.
Proof. intros H HQ s Hi Hf Hs. eapply wpk_mono; [by apply H|]. naive_solver. Qed.

Lemma wpf_run {A} h (m : KM A) f sl (Q : A -> list lockid -> fsst -> gmap sleepid sleeplock -> Prop) (Q' : A -> kst -> Prop) s :
  wpf h m f sl Q -> inside i p h s -> k_fs s = f -> k_sleep s = sl ->
  (forall a h' s', inside i p h' s' -> others s s' -> Q a h' (k_fs s') (k_sleep s') -> Q' a s') -> wpk rely m s Q'.
Proof. intros H Hi Hf Hs HQ. eapply wpk_mono; [by apply H|]. naive_solver. Qed.

Lemma wpf_ret {A} h (a : A) f sl (Q : A -> list lockid -> fsst -> gmap sleepid sleeplock -> Prop) :
  Q a h f sl -> wpf h (mret a) f sl Q.
Proof. intros HQ s Hi <- <-. apply wpk_ret. exists h. split; [done|]. split; [apply others_refl|done]. Qed.

Lemma wpf_bind {A B} h (m : KM A) (k : A -> KM B) f sl Q :
  wpf h m f sl (fun a h' f' sl' => wpf h' (k a) f' sl' Q) -> wpf h (m ≫= k) f sl Q.
Proof.
  intros H s Hi Hf Hs. apply wpk_bind. eapply wpk_mono; [by apply H|]. intros a s' (h' & Hi' & Ho & Hk).
  eapply wpk_mono; [by apply Hk|]. intros b s2 (h2 & Hi2 & Ho2 & HQ). exists h2. split; [done|]. split; [|done].
  by eapply others_trans.
Qed.

Lemma wpf_gets {A} h (g : fsst -> A) f sl (Q : A -> list lockid -> fsst -> gmap sleepid sleeplock -> Prop) :
  Q (g f) h f sl -> wpf h (fs_gets g) f sl Q.
Proof. intros HQ s Hi <- <-. apply wpk_gets. exists h. split; [done|]. split; [apply others_refl|done]. Qed.

Lemma wpf_modify h (g : fsst -> fsst) f sl (Q : unit -> list lockid -> fsst -> gmap sleepid sleeplock -> Prop) :
  Q tt h (g f) sl -> wpf h (fs_modify g) f sl Q.
Proof.
  intros HQ s Hi <- <-. apply wpk_modify. exists h. split; [|split; [apply others_set_fs|exact HQ]].
  destruct Hi. split; try done. by eapply amb_same.
Qed.

Lemma wpf_acquire h l f sl (Q : unit -> list lockid -> fsst -> gmap sleepid sleeplock -> Prop) :
  l ∉ h -> not_proc l -> Q tt (l :: h) f sl -> wpf h (acquire l) f sl Q.
Proof.
  intros Hl Hnp HQ s [Hp Hc Hn Hk Ht He Hnd Hpl Hr Ha] <- <-.
  apply wpk_acquire; [rewrite Hk; by apply locks_of_None|]. exists (l :: h). split; [|split; [|exact HQ]].
  - split; kproj; try done.
    + by apply cpu_off_ok.
    + simpl. lia.
    + by rewrite Hk.
    + by constructor.
    + by constructor.
    + by eapply amb_same.
  - split; [kst_eq|]. kproj. apply Forall_Forall2_diag, Forall_true. apply woke_refl.
Qed.

Lemma wpf_release h l f sl (Q : unit -> list lockid -> fsst -> gmap sleepid sleeplock -> Prop) :
  Q tt h f sl -> wpf (l :: h) (release l) f sl Q.
Proof.
  intros HQ s [Hp Hc Hn Hk Ht He Hnd Hpl Hr Ha] <- <-. apply NoDup_cons in Hnd as [Hl Hnd]. apply Forall_cons in Hpl as [_ Hpl].
  simpl in Hn. destruct Hc as (C1 & C2 & C3).
  apply wpk_release; [rewrite Hk; apply lookup_insert_eq|apply C2; lia|lia|].
  exists h. split; [|split; [|exact HQ]].
  - split; kproj; try done.
    + unfold cpu_ok, cpu_on. simpl. rewrite C2 by lia. split; [lia|].
      destruct (Z.eqb_spec (c_noff (k_cpu s) - 1) 0); split; simpl; try lia; try done. by destruct (c_intena _).
    + simpl. lia.
    + rewrite Hk, locks_of_cons. apply delete_insert_id. by apply locks_of_None.
    + by eapply amb_same.
  - split; [kst_eq|]. kproj. apply Forall_Forall2_diag, Forall_true. apply woke_refl.
Qed.

Lemma wpf_wakeup h ch f sl (Q : unit -> list lockid -> fsst -> gmap sleepid sleeplock -> Prop) :
  Q tt h f sl -> wpf h (wakeup ch) f sl Q.
Proof.
  intros HQ s [Hp Hc Hn Hk Ht He Hnd Hpl Hr Ha] <- <-. apply wpk_wakeup; [done|done| |].
  { intros j _. rewrite Hk. apply locks_of_None. intros Hj. rewrite Forall_forall in Hpl. by apply (Hpl _ Hj j). }
  assert (Forall2 woke (k_procs s) (imap (woken (c_proc (k_cpu s)) ch) (k_procs s))) as Hw.
  { apply Forall2_same_length_lookup. split; [by rewrite length_imap|].
    intros j x y Hx Hy. rewrite list_lookup_imap, Hx in Hy. simplify_eq/=. apply woken_woke. }
  exists h. split; [|split; [|exact HQ]].
  - split; kproj; try done.
    + unfold table_ok. kproj. by rewrite length_imap.
    + rewrite list_lookup_imap, He, Hp. simpl. unfold woken. by rewrite bool_decide_eq_true_2.
    + eapply amb_procs; [exact Ha|done|done|]. kproj. apply Hw.
  - split; [kst_eq|]. kproj. exact Hw.
Qed.

(** Code that only looks at the machine. *)
Lemma wpf_look {A} h (m : KM A) a f sl (Q : A -> list lockid -> fsst -> gmap sleepid sleeplock -> Prop) :
  (forall s Q', inside i p h s -> k_fs s = f -> k_sleep s = sl -> Q' a s -> wpk rely m s Q') ->
  Q a h f sl -> wpf h m f sl Q.
Proof.
  intros H HQ s Hi Hf Hs. apply (H s); [done..|]. exists h. subst. split; [done|]. split; [apply others_refl|done].
Qed.

Lemma wpf_myproc h f sl (Q : nat -> list lockid -> fsst -> gmap sleepid sleeplock -> Prop) :
  Q i h f sl -> wpf h myproc f sl Q.
Proof. apply wpf_look. intros s Q' [] _ _ HQ. by eapply wpk_myproc. Qed.

Lemma wpf_get_proc h f sl (Q : proc -> list lockid -> fsst -> gmap sleepid sleeplock -> Prop) :
  Q p h f sl -> wpf h (get_proc i) f sl Q.
Proof. apply wpf_look. intros s Q' [] _ _ HQ. by eapply wpk_get_proc. Qed.

(** * Sleep locks *)

Lemma wpf_get_sleep h a l f sl (Q : sleeplock -> list lockid -> fsst -> gmap sleepid sleeplock -> Prop) :
  sl !! a = Some l -> Q l h f sl -> wpf h (get_sleep a) f sl Q.
Proof.
  intros Hl. apply wpf_look. intros s Q' Hi _ Hs HQ. unfold get_sleep. apply wpk_bind, wpk_gets. by rewrite Hs, Hl.
Qed.

Lemma wpf_put_sleep h a l f sl (Q : unit -> list lockid -> fsst -> gmap sleepid sleeplock -> Prop) :
  Q tt h f (<[a := l]> sl) -> wpf h (put_sleep a l) f sl Q.
Proof.
  intros HQ s Hi <- <-. apply wpk_modify. exists h. split; [destruct Hi; split; try done; by eapply amb_same|]. split; [|exact HQ].
  split; [kst_eq|]. kproj. apply Forall_Forall2_diag, Forall_true. apply woke_refl.
Qed.

Lemma wpf_acquiresleep h n a l f sl (Q : unit -> list lockid -> fsst -> gmap sleepid sleeplock -> Prop) :
  LSleep a ∉ h -> sl !! a = Some l -> sl_locked l = 0 ->
  Q tt h f (<[a := mk_sleeplock 1 (p_pid p)]> sl) -> wpf h (acquiresleep n a) f sl Q.
Proof.
  intros Hh Hl Hfree HQ. unfold acquiresleep. apply wpf_bind, wpf_acquire; [done|done|].
  apply wpf_bind. destruct n; simpl; (apply wpf_bind; eapply wpf_get_sleep; [done|]; rewrite Hfree; apply wpf_ret).
  all: apply wpf_bind; eapply wpf_get_sleep; [done|]; apply wpf_bind, wpf_put_sleep, wpf_bind, wpf_myproc, wpf_bind, wpf_get_proc.
  all: apply wpf_bind, wpf_put_sleep, wpf_release; by rewrite insert_insert_eq.
Qed.

Lemma wpf_releasesleep h a f sl (Q : unit -> list lockid -> fsst -> gmap sleepid sleeplock -> Prop) :
  LSleep a ∉ h -> is_Some (sl !! a) -> Q tt h f (<[a := mk_sleeplock 0 0]> sl) -> wpf h (releasesleep a) f sl Q.
Proof.
  intros Hh [l Hl] HQ. unfold releasesleep. apply wpf_bind, wpf_acquire; [done|done|].
  apply wpf_bind. eapply wpf_get_sleep; [done|]. by apply wpf_bind, wpf_put_sleep, wpf_bind, wpf_wakeup, wpf_release.
Qed.

Lemma wpf_holdingsleep h a f sl (Q : bool -> list lockid -> fsst -> gmap sleepid sleeplock -> Prop) :
  LSleep a ∉ h -> sl !! a = Some (mk_sleeplock 1 (p_pid p)) -> Q true h f sl -> wpf h (holdingsleep a) f sl Q.
Proof.
  intros Hh Hl HQ. unfold holdingsleep. apply wpf_bind, wpf_acquire; [done|done|].
  apply wpf_bind. eapply wpf_get_sleep; [done|]. simpl. apply wpf_bind, wpf_bind, wpf_myproc, wpf_bind, wpf_get_proc, wpf_ret.
  rewrite Z.eqb_refl. by apply wpf_bind, wpf_release, wpf_ret.
Qed.

(** * Loops *)

Lemma wpf_for_each {X} h (l : list X) (g : X -> KM unit) (I : list X -> fsst -> gmap sleepid sleeplock -> Prop) f sl Q :
  I [] f sl ->
  (forall dn x rest f' sl', l = dn ++ x :: rest -> I dn f' sl' ->
     wpf h (g x) f' sl' (fun _ h' f2 sl2 => h' = h /\ I (dn ++ [x]) f2 sl2)) ->
  (forall f' sl', I l f' sl' -> Q tt h f' sl') ->
  wpf h (for_each l g) f sl Q.
Proof.
  intros Hi Hg HQ.
  assert (forall todo dn f' sl', l = dn ++ todo -> I dn f' sl' ->
    wpf h (for_each todo g) f' sl' (fun _ h' f2 sl2 => h' = h /\ I l f2 sl2)) as H.
  { induction todo as [|x todo IH]; intros dn f' sl' E Hs; simpl.
    - apply wpf_ret. by rewrite E, app_nil_r.
    - apply wpf_bind. eapply wpf_mono; [by eapply Hg|]. intros [] h2 f2 sl2 [-> Hs2].
      eapply IH; [|exact Hs2]. by rewrite E, <- app_assoc. }
  eapply wpf_mono; [by apply (H l [])|]. intros [] h' f' sl' [-> HI]. by apply HQ.
Qed.

(** A loop that may end early with a value. *)
Lemma wpf_for_some {X R} h (l : list X) (g : X -> KM (option R)) (I : list X -> fsst -> gmap sleepid sleeplock -> Prop) f sl
    (Q : option R -> list lockid -> fsst -> gmap sleepid sleeplock -> Prop) :
  I [] f sl ->
  (forall dn x rest f' sl', l = dn ++ x :: rest -> I dn f' sl' ->
     wpf h (g x) f' sl' (fun r h' f2 sl2 => match r with
       | None => h' = h /\ I (dn ++ [x]) f2 sl2
       | Some v => Q (Some v) h' f2 sl2
       end)) ->
  (forall f' sl', I l f' sl' -> Q None h f' sl') ->
  wpf h (for_some l g) f sl Q.
Proof.
  intros Hi Hg HQ.
  assert (forall todo dn f' sl', l = dn ++ todo -> I dn f' sl' -> wpf h (for_some todo g) f' sl' Q) as H.
  { induction todo as [|x todo IH]; intros dn f' sl' E Hs; simpl.
    - apply wpf_ret, HQ. by rewrite E, app_nil_r.
    - apply wpf_bind. eapply wpf_mono; [by eapply Hg|]. intros [v|] h2 f2 sl2 H2; [by apply wpf_ret|].
      destruct H2 as [-> Hs2]. eapply IH; [|exact Hs2]. by rewrite E, <- app_assoc. }
  by apply (H l []).
Qed.

End wpf.

#[global] Arguments wpf : simpl never.
