(* ===== verification/XvBioList.v ===== *)
(** The list of buffers through [prev] and [next]: what its order is, walking along
    it, and moving a buffer to the front. *)

From S2P Require Import Prelude XvMem XvFsTypes XvKernel XvMsg XvSched XvSchedProofs XvBio XvFsLogic.

(** From [a] the pointers [nx] lead through [l] to [z]. *)
Fixpoint links (nx : nat -> option nat) (a : nat) (l : list nat) (z : nat) : Prop :=
  match l with
  | [] => nx a = Some z
  | b :: l' => nx a = Some b /\ links nx b l' z
  end.

Definition next_of (bs : list buf) (b : nat) : option nat := b_next <$> bs !! b.
Definition prev_of (bs : list buf) (b : nat) : option nat := b_prev <$> bs !! b.

(** The buffers in the order of the list, the most recently used first. *)
Definition dll (bs : list buf) (order : list nat) : Prop :=
  links (next_of bs) NBUF order NBUF /\ links (prev_of bs) NBUF (reverse order) NBUF.

Lemma links_app nx a l1 b l2 z : links nx a (l1 ++ b :: l2) z <-> links nx a l1 b /\ links nx b l2 z.
Proof. revert a. induction l1 as [|c l1 IH]; intros a; simpl; [done|]. rewrite IH. tauto. Qed.

Lemma links_ext nx nx' a l z :
  (forall b, b ∈ a :: l -> nx' b = nx b) -> links nx a l z -> links nx' a l z.
Proof.
  revert a. induction l as [|c l IH]; intros a H; simpl.
  - rewrite H by left. done.
  - rewrite H by left. intros [-> Hl]. split; [done|]. apply IH; [|done]. intros b Hb. apply H. by right.
Qed.

(** Where the pointers from [a] first lead, and the last element before [z]. *)
Lemma links_head nx a l z : links nx a l z -> nx a = Some (default z (head l)).
Proof. destruct l; simpl; [done|]. by intros [-> _]. Qed.

(** Pointing past an element. *)
Lemma links_remove nx nx' a l1 b l2 z sc :
  NoDup (a :: l1 ++ b :: l2) -> links nx a (l1 ++ b :: l2) z -> nx b = Some sc ->
  nx' (default a (last l1)) = Some sc -> (forall c, c <> default a (last l1) -> nx' c = nx c) ->
  links nx' a (l1 ++ l2) z.
Proof.
  revert a. induction l1 as [|c l1 IH]; intros a Hnd Hl Hb Hp Ho.
  - simpl in *. destruct Hl as [Ha Hl]. apply NoDup_cons in Hnd as [Hn Hnd].
    destruct l2 as [|d l2]; simpl in *; [congruence|]. destruct Hl as [Hd Hl]. split; [congruence|].
    eapply links_ext; [|exact Hl]. intros e He. apply Ho. intros ->. apply Hn. by right.
  - cbn [app links] in *. destruct Hl as [Ha Hl]. apply NoDup_cons in Hnd as [Hn Hnd].
    assert (default a (last (c :: l1)) = default c (last l1)) as E by (rewrite last_cons; by destruct (last l1)).
    rewrite E in *. split.
    + rewrite Ho; [done|]. intros ->. apply Hn. destruct (last l1) as [y|] eqn:Ey; simpl; [|set_solver].
      apply last_Some_elem_of in Ey. set_solver.
    + by apply IH.
Qed.

(** Putting an element first. *)
Lemma links_front nx nx' a b l z :
  b ∉ a :: l -> a ∉ l -> links nx a l z -> nx' a = Some b -> nx' b = nx a ->
  (forall c, c <> a -> c <> b -> nx' c = nx c) -> links nx' a (b :: l) z.
Proof.
  intros Hb Ha Hl H1 H2 Ho. simpl. split; [done|]. destruct l as [|c l]; simpl in *; [congruence|].
  destruct Hl as [Hc Hl]. split; [congruence|]. eapply links_ext; [|exact Hl]. intros d Hd. apply Ho; set_solver.
Qed.

(** The same for the pointers that lead backwards. *)
Lemma links_back nx nx' a b l :
  b ∉ a :: l -> a ∉ l -> NoDup l -> links nx a (reverse l) a ->
  nx' (default a (head l)) = Some b -> nx' b = Some a ->
  (forall c, c <> default a (head l) -> c <> b -> nx' c = nx c) -> links nx' a (reverse (b :: l)) a.
Proof.
  intros Hb Ha Hnd Hl H1 H2 Ho. rewrite reverse_cons, links_app. split; [|done].
  destruct l as [|c l]; simpl in *; [done|]. rewrite reverse_cons, links_app in *. destruct Hl as [Hl Hc]. simpl in *.
  split; [|done]. apply NoDup_cons in Hnd as [Hc' Hnd]. eapply links_ext; [|exact Hl].
  intros d Hd. apply Ho; intros ->; rewrite elem_of_cons, elem_of_reverse in Hd; set_solver.
Qed.

(** * Changes to the table *)

Lemma next_of_next bs k v b : next_of (alter (set_bnext v) k bs) b = if decide (b = k) then (fun _ => v) <$> bs !! k else next_of bs b.
Proof.
  unfold next_of. case_decide as E; [subst|].
  - rewrite list_lookup_alter_eq. by destruct (bs !! k).
  - by rewrite list_lookup_alter_ne.
Qed.

Lemma prev_of_prev bs k v b : prev_of (alter (set_bprev v) k bs) b = if decide (b = k) then (fun _ => v) <$> bs !! k else prev_of bs b.
Proof.
  unfold prev_of. case_decide as E; [subst|].
  - rewrite list_lookup_alter_eq. by destruct (bs !! k).
  - by rewrite list_lookup_alter_ne.
Qed.

Lemma next_of_alter g bs k : (forall x, b_next (g x) = b_next x) -> forall b, next_of (alter g k bs) b = next_of bs b.
Proof.
  intros Hg b. unfold next_of. destruct (decide (b = k)) as [->|].
  - rewrite list_lookup_alter_eq. destruct (bs !! k); simpl; [|done]. by rewrite Hg.
  - by rewrite list_lookup_alter_ne.
Qed.

Lemma prev_of_alter g bs k : (forall x, b_prev (g x) = b_prev x) -> forall b, prev_of (alter g k bs) b = prev_of bs b.
Proof.
  intros Hg b. unfold prev_of. destruct (decide (b = k)) as [->|].
  - rewrite list_lookup_alter_eq. destruct (bs !! k); simpl; [|done]. by rewrite Hg.
  - by rewrite list_lookup_alter_ne.
Qed.

Lemma dll_ext bs bs' order :
  (forall b, next_of bs' b = next_of bs b) -> (forall b, prev_of bs' b = prev_of bs b) -> dll bs order -> dll bs' order.
Proof. intros Hn Hp [H1 H2]. split; (eapply links_ext; [|done]; naive_solver). Qed.

(** Taking [b] out of the list. *)
Definition unlink (b : nat) (bs : list buf) : list buf :=
  match bs !! b with
  | Some x => alter (set_bnext (b_next x)) (b_prev x) (alter (set_bprev (b_prev x)) (b_next x) bs)
  | None => bs
  end.

(** Putting [b] first. *)
Definition to_front (b : nat) (bs : list buf) : list buf :=
  match bs !! NBUF with
  | Some h => alter (set_bnext b) NBUF (alter (set_bprev b) (b_next h) (alter (set_bprev NBUF) b (alter (set_bnext (b_next h)) b bs)))
  | None => bs
  end.

Lemma length_unlink b bs : length (unlink b bs) = length bs.
Proof. unfold unlink. destruct (bs !! b); [|done]. by rewrite !length_alter. Qed.

Lemma length_to_front b bs : length (to_front b bs) = length bs.
Proof. unfold to_front. destruct (bs !! NBUF); [|done]. by rewrite !length_alter. Qed.

Lemma in_range {A} (bs : list A) n (l : list nat) b : Forall (fun k => (k < n)%nat) l -> length bs = S n -> b ∈ n :: l -> is_Some (bs !! b).
Proof. intros Hl Hn Hb. apply lookup_lt_is_Some. rewrite Hn. rewrite Forall_forall in Hl. apply elem_of_cons in Hb as [->|Hb%Hl]; lia. Qed.

Lemma dll_unlink bs l1 b l2 :
  length bs = S NBUF -> Forall (fun k => (k < NBUF)%nat) (l1 ++ b :: l2) -> NoDup (l1 ++ b :: l2) ->
  dll bs (l1 ++ b :: l2) -> dll (unlink b bs) (l1 ++ l2).
Proof.
  intros Hlen Hr Hnd [Hn Hp].
  assert (NBUF ∉ l1 ++ b :: l2) as Hh. { intros Hin. rewrite Forall_forall in Hr. apply Hr in Hin. lia. }
  pose proof Hn as Hn'. rewrite links_app in Hn'. destruct Hn' as [_ Hn'%links_head].
  pose proof Hp as Hp'. rewrite reverse_app, reverse_cons, <- app_assoc in Hp, Hp'. simpl in Hp, Hp'. rewrite links_app in Hp'.
  destruct Hp' as [_ Hp'%links_head]. rewrite head_reverse in Hp'.
  set (sc := default NBUF (head l2)) in *. set (pr := default NBUF (last l1)) in *.
  assert (is_Some (bs !! b)) as [x Hx] by (eapply in_range; [exact Hr|done|set_solver]).
  unfold next_of in Hn'. unfold prev_of in Hp'. rewrite Hx in Hn', Hp'. simpl in Hn', Hp'. injection Hn' as Hn'. injection Hp' as Hp'.
  assert (is_Some (bs !! b_prev x)) as Hpr.
  { eapply in_range; [exact Hr|done|]. rewrite Hp'. subst pr. destruct (last l1) as [y|] eqn:Ey; simpl; [|set_solver].
    apply last_Some_elem_of in Ey. set_solver. }
  assert (is_Some (bs !! b_next x)) as Hsc.
  { eapply in_range; [exact Hr|done|]. rewrite Hn'. subst sc. destruct l2; simpl; set_solver. }
  unfold unlink. rewrite Hx. split.
  - eapply (links_remove (next_of bs) _ _ _ b); [by constructor|exact Hn|unfold next_of; by rewrite Hx| |].
    + fold pr. rewrite <- Hp', next_of_next, decide_True by done.
      destruct (decide (b_prev x = b_next x)) as [E|E].
      * rewrite E, list_lookup_alter_eq. destruct Hsc as [y ->]. done.
      * rewrite list_lookup_alter_ne by done. by destruct Hpr as [y ->].
    + fold pr. rewrite <- Hp'. intros c Hc. rewrite next_of_next, decide_False by done. by apply next_of_alter.
  - rewrite reverse_app. eapply (links_remove (prev_of bs) _ _ _ b).
    + constructor; [|].
      * rewrite elem_of_app, elem_of_cons, !elem_of_reverse. set_solver.
      * apply (NoDup_Permutation_proper (l1 ++ b :: l2)); [|done].
        rewrite !reverse_Permutation, (Permutation_app_comm l1). simpl. by rewrite <- Permutation_middle.
    + exact Hp.
    + unfold prev_of. by rewrite Hx.
    + rewrite last_reverse. fold sc. rewrite <- Hn', prev_of_alter by done.
      rewrite prev_of_prev, decide_True by done. by destruct Hsc as [y ->].
    + rewrite last_reverse. fold sc. rewrite <- Hn'. intros c Hc. rewrite prev_of_alter by done.
      by rewrite prev_of_prev, decide_False.
Qed.

Lemma dll_to_front bs b l :
  length bs = S NBUF -> (b < NBUF)%nat -> Forall (fun k => (k < NBUF)%nat) l -> NoDup (b :: l) ->
  dll bs l -> dll (to_front b bs) (b :: l).
Proof.
  intros Hlen Hb Hr [Hbl Hnd]%NoDup_cons [Hn Hp].
  assert (NBUF ∉ l) as Hh. { intros Hin. rewrite Forall_forall in Hr. apply Hr in Hin. lia. }
  assert (is_Some (bs !! NBUF)) as [h Hhd] by (apply lookup_lt_is_Some; lia).
  assert (is_Some (bs !! b)) as [x Hx] by (apply lookup_lt_is_Some; lia).
  pose proof (links_head _ _ _ _ Hn) as Hf. unfold next_of in Hf. rewrite Hhd in Hf. simpl in Hf. injection Hf as Hf.
  assert (is_Some (bs !! b_next h)) as [y Hy].
  { eapply in_range; [exact Hr|done|]. rewrite Hf. destruct l; simpl; set_solver. }
  assert (b <> b_next h) as Hbf. { rewrite Hf. destruct l; simpl; set_solver by lia. }
  unfold to_front. rewrite Hhd. split.
  - eapply (links_front (next_of bs)); [set_solver by lia|done|exact Hn|..].
    + rewrite next_of_next, decide_True by done.
      destruct (decide (b_next h = NBUF)) as [E|E].
      * rewrite E, list_lookup_alter_eq, !list_lookup_alter_ne by lia. by rewrite Hhd.
      * rewrite !list_lookup_alter_ne by lia. by rewrite Hhd.
    + rewrite next_of_next, decide_False by lia. rewrite !next_of_alter by done.
      rewrite next_of_next, decide_True, Hx by done. unfold next_of. by rewrite Hhd.
    + intros c H1 H2. rewrite next_of_next, decide_False by done. rewrite !next_of_alter by done.
      by rewrite next_of_next, decide_False.
  - eapply (links_back (prev_of bs)); [set_solver by lia|done|done|exact Hp|..]; rewrite <- ?Hf.
    + rewrite prev_of_alter by done. rewrite prev_of_prev, decide_True by done.
      rewrite !list_lookup_alter_ne by done. by rewrite Hy.
    + rewrite prev_of_alter by done. rewrite prev_of_prev, decide_False by done.
      rewrite prev_of_prev, decide_True, list_lookup_alter_eq, Hx by done. done.
    + intros c H1 H2. rewrite prev_of_alter by done. rewrite !prev_of_prev, !decide_False by done.
      by apply prev_of_alter.
Qed.
