(* ===== verification/XvBioProofs.v ===== *)
(** The buffer cache is transparent: between its operations every cached block
    holds what the file system last put there, and blocks that are not kept for a
    transaction are the same on disk.  [cache V H P f sl] relates the state to
    - [V], the contents of every block as the file system sees them,
    - [H], the blocks in use, with their buffer and the data now in it,
    - [P], the blocks that a transaction keeps in the cache. *)

From S2P Require Import Prelude XvMem XvFsTypes XvKernel XvMsg XvSched XvSchedProofs XvBio XvFsLogic XvBioList.

(** * What the cache needs of the disk driver *)

Class BlockDevLaws {AM : Ambient} (BD : BlockDev) (rely : protocol) := {
  dev_ok : vdisk -> Prop;
  rw_read i p b x blk f sl (Q : unit -> list lockid -> fsst -> gmap sleepid sleeplock -> Prop) :
    dev_ok (fs_vd f) -> (b < NBUF)%nat -> fs_buf f !! b = Some x -> b_disk x = 0 ->
    d_now (fs_disk f) !! b_blockno x = Some blk ->
    (forall vd, dev_ok vd -> Q tt [] (set_vd vd (set_buf (<[b := set_bdata blk x]> (fs_buf f)) f)) sl) ->
    wpf (rely := rely) i p [] (virtio_disk_rw b 0) f sl Q;
  rw_write i p b x f sl (Q : unit -> list lockid -> fsst -> gmap sleepid sleeplock -> Prop) :
    dev_ok (fs_vd f) -> (b < NBUF)%nat -> fs_buf f !! b = Some x -> b_disk x = 0 ->
    is_Some (d_now (fs_disk f) !! b_blockno x) ->
    (forall vd, dev_ok vd ->
       Q tt [] (set_vd vd (set_disk (mk_platter (<[b_blockno x := b_data x]> (d_now (fs_disk f)))
                                                (d_now (fs_disk f) :: d_past (fs_disk f))) f)) sl) ->
    wpf (rely := rely) i p [] (virtio_disk_rw b 1) f sl Q;
}.

(** * The invariant *)

Notation held := (gmap Z (nat * bytes)).

(** What the buffer of block [bno] holds. *)
Definition content (V : gmap Z bytes) (H : held) (bno : Z) : option bytes :=
  match H !! bno with Some (_, d) => Some d | None => V !! bno end.

(** The references to the buffer of block [bno]. *)
Definition refs (H : held) (P : gset Z) (bno : Z) : Z :=
  (if decide (is_Some (H !! bno)) then 1 else 0) + (if decide (bno ∈ P) then 1 else 0).

Definition of_pid (pid : Z) (mine : bool) : sleeplock := if mine then mk_sleeplock 1 pid else mk_sleeplock 0 0.

(** A buffer of device [dev], or one not used yet. *)
Record buf_ok (dev pid : Z) (V : gmap Z bytes) (H : held) (P : gset Z) (sl : gmap sleepid sleeplock)
    (b : nat) (x : buf) : Prop := mk_buf_ok {
  bo_disk : b_disk x = 0;
  bo_len : len (b_data x) = BSIZE;
  bo_lock : sl !! SBuf b = Some (of_pid pid (bool_decide (b_dev x = dev /\ is_Some (H !! b_blockno x))));
  bo_ref : b_refcnt x = if decide (b_dev x = dev) then refs H P (b_blockno x) else 0;
  bo_data : b_dev x = dev -> content V H (b_blockno x) = Some (b_data x);
  bo_valid : b_dev x = dev -> b_valid x <> 0;
}.

(** Buffer [b] is that of block [bno]. *)
Definition is_buf (dev : Z) (bs : list buf) (b : nat) (bno : Z) : Prop :=
  (b < NBUF)%nat /\ exists x, bs !! b = Some x /\ b_dev x = dev /\ b_blockno x = bno.

Definition block_sized (d : bytes) : Prop := len d = BSIZE.

Record cache {BD : BlockDev} {AM : Ambient} {rely : protocol} {BL : BlockDevLaws BD rely} (dev pid : Z) (V : gmap Z bytes) (H : held) (P : gset Z) (f : fsst)
    (sl : gmap sleepid sleeplock) : Prop := mk_cache {
  ca_dev : dev_ok (fs_vd f);
  ca_len : length (fs_buf f) = S NBUF;
  ca_order : exists order, order ≡ₚ seq 0 NBUF /\ dll (fs_buf f) order;
  ca_uniq : forall a b bno, is_buf dev (fs_buf f) a bno -> is_buf dev (fs_buf f) b bno -> a = b;
  ca_bufs : forall b x, (b < NBUF)%nat -> fs_buf f !! b = Some x -> buf_ok dev pid V H P sl b x;
  ca_held : forall bno b d, H !! bno = Some (b, d) -> is_buf dev (fs_buf f) b bno;
  ca_pinned : forall bno, bno ∈ P -> exists b, is_buf dev (fs_buf f) b bno;
  ca_disk : forall bno, bno ∉ P -> d_now (fs_disk f) !! bno = V !! bno;
  ca_dom : forall bno, is_Some (d_now (fs_disk f) !! bno) <-> is_Some (V !! bno);
  ca_now : map_Forall (fun _ => block_sized) (d_now (fs_disk f));
  ca_view : map_Forall (fun _ => block_sized) V;
}.

(** Only buffers, and the driver's state, changed. *)
Definition bufs_only (f f' : fsst) : Prop := f' = set_vd (fs_vd f') (set_buf (fs_buf f') f).

Lemma bufs_only_refl f : bufs_only f f.
Proof. by destruct f. Qed.

Lemma bufs_only_trans f f1 f2 : bufs_only f f1 -> bufs_only f1 f2 -> bufs_only f f2.
Proof. unfold bufs_only. intros E1 E2. rewrite E2, E1. done. Qed.

Lemma bufs_only_set bs f : bufs_only f (set_buf bs f).
Proof. by destruct f. Qed.

#[global] Hint Resolve bufs_only_refl bufs_only_set : core.

(** * Reading and changing single buffers *)

Section access.
Context {AM : Ambient} {rely : protocol} (i : nat) (p : proc).

Lemma wpf_get_buf h b x f sl (Q : buf -> list lockid -> fsst -> gmap sleepid sleeplock -> Prop) :
  fs_buf f !! b = Some x -> Q x h f sl -> wpf (rely := rely) i p h (get_buf b) f sl Q.
Proof. intros E HQ. unfold get_buf. apply wpf_bind, wpf_gets. rewrite E. by apply wpf_ret. Qed.

Lemma wpf_put_buf h b x f sl (Q : unit -> list lockid -> fsst -> gmap sleepid sleeplock -> Prop) :
  Q tt h (set_buf (<[b := x]> (fs_buf f)) f) sl -> wpf (rely := rely) i p h (put_buf b x) f sl Q.
Proof. intros HQ. unfold put_buf. by apply wpf_modify. Qed.

Lemma insert_alter (g : buf -> buf) b x (bs : list buf) : bs !! b = Some x -> <[b := g x]> bs = alter g b bs.
Proof.
  intros E. apply list_eq. intros k. destruct (decide (b = k)) as [<-|Hne].
  - rewrite list_lookup_insert_eq by (by eapply lookup_lt_Some). by rewrite list_lookup_alter_eq, E.
  - by rewrite list_lookup_insert_ne, list_lookup_alter_ne.
Qed.

Lemma wpf_upd_buf h b g f sl (Q : unit -> list lockid -> fsst -> gmap sleepid sleeplock -> Prop) :
  is_Some (fs_buf f !! b) -> Q tt h (set_buf (alter g b (fs_buf f)) f) sl -> wpf (rely := rely) i p h (upd_buf b g) f sl Q.
Proof.
  intros [x E] HQ. unfold upd_buf. apply wpf_bind. eapply wpf_get_buf; [done|]. apply wpf_put_buf.
  by rewrite (insert_alter g b x).
Qed.

(** * Walking along the list *)

Lemma wpf_bget_cached h fuel a l dev bno f sl (Q : option nat -> list lockid -> fsst -> gmap sleepid sleeplock -> Prop) :
  length (fs_buf f) = S NBUF -> Forall (fun k => (k < NBUF)%nat) l -> links (next_of (fs_buf f)) a l NBUF ->
  (length l <= fuel)%nat ->
  (forall b, b ∈ l -> is_buf dev (fs_buf f) b bno -> Q (Some b) h f sl) ->
  ((forall b, b ∈ l -> ~ is_buf dev (fs_buf f) b bno) -> Q None h f sl) ->
  wpf (rely := rely) i p h (bget_cached fuel (default NBUF (head l)) dev bno) f sl Q.
Proof.
  intros Hlen. revert a fuel. induction l as [|b l IH]; intros a fuel Hr Hl Hfu Hy Hn.
  - simpl. destruct fuel; simpl; apply wpf_ret, Hn; set_solver.
  - apply Forall_cons in Hr as [Hb Hr]. destruct Hl as [_ Hl]. destruct fuel as [|fuel]; simpl in *; [lia|].
    destruct (Nat.eqb_spec b NBUF); [lia|].
    destruct (lookup_lt_is_Some_2 (fs_buf f) b) as [x Hx]; [lia|]. apply wpf_bind. eapply wpf_get_buf; [done|].
    destruct ((b_dev x =? dev) && (b_blockno x =? bno)) eqn:E.
    + apply andb_true_iff in E as [E1%Z.eqb_eq E2%Z.eqb_eq]. apply wpf_ret, Hy; [left|]. split; [done|]. by exists x.
    + apply links_head in Hl as Hd. unfold next_of in Hd. rewrite Hx in Hd. simpl in Hd. injection Hd as ->.
      eapply IH; [done|done|lia|intros; apply Hy; [by right|done]|]. intros Hnone. apply Hn.
      intros c [->|Hc]%elem_of_cons; [|by apply Hnone]. intros (_ & y & Hy' & H1 & H2). simplify_eq.
      by rewrite !Z.eqb_refl in E.
Qed.

Lemma wpf_bget_unused h fuel a l f sl (Q : option nat -> list lockid -> fsst -> gmap sleepid sleeplock -> Prop) :
  length (fs_buf f) = S NBUF -> Forall (fun k => (k < NBUF)%nat) l -> links (prev_of (fs_buf f)) a l NBUF ->
  (length l <= fuel)%nat ->
  (forall b x, b ∈ l -> fs_buf f !! b = Some x -> b_refcnt x = 0 -> Q (Some b) h f sl) ->
  ((forall b x, b ∈ l -> fs_buf f !! b = Some x -> b_refcnt x <> 0) -> Q None h f sl) ->
  wpf (rely := rely) i p h (bget_unused fuel (default NBUF (head l))) f sl Q.
Proof.
  intros Hlen. revert a fuel. induction l as [|b l IH]; intros a fuel Hr Hl Hfu Hy Hn.
  - simpl. destruct fuel; simpl; apply wpf_ret, Hn; set_solver.
  - apply Forall_cons in Hr as [Hb Hr]. destruct Hl as [_ Hl]. destruct fuel as [|fuel]; simpl in *; [lia|].
    destruct (Nat.eqb_spec b NBUF); [lia|].
    destruct (lookup_lt_is_Some_2 (fs_buf f) b) as [x Hx]; [lia|]. apply wpf_bind. eapply wpf_get_buf; [done|].
    destruct (Z.eqb_spec (b_refcnt x) 0) as [E|E].
    + apply wpf_ret, (Hy b x); [left|done|done].
    + apply links_head in Hl as Hd. unfold prev_of in Hd. rewrite Hx in Hd. simpl in Hd. injection Hd as ->.
      eapply IH; [done|done|lia|intros; eapply Hy; [by right|done|done]|]. intros Hnone. apply Hn.
      intros c y [->|Hc]%elem_of_cons; [congruence|]. by apply Hnone.
Qed.

End access.

(** * One buffer changes *)

(** Equal but for their place in the list. *)
Definition alike (x y : buf) : Prop := set_bprev 0 (set_bnext 0 x) = set_bprev 0 (set_bnext 0 y).

Lemma alike_refl x : alike x x.
Proof. done. Qed.

Lemma alike_fields x y : alike x y ->
  b_valid y = b_valid x /\ b_disk y = b_disk x /\ b_dev y = b_dev x /\ b_blockno y = b_blockno x /\
  b_refcnt y = b_refcnt x /\ b_data y = b_data x.
Proof. destruct x, y. unfold alike, set_bprev, set_bnext. simpl. intros E. by injection E as -> -> -> -> -> ->. Qed.

(** The ghost state is the same for every block but [bno]. *)
Definition but (bno : Z) (V : gmap Z bytes) (H : held) (P : gset Z) (V' : gmap Z bytes) (H' : held) (P' : gset Z) : Prop :=
  forall c, c <> bno -> V' !! c = V !! c /\ H' !! c = H !! c /\ (c ∈ P' <-> c ∈ P).

Lemma but_refs bno V H P V' H' P' c : but bno V H P V' H' P' -> c <> bno -> refs H' P' c = refs H P c.
Proof. intros Hb Hc. destruct (Hb c Hc) as (_ & E & EP). unfold refs. rewrite E. by repeat case_decide; naive_solver. Qed.

Lemma but_content bno V H P V' H' P' c : but bno V H P V' H' P' -> c <> bno -> content V' H' c = content V H c.
Proof. intros Hb Hc. destruct (Hb c Hc) as (E1 & E2 & _). unfold content. by rewrite E1, E2. Qed.

Lemma refs_0 H P c : refs H P c = 0 -> H !! c = None /\ c ∉ P.
Proof. unfold refs. repeat case_decide; try lia. intros _. split; [|done]. by destruct (H !! c) eqn:E; [exfalso; naive_solver|]. Qed.

Lemma refs_pos H P c : 0 <= refs H P c <= 2.
Proof. unfold refs. repeat case_decide; lia. Qed.

Lemma buf_ok_but dev pid V H P V' H' P' sl sl' b x y bno :
  buf_ok dev pid V H P sl b x -> alike x y -> (b_dev x = dev -> b_blockno x <> bno) ->
  but bno V H P V' H' P' -> sl' !! SBuf b = sl !! SBuf b -> buf_ok dev pid V' H' P' sl' b y.
Proof.
  intros [K1 K2 K3 K4 K5 K6] Ha Hne Hb Hs. destruct (alike_fields _ _ Ha) as (E1 & E2 & E3 & E4 & E5 & E6).
  split; rewrite ?E1, ?E2, ?E3, ?E4, ?E5, ?E6; try done.
  - rewrite Hs, K3. do 2 f_equal. apply bool_decide_ext. split; intros [Hd Hx]; (split; [done|]);
      destruct (Hb (b_blockno x) (Hne Hd)) as (_ & E & _); [by rewrite E|by rewrite <- E].
  - rewrite K4. case_decide as Hd; [|done]. symmetry. eapply but_refs; [done|by apply Hne].
  - intros Hd. rewrite (but_content _ _ _ _ _ _ _ _ Hb) by (by apply Hne). by apply K5.
Qed.

Section update.
Context {BD : BlockDev} {AM : Ambient} {rely : protocol} {BL : BlockDevLaws BD rely} (dev pid : Z).

(** The buffers but [b] are the same and belong to other blocks. *)
Definition rest_alike (b : nat) (bno : Z) (bs bs' : list buf) : Prop :=
  forall k x, k <> b -> (k < NBUF)%nat -> bs !! k = Some x ->
    (b_dev x = dev -> b_blockno x <> bno) /\ exists y, bs' !! k = Some y /\ alike x y.

Lemma rest_alike_back b bno bs bs' k y :
  length bs = S NBUF -> rest_alike b bno bs bs' -> k <> b -> (k < NBUF)%nat -> bs' !! k = Some y ->
  exists x, bs !! k = Some x /\ alike x y /\ (b_dev x = dev -> b_blockno x <> bno).
Proof.
  intros Hlen Hr Hk Hlt Hy. destruct (lookup_lt_is_Some_2 bs k) as [x Hx]; [lia|].
  destruct (Hr k x Hk Hlt Hx) as (Hne & y' & Hy' & Ha). simplify_eq. by exists x.
Qed.

Lemma rest_alike_is_buf b bno bs bs' k c :
  length bs = S NBUF -> rest_alike b bno bs bs' -> k <> b -> is_buf dev bs' k c <-> is_buf dev bs k c.
Proof.
  intros Hlen Hr Hk. split; intros (Hlt & x & Hx & Hd & Hb); (split; [done|]).
  - destruct (rest_alike_back _ _ _ _ _ _ Hlen Hr Hk Hlt Hx) as (y & Hy & (_ & _ & E3 & E4 & _)%alike_fields & _).
    exists y. by rewrite <- E3, <- E4.
  - destruct (Hr k x Hk Hlt Hx) as (_ & y & Hy & (_ & _ & E3 & E4 & _)%alike_fields). exists y. by rewrite E3, E4.
Qed.

Lemma rest_alike_ne b bno bs bs' k c :
  length bs = S NBUF -> rest_alike b bno bs bs' -> k <> b -> is_buf dev bs k c -> c <> bno.
Proof. intros Hlen Hr Hk (Hlt & x & Hx & Hd & <-). destruct (Hr k x Hk Hlt Hx) as [Hne _]. by apply Hne. Qed.

Lemma cache_update V H P V' H' P' f f' sl sl' b x' bno :
  cache (BL := BL) dev pid V H P f sl ->
  dev_ok (fs_vd f') -> length (fs_buf f') = S NBUF -> (exists order, order ≡ₚ seq 0 NBUF /\ dll (fs_buf f') order) ->
  (b < NBUF)%nat -> fs_buf f' !! b = Some x' -> b_dev x' = dev -> b_blockno x' = bno ->
  rest_alike b bno (fs_buf f) (fs_buf f') -> but bno V H P V' H' P' ->
  (forall k, k <> b -> sl' !! SBuf k = sl !! SBuf k) -> buf_ok dev pid V' H' P' sl' b x' ->
  (forall x, fs_buf f !! b = Some x -> b_dev x = dev -> b_blockno x <> bno -> refs H P (b_blockno x) = 0) ->
  (forall a d, H' !! bno = Some (a, d) -> a = b) ->
  (forall c, c <> bno -> d_now (fs_disk f') !! c = d_now (fs_disk f) !! c) ->
  (bno ∉ P' -> d_now (fs_disk f') !! bno = V' !! bno) ->
  (is_Some (d_now (fs_disk f') !! bno) <-> is_Some (V' !! bno)) ->
  (forall d, d_now (fs_disk f') !! bno = Some d -> block_sized d) -> (forall d, V' !! bno = Some d -> block_sized d) ->
  cache (BL := BL) dev pid V' H' P' f' sl'.
Proof.
  intros [C1 C2 C3 C4 C5 C6 C7 C8 C9 C10 C11] N1 N2 N3 Hb Hx' Hd' Hbno Hr Hbut Hsl Hok Hold HH D1 D2 D3 D4 D5.
  pose proof (fun k c Hk => rest_alike_is_buf b bno _ _ k c C2 Hr Hk) as Hisb.
  assert (is_buf dev (fs_buf f') b bno) as Hbb by (split; [done|]; by exists x').
  assert (forall k c, is_buf dev (fs_buf f') k c -> c = bno -> k = b) as Honly.
  { intros k c Hk ->. destruct (decide (k = b)) as [|Hne]; [done|]. exfalso. apply Hisb in Hk; [|done].
    by apply (rest_alike_ne b bno _ _ k bno C2 Hr Hne Hk). }
  assert (forall c, refs H P c <> 0 -> c <> bno -> forall k, is_buf dev (fs_buf f) k c -> is_buf dev (fs_buf f') k c) as Hstay.
  { intros c Hc Hne k Hk. destruct (decide (k = b)) as [->|Hkb]; [|by apply Hisb].
    exfalso. destruct Hk as (_ & x & Hx & Hxd & <-). by apply Hc, (Hold x). }
  split; try done.
  - intros a k c Ha Hk. destruct (decide (c = bno)) as [->|Hc].
    + rewrite (Honly _ _ Ha eq_refl). by rewrite (Honly _ _ Hk eq_refl).
    + assert (a <> b) by (intros ->; destruct Ha as (_ & y & ? & ? & ?); congruence).
      assert (k <> b) by (intros ->; destruct Hk as (_ & y & ? & ? & ?); congruence).
      apply (C4 a k c); by apply Hisb.
  - intros k y Hlt Hy. destruct (decide (k = b)) as [->|Hk]; [congruence|].
    destruct (rest_alike_back _ _ _ _ _ _ C2 Hr Hk Hlt Hy) as (x & Hx & Ha & Hne).
    eapply buf_ok_but; [by apply C5|done|done|done|by apply Hsl].
  - intros c a d Hc. destruct (decide (c = bno)) as [->|Hne]; [by rewrite (HH _ _ Hc)|].
    destruct (Hbut c Hne) as (_ & E & _). rewrite E in Hc. apply Hstay; [|done|by eapply C6].
    intros Hz. apply refs_0 in Hz as [Hz _]. congruence.
  - intros c Hc. destruct (decide (c = bno)) as [->|Hne]; [by exists b|].
    destruct (Hbut c Hne) as (_ & _ & E). rewrite E in Hc. destruct (C7 c Hc) as [k Hk]. exists k.
    apply Hstay; [|done|done]. intros Hz. by apply refs_0 in Hz as [_ Hz].
  - intros c Hc. destruct (decide (c = bno)) as [->|Hne]; [by apply D2|].
    destruct (Hbut c Hne) as (E & _ & EP). rewrite D1, E by done. apply C8. by rewrite <- EP.
  - intros c. destruct (decide (c = bno)) as [->|Hne]; [done|]. destruct (Hbut c Hne) as (E & _). rewrite D1, E by done. apply C9.
  - intros c d Hc. destruct (decide (c = bno)) as [->|Hne]; [by apply D4|]. rewrite D1 in Hc by done. by eapply C10.
  - intros c d Hc. destruct (decide (c = bno)) as [->|Hne]; [by apply D5|].
    destruct (Hbut c Hne) as (E & _). rewrite E in Hc. by eapply C11.
Qed.

(** Places in the list may change. *)
Lemma cache_relink V H P f sl bs :
  cache (BL := BL) dev pid V H P f sl -> length bs = S NBUF ->
  (forall k x, fs_buf f !! k = Some x -> exists y, bs !! k = Some y /\ alike x y) ->
  (exists order, order ≡ₚ seq 0 NBUF /\ dll bs order) -> cache (BL := BL) dev pid V H P (set_buf bs f) sl.
Proof.
  intros [C1 C2 C3 C4 C5 C6 C7 C8 C9 C10 C11] Hlen Ha Ho.
  assert (forall k y, bs !! k = Some y -> exists x, fs_buf f !! k = Some x /\ alike x y) as Hback.
  { intros k y Hy. apply lookup_lt_Some in Hy as Hlt. destruct (lookup_lt_is_Some_2 (fs_buf f) k) as [x Hx]; [lia|].
    destruct (Ha k x Hx) as (y' & Hy' & Hal). simplify_eq. by exists x. }
  assert (forall k c, is_buf dev bs k c <-> is_buf dev (fs_buf f) k c) as Hisb.
  { intros k c. split; intros (Hlt & x & Hx & Hd & Hb); (split; [done|]).
    - destruct (Hback k x Hx) as (y & Hy & (_ & _ & E3 & E4 & _)%alike_fields). exists y. by rewrite <- E3, <- E4.
    - destruct (Ha k x Hx) as (y & Hy & (_ & _ & E3 & E4 & _)%alike_fields). exists y. by rewrite E3, E4. }
  split; try done; simpl.
  - intros a b c Ka Kb. apply (C4 a b c); by apply Hisb.
  - intros b y Hlt Hy. destruct (Hback b y Hy) as (x & Hx & Hal). pose proof (C5 b x Hlt Hx) as [K1 K2 K3 K4 K5 K6].
    destruct (alike_fields _ _ Hal) as (E1 & E2 & E3 & E4 & E5 & E6). split; by rewrite ?E1, ?E2, ?E3, ?E4, ?E5, ?E6.
  - intros c b d Hc. apply Hisb. by eapply C6.
  - intros c Hc. destruct (C7 c Hc) as [b Hb]. exists b. by apply Hisb.
Qed.

(** The buffer [b] of block [bno] keeps its block and its place. *)
Lemma cache_same V H P V' H' P' f sl sl' b x x' bno :
  cache (BL := BL) dev pid V H P f sl -> (b < NBUF)%nat -> fs_buf f !! b = Some x ->
  b_dev x = dev -> b_blockno x = bno -> b_dev x' = dev -> b_blockno x' = bno ->
  b_prev x' = b_prev x -> b_next x' = b_next x -> but bno V H P V' H' P' ->
  (forall k, k <> b -> sl' !! SBuf k = sl !! SBuf k) -> buf_ok dev pid V' H' P' sl' b x' ->
  (forall a d, H' !! bno = Some (a, d) -> a = b) ->
  (bno ∉ P' -> d_now (fs_disk f) !! bno = V' !! bno) -> (is_Some (V' !! bno) <-> is_Some (V !! bno)) ->
  (forall d, V' !! bno = Some d -> block_sized d) ->
  cache (BL := BL) dev pid V' H' P' (set_buf (<[b := x']> (fs_buf f)) f) sl'.
Proof.
  intros C Hb Hx Hd Hbno Hd' Hbno' Hp Hn Hbut Hsl Hok HH D2 D3 D5. pose proof C as [C1 C2 C3 C4 C5 C6 C7 C8 C9 C10 C11].
  eapply (cache_update V H P V' H' P' f _ sl sl' b x' bno); try done; simpl.
  - by rewrite length_insert.
  - destruct C3 as (order & Ho & Hdll). exists order. split; [done|]. eapply dll_ext; [| |exact Hdll]; intros c.
    + unfold next_of. destruct (decide (c = b)) as [->|]; [|by rewrite list_lookup_insert_ne].
      rewrite list_lookup_insert_eq by lia. rewrite Hx. simpl. by rewrite Hn.
    + unfold prev_of. destruct (decide (c = b)) as [->|]; [|by rewrite list_lookup_insert_ne].
      rewrite list_lookup_insert_eq by lia. rewrite Hx. simpl. by rewrite Hp.
  - apply list_lookup_insert_eq. lia.
  - intros k y Hk Hlt Hy. split; [|exists y; split; [by rewrite list_lookup_insert_ne|apply alike_refl]].
    intros Hyd Hyb. apply Hk. apply (C4 k b bno); (split; [done|]); [by exists y|by exists x].
  - intros y Hy. simplify_eq. done.
  - rewrite D3. apply C9.
  - intros d Hnow. by eapply C10.
Qed.

(** The block numbers with a reference have a buffer with one. *)
Lemma cache_buf V H P f sl b bno :
  cache (BL := BL) dev pid V H P f sl -> is_buf dev (fs_buf f) b bno ->
  exists x, (b < NBUF)%nat /\ fs_buf f !! b = Some x /\ b_dev x = dev /\ b_blockno x = bno /\ buf_ok dev pid V H P sl b x.
Proof. intros C (Hlt & x & Hx & Hd & Hb). exists x. by pose proof (ca_bufs _ _ _ _ _ _ _ C b x Hlt Hx). Qed.

End update.
