(* ===== verification/XvBioSpec.v ===== *)
(** What the operations of the buffer cache do to the contents of blocks. *)

From S2P Require Import Prelude XvMem XvFsTypes XvKernel XvMsg XvSched XvSchedProofs XvBio XvBlock XvFsLogic XvBioList XvBioProofs.

Set Default Proof Using "Type".

Lemma seq_below order : order ≡ₚ seq 0 NBUF -> Forall (fun k => (k < NBUF)%nat) order /\ NoDup order /\ length order = NBUF.
Proof.
  intros Hp. split; [|split].
  - apply Forall_forall. intros k Hk. rewrite Hp, elem_of_seq in Hk. lia.
  - rewrite Hp. apply NoDup_seq.
  - by rewrite Hp, length_seq.
Qed.

Lemma alike_trans x y z : alike x y -> alike y z -> alike x z.
Proof. unfold alike. congruence. Qed.

Lemma alike_alter (g : buf -> buf) (j : nat) (bs : list buf) (k : nat) x :
  (forall y, alike y (g y)) -> bs !! k = Some x -> exists y, alter g j bs !! k = Some y /\ alike x y.
Proof.
  intros Hg Hx. destruct (decide (j = k)) as [->|Hne].
  - exists (g x). by rewrite list_lookup_alter_eq, Hx.
  - exists x. by rewrite list_lookup_alter_ne.
Qed.

Lemma alike_unlink b bs k x : bs !! k = Some x -> exists y, unlink b bs !! k = Some y /\ alike x y.
Proof.
  intros Hx. unfold unlink. destruct (bs !! b) as [z|]; [|by exists x].
  destruct (alike_alter (set_bprev (b_prev z)) (b_next z) _ k x (fun _ => eq_refl) Hx) as (y & Hy & Hxy).
  destruct (alike_alter (set_bnext (b_next z)) (b_prev z) _ k y (fun _ => eq_refl) Hy) as (w & Hw & Hyw).
  exists w. split; [done|]. by eapply alike_trans.
Qed.

Lemma alike_to_front b bs k x : bs !! k = Some x -> exists y, to_front b bs !! k = Some y /\ alike x y.
Proof.
  intros Hx. unfold to_front. destruct (bs !! NBUF) as [z|]; [|by exists x].
  destruct (alike_alter (set_bnext (b_next z)) b _ k x (fun _ => eq_refl) Hx) as (y1 & H1 & A1).
  destruct (alike_alter (set_bprev NBUF) b _ k y1 (fun _ => eq_refl) H1) as (y2 & H2 & A2).
  destruct (alike_alter (set_bprev b) (b_next z) _ k y2 (fun _ => eq_refl) H2) as (y3 & H3 & A3).
  destruct (alike_alter (set_bnext b) NBUF _ k y3 (fun _ => eq_refl) H3) as (y4 & H4 & A4).
  exists y4. split; [done|]. by repeat (eapply alike_trans; [eassumption|]).
Qed.

Section spec.
Context {BD : BlockDev} {AM : Ambient} {rely : protocol} {BL : BlockDevLaws BD rely} (i : nat) (p : proc) (dev : Z).
Notation pid := (p_pid p).
Notation wpf := (wpf (rely := rely) i p).
Notation cache := (cache (BL := BL) dev (p_pid p)).
Implicit Types (V : gmap Z bytes) (H : held) (P : gset Z) (f : fsst) (sl : gmap sleepid sleeplock) (bno : Z).

(** ** Data of a buffer in use *)

Lemma held_buf V H P f sl bno b d :
  cache V H P f sl -> H !! bno = Some (b, d) ->
  exists x, (b < NBUF)%nat /\ fs_buf f !! b = Some x /\ b_dev x = dev /\ b_blockno x = bno /\ b_data x = d /\
    buf_ok dev pid V H P sl b x.
Proof.
  intros C Hb. destruct (cache_buf dev pid _ _ _ _ _ _ _ C (ca_held _ _ _ _ _ _ _ C _ _ _ Hb)) as (x & Hlt & Hx & Hd & E & K).
  exists x. repeat (split; [done|]). split; [|done]. pose proof (bo_data _ _ _ _ _ _ _ _ K Hd) as K'. unfold content in K'.
  rewrite E, Hb in K'. congruence.
Qed.

Lemma held_lock V H P f sl bno b d : cache V H P f sl -> H !! bno = Some (b, d) -> sl !! SBuf b = Some (mk_sleeplock 1 pid).
Proof.
  intros C Hb. destruct (held_buf _ _ _ _ _ _ _ _ C Hb) as (x & Hlt & Hx & Hd & E & _ & K).
  rewrite (bo_lock _ _ _ _ _ _ _ _ K), bool_decide_eq_true_2; [done|]. by rewrite E, Hb.
Qed.

Lemma held_sized V H P f sl bno b d : cache V H P f sl -> H !! bno = Some (b, d) -> len d = BSIZE.
Proof. intros C Hb. destruct (held_buf _ _ _ _ _ _ _ _ C Hb) as (x & _ & _ & _ & _ & <- & K). apply K. Qed.

Lemma wpf_bdata_get h V H P f sl bno b d off n (Q : bytes -> list lockid -> fsst -> gmap sleepid sleeplock -> Prop) :
  cache V H P f sl -> H !! bno = Some (b, d) -> 0 <= off -> 0 <= n -> off + n <= BSIZE ->
  Q (slice off n d) h f sl -> wpf h (bdata_get b off n) f sl Q.
Proof.
  intros C Hb Ho Hn Hs HQ. destruct (held_buf _ _ _ _ _ _ _ _ C Hb) as (x & _ & Hx & _ & _ & <- & K).
  unfold bdata_get. apply wpf_bind. eapply wpf_get_buf; [done|]. rewrite (bo_len _ _ _ _ _ _ _ _ K).
  destruct (Z.leb_spec 0 off), (Z.leb_spec 0 n), (Z.leb_spec (off + n) BSIZE); try lia. by apply wpf_ret.
Qed.

Lemma wpf_bdata_put h V H P f sl bno b d off l (Q : unit -> list lockid -> fsst -> gmap sleepid sleeplock -> Prop) :
  cache V H P f sl -> H !! bno = Some (b, d) -> 0 <= off -> off + len l <= BSIZE ->
  (forall f', cache V (<[bno := (b, splice off l d)]> H) P f' sl -> bufs_only f f' -> Q tt h f' sl) ->
  wpf h (bdata_put b off l) f sl Q.
Proof.
  intros C Hb Ho Hs HQ. destruct (held_buf _ _ _ _ _ _ _ _ C Hb) as (x & Hlt & Hx & Hd & E & <- & K).
  unfold bdata_put. apply wpf_bind. eapply wpf_get_buf; [done|]. pose proof (bo_len _ _ _ _ _ _ _ _ K) as Hl. rewrite Hl.
  destruct (Z.leb_spec 0 off), (Z.leb_spec (off + len l) BSIZE); try lia. cbn [andb]. apply wpf_put_buf, HQ; [|done].
  eapply (cache_same dev pid V H P V _ P f sl sl b x _ bno); try done.
  - intros c Hc. by rewrite lookup_insert_ne.
  - destruct K as [K1 K2 K3 K4 K5 K6]. rewrite E in *. split; simpl; rewrite ?E; try done.
    + rewrite length_splice by lia. done.
    + rewrite K3. do 2 f_equal. apply bool_decide_ext. rewrite lookup_insert_eq, Hb. naive_solver.
    + rewrite K4. case_decide; [|done]. unfold refs. rewrite lookup_insert_eq, Hb. repeat case_decide; naive_solver.
    + intros _. unfold content. by rewrite lookup_insert_eq.
  - intros a d. rewrite lookup_insert_eq. naive_solver.
  - intros Hn. by apply (ca_disk _ _ _ _ _ _ _ C).
  - intros d Hv. by eapply (ca_view _ _ _ _ _ _ _ C).
Qed.

(** ** Writing to disk *)

Lemma wpf_bwrite V H P f sl bno b d (Q : unit -> list lockid -> fsst -> gmap sleepid sleeplock -> Prop) :
  cache V H P f sl -> H !! bno = Some (b, d) -> is_Some (V !! bno) ->
  (forall f' vd, cache (<[bno := d]> V) H P f' sl ->
     f' = set_vd vd (set_disk (mk_platter (<[bno := d]> (d_now (fs_disk f))) (d_now (fs_disk f) :: d_past (fs_disk f))) f) ->
     Q tt [] f' sl) ->
  wpf [] (bwrite b) f sl Q.
Proof.
  intros C Hb Hv HQ. destruct (held_buf _ _ _ _ _ _ _ _ C Hb) as (x & Hlt & Hx & Hd & E & <- & K).
  unfold bwrite. apply wpf_bind, wpf_holdingsleep; [set_solver|by eapply held_lock|]. cbn [negb].
  eapply rw_write; [apply C|done|done|apply K|by rewrite E; apply (ca_dom _ _ _ _ _ _ _ C)|].
  intros vd Hvd. apply (HQ _ vd); [|by rewrite E].
  pose proof (bo_len _ _ _ _ _ _ _ _ K) as Hl.
  eapply (cache_update dev pid V H P _ H P f _ sl sl b x bno); simpl; try done; try apply C.
  - intros k y Hk Hlt' Hy. split; [|exists y; by split; [|apply alike_refl]]. intros Hyd Hyb. apply Hk.
    apply (ca_uniq _ _ _ _ _ _ _ C k b bno); (split; [done|]); [by exists y|by exists x].
  - intros c Hc. by rewrite lookup_insert_ne.
  - destruct K as [K1 K2 K3 K4 K5 K6]. rewrite E in *. split; rewrite ?E; try done.
    intros _. rewrite <- K5 by done. unfold content. by rewrite Hb.
  - intros y Hy. simplify_eq. done.
  - intros a d Ha. rewrite Hb in Ha. naive_solver.
  - intros c Hc. rewrite E. by rewrite lookup_insert_ne.
  - intros _. by rewrite E, !lookup_insert_eq.
  - by rewrite E, !lookup_insert_eq.
  - intros d. rewrite E, lookup_insert_eq. naive_solver.
  - intros d. rewrite lookup_insert_eq. naive_solver.
Qed.

(** ** References kept by a transaction *)

Lemma cache_repin V H P P' f sl bno b d x' :
  cache V H P f sl -> H !! bno = Some (b, d) -> (forall c, c <> bno -> c ∈ P' <-> c ∈ P) ->
  (bno ∉ P' -> d_now (fs_disk f) !! bno = V !! bno) ->
  (forall x, fs_buf f !! b = Some x -> x' = set_brefcnt (refs H P' bno) x) ->
  cache V H P' (set_buf (<[b := x']> (fs_buf f)) f) sl.
Proof.
  intros C Hb HP Hd Hx'. destruct (held_buf _ _ _ _ _ _ _ _ C Hb) as (x & Hlt & Hx & Hdev & E & <- & K).
  rewrite (Hx' x Hx). eapply (cache_same dev pid V H P V H P' f sl sl b x _ bno); try done.
  - intros c Hc. split; [done|]. split; [done|]. by apply HP.
  - destruct K as [K1 K2 K3 K4 K5 K6]. split; simpl; try done. rewrite decide_True by done. by rewrite E.
  - intros a d Ha. rewrite Hb in Ha. naive_solver.
  - intros d Hv. by eapply (ca_view _ _ _ _ _ _ _ C).
Qed.

Lemma wpf_bpin h V H P f sl bno b d (Q : unit -> list lockid -> fsst -> gmap sleepid sleeplock -> Prop) :
  cache V H P f sl -> H !! bno = Some (b, d) -> bno ∉ P -> LBcache ∉ h ->
  (forall f', cache V H ({[bno]} ∪ P) f' sl -> bufs_only f f' -> Q tt h f' sl) ->
  wpf h (bpin b) f sl Q.
Proof.
  intros C Hb Hn Hh HQ. destruct (held_buf _ _ _ _ _ _ _ _ C Hb) as (x & Hlt & Hx & Hdev & E & <- & K).
  unfold bpin. apply wpf_bind, wpf_acquire; [done|done|]. apply wpf_bind, wpf_upd_buf; [by exists x|].
  rewrite <- (insert_alter _ _ x) by done. apply wpf_release, HQ; [|done].
  eapply (cache_repin V H P _ f sl bno b (b_data x)); [done|done|set_solver|set_solver|]. intros y Hy. simplify_eq.
  rewrite (bo_ref _ _ _ _ _ _ _ _ K), decide_True by done. f_equal.
  rewrite u32_small; unfold refs; rewrite Hb; repeat case_decide; set_solver by lia.
Qed.

Lemma wpf_bunpin h V H P f sl bno b d (Q : unit -> list lockid -> fsst -> gmap sleepid sleeplock -> Prop) :
  cache V H P f sl -> H !! bno = Some (b, d) -> bno ∈ P -> d_now (fs_disk f) !! bno = V !! bno -> LBcache ∉ h ->
  (forall f', cache V H (P ∖ {[bno]}) f' sl -> bufs_only f f' -> Q tt h f' sl) ->
  wpf h (bunpin b) f sl Q.
Proof.
  intros C Hb Hn Hv Hh HQ. destruct (held_buf _ _ _ _ _ _ _ _ C Hb) as (x & Hlt & Hx & Hdev & E & <- & K).
  unfold bunpin. apply wpf_bind, wpf_acquire; [done|done|]. apply wpf_bind, wpf_upd_buf; [by exists x|].
  rewrite <- (insert_alter _ _ x) by done. apply wpf_release, HQ; [|done].
  eapply (cache_repin V H P _ f sl bno b (b_data x)); [done|done|set_solver|done|]. intros y Hy. simplify_eq.
  rewrite (bo_ref _ _ _ _ _ _ _ _ K), decide_True by done. f_equal.
  rewrite u32_small; unfold refs; rewrite Hb; repeat case_decide; set_solver by lia.
Qed.

(** A block that the transaction keeps changes for the file system. *)
Lemma cache_view V H P f sl bno b d :
  cache V H P f sl -> H !! bno = Some (b, d) -> bno ∈ P -> is_Some (V !! bno) -> cache (<[bno := d]> V) H P f sl.
Proof.
  intros C Hb HP Hv. destruct (held_buf _ _ _ _ _ _ _ _ C Hb) as (x & Hlt & Hx & Hdev & E & <- & K).
  replace f with (set_buf (<[b := x]> (fs_buf f)) f) by (rewrite list_insert_id by done; by destruct f).
  pose proof (bo_len _ _ _ _ _ _ _ _ K) as Hl.
  eapply (cache_same dev pid V H P _ H P f sl sl b x _ bno); try done.
  - intros c Hc. by rewrite lookup_insert_ne.
  - destruct K as [K1 K2 K3 K4 K5 K6]. split; try done. intros _. rewrite <- K5 by done. unfold content. by rewrite E, Hb.
  - intros a d Ha. rewrite Hb in Ha. naive_solver.
  - rewrite lookup_insert_eq. naive_solver.
  - intros d. rewrite lookup_insert_eq. naive_solver.
Qed.

(** ** brelse *)

(** The pointers that move a buffer to the front. *)
Lemma wpf_move_front h b f sl (Q : unit -> list lockid -> fsst -> gmap sleepid sleeplock -> Prop) x :
  length (fs_buf f) = S NBUF -> (b < NBUF)%nat -> fs_buf f !! b = Some x ->
  (b_next x < S NBUF)%nat -> (b_prev x < S NBUF)%nat ->
  (forall hd, unlink b (fs_buf f) !! NBUF = Some hd -> (b_next hd < S NBUF)%nat) ->
  Q tt h (set_buf (to_front b (unlink b (fs_buf f))) f) sl ->
  wpf h (upd_buf (b_next x) (set_bprev (b_prev x));;
         x ← get_buf b;
         upd_buf (b_prev x) (set_bnext (b_next x));;
         h ← get_buf NBUF;
         upd_buf b (set_bnext (b_next h));;
         upd_buf b (set_bprev NBUF);;
         h ← get_buf NBUF;
         upd_buf (b_next h) (set_bprev b);;
         upd_buf NBUF (set_bnext b)) f sl Q.
Proof.
  intros Hlen Hb Hx Hn Hp Hhd HQ.
  apply wpf_bind, wpf_upd_buf; [apply lookup_lt_is_Some; lia|]. apply wpf_bind. eapply (wpf_get_buf _ _ _ _ x).
  { simpl. destruct (decide (b_next x = b)) as [E|]; [|by rewrite list_lookup_alter_ne].
    rewrite E, list_lookup_alter_eq, Hx. simpl. by destruct x. }
  apply wpf_bind, wpf_upd_buf; [apply lookup_lt_is_Some; simpl; rewrite length_alter; lia|]. simpl.
  assert (alter (set_bnext (b_next x)) (b_prev x) (alter (set_bprev (b_prev x)) (b_next x) (fs_buf f)) = unlink b (fs_buf f)) as Eu.
  { unfold unlink. by rewrite Hx. }
  assert (is_Some (unlink b (fs_buf f) !! NBUF)) as [hd Hd] by (apply lookup_lt_is_Some; rewrite length_unlink; lia).
  apply wpf_bind. eapply (wpf_get_buf _ _ _ _ hd); [simpl; by rewrite Eu|].
  apply wpf_bind, wpf_upd_buf; [apply lookup_lt_is_Some; simpl; rewrite !length_alter; lia|].
  apply wpf_bind, wpf_upd_buf; [apply lookup_lt_is_Some; simpl; rewrite !length_alter; lia|].
  apply wpf_bind. eapply (wpf_get_buf _ _ _ _ hd); [simpl; rewrite Eu, !list_lookup_alter_ne by lia; done|].
  apply wpf_bind, wpf_upd_buf; [apply lookup_lt_is_Some; simpl; rewrite !length_alter; specialize (Hhd _ Hd); lia|].
  apply wpf_upd_buf; [apply lookup_lt_is_Some; simpl; rewrite !length_alter; lia|]. simpl. rewrite Eu.
  assert (to_front b (unlink b (fs_buf f)) = alter (set_bnext b) NBUF (alter (set_bprev b) (b_next hd)
    (alter (set_bprev NBUF) b (alter (set_bnext (b_next hd)) b (unlink b (fs_buf f)))))) as Et.
  { unfold to_front. by rewrite Hd. }
  rewrite <- Et. exact HQ.
Qed.

Lemma links_below nx a l k x : Forall (fun k => (k < NBUF)%nat) l -> links nx a l NBUF -> k ∈ a :: l -> nx k = Some x -> (x < S NBUF)%nat.
Proof.
  revert a. induction l as [|c l IH]; intros a Hr Hl Hk Hx; simpl in *.
  - apply list_elem_of_singleton in Hk as ->. simplify_eq. lia.
  - apply Forall_cons in Hr as [Hc Hr]. destruct Hl as [Ha Hl]. apply elem_of_cons in Hk as [->|Hk]; [simplify_eq; lia|].
    by eapply IH.
Qed.

Lemma wpf_move_front_cache h V H P f sl b x (Q : unit -> list lockid -> fsst -> gmap sleepid sleeplock -> Prop) :
  cache V H P f sl -> (b < NBUF)%nat -> fs_buf f !! b = Some x ->
  (forall f', cache V H P f' sl -> bufs_only f f' -> Q tt h f' sl) ->
  wpf h (upd_buf (b_next x) (set_bprev (b_prev x));;
         x ← get_buf b;
         upd_buf (b_prev x) (set_bnext (b_next x));;
         h ← get_buf NBUF;
         upd_buf b (set_bnext (b_next h));;
         upd_buf b (set_bprev NBUF);;
         h ← get_buf NBUF;
         upd_buf (b_next h) (set_bprev b);;
         upd_buf NBUF (set_bnext b)) f sl Q.
Proof.
  intros C Hb Hx HQ. pose proof (ca_len _ _ _ _ _ _ _ C) as Hlen. destruct (ca_order _ _ _ _ _ _ _ C) as (order & Ho & Hdll).
  destruct (seq_below order Ho) as (Hr & Hnd & _).
  assert (b ∈ order) as Hin by (rewrite Ho, elem_of_seq; lia). apply list_elem_of_split in Hin as (l1 & l2 & ->).
  pose proof (dll_unlink _ _ _ _ Hlen Hr Hnd Hdll) as Hun.
  assert (l1 ++ b :: l2 ≡ₚ b :: l1 ++ l2) as Hp by (by rewrite Permutation_middle).
  rewrite Hp in Hnd, Hr, Ho. apply Forall_cons in Hr as [_ Hr].
  pose proof (dll_to_front (unlink b (fs_buf f)) b (l1 ++ l2) ltac:(by rewrite length_unlink) Hb Hr Hnd Hun) as Hfr.
  assert (Forall (fun k => (k < NBUF)%nat) (l1 ++ b :: l2)) as Hr' by (rewrite Hp; by constructor).
  eapply wpf_move_front; [done|done|done|..].
  - destruct Hdll as [Hn _]. eapply (links_below _ _ _ b); [exact Hr'|exact Hn|set_solver|unfold next_of; by rewrite Hx].
  - destruct Hdll as [_ Hv]. eapply (links_below _ _ _ b); [|exact Hv|rewrite elem_of_cons, elem_of_reverse; set_solver|unfold prev_of; by rewrite Hx].
    by apply Forall_reverse.
  - intros hd Hd. destruct Hun as [Hn _]. eapply (links_below _ _ _ NBUF); [exact Hr|exact Hn|left|unfold next_of; by rewrite Hd].
  - apply HQ; [|done]. apply cache_relink; [done|by rewrite length_to_front, length_unlink| |by exists (b :: l1 ++ l2)].
    intros k y Hy. destruct (alike_unlink b _ _ _ Hy) as (z & Hz & A1). destruct (alike_to_front b _ _ _ Hz) as (w & Hw & A2).
    exists w. split; [done|]. by eapply alike_trans.
Qed.

Lemma wpf_brelse V H P f sl bno b d (Q : unit -> list lockid -> fsst -> gmap sleepid sleeplock -> Prop) :
  cache V H P f sl -> H !! bno = Some (b, d) -> V !! bno = Some d ->
  (forall f' sl', cache V (delete bno H) P f' sl' -> bufs_only f f' ->
     (forall k, sl' !! SInode k = sl !! SInode k) -> Q tt [] f' sl') ->
  wpf [] (brelse b) f sl Q.
Proof.
  intros C Hb Hv HQ. pose proof (held_lock _ _ _ _ _ _ _ _ C Hb) as Hl.
  destruct (held_buf _ _ _ _ _ _ _ _ C Hb) as (x & Hlt & Hx & Hdev & E & <- & K).
  unfold brelse. apply wpf_bind, wpf_holdingsleep; [set_solver|done|]. cbn [negb].
  apply wpf_bind, wpf_releasesleep; [set_solver|by eexists|]. apply wpf_bind, wpf_acquire; [set_solver|done|].
  apply wpf_bind, wpf_upd_buf; [by exists x|]. rewrite <- (insert_alter _ _ x) by done.
  set (x1 := set_brefcnt _ x). set (sl1 := <[SBuf b := _]> sl). set (f1 := set_buf _ f).
  assert (u32 (b_refcnt x - 1) = refs (delete bno H) P bno) as Href.
  { rewrite (bo_ref _ _ _ _ _ _ _ _ K), decide_True, E by done. unfold refs. rewrite Hb, lookup_delete_eq.
    repeat case_decide; try naive_solver; by rewrite u32_small. }
  assert (cache V (delete bno H) P f1 sl1) as C1.
  { eapply (cache_same dev pid V H P V _ P f sl sl1 b x x1 bno); try done.
    - intros c Hc. by rewrite lookup_delete_ne.
    - intros k Hk. unfold sl1. by rewrite lookup_insert_ne by congruence.
    - destruct K as [K1 K2 K3 K4 K5 K6]. split; simpl; try done.
      + unfold sl1. rewrite lookup_insert_eq, bool_decide_eq_false_2; [done|]. rewrite E, lookup_delete_eq. intros [_ [? ?]]. done.
      + rewrite decide_True, E by done. exact Href.
      + intros _. unfold content. rewrite E, lookup_delete_eq. exact Hv.
    - intros a d. by rewrite lookup_delete_eq.
    - intros Hn. by apply (ca_disk _ _ _ _ _ _ _ C).
    - intros d Hv'. by eapply (ca_view _ _ _ _ _ _ _ C). }
  assert (fs_buf f1 !! b = Some x1) as Hx1. { simpl. apply list_lookup_insert_eq. by eapply lookup_lt_Some. }
  assert (forall k, sl1 !! SInode k = sl !! SInode k) as Hsi by (intros k; unfold sl1; by rewrite lookup_insert_ne).
  apply wpf_bind. eapply wpf_get_buf; [exact Hx1|]. apply wpf_bind.
  destruct (b_refcnt x1 =? 0).
  - eapply wpf_move_front_cache; [exact C1|done|exact Hx1|]. intros f' C' Hf'. apply wpf_release, HQ; [done| |done].
    by eapply bufs_only_trans; [apply bufs_only_set|].
  - apply wpf_ret, wpf_release, HQ; [done| |done]. apply bufs_only_set.
Qed.

(** ** bread *)

(** Buffers without a reference exist as long as fewer blocks than buffers are in
    use or kept. *)
Lemma some_unused V H P f sl :
  cache V H P f sl -> (size (dom H ∪ P) < NBUF)%nat ->
  ~ forall b x, (b < NBUF)%nat -> fs_buf f !! b = Some x -> b_refcnt x <> 0.
Proof.
  intros C Hs Hall. pose proof (ca_len _ _ _ _ _ _ _ C) as Hlen.
  set (no := fun b => default 0 (b_blockno <$> fs_buf f !! b)).
  assert (forall b, (b < NBUF)%nat -> is_buf dev (fs_buf f) b (no b) /\ no b ∈ dom H ∪ P) as Hno.
  { intros b Hb. destruct (lookup_lt_is_Some_2 (fs_buf f) b) as [x Hx]; [lia|].
    pose proof (Hall b x Hb Hx) as Hr. rewrite (bo_ref _ _ _ _ _ _ _ _ (ca_bufs _ _ _ _ _ _ _ C b x Hb Hx)) in Hr.
    case_decide as Hd; [|done]. unfold no. rewrite Hx. simpl. split; [split; [done|]; by exists x|].
    unfold refs in Hr. apply elem_of_union. rewrite elem_of_dom. repeat case_decide; naive_solver. }
  assert (NoDup (no <$> seq 0 NBUF)) as Hnd.
  { apply NoDup_fmap_2_strong; [|apply NoDup_seq]. intros a b Ha%elem_of_seq Hb%elem_of_seq E.
    apply (ca_uniq _ _ _ _ _ _ _ C a b (no b)); [rewrite <- E|]; apply Hno; lia. }
  assert (list_to_set (no <$> seq 0 NBUF) ⊆ dom H ∪ P) as Hsub.
  { intros c [b [-> Hb%elem_of_seq]]%elem_of_list_to_set%list_elem_of_fmap. apply Hno. lia. }
  apply subseteq_size in Hsub. rewrite size_list_to_set, length_fmap, length_seq in Hsub by done. lia.
Qed.

(** The lock of a buffer that is not in use is free. *)
Lemma free_lock V H P f sl b x :
  cache V H P f sl -> (b < NBUF)%nat -> fs_buf f !! b = Some x -> (b_dev x = dev -> H !! b_blockno x = None) ->
  sl !! SBuf b = Some (mk_sleeplock 0 0).
Proof.
  intros C Hb Hx Hn. rewrite (bo_lock _ _ _ _ _ _ _ _ (ca_bufs _ _ _ _ _ _ _ C b x Hb Hx)), bool_decide_eq_false_2; [done|].
  intros [Hd [y Hy]]. rewrite Hn in Hy by done. done.
Qed.

(** A block that is cached. *)
Lemma cache_take V H P f sl bno b x d :
  cache V H P f sl -> (b < NBUF)%nat -> fs_buf f !! b = Some x -> b_dev x = dev -> b_blockno x = bno ->
  H !! bno = None -> V !! bno = Some d ->
  b_data x = d /\
  cache V (<[bno := (b, d)]> H) P (set_buf (<[b := set_brefcnt (u32 (b_refcnt x + 1)) x]> (fs_buf f)) f)
    (<[SBuf b := mk_sleeplock 1 pid]> sl).
Proof.
  intros C Hlt Hx Hdev E Hn Hv. pose proof (ca_bufs _ _ _ _ _ _ _ C b x Hlt Hx) as K.
  pose proof (bo_data _ _ _ _ _ _ _ _ K Hdev) as Hdat. unfold content in Hdat. rewrite E, Hn, Hv in Hdat.
  injection Hdat as Hdat. split; [done|].
  eapply (cache_same dev pid V H P V _ P f sl _ b x _ bno); try done.
  - intros c Hc. by rewrite lookup_insert_ne.
  - intros k Hk. by rewrite lookup_insert_ne by congruence.
  - destruct K as [K1 K2 K3 K4 K5 K6]. split; simpl; try done.
    + rewrite lookup_insert_eq, bool_decide_eq_true_2; [done|]. by rewrite E, lookup_insert_eq.
    + rewrite K4, decide_True, E by done. unfold refs. rewrite lookup_insert_eq, Hn.
      repeat case_decide; try naive_solver; by rewrite u32_small.
    + intros _. unfold content. by rewrite E, lookup_insert_eq, Hdat.
  - intros a d'. rewrite lookup_insert_eq. naive_solver.
  - intros Hp. by apply (ca_disk _ _ _ _ _ _ _ C).
  - intros d' Hv'. by eapply (ca_view _ _ _ _ _ _ _ C).
Qed.

(** A block that is read into an unused buffer. *)
Lemma cache_load V H P f sl bno b x d :
  cache V H P f sl -> (b < NBUF)%nat -> fs_buf f !! b = Some x -> b_refcnt x = 0 ->
  (forall k, (k < NBUF)%nat -> ~ is_buf dev (fs_buf f) k bno) -> V !! bno = Some d ->
  H !! bno = None /\ bno ∉ P /\
  forall vd, dev_ok vd ->
  cache V (<[bno := (b, d)]> H) P
    (set_vd vd (set_buf (<[b := mk_buf 1 (b_disk x) dev bno 1 (b_prev x) (b_next x) d]> (fs_buf f)) f))
    (<[SBuf b := mk_sleeplock 1 pid]> sl).
Proof.
  intros C Hlt Hx Hr Hno Hv. pose proof (ca_bufs _ _ _ _ _ _ _ C b x Hlt Hx) as K.
  pose proof (ca_len _ _ _ _ _ _ _ C) as Hlen.
  assert (H !! bno = None) as Hn.
  { destruct (H !! bno) as [[k d']|] eqn:E; [|done]. exfalso. pose proof (ca_held _ _ _ _ _ _ _ C _ _ _ E) as Hk.
    apply (Hno k); [apply Hk|done]. }
  assert (bno ∉ P) as HP.
  { intros Hin. destruct (ca_pinned _ _ _ _ _ _ _ C _ Hin) as [k Hk]. apply (Hno k); [apply Hk|done]. }
  split; [done|]. split; [done|]. intros vd Hvd.
  eapply (cache_update dev pid V H P V _ P f _ sl _ b _ bno); simpl; try done.
  - by rewrite length_insert.
  - destruct (ca_order _ _ _ _ _ _ _ C) as (order & Ho & Hdll). exists order. split; [done|].
    eapply dll_ext; [| |exact Hdll]; intros c; unfold next_of, prev_of;
      (destruct (decide (c = b)) as [->|]; [|by rewrite list_lookup_insert_ne]);
      rewrite list_lookup_insert_eq by lia; by rewrite Hx.
  - apply list_lookup_insert_eq. lia.
  - done.
  - done.
  - intros k y Hk Hklt Hy. split; [|exists y; split; [by rewrite list_lookup_insert_ne|apply alike_refl]].
    intros Hyd Hyb. apply (Hno k Hklt). split; [done|]. by exists y.
  - intros c Hc. by rewrite lookup_insert_ne.
  - intros k Hk. by rewrite lookup_insert_ne by congruence.
  - split; simpl; try done.
    + apply K.
    + by eapply (ca_view _ _ _ _ _ _ _ C).
    + rewrite lookup_insert_eq, bool_decide_eq_true_2; [done|]. by rewrite lookup_insert_eq.
    + rewrite decide_True by done. unfold refs. rewrite lookup_insert_eq. repeat case_decide; naive_solver.
    + intros _. unfold content. by rewrite lookup_insert_eq.
  - intros y Hy Hyd Hyb. simplify_eq. rewrite (bo_ref _ _ _ _ _ _ _ _ K), decide_True in Hr by done. done.
  - intros a d'. rewrite lookup_insert_eq. naive_solver.
  - intros Hp. by apply (ca_disk _ _ _ _ _ _ _ C).
  - apply (ca_dom _ _ _ _ _ _ _ C).
  - intros d' Hd'. by eapply (ca_now _ _ _ _ _ _ _ C).
  - intros d' Hv'. by eapply (ca_view _ _ _ _ _ _ _ C).
Qed.

Lemma wpf_bread V H P f sl bno d (Q : nat -> list lockid -> fsst -> gmap sleepid sleeplock -> Prop) :
  cache V H P f sl -> V !! bno = Some d -> H !! bno = None -> (bno ∈ P \/ size (dom H ∪ P) < NBUF)%nat ->
  (forall b f' sl', cache V (<[bno := (b, d)]> H) P f' sl' -> bufs_only f f' ->
     (forall k, sl' !! SInode k = sl !! SInode k) -> Q b [] f' sl') ->
  wpf [] (bread dev bno) f sl Q.
Proof.
  intros C Hv Hn Hroom HQ. pose proof (ca_len _ _ _ _ _ _ _ C) as Hlen.
  destruct (ca_order _ _ _ _ _ _ _ C) as (order & Ho & Hdll). destruct (seq_below order Ho) as (Hr & Hnd & Hol).
  assert (forall k, k ∈ order <-> (k < NBUF)%nat) as Hin by (intros k; rewrite Ho, elem_of_seq; lia).
  destruct Hdll as [Hnx Hpv]. unfold bread, bget. apply wpf_bind, wpf_bind, wpf_acquire; [set_solver|done|].
  assert (is_Some (fs_buf f !! NBUF)) as [hd Hhd] by (apply lookup_lt_is_Some; lia).
  apply wpf_bind. eapply wpf_get_buf; [done|]. pose proof (links_head _ _ _ _ Hnx) as Ehd. unfold next_of in Ehd.
  rewrite Hhd in Ehd. simpl in Ehd. injection Ehd as ->.
  apply wpf_bind. eapply wpf_bget_cached; [done|done|exact Hnx|by rewrite Hol|..].
  - intros b Hb (Hlt & x & Hx & Hdev & E).
    destruct (cache_take V H P f sl bno b x d C Hlt Hx Hdev E Hn Hv) as [Hdat C'].
    apply wpf_bind, wpf_upd_buf; [by exists x|]. rewrite <- (insert_alter _ _ x) by done.
    apply wpf_bind, wpf_release, wpf_bind. eapply (wpf_acquiresleep i p [] naps (SBuf b) (mk_sleeplock 0 0)); [set_solver| |done|].
    { eapply free_lock; [done|done|done|]. by rewrite E. }
    apply wpf_ret, wpf_bind. eapply wpf_get_buf; [apply list_lookup_insert_eq; simpl; lia|].
    pose proof (bo_valid _ _ _ _ _ _ _ _ (ca_bufs _ _ _ _ _ _ _ C b x Hlt Hx) Hdev) as Hval. simpl.
    destruct (Z.eqb_spec (b_valid x) 0); [done|]. apply wpf_bind, wpf_ret, wpf_ret, HQ; [exact C'|apply bufs_only_set|].
    intros k. by rewrite lookup_insert_ne.
  - intros Hno. assert (forall k, (k < NBUF)%nat -> ~ is_buf dev (fs_buf f) k bno) as Hno' by (intros k Hk; by apply Hno, Hin).
    apply wpf_bind. eapply wpf_get_buf; [done|]. pose proof (links_head _ _ _ _ Hpv) as Epv. unfold prev_of in Epv.
    rewrite Hhd in Epv. simpl in Epv. injection Epv as ->.
    apply wpf_bind. eapply wpf_bget_unused; [done|by apply Forall_reverse|exact Hpv|by rewrite length_reverse, Hol|..].
    + intros b x Hb%elem_of_reverse%Hin Hx Href.
      destruct (cache_load V H P f sl bno b x d C Hb Hx Href Hno' Hv) as (_ & HP & C').
      apply wpf_bind, wpf_upd_buf; [by exists x|]. rewrite <- (insert_alter _ _ x) by done.
      apply wpf_bind, wpf_release, wpf_bind. eapply (wpf_acquiresleep i p [] naps (SBuf b) (mk_sleeplock 0 0)); [set_solver| |done|].
      { eapply free_lock; [done|done|done|]. intros Hd.
        rewrite (bo_ref _ _ _ _ _ _ _ _ (ca_bufs _ _ _ _ _ _ _ C b x Hb Hx)), decide_True in Href by done.
        by apply refs_0 in Href as [? _]. }
      apply wpf_ret, wpf_bind. eapply wpf_get_buf; [apply list_lookup_insert_eq; simpl; lia|]. cbn [b_valid Z.eqb].
      apply wpf_bind, wpf_bind. eapply rw_read; simpl; [apply C|done|apply list_lookup_insert_eq; lia| | |].
      * apply (ca_bufs _ _ _ _ _ _ _ C b x Hb Hx).
      * simpl. rewrite (ca_disk _ _ _ _ _ _ _ C) by done. exact Hv.
      * intros vd Hvd. rewrite list_insert_insert_eq. apply wpf_upd_buf; [simpl; apply lookup_lt_is_Some; rewrite length_insert; lia|].
        apply wpf_ret. simpl. erewrite <- insert_alter by (apply list_lookup_insert_eq; lia). rewrite list_insert_insert_eq.
        apply HQ; [exact (C' vd Hvd)|by destruct f|]. intros k. by rewrite lookup_insert_ne.
    + intros Hall. exfalso. destruct Hroom as [HP|Hs].
      * destruct (ca_pinned _ _ _ _ _ _ _ C _ HP) as [k Hk]. apply (Hno' k); [apply Hk|done].
      * apply (some_unused V H P f sl C Hs). intros b x Hb Hx. apply (Hall b x); [|done]. by apply elem_of_reverse, Hin.
Qed.

End spec.
