(* ===== verification/XvLogProofs.v ===== *)
(** The log on disk and the code that writes and installs it.  [entries c] are the
    blocks that the header on disk [c] lists, and [replay_at c b] is what block [b]
    holds once recovery has run on [c]. *)

From S2P Require Import Prelude XvMem XvFsTypes XvKernel XvMsg XvSched XvSchedProofs XvBio XvBlock XvLog XvFsLogic XvBioList XvBioProofs XvBioSpec.

Set Default Proof Using "Type".

(** * The log on disk *)

Definition head_n (hd : bytes) : Z := i32 (num32 0 hd).
Definition head_at (hd : bytes) (k : nat) : Z := i32 (num32 (head_block (Z.of_nat k)) hd).
Definition head_blocks (hd : bytes) : list Z := head_at hd <$> seq 0 (Z.to_nat (head_n hd)).

Definition entries (start : Z) (c : gmap Z bytes) : list Z :=
  match c !! start with Some hd => head_blocks hd | None => [] end.

(** Block [b] once the committed transaction on [c], if there is one, is installed. *)
Definition replay_at (start : Z) (c : gmap Z bytes) (b : Z) : option bytes :=
  match find_index (Z.eqb b) (entries start c) with
  | Some k => c !! (start + 1 + Z.of_nat k)
  | None => c !! b
  end.

(** The blocks outside the log. *)
Definition home (start b : Z) : Prop := 0 <= b < 2 ^ 31 /\ ~ start <= b <= start + LOGBLOCKS.

(** The log area is on the disk, with a header that has a count. *)
Definition area (start : Z) (c : gmap Z bytes) : Prop :=
  (forall k, 0 <= k <= LOGBLOCKS -> is_Some (c !! (start + k))) /\ forall hd, c !! start = Some hd -> 0 <= head_n hd.

(** A list of blocks that a header can hold. *)
Record listed (start : Z) (c : gmap Z bytes) (lh : list Z) : Prop := mk_listed {
  li_len : len lh <= LOGBLOCKS;
  li_nodup : NoDup lh;
  li_home : Forall (home start) lh;
  li_in : Forall (fun b => is_Some (c !! b)) lh;
}.

(** Recovery on disk [c] leads to the blocks [R]. *)
Record recovers (start : Z) (R c : gmap Z bytes) : Prop := mk_recovers {
  re_area : area start c;
  re_sized : map_Forall (fun _ => block_sized) c;
  re_listed : listed start c (entries start c);
  re_replay : forall b, home start b -> replay_at start c b = R !! b;
}.

(** The log in memory, with the blocks [lh]. *)
Record lg_ok (dev start : Z) (lh : list Z) (lg : logstate) : Prop := mk_lg_ok {
  lo_dev : lg_dev lg = dev;
  lo_start : lg_start lg = start;
  lo_n : lg_n lg = len lh;
  lo_block : take (length lh) (lg_block lg) = lh;
  lo_len : len (lg_block lg) = LOGBLOCKS;
}.

Definition log_layout (dev start : Z) : Prop := 0 <= dev < 2 ^ 31 /\ 0 <= start /\ start + LOGBLOCKS < 2 ^ 31.

(** The same blocks outside the log. *)
Definition same_home (start : Z) (c c' : gmap Z bytes) : Prop := forall b, home start b -> c' !! b = c !! b.

Lemma same_home_refl start c : same_home start c c.
Proof. done. Qed.

Lemma same_home_trans start c c1 c2 : same_home start c c1 -> same_home start c1 c2 -> same_home start c c2.
Proof. intros H1 H2 b Hb. by rewrite H2, H1. Qed.

Lemma same_home_log start c k d : 0 <= k <= LOGBLOCKS -> same_home start c (<[start + k := d]> c).
Proof. intros Hk b [_ Hb]. rewrite lookup_insert_ne; [done|]. intros E. apply Hb. lia. Qed.

Lemma lg_block_at dev start lh lg k : lg_ok dev start lh lg -> forall b, lh !! k = Some b -> zlookup (lg_block lg) (Z.of_nat k) = Some b.
Proof.
  intros [_ _ _ H _] b Hb. rewrite zlookup_nat. rewrite <- H in Hb. by apply lookup_take_Some in Hb as [? _].
Qed.

Lemma find_index_at {A} (l : list A) `{EqDecision A} (q : A -> A -> bool) k b :
  (forall x y, q x y = true <-> x = y) -> NoDup l -> l !! k = Some b -> find_index (q b) l = Some k.
Proof.
  intros Hq Hnd Hb. apply find_index_Some. exists b. split; [done|]. split; [by apply Hq|].
  intros j x Hj Hx. destruct (q b x) eqn:E; [|done]. apply Hq in E. subst x.
  pose proof (NoDup_lookup _ _ _ _ Hnd Hb Hx). lia.
Qed.

Lemma replay_entry start c k b : NoDup (entries start c) -> entries start c !! k = Some b -> replay_at start c b = c !! (start + 1 + Z.of_nat k).
Proof. intros Hnd Hb. unfold replay_at. rewrite (find_index_at _ Z.eqb k b); [done|apply Z.eqb_eq|done|done]. Qed.

Lemma replay_other start c b : b ∉ entries start c -> replay_at start c b = c !! b.
Proof.
  intros Hn. unfold replay_at. replace (find_index (Z.eqb b) (entries start c)) with (@None nat); [done|]. symmetry.
  apply find_index_None, Forall_forall. intros x Hx. apply Z.eqb_neq. intros ->. done.
Qed.

(** * Loops over the header *)

Section log.
Context {BD : BlockDev} {AM : Ambient} {rely : protocol} {BL : BlockDevLaws BD rely} (i : nat) (p : proc) (dev start : Z).
Notation pid := (p_pid p).
Notation wpf := (wpf (rely := rely) i p).
Notation cache := (cache (BL := BL) dev (p_pid p)).
Implicit Types (V : gmap Z bytes) (H : held) (P : gset Z) (f : fsst) (sl : gmap sleepid sleeplock).

Lemma wpf_get_log h f sl (Q : logstate -> list lockid -> fsst -> gmap sleepid sleeplock -> Prop) :
  Q (fs_log f) h f sl -> wpf h get_log f sl Q.
Proof. apply wpf_gets. Qed.

Lemma wpf_upd_log h g f sl (Q : unit -> list lockid -> fsst -> gmap sleepid sleeplock -> Prop) :
  Q tt h (set_log (g (fs_log f)) f) sl -> wpf h (upd_log g) f sl Q.
Proof. intros HQ. unfold upd_log. by apply wpf_modify. Qed.

Lemma wpf_lh_block h lh k b f sl (Q : Z -> list lockid -> fsst -> gmap sleepid sleeplock -> Prop) :
  lg_ok dev start lh (fs_log f) -> lh !! k = Some b -> Q b h f sl -> wpf h (lh_block (Z.of_nat k)) f sl Q.
Proof.
  intros Hlg Hb HQ. unfold lh_block. apply wpf_bind, wpf_get_log. rewrite (lg_block_at _ _ _ _ _ Hlg _ Hb). by apply wpf_ret.
Qed.

Lemma wpf_for_lh h (g : Z -> KM unit) (I : nat -> fsst -> gmap sleepid sleeplock -> Prop) n f sl Q :
  lg_n (fs_log f) = Z.of_nat n -> I 0%nat f sl ->
  (forall k f' sl', (k < n)%nat -> I k f' sl' ->
     wpf h (g (Z.of_nat k)) f' sl' (fun _ h' f2 sl2 => h' = h /\ I (S k) f2 sl2)) ->
  (forall f' sl', I n f' sl' -> Q tt h f' sl') -> wpf h (for_lh g) f sl Q.
Proof.
  intros Hn H0 Hs HQ. unfold for_lh. apply wpf_bind, wpf_get_log. rewrite Hn, Nat2Z.id.
  apply (wpf_for_each i p h _ _ (fun dn => I (length dn))); [done| |].
  - intros dn x rest f' sl' El HI.
    assert (seq 0 n !! length dn = Some (length dn)) as Hk.
    { apply lookup_seq. split; [done|]. assert (length (Z.of_nat <$> seq 0 n) = length (dn ++ x :: rest)) as E by by f_equal.
      rewrite length_fmap, length_seq, length_app in E. simpl in E. lia. }
    assert (x = Z.of_nat (length dn)) as ->.
    { assert ((Z.of_nat <$> seq 0 n) !! length dn = Some x) as Hx by (rewrite El; by apply list_lookup_middle).
      rewrite list_lookup_fmap, Hk in Hx. by injection Hx. }
    eapply wpf_mono; [apply Hs; [|done]|].
    + apply lookup_seq in Hk. lia.
    + intros [] h' f2 sl2 [-> HI2]. split; [done|]. by rewrite length_app, Nat.add_1_r.
  - intros f' sl'. rewrite length_fmap, length_seq. apply HQ.
Qed.

(** * Effects on the state *)

(** The same but for disk, driver and buffers. *)
Definition disk_only (f f' : fsst) : Prop := f' = set_disk (fs_disk f') (set_vd (fs_vd f') (set_buf (fs_buf f') f)).

Definition same_inodes (sl sl' : gmap sleepid sleeplock) : Prop := forall k, sl' !! SInode k = sl !! SInode k.

(** The disk after writing block [b]. *)
Definition written (b : Z) (d : bytes) (k : platter) : platter := mk_platter (<[b := d]> (d_now k)) (d_now k :: d_past k).

Lemma disk_only_refl f : disk_only f f.
Proof. by destruct f. Qed.

Lemma disk_only_trans f f1 f2 : disk_only f f1 -> disk_only f1 f2 -> disk_only f f2.
Proof. unfold disk_only. intros E1 E2. rewrite E2, E1. done. Qed.

Lemma bufs_disk_only f f' : bufs_only f f' -> disk_only f f'.
Proof. unfold bufs_only, disk_only. intros ->. done. Qed.

Lemma disk_only_log f f' : disk_only f f' -> fs_log f' = fs_log f /\ fs_sb f' = fs_sb f /\ fs_inode f' = fs_inode f.
Proof. unfold disk_only. intros ->. done. Qed.

Lemma bufs_only_disk f f' : bufs_only f f' -> fs_disk f' = fs_disk f /\ fs_log f' = fs_log f.
Proof. unfold bufs_only. intros ->. done. Qed.

Context (HL : log_layout dev start).

Lemma u32_dev lh lg : lg_ok dev start lh lg -> u32 (lg_dev lg) = dev.
Proof using HL. intros [-> _ _ _ _]. destruct HL. apply u32_small. lia. Qed.

Lemma u32_log lh lg k : lg_ok dev start lh lg -> 0 <= k <= LOGBLOCKS -> u32 (lg_start lg + k) = start + k.
Proof using HL. intros [_ -> _ _ _] Hk. destruct HL as (_ & H1 & H2). apply u32_small. lia. Qed.

Lemma u32_home b : home start b -> u32 b = b.
Proof. intros [Hb _]. apply u32_small. lia. Qed.

Lemma log_not_home k : 0 <= k <= LOGBLOCKS -> ~ home start (start + k).
Proof. intros Hk [_ Hn]. apply Hn. lia. Qed.

(** * Copying a block *)

Lemma cache_sized V H P f sl b d : cache V H P f sl -> V !! b = Some d -> len d = BSIZE.
Proof. intros C Hb. by eapply (ca_view _ _ _ _ _ _ _ C). Qed.

Lemma dom_empty_room P : (size P < NBUF)%nat -> (size (dom (∅ : held) ∪ P) < NBUF)%nat.
Proof. by rewrite dom_empty_L, union_empty_l_L. Qed.

Lemma size_union_le (X Y : gset Z) : (size (X ∪ Y) <= size X + size Y)%nat.
Proof.
  rewrite size_union_alt. assert (size (Y ∖ X) <= size Y)%nat; [|lia].
  apply subseteq_size. intros z Hz. by apply elem_of_difference in Hz as [? _].
Qed.

(** Copying block [b] to its place in the log. *)
Lemma wpf_log_block V P lh k b d f sl (Q : unit -> list lockid -> fsst -> gmap sleepid sleeplock -> Prop) :
  cache V ∅ P f sl -> lg_ok dev start lh (fs_log f) -> area start V -> lh !! k = Some b -> home start b -> b ∈ P ->
  V !! b = Some d -> Z.of_nat k < LOGBLOCKS -> (size P < NBUF)%nat ->
  (forall f' sl', let a := start + (1 + Z.of_nat k) in
     cache (<[a := d]> V) ∅ P f' sl' -> disk_only f f' -> fs_disk f' = written a d (fs_disk f) ->
     same_inodes sl sl' -> Q tt [] f' sl') ->
  wpf [] (log_block (Z.of_nat k)) f sl Q.
Proof using HL.
  intros C Hlg Ha Hk Hh HP Hv Hkl Hroom HQ. set (a := start + (1 + Z.of_nat k)) in *.
  destruct (proj1 Ha (1 + Z.of_nat k)) as [e He]; [lia|]. fold a in He.
  assert (a <> b) as Hab by (intros <-; apply (log_not_home (1 + Z.of_nat k)) in Hh; [done|lia]).
  unfold log_block. apply wpf_bind, wpf_get_log. rewrite (u32_dev _ _ Hlg).
  replace (lg_start (fs_log f) + Z.of_nat k + 1) with (lg_start (fs_log f) + (1 + Z.of_nat k)) by lia.
  rewrite (u32_log _ _ _ Hlg) by lia. fold a.
  apply wpf_bind. eapply wpf_bread; [exact C|exact He|done|right; by apply dom_empty_room|].
  intros ta f1 sl1 C1 B1 S1. destruct (bufs_only_disk _ _ B1) as [D1 L1].
  apply wpf_bind. eapply wpf_lh_block; [rewrite L1; exact Hlg|exact Hk|]. rewrite u32_home by done.
  apply wpf_bind. eapply wpf_bread; [exact C1|exact Hv|by rewrite lookup_insert_ne|by left|].
  intros tb f2 sl2 C2 B2 S2. destruct (bufs_only_disk _ _ B2) as [D2 L2].
  pose proof (cache_sized _ _ _ _ _ _ _ C Hv) as Hd. pose proof (cache_sized _ _ _ _ _ _ _ C He) as Hel.
  apply wpf_bind. eapply wpf_bdata_get; [exact C2|apply lookup_insert_eq|lia|done|lia|]. rewrite slice_all by done.
  apply wpf_bind. eapply (wpf_bdata_put _ _ _ _ _ _ _ _ _ a); [exact C2|rewrite lookup_insert_ne by done; apply lookup_insert_eq|lia|lia|].
  intros f3 C3 B3. destruct (bufs_only_disk _ _ B3) as [D3 L3]. rewrite splice_all in C3 by lia.
  apply wpf_bind. eapply (wpf_bwrite _ _ _ _ _ _ _ _ a); [exact C3|apply lookup_insert_eq|by eexists|].
  intros f4 vd C4 E4.
  apply wpf_bind. eapply (wpf_brelse _ _ _ _ _ _ _ _ b); [exact C4|rewrite lookup_insert_ne by done; apply lookup_insert_eq|by rewrite lookup_insert_ne|].
  intros f5 sl5 C5 B5 S5. destruct (bufs_only_disk _ _ B5) as [D5 L5].
  eapply (wpf_brelse _ _ _ _ _ _ _ _ a); [exact C5|rewrite lookup_delete_ne by done; apply lookup_insert_eq|apply lookup_insert_eq|].
  intros f6 sl6 C6 B6 S6. destruct (bufs_only_disk _ _ B6) as [D6 L6]. apply HQ.
  - match type of C6 with context [delete a ?m] => replace (delete a m) with (∅ : held) in C6; [exact C6|] end.
    apply map_eq. intros c. destruct (decide (c = a)) as [->|]; [by simplify_map_eq|].
    destruct (decide (c = b)) as [->|]; by simplify_map_eq.
  - assert (disk_only f3 f4) as H34 by (rewrite E4; by destruct f3).
    repeat (eapply disk_only_trans; [first [apply bufs_disk_only; eassumption|exact H34]|]). by apply bufs_disk_only.
  - rewrite D6, D5, E4. simpl. unfold written. by rewrite D3, D2, D1.
  - intros c. by rewrite S6, S5, S2, S1.
Qed.

(** Copying block [k] of the log to block [b]. *)
Lemma wpf_install_block (recovering : bool) V P lh k b d f sl (Q : unit -> list lockid -> fsst -> gmap sleepid sleeplock -> Prop) :
  cache V ∅ P f sl -> lg_ok dev start lh (fs_log f) -> lh !! k = Some b -> home start b ->
  V !! (start + (1 + Z.of_nat k)) = Some d -> is_Some (V !! b) ->
  Z.of_nat k < LOGBLOCKS -> (size P + 1 < NBUF)%nat \/ (size P < NBUF)%nat /\ b ∈ P ->
  (recovering = false -> b ∈ P) -> (recovering = true -> b ∉ P) ->
  (forall f' sl', cache (<[b := d]> V) ∅ (P ∖ {[b]}) f' sl' -> disk_only f f' -> fs_disk f' = written b d (fs_disk f) ->
     same_inodes sl sl' -> Q tt [] f' sl') ->
  wpf [] (install_block recovering (Z.of_nat k)) f sl Q.
Proof using HL.
  intros C Hlg Hk Hh He [y Hv] Hkl Hroom Hp1 Hp2 HQ. set (a := start + (1 + Z.of_nat k)) in *.
  assert (a <> b) as Hab by (intros <-; apply (log_not_home (1 + Z.of_nat k)) in Hh; [done|lia]).
  unfold install_block. apply wpf_bind, wpf_get_log. rewrite (u32_dev _ _ Hlg).
  replace (lg_start (fs_log f) + Z.of_nat k + 1) with (lg_start (fs_log f) + (1 + Z.of_nat k)) by lia.
  rewrite (u32_log _ _ _ Hlg) by lia. fold a.
  apply wpf_bind. eapply wpf_bread; [exact C|exact He|done|right; apply dom_empty_room; lia|].
  intros ta f1 sl1 C1 B1 S1. destruct (bufs_only_disk _ _ B1) as [D1 L1].
  apply wpf_bind. eapply wpf_lh_block; [rewrite L1; exact Hlg|exact Hk|]. rewrite u32_home by done.
  apply wpf_bind. eapply wpf_bread; [exact C1|exact Hv|by rewrite lookup_insert_ne| |].
  { destruct Hroom as [Hr|[_ ?]]; [right|by left]. rewrite dom_insert_L, dom_empty_L, union_empty_r_L.
    eapply Nat.le_lt_trans; [apply size_union_le|]. rewrite size_singleton. lia. }
  intros tb f2 sl2 C2 B2 S2. destruct (bufs_only_disk _ _ B2) as [D2 L2].
  pose proof (cache_sized _ _ _ _ _ _ _ C Hv) as Hd. pose proof (cache_sized _ _ _ _ _ _ _ C He) as Hel.
  apply wpf_bind. eapply (wpf_bdata_get _ _ _ _ _ _ _ _ _ a); [exact C2|rewrite lookup_insert_ne by done; apply lookup_insert_eq|lia|done|lia|].
  rewrite slice_all by done.
  apply wpf_bind. eapply wpf_bdata_put; [exact C2|apply lookup_insert_eq|lia|lia|].
  intros f3 C3 B3. destruct (bufs_only_disk _ _ B3) as [D3 L3]. rewrite splice_all in C3 by lia. rewrite insert_insert_eq in C3.
  apply wpf_bind. eapply (wpf_bwrite _ _ _ _ _ _ _ _ b); [exact C3|apply lookup_insert_eq|by eexists|].
  intros f4 vd C4 E4. apply wpf_bind.
  assert (fs_disk f4 = written b d (fs_disk f)) as D4 by (rewrite E4; simpl; unfold written; by rewrite D3, D2, D1).
  assert (disk_only f f4) as H04.
  { repeat (eapply disk_only_trans; [apply bufs_disk_only; eassumption|]). rewrite E4. by destruct f3. }
  assert (forall f5, cache (<[b := d]> V) (<[b := (tb, d)]> (<[a := (ta, d)]> ∅)) (P ∖ {[b]}) f5 sl2 -> disk_only f f5 ->
    fs_disk f5 = fs_disk f4 -> wpf [] (brelse ta;; brelse tb) f5 sl2 Q) as Hend.
  { intros f5 C5 H05 D5.
    apply wpf_bind. eapply (wpf_brelse _ _ _ _ _ _ _ _ a); [exact C5|rewrite lookup_insert_ne by done; apply lookup_insert_eq|by rewrite lookup_insert_ne|].
    intros f6 sl6 C6 B6 S6. destruct (bufs_only_disk _ _ B6) as [D6 L6].
    eapply (wpf_brelse _ _ _ _ _ _ _ _ b); [exact C6|rewrite lookup_delete_ne by done; apply lookup_insert_eq|apply lookup_insert_eq|].
    intros f7 sl7 C7 B7 S7. destruct (bufs_only_disk _ _ B7) as [D7 L7]. apply HQ.
    - match type of C7 with context [delete b ?m] => replace (delete b m) with (∅ : held) in C7; [exact C7|] end.
      apply map_eq. intros c. destruct (decide (c = a)) as [->|]; [by simplify_map_eq|].
      destruct (decide (c = b)) as [->|]; by simplify_map_eq.
    - eapply disk_only_trans; [exact H05|]. eapply disk_only_trans; by apply bufs_disk_only.
    - by rewrite D7, D6, D5, D4.
    - intros c. by rewrite S7, S6, S2, S1. }
  destruct recovering.
  - apply wpf_ret, Hend; [|done|done]. rewrite difference_disjoint_L; [exact C4|]. specialize (Hp2 eq_refl). set_solver.
  - eapply wpf_bunpin; [exact C4|apply lookup_insert_eq|by apply Hp1| |set_solver|].
    + rewrite D4. unfold written. cbn [d_now]. by rewrite !lookup_insert_eq.
    + intros f5 C5 B5. destruct (bufs_only_disk _ _ B5) as [D5 L5]. apply Hend; [done| |done].
      eapply disk_only_trans; [exact H04|by apply bufs_disk_only].
Qed.

End log.
