(* ===== verification/XvLogCommit.v ===== *)
(** Committing a transaction and recovering from a crash: every state the disk goes
    through leads, by recovery, to the blocks before or to those after the
    transaction. *)

From S2P Require Import Prelude XvMem XvFsTypes XvKernel XvMsg XvSched XvSchedProofs XvBio XvBlock XvLog XvFsLogic XvBioList XvBioProofs XvBioSpec XvLogProofs.

Set Default Proof Using "Type".

(** * States of the disk *)

(** Each state the disk was in between [f] and [f'], except the last, satisfies [Pr]. *)
Definition through (Pr : gmap Z bytes -> Prop) (f f' : fsst) : Prop :=
  exists new, d_past (fs_disk f') = new ++ d_past (fs_disk f) /\ Forall Pr new.

Lemma through_same Pr f f' : fs_disk f' = fs_disk f -> through Pr f f'.
Proof. intros E. exists []. by rewrite E. Qed.

Lemma through_trans Pr f f1 f2 : through Pr f f1 -> through Pr f1 f2 -> through Pr f f2.
Proof. intros (n1 & E1 & F1) (n2 & E2 & F2). exists (n2 ++ n1). rewrite E2, E1, app_assoc. split; [done|]. by apply Forall_app. Qed.

Lemma through_written (Pr : gmap Z bytes -> Prop) f f' b d :
  fs_disk f' = written b d (fs_disk f) -> Pr (d_now (fs_disk f)) -> through Pr f f'.
Proof. intros E HP. exists [d_now (fs_disk f)]. rewrite E. split; [done|]. by constructor. Qed.

Section states.
Context (start : Z).

(** Nothing committed. *)
Lemma recovers_idle R c : area start c -> map_Forall (fun _ => block_sized) c -> entries start c = [] -> same_home start c R -> recovers start R c.
Proof.
  intros Ha Hz He Hh. split; [done|done| |].
  - rewrite He. split; [done|constructor..].
  - intros b Hb. rewrite replay_other by (rewrite He; set_solver). symmetry. by apply Hh.
Qed.

Lemma recovers_idle_inv R c : entries start c = [] -> recovers start R c -> same_home start c R.
Proof. intros He [_ _ _ H] b Hb. rewrite <- (H b Hb), replay_other; [done|]. rewrite He. set_solver. Qed.

(** A committed transaction with the blocks [lh]. *)
Lemma recovers_committed R c lh :
  area start c -> map_Forall (fun _ => block_sized) c -> listed start c lh -> entries start c = lh ->
  (forall k b, lh !! k = Some b -> c !! (start + (1 + Z.of_nat k)) = R !! b) ->
  (forall b, home start b -> b ∉ lh -> c !! b = R !! b) -> recovers start R c.
Proof.
  intros Ha Hz Hl He Hin Hout. split; [done|done|by rewrite He|]. intros b Hb. destruct (decide (b ∈ lh)) as [[k Hk]%list_elem_of_lookup_1|Hn].
  - rewrite (replay_entry start c k b); [|rewrite He; apply Hl|by rewrite He]. rewrite <- (Hin k b Hk). f_equal. lia.
  - rewrite replay_other by (by rewrite He). by apply Hout.
Qed.

Lemma listed_ext c c' lh : (forall b, home start b -> is_Some (c !! b) -> is_Some (c' !! b)) -> listed start c lh -> listed start c' lh.
Proof.
  intros H [L1 L2 L3 L4]. split; try done. rewrite Forall_forall in *. intros b Hb. by apply H; [apply L3|apply L4].
Qed.

Lemma is_Some_insert (c : gmap Z bytes) b d k : is_Some (c !! k) -> is_Some (<[b := d]> c !! k).
Proof. intros H. destruct (decide (b = k)) as [->|]; [by rewrite lookup_insert_eq|]. by rewrite lookup_insert_ne. Qed.

Lemma area_insert c b d : b <> start -> area start c -> area start (<[b := d]> c).
Proof.
  intros Hb [Ha Hn]. split; [intros k Hk; by apply is_Some_insert, Ha|]. intros hd. rewrite lookup_insert_ne by done. apply Hn.
Qed.

Lemma area_head c hd : area start c -> 0 <= head_n hd -> area start (<[start := hd]> c).
Proof.
  intros [Ha _] Hn. split; [intros k Hk; by apply is_Some_insert, Ha|]. intros hd'. rewrite lookup_insert_eq. by intros [= <-].
Qed.

Lemma entries_insert c b d : b <> start -> entries start (<[b := d]> c) = entries start c.
Proof. intros Hb. unfold entries. by rewrite lookup_insert_ne. Qed.

Lemma entries_start c hd : entries start (<[start := hd]> c) = head_blocks hd.
Proof. unfold entries. by rewrite lookup_insert_eq. Qed.

End states.

(** * The header *)

Lemma head_blocks_ext hd lh :
  len lh <= LOGBLOCKS -> Forall (fun b => 0 <= b < 2 ^ 31) lh -> num32 0 hd = u32 (len lh) ->
  (forall j b, lh !! j = Some b -> num32 (head_block (Z.of_nat j)) hd = u32 b) -> head_blocks hd = lh.
Proof.
  intros Hl Hr Hn Hb. unfold head_blocks, head_n. rewrite Hn, i32_u32, i32_small, Nat2Z.id by (unfold LOGBLOCKS, MAXOPBLOCKS in *; lia).
  apply list_eq. intros j. rewrite list_lookup_fmap. destruct (lh !! j) as [b|] eqn:E.
  - assert (seq 0 (length lh) !! j = Some j) as -> by (apply lookup_seq; apply lookup_lt_Some in E; lia). simpl. f_equal.
    unfold head_at. rewrite (Hb j b E), i32_u32. rewrite Forall_forall in Hr. apply i32_small. specialize (Hr b). 
    apply list_elem_of_lookup_2 in E. specialize (Hr E). lia.
  - replace (seq 0 (length lh) !! j) with (@None nat); [done|]. symmetry. apply lookup_ge_None. rewrite length_seq. by apply lookup_ge_None.
Qed.

Section commit.
Context {BD : BlockDev} {AM : Ambient} {rely : protocol} {BL : BlockDevLaws BD rely} (i : nat) (p : proc) (dev start : Z).
Notation pid := (p_pid p).
Notation wpf := (wpf (rely := rely) i p).
Notation cache := (cache (BL := BL) dev (p_pid p)).
Notation lg_ok := (lg_ok dev start).
Implicit Types (V R : gmap Z bytes) (H : held) (P : gset Z) (f : fsst) (sl : gmap sleepid sleeplock).
Context (HL : log_layout dev start).

Lemma head_block_bound k : (k < Z.to_nat LOGBLOCKS)%nat -> 4 <= head_block (Z.of_nat k) /\ head_block (Z.of_nat k) + 4 <= BSIZE.
Proof. unfold head_block, LOGBLOCKS, MAXOPBLOCKS, BSIZE. lia. Qed.

Lemma wpf_write_head V P lh f sl (Q : unit -> list lockid -> fsst -> gmap sleepid sleeplock -> Prop) :
  cache V ∅ P f sl -> lg_ok lh (fs_log f) -> area start V -> len lh <= LOGBLOCKS -> Forall (home start) lh -> (size P < NBUF)%nat ->
  (forall hd f' sl', head_blocks hd = lh -> 0 <= head_n hd -> cache (<[start := hd]> V) ∅ P f' sl' -> disk_only f f' ->
     fs_disk f' = written start hd (fs_disk f) -> same_inodes sl sl' -> Q tt [] f' sl') ->
  wpf [] write_head f sl Q.
Proof using HL.
  intros C Hlg Ha Hll Hhome Hroom HQ. destruct (proj1 Ha 0) as [e He]; [unfold LOGBLOCKS, MAXOPBLOCKS; lia|]. rewrite Z.add_0_r in He.
  unfold write_head. apply wpf_bind, wpf_get_log. rewrite (u32_dev _ _ HL _ _ Hlg).
  replace (u32 (lg_start (fs_log f))) with start.
  2: { rewrite <- (Z.add_0_r (lg_start _)), (u32_log _ _ HL _ _ _ Hlg); [lia|unfold LOGBLOCKS, MAXOPBLOCKS; lia]. }
  apply wpf_bind. eapply wpf_bread; [exact C|exact He|done|right; by apply dom_empty_room|].
  intros t f1 sl1 C1 B1 S1. destruct (bufs_only_disk _ _ B1) as [D1 L1].
  pose proof (cache_sized _ _ _ _ _ _ _ _ _ C He) as Hel.
  apply wpf_bind. eapply wpf_bdata_put; [exact C1|apply lookup_insert_eq|lia|rewrite le_bytes_length; unfold BSIZE; lia|].
  intros f2 C2 B2. destruct (bufs_only_disk _ _ B2) as [D2 L2]. rewrite insert_insert_eq in C2.
  apply wpf_bind. eapply (wpf_for_lh i p [] _ (fun k f' sl' => exists dk, cache V (<[start := (t, dk)]> ∅) P f' sl' /\ bufs_only f2 f' /\
    sl' = sl1 /\ len dk = BSIZE /\ num32 0 dk = u32 (len lh) /\
    forall j b, (j < k)%nat -> lh !! j = Some b -> num32 (head_block (Z.of_nat j)) dk = u32 b) (length lh)).
  - rewrite L2, L1. apply Hlg.
  - eexists. split; [exact C2|]. split; [done|]. split; [done|]. rewrite length_splice, num32_put by (rewrite ?le_bytes_length; unfold BSIZE in *; lia).
    split; [done|]. split; [f_equal; apply Hlg|]. lia.
  - intros k f' sl' Hk (dk & C' & B' & -> & Hlen & Hn & Hj). destruct (lookup_lt_is_Some_2 lh k Hk) as [b Hb].
    destruct (head_block_bound k) as [K1 K2]; [lia|]. destruct (bufs_only_disk _ _ B') as [D' L'].
    apply wpf_bind. eapply wpf_lh_block; [rewrite L', L2, L1; exact Hlg|exact Hb|].
    eapply wpf_bdata_put; [exact C'|apply lookup_insert_eq|lia|rewrite le_bytes_length; lia|]. intros f3 C3 B3. rewrite insert_insert_eq in C3.
    split; [done|]. eexists. split; [exact C3|]. split; [by eapply bufs_only_trans|]. split; [done|].
    rewrite length_splice by (rewrite ?le_bytes_length; lia). split; [done|]. split.
    + rewrite num32_put_other by lia. done.
    + intros j b' Hjk Hb'. destruct (decide (j = k)) as [->|Hne].
      * rewrite num32_put by lia. congruence.
      * rewrite num32_put_other; [apply Hj; [lia|done]|lia|lia|unfold head_block; lia|unfold head_block; lia].
  - intros f3 sl3 (dk & C3 & B3 & -> & Hlen & Hn & Hj). destruct (bufs_only_disk _ _ B3) as [D3 L3].
    assert (head_blocks dk = lh) as Hhd.
    { apply head_blocks_ext; [done| |done|]. { eapply Forall_impl; [exact Hhome|]. by intros b [? _]. }
      intros j b Hb. apply Hj; [by eapply lookup_lt_Some|done]. }
    apply wpf_bind. eapply wpf_bwrite; [exact C3|apply lookup_insert_eq|by eexists|]. intros f4 vd C4 E4.
    eapply wpf_brelse; [exact C4|apply lookup_insert_eq|apply lookup_insert_eq|]. intros f5 sl5 C5 B5 S5.
    destruct (bufs_only_disk _ _ B5) as [D5 L5]. apply (HQ dk).
    + done.
    + unfold head_n. rewrite Hn, i32_u32, i32_small; [lia|]. unfold LOGBLOCKS, MAXOPBLOCKS in *. lia.
    + rewrite delete_insert_id in C5; done.
    + assert (disk_only f3 f4) as H34 by (rewrite E4; by destruct f3).
      repeat (eapply disk_only_trans; [first [apply bufs_disk_only; eassumption|exact H34]|]). by apply bufs_disk_only.
    + rewrite D5, E4. simpl. unfold written. by rewrite D3, D2, D1.
    + intros c. by rewrite S5, S1.
Qed.

(** * The loops *)

(** Blocks that are not kept are the same on disk. *)
Lemma now_area V H P f sl : cache V H P f sl -> (forall b, b ∈ P -> home start b) -> area start V ->
  area start (d_now (fs_disk f)) /\ entries start (d_now (fs_disk f)) = entries start V /\
  forall k, 0 <= k <= LOGBLOCKS -> d_now (fs_disk f) !! (start + k) = V !! (start + k).
Proof.
  intros C HP [Ha Hn]. assert (forall k, 0 <= k <= LOGBLOCKS -> d_now (fs_disk f) !! (start + k) = V !! (start + k)) as E.
  { intros k Hk. apply (ca_disk _ _ _ _ _ _ _ C). intros Hin%HP. by apply (log_not_home start k) in Hin. }
  pose proof (E 0 ltac:(unfold LOGBLOCKS, MAXOPBLOCKS; lia)) as E0. rewrite Z.add_0_r in E0.
  split; [split; [intros k Hk; rewrite E by done; by apply Ha|by rewrite E0]|]. split; [unfold entries; by rewrite E0|done].
Qed.

Lemma committed_recovers V P lh f sl :
  cache V ∅ P f sl -> (forall b, b ∈ P -> b ∈ lh) -> listed start V lh -> area start V -> entries start V = lh ->
  (forall k b, lh !! k = Some b -> V !! (start + (1 + Z.of_nat k)) = V !! b) -> recovers start V (d_now (fs_disk f)).
Proof.
  intros C HP Hl Ha He Hlog. pose proof Hl as [L1 L2 L3 L4]. rewrite Forall_forall in L3.
  destruct (now_area V ∅ P f sl C) as (A1 & A2 & A3); [intros b Hb; by apply L3, HP|done|].
  apply (recovers_committed start V _ lh); [done|apply C| |by rewrite A2| |].
  - eapply listed_ext; [|exact Hl]. intros b _. apply (ca_dom _ _ _ _ _ _ _ C).
  - intros k b Hk. rewrite A3; [by apply Hlog|]. apply lookup_lt_Some in Hk. lia.
  - intros b _ Hn. apply (ca_disk _ _ _ _ _ _ _ C). naive_solver.
Qed.

Lemma wpf_write_log V lh R f sl (Q : unit -> list lockid -> fsst -> gmap sleepid sleeplock -> Prop) :
  cache V ∅ (list_to_set lh) f sl -> lg_ok lh (fs_log f) -> area start V -> listed start V lh -> entries start V = [] ->
  len lh < Z.of_nat NBUF -> same_home start (d_now (fs_disk f)) R ->
  (forall V' f' sl', cache V' ∅ (list_to_set lh) f' sl' -> same_home start V V' -> area start V' -> entries start V' = [] ->
     (forall k b, lh !! k = Some b -> V' !! (start + (1 + Z.of_nat k)) = V !! b) ->
     disk_only f f' -> same_inodes sl sl' -> through (recovers start R) f f' ->
     same_home start (d_now (fs_disk f')) R -> Q tt [] f' sl') ->
  wpf [] write_log f sl Q.
Proof using HL.
  intros C Hlg Ha Hl He Hroom Hsame HQ. pose proof Hl as [L1 L2 L3 L4]. rewrite Forall_forall in L3, L4.
  assert (forall b, b ∈ (list_to_set lh : gset Z) -> home start b) as HP by (intros b Hb%elem_of_list_to_set; by apply L3).
  assert (size (list_to_set lh : gset Z) < NBUF)%nat as Hsz by (rewrite size_list_to_set by done; lia).
  unfold write_log. eapply (wpf_for_lh i p [] _ (fun k f' sl' => exists V', cache V' ∅ (list_to_set lh) f' sl' /\ same_home start V V' /\
    area start V' /\ entries start V' = [] /\ (forall j b, (j < k)%nat -> lh !! j = Some b -> V' !! (start + (1 + Z.of_nat j)) = V !! b) /\
    disk_only f f' /\ same_inodes sl sl' /\ through (recovers start R) f f' /\ same_home start (d_now (fs_disk f')) R) (length lh)).
  - apply Hlg.
  - exists V. split; [done|]. split; [done|]. split; [done|]. split; [done|]. split; [lia|]. split; [apply disk_only_refl|].
    split; [done|]. split; [by apply through_same|done].
  - intros k f' sl' Hk (V' & C' & Hh & Ha' & He' & Hlog & Ho & Hi & Ht & Hs). destruct (lookup_lt_is_Some_2 lh k Hk) as [b Hb].
    assert (b ∈ lh) as Hin by (by eapply list_elem_of_lookup_2). destruct (L4 b Hin) as [d Hd].
    assert (V' !! b = Some d) as Hd' by (rewrite Hh by (by apply L3); done).
    eapply wpf_log_block; [done|exact C'|destruct (disk_only_log _ _ Ho) as [-> _]; exact Hlg|exact Ha'|exact Hb|by apply L3|by apply elem_of_list_to_set|exact Hd'|lia|done|].
    intros f2 sl2 a C2 O2 D2 S2. destruct (now_area V' ∅ _ f' sl' C' HP Ha') as (A1 & A2 & A3).
    split; [done|]. exists (<[a := d]> V'). split; [done|]. split.
    { eapply same_home_trans; [exact Hh|]. apply same_home_log. lia. }
    split; [apply area_insert; [lia|done]|]. split; [rewrite entries_insert by lia; done|]. split.
    { intros j b' Hj Hb'. destruct (decide (j = k)) as [->|Hne].
      - unfold a. rewrite lookup_insert_eq. congruence.
      - rewrite lookup_insert_ne by lia. apply Hlog; [lia|done]. }
    split; [by eapply disk_only_trans|]. split; [intros c; by rewrite S2, Hi|]. split.
    { eapply through_trans; [exact Ht|]. eapply through_written; [exact D2|]. apply recovers_idle; [done|apply C'|by rewrite A2|done]. }
    rewrite D2. unfold written. cbn [d_now]. intros c Hc. rewrite lookup_insert_ne; [by apply Hs|].
    intros <-. by apply (log_not_home start (1 + Z.of_nat k)) in Hc; [|lia].
  - intros f' sl' (V' & C' & Hh & Ha' & He' & Hlog & Ho & Hi & Ht & Hs). apply (HQ V'); try done.
    intros k b Hb. apply Hlog; [by eapply lookup_lt_Some|done].
Qed.

(** Installing a transaction that is kept in the cache. *)
Lemma wpf_install V lh f sl (Q : unit -> list lockid -> fsst -> gmap sleepid sleeplock -> Prop) :
  cache V ∅ (list_to_set lh) f sl -> lg_ok lh (fs_log f) -> area start V -> listed start V lh -> entries start V = lh ->
  len lh < Z.of_nat NBUF -> (forall k b, lh !! k = Some b -> V !! (start + (1 + Z.of_nat k)) = V !! b) ->
  (forall f' sl', cache V ∅ ∅ f' sl' -> disk_only f f' -> same_inodes sl sl' -> through (recovers start V) f f' -> Q tt [] f' sl') ->
  wpf [] (install_trans false) f sl Q.
Proof using HL.
  intros C Hlg Ha Hl He Hroom Hlog HQ. pose proof Hl as [L1 L2 L3 L4]. rewrite Forall_forall in L3, L4.
  unfold install_trans. eapply (wpf_for_lh i p [] _ (fun k f' sl' => cache V ∅ (list_to_set (drop k lh)) f' sl' /\
    disk_only f f' /\ same_inodes sl sl' /\ through (recovers start V) f f') (length lh)).
  - apply Hlg.
  - split; [by rewrite drop_0|]. split; [apply disk_only_refl|]. split; [done|by apply through_same].
  - intros k f' sl' Hk (C' & Ho & Hi & Ht). destruct (lookup_lt_is_Some_2 lh k Hk) as [b Hb].
    assert (b ∈ lh) as Hin by (by eapply list_elem_of_lookup_2). destruct (L4 b Hin) as [d Hd].
    assert (drop k lh = b :: drop (S k) lh) as Edrop by (by apply drop_S).
    assert (NoDup (drop k lh)) as Hnd by (rewrite <- (take_drop k lh) in L2; by apply NoDup_app in L2 as (_ & _ & ?)).
    eapply wpf_install_block; [done|exact C'|destruct (disk_only_log _ _ Ho) as [-> _]; exact Hlg|exact Hb|by apply L3| |by eexists|lia| | |done|].
    + rewrite (Hlog k b Hb). exact Hd.
    + right. split; [|rewrite Edrop; set_solver]. rewrite size_list_to_set by done. rewrite length_drop. lia.
    + intros _. rewrite Edrop. set_solver.
    + intros f2 sl2 C2 O2 D2 S2. rewrite insert_id in C2 by done. split; [done|]. split.
      { replace (list_to_set (drop (S k) lh)) with (list_to_set (drop k lh) ∖ {[b]} : gset Z); [done|].
        rewrite Edrop in Hnd |- *. apply NoDup_cons in Hnd as [Hn _]. simpl. set_solver. }
      split; [by eapply disk_only_trans|]. split; [intros c; by rewrite S2, Hi|].
      eapply through_trans; [exact Ht|]. eapply through_written; [exact D2|].
      eapply (committed_recovers V _ lh); [exact C'| |done|done|done|done].
      intros c Hc%elem_of_list_to_set. rewrite <- (take_drop k lh). set_solver.
  - intros f' sl' (C' & Ho & Hi & Ht). rewrite drop_all in C'. by apply HQ.
Qed.

End commit.
