(* ===== verification/XvLogCrash.v ===== *)
(** Transactions are atomic across crashes. *)

From S2P Require Import Prelude XvMem XvFsTypes XvKernel XvMsg XvSched XvSchedProofs XvBio XvBlock XvLog XvFsLogic XvBioList XvBioProofs XvBioSpec XvLogProofs XvLogCommit.

Set Default Proof Using "Type".

(** Only the log in memory, disk, driver and buffers changed. *)
Definition log_only (f f' : fsst) : Prop := disk_only (set_log (fs_log f') f) f'.

(** On the way from [f] to [f'] the disk leads to the blocks [D] first and to the
    blocks [V] in the end. *)
Definition atomically (start : Z) (D V : gmap Z bytes) (f f' : fsst) : Prop :=
  exists olds news, d_past (fs_disk f') = news ++ olds ++ d_past (fs_disk f) /\
    Forall (recovers start D) olds /\ Forall (recovers start V) (d_now (fs_disk f') :: news).

Lemma log_only_rest f f' : log_only f f' -> fs_sb f' = fs_sb f /\ fs_inode f' = fs_inode f.
Proof. unfold log_only, disk_only. intros ->. done. Qed.

Lemma disk_log_only f f' : disk_only f f' -> log_only f f'.
Proof. unfold log_only, disk_only. intros ->. done. Qed.

Lemma log_only_trans f f1 f2 : log_only f f1 -> log_only f1 f2 -> log_only f f2.
Proof. unfold log_only, disk_only. intros E1 E2. rewrite E2, E1. done. Qed.

Lemma log_only_set lg f : log_only f (set_log lg f).
Proof. by destruct f. Qed.

Lemma recovers_home start R R' c : same_home start R R' -> recovers start R c -> recovers start R' c.
Proof. intros Hh [A S B C]. split; [done|done|done|]. intros b Hb. rewrite Hh by done. by apply C. Qed.

Lemma through_impl (Pr Pr' : gmap Z bytes -> Prop) f f' : (forall c, Pr c -> Pr' c) -> through Pr f f' -> through Pr' f f'.
Proof. intros H (n & E & F). exists n. split; [done|]. by eapply Forall_impl. Qed.

Section crash.
Context {BD : BlockDev} {AM : Ambient} {rely : protocol} {BL : BlockDevLaws BD rely} (i : nat) (p : proc) (dev start : Z).
Notation pid := (p_pid p).
Notation wpf := (wpf (rely := rely) i p).
Notation cache := (cache (BL := BL) dev (p_pid p)).
Notation lg_ok := (lg_ok dev start).
Implicit Types (V R : gmap Z bytes) (H : held) (P : gset Z) (f : fsst) (sl : gmap sleepid sleeplock).
Context (HL : log_layout dev start).

(** With no block kept, the disk holds what the file system sees. *)
Lemma cache_now V H f sl : cache V H ∅ f sl -> d_now (fs_disk f) = V.
Proof using. intros C. apply map_eq. intros b. apply (ca_disk _ _ _ _ _ _ _ C). apply not_elem_of_empty. Qed.

(** Emptying the log. *)
Lemma wpf_clear_log V R f sl (Q : unit -> list lockid -> fsst -> gmap sleepid sleeplock -> Prop) :
  cache V ∅ ∅ f sl -> area start V -> recovers start R V -> same_home start V R ->
  lg_dev (fs_log f) = dev -> lg_start (fs_log f) = start -> len (lg_block (fs_log f)) = LOGBLOCKS ->
  (forall V' f' sl', cache V' ∅ ∅ f' sl' -> same_home start V V' -> area start V' -> entries start V' = [] ->
     fs_log f' = set_lgn 0 (fs_log f) -> log_only f f' -> same_inodes sl sl' -> through (recovers start R) f f' ->
     recovers start R (d_now (fs_disk f')) -> Q tt [] f' sl') ->
  wpf [] (upd_log (set_lgn 0);; write_head) f sl Q.
Proof using HL.
  intros C Ha HR Hs L1 L2 L3 HQ. apply wpf_bind, wpf_upd_log. set (f1 := set_log _ f).
  assert (cache V ∅ ∅ f1 sl) as C1 by (destruct C; by split).
  eapply (wpf_write_head i p dev start HL V ∅ []); [exact C1|by split|done|done|constructor|rewrite size_empty; unfold NBUF; lia|].
  intros hd f2 sl2 Hhd Hn C2 O2 D2 S2. assert (same_home start V (<[start := hd]> V)) as Hh.
  { replace start with (start + 0) at 2 by lia. apply same_home_log. unfold LOGBLOCKS, MAXOPBLOCKS. lia. }
  assert (d_now (fs_disk f2) = <[start := hd]> V) as E2 by (by eapply cache_now).
  apply (HQ (<[start := hd]> V)); try done.
  - by apply area_head.
  - by rewrite entries_start.
  - by destruct (disk_only_log _ _ O2) as [-> _].
  - unfold log_only. destruct (disk_only_log _ _ O2) as [E _]. rewrite E. exact O2.
  - eapply through_written; [exact D2|]. simpl. by rewrite (cache_now V ∅ f sl C).
  - apply recovers_idle; [rewrite E2; by apply area_head|apply C2|rewrite E2; by rewrite entries_start|rewrite E2].
    intros b Hb. rewrite Hh by done. by apply Hs.
Qed.

Lemma wpf_commit V lh f sl (Q : unit -> list lockid -> fsst -> gmap sleepid sleeplock -> Prop) :
  cache V ∅ (list_to_set lh) f sl -> lg_ok lh (fs_log f) -> area start V -> listed start V lh -> entries start V = [] ->
  len lh < Z.of_nat NBUF ->
  (forall V' f' sl', cache V' ∅ ∅ f' sl' -> same_home start V V' -> area start V' -> entries start V' = [] ->
     fs_log f' = set_lgn 0 (fs_log f) -> log_only f f' -> same_inodes sl sl' ->
     atomically start (d_now (fs_disk f)) V f f' -> Q tt [] f' sl') ->
  wpf [] commit f sl Q.
Proof using HL.
  intros C Hlg Ha Hl He Hroom HQ. unfold commit. apply wpf_bind, wpf_get_log. rewrite (lo_n _ _ _ _ Hlg).
  assert (forall b, b ∈ (list_to_set lh : gset Z) -> home start b) as HP.
  { intros b Hb%elem_of_list_to_set. pose proof (li_home _ _ _ Hl) as Hh. rewrite Forall_forall in Hh. by apply Hh. }
  destruct (Z.ltb_spec 0 (len lh)) as [Hpos|Hz].
  2: { assert (lh = []) as -> by (destruct lh; [done|simpl in Hz; lia]). apply wpf_ret, (HQ V); try done.
    - destruct (fs_log f) as [a b c d n e], Hlg as [_ _ Hn _ _]. simpl in *. by subst n.
    - apply disk_log_only, disk_only_refl.
    - exists [], []. split; [done|]. split; [constructor|]. constructor; [|constructor]. 
      apply recovers_idle; [|apply C|..]; by rewrite (cache_now V ∅ f sl C). }
  assert (size (list_to_set lh : gset Z) < NBUF)%nat as Hsz by (rewrite size_list_to_set by apply Hl; lia).
  apply wpf_bind. eapply (wpf_write_log i p dev start HL V lh (d_now (fs_disk f))); [exact C|done|done|done|done|done|done|].
  intros V1 f1 sl1 C1 Hh1 Ha1 He1 Hlog1 O1 S1 T1 Hs1. destruct (disk_only_log _ _ O1) as [L1 _].
  assert (recovers start (d_now (fs_disk f)) (d_now (fs_disk f1))) as R1.
  { destruct (now_area p dev start V1 ∅ _ f1 sl1 C1 HP Ha1) as (A1 & A2 & _). apply recovers_idle; [done|apply C1|by rewrite A2|done]. }
  apply wpf_bind. eapply (wpf_write_head i p dev start HL V1 _ lh); [exact C1|by rewrite L1|done|apply Hl|apply Hl|done|].
  intros hd f2 sl2 Hhd Hn2 C2 O2 D2 S2. destruct (disk_only_log _ _ O2) as [L2 _]. set (V2 := <[start := hd]> V1) in *.
  assert (same_home start V1 V2) as Hh12.
  { unfold V2. replace start with (start + 0) at 2 by lia. apply same_home_log. unfold LOGBLOCKS, MAXOPBLOCKS. lia. }
  assert (same_home start V V2) as Hh2 by (by eapply same_home_trans).
  assert (listed start V2 lh) as Hl2.
  { eapply listed_ext; [|exact Hl]. intros b Hb. by rewrite (Hh2 b Hb). }
  assert (forall k b, lh !! k = Some b -> V2 !! (start + (1 + Z.of_nat k)) = V2 !! b) as Hlog2.
  { intros k b Hb. unfold V2 at 1. rewrite lookup_insert_ne by lia. rewrite (Hlog1 k b Hb). symmetry. apply Hh2.
    apply HP, elem_of_list_to_set. by eapply list_elem_of_lookup_2. }
  assert (area start V2) as Ha2 by (by apply area_head). assert (entries start V2 = lh) as He2 by (unfold V2; by rewrite entries_start).
  apply wpf_bind. eapply (wpf_install i p dev start HL V2 lh); [exact C2|by rewrite L2, L1|done|done|done|done|done|].
  intros f3 sl3 C3 O3 S3 T3. destruct (disk_only_log _ _ O3) as [L3 _].
  assert (recovers start V2 V2) as R3.
  { rewrite <- (cache_now V2 ∅ f3 sl3 C3) at 2. eapply (committed_recovers p dev start V2 ∅ lh); [exact C3|set_solver|done..]. }
  eapply (wpf_clear_log V2 V2); [exact C3|done|done|done|by rewrite L3, L2, L1; apply Hlg..|].
  intros V4 f4 sl4 C4 Hh4 Ha4 He4 L4 O4 S4 T4 R4. apply (HQ V4); try done.
  - by eapply same_home_trans.
  - by rewrite L4, L3, L2, L1.
  - eapply log_only_trans; [apply disk_log_only; exact O1|]. eapply log_only_trans; [apply disk_log_only; exact O2|].
    eapply log_only_trans; [apply disk_log_only; exact O3|]. exact O4.
  - intros c. by rewrite S4, S3, S2, S1.
  - assert (forall c, recovers start V2 c -> recovers start V c) as Hback.
    { intros c. apply recovers_home. intros b Hb. symmetry. by apply Hh2. }
    destruct T1 as (n1 & E1 & F1). destruct (through_trans _ _ _ _ T3 T4) as (n3 & E3 & F3).
    exists (d_now (fs_disk f1) :: n1), n3. split; [rewrite E3, D2; simpl; by rewrite E1|].
    split; [by constructor|]. constructor; [by apply Hback|]. by eapply Forall_impl.
Qed.

(** * Recovery *)

Lemma wpf_set_lh_block h k v f sl (Q : unit -> list lockid -> fsst -> gmap sleepid sleeplock -> Prop) :
  Z.of_nat k < len (lg_block (fs_log f)) ->
  Q tt h (set_log (set_lgblock (<[k := v]> (lg_block (fs_log f))) (fs_log f)) f) sl ->
  wpf h (set_lh_block (Z.of_nat k) v) f sl Q.
Proof.
  intros Hk HQ. unfold set_lh_block. apply wpf_bind, wpf_get_log.
  destruct (Z.leb_spec 0 (Z.of_nat k)), (Z.ltb_spec (Z.of_nat k) (len (lg_block (fs_log f)))); try lia. cbn [andb].
  rewrite Nat2Z.id. by apply wpf_upd_log.
Qed.

Lemma cache_log lg V H P f sl : cache V H P f sl -> cache V H P (set_log lg f) sl.
Proof. intros []. by split. Qed.

Lemma wpf_read_head V f sl (Q : unit -> list lockid -> fsst -> gmap sleepid sleeplock -> Prop) :
  cache V ∅ ∅ f sl -> area start V -> len (entries start V) <= LOGBLOCKS ->
  lg_dev (fs_log f) = dev -> lg_start (fs_log f) = start -> len (lg_block (fs_log f)) = LOGBLOCKS ->
  (forall f' sl', cache V ∅ ∅ f' sl' -> lg_ok (entries start V) (fs_log f') -> log_only f f' -> fs_disk f' = fs_disk f ->
     lg_outstanding (fs_log f') = lg_outstanding (fs_log f) -> lg_committing (fs_log f') = lg_committing (fs_log f) ->
     same_inodes sl sl' -> Q tt [] f' sl') ->
  wpf [] read_head f sl Q.
Proof using HL.
  intros C [Ha Hn] Hlen L1 L2 L3 HQ. destruct (Ha 0) as [hd He]; [unfold LOGBLOCKS, MAXOPBLOCKS; lia|]. rewrite Z.add_0_r in He.
  assert (entries start V = head_blocks hd) as Een by (unfold entries; by rewrite He). rewrite Een in *.
  pose proof (Hn hd He) as Hpos. assert (length (head_blocks hd) = Z.to_nat (head_n hd)) as Elen.
  { unfold head_blocks. by rewrite length_fmap, length_seq. }
  unfold read_head. apply wpf_bind, wpf_get_log. rewrite L1, L2. destruct HL as (H1 & H2 & H3).
  rewrite !u32_small by (unfold LOGBLOCKS, MAXOPBLOCKS in *; lia).
  apply wpf_bind. eapply wpf_bread; [exact C|exact He|done|right; apply dom_empty_room; rewrite size_empty; unfold NBUF; lia|].
  intros t f1 sl1 C1 B1 S1. destruct (bufs_only_disk _ _ B1) as [D1 G1].
  apply wpf_bind. eapply wpf_bdata_get; [exact C1|apply lookup_insert_eq|lia|lia|unfold BSIZE; lia|].
  apply wpf_bind, wpf_upd_log. fold (num32 0 hd). fold (head_n hd). apply (cache_log (set_lgn (head_n hd) (fs_log f1))) in C1.
  apply wpf_bind. eapply (wpf_for_lh i p [] _ (fun k f' sl' => cache V (<[start := (t, hd)]> ∅) ∅ f' sl' /\
    log_only f f' /\ fs_disk f' = fs_disk f /\ sl' = sl1 /\ lg_dev (fs_log f') = dev /\ lg_start (fs_log f') = start /\
    lg_n (fs_log f') = head_n hd /\ len (lg_block (fs_log f')) = LOGBLOCKS /\ take k (lg_block (fs_log f')) = take k (head_blocks hd) /\
    lg_outstanding (fs_log f') = lg_outstanding (fs_log f) /\ lg_committing (fs_log f') = lg_committing (fs_log f)) (length (head_blocks hd))).
  - simpl. lia.
  - split; [exact C1|]. simpl. rewrite G1. split; [|by rewrite !take_0]. unfold log_only, disk_only. simpl. unfold bufs_only in B1. rewrite B1. done.
  - intros k f' sl' Hk (C' & O' & D' & -> & M1 & M2 & M3 & M4 & M5 & M6 & M7). destruct (head_block_bound k) as [K1 K2]; [lia|].
    apply wpf_bind. eapply wpf_bdata_get; [exact C'|apply lookup_insert_eq|lia|lia|lia|].
    fold (num32 (head_block (Z.of_nat k)) hd). fold (head_at hd k). apply wpf_set_lh_block; [lia|]. split; [done|].
    split; [by apply cache_log|]. split; [eapply log_only_trans; [exact O'|apply log_only_set]|]. simpl. rewrite length_insert.
    do 6 (split; [done|]). split; [|done].
    assert (head_blocks hd !! k = Some (head_at hd k)) as Hk'.
    { unfold head_blocks. rewrite list_lookup_fmap. replace (seq 0 (Z.to_nat (head_n hd)) !! k) with (Some k); [done|].
      symmetry. apply lookup_seq. lia. }
    rewrite (take_S_r _ _ _ Hk'), (take_S_r _ k (head_at hd k)) by (apply list_lookup_insert_eq; lia).
    by rewrite take_insert_ge, M5.
  - intros f' sl' (C' & O' & D' & -> & M1 & M2 & M3 & M4 & M5 & M6 & M7). eapply wpf_brelse; [exact C'|apply lookup_insert_eq|exact He|].
    intros f2 sl2 C2 B2 S2. destruct (bufs_only_disk _ _ B2) as [D2 G2]. apply HQ.
    + rewrite delete_insert_id in C2; done.
    + rewrite G2. split; try done; [lia|]. rewrite M5. by apply take_ge.
    + eapply log_only_trans; [exact O'|]. by apply disk_log_only, bufs_disk_only.
    + by rewrite D2, D'.
    + by rewrite G2.
    + by rewrite G2.
    + intros c. by rewrite S2, S1.
Qed.

(** Installing the transaction found on disk. *)
Lemma wpf_install_recover V R f sl (Q : unit -> list lockid -> fsst -> gmap sleepid sleeplock -> Prop) :
  cache V ∅ ∅ f sl -> lg_ok (entries start V) (fs_log f) -> recovers start R V ->
  (forall V' f' sl', cache V' ∅ ∅ f' sl' -> area start V' -> recovers start R V' -> same_home start V' R ->
     disk_only f f' -> same_inodes sl sl' -> through (recovers start R) f f' -> Q tt [] f' sl') ->
  wpf [] (install_trans true) f sl Q.
Proof using HL.
  intros C Hlg HR HQ. pose proof HR as [Ha Hz Hl Hre]. pose proof Hl as [L1 L2 L3 L4]. rewrite Forall_forall in L3, L4.
  set (lh := entries start V) in *.
  assert (forall V', (forall k, 0 <= k <= LOGBLOCKS -> V' !! (start + k) = V !! (start + k)) -> area start V' /\ entries start V' = lh) as Hlogarea.
  { intros V' HV. pose proof (HV 0 ltac:(unfold LOGBLOCKS, MAXOPBLOCKS; lia)) as E0. rewrite Z.add_0_r in E0. destruct Ha as [Ha Hn].
    split; [split; [intros k Hk; rewrite HV by done; by apply Ha|by rewrite E0]|]. unfold lh, entries. by rewrite E0. }
  assert (forall k b, lh !! k = Some b -> R !! b = V !! (start + (1 + Z.of_nat k))) as Hlog.
  { intros k b Hk. rewrite <- (Hre b) by (apply L3; by eapply list_elem_of_lookup_2). rewrite (replay_entry start V k b); [f_equal; lia|done|done]. }
  assert (forall b, home start b -> b ∉ lh -> V !! b = R !! b) as Hout.
  { intros b Hb Hn. rewrite <- (Hre b Hb). symmetry. by apply replay_other. }
  unfold install_trans. eapply (wpf_for_lh i p [] _ (fun k f' sl' => exists V', cache V' ∅ ∅ f' sl' /\
    (forall j, 0 <= j <= LOGBLOCKS -> V' !! (start + j) = V !! (start + j)) /\
    (forall j b, (j < k)%nat -> lh !! j = Some b -> V' !! b = R !! b) /\ (forall b, home start b -> b ∉ lh -> V' !! b = R !! b) /\
    (forall b, is_Some (V !! b) -> is_Some (V' !! b)) /\ disk_only f f' /\ same_inodes sl sl' /\ through (recovers start R) f f') (length lh)).
  - apply Hlg.
  - exists V. split; [done|]. split; [done|]. split; [lia|]. split; [done|]. split; [done|]. split; [apply disk_only_refl|].
    split; [done|by apply through_same].
  - intros k f' sl' Hk (V' & C' & Hlog' & Hin' & Hout' & Hdom' & Ho & Hi & Ht). destruct (lookup_lt_is_Some_2 lh k Hk) as [b Hb].
    assert (b ∈ lh) as Hin by (by eapply list_elem_of_lookup_2). pose proof (L3 b Hin) as Hh.
    destruct (proj1 Ha (1 + Z.of_nat k)) as [d Hd]; [lia|]. destruct (Hlogarea V' Hlog') as [Ha' He'].
    eapply (wpf_install_block i p dev start HL true V' ∅ lh k b d); [exact C'|destruct (disk_only_log _ _ Ho) as [-> _]; exact Hlg|exact Hb|done| | |lia| |done|set_solver|].
    + rewrite Hlog' by lia. exact Hd.
    + by apply Hdom', L4.
    + left. rewrite size_empty. unfold NBUF. lia.
    + intros f2 sl2 C2 O2 D2 S2. rewrite difference_empty_L in C2 || replace (∅ ∖ {[b]}) with (∅ : gset Z) in C2 by set_solver.
      split; [done|]. exists (<[b := d]> V'). split; [done|]. split.
      { intros j Hj. rewrite lookup_insert_ne; [by apply Hlog'|]. intros ->. by apply (log_not_home start j) in Hh. }
      split.
      { intros j b' Hj Hb'. destruct (decide (b = b')) as [<-|Hne].
        - rewrite lookup_insert_eq, (Hlog k b Hb). done.
        - rewrite lookup_insert_ne by done. apply (Hin' j); [|done]. destruct (decide (j = k)); [congruence|lia]. }
      split; [intros c Hc Hn; rewrite lookup_insert_ne by congruence; by apply Hout'|].
      split; [intros c Hc; by apply is_Some_insert, Hdom'|]. split; [by eapply disk_only_trans|]. split; [intros c; by rewrite S2, Hi|].
      eapply through_trans; [exact Ht|]. eapply through_written; [exact D2|]. rewrite (cache_now V' ∅ f' sl' C').
      apply (recovers_committed start R V' lh); [done|by apply C'| |done| |done].
      * eapply listed_ext; [|exact Hl]. intros c _. apply Hdom'.
      * intros j c Hc. rewrite Hlog' by (apply lookup_lt_Some in Hc; lia). symmetry. by apply Hlog.
  - intros f' sl' (V' & C' & Hlog' & Hin' & Hout' & Hdom' & Ho & Hi & Ht). destruct (Hlogarea V' Hlog') as [Ha' He'].
    assert (same_home start V' R) as Hs.
    { intros c Hc. symmetry. destruct (decide (c ∈ lh)) as [[j Hj]%list_elem_of_lookup_1|Hn]; [|by apply Hout'].
      apply (Hin' j c); [by eapply lookup_lt_Some|done]. }
    apply (HQ V'); try done. apply (recovers_committed start R V' lh); [done|by apply C'| |done| |done].
    + eapply listed_ext; [|exact Hl]. intros c _. apply Hdom'.
    + intros j c Hc. rewrite Hlog' by (apply lookup_lt_Some in Hc; lia). symmetry. by apply Hlog.
Qed.

Lemma wpf_recover V R f sl (Q : unit -> list lockid -> fsst -> gmap sleepid sleeplock -> Prop) :
  cache V ∅ ∅ f sl -> recovers start R V ->
  lg_dev (fs_log f) = dev -> lg_start (fs_log f) = start -> len (lg_block (fs_log f)) = LOGBLOCKS ->
  (forall V' f' sl', cache V' ∅ ∅ f' sl' -> area start V' -> entries start V' = [] -> same_home start R V' ->
     lg_ok [] (fs_log f') -> lg_outstanding (fs_log f') = lg_outstanding (fs_log f) ->
     lg_committing (fs_log f') = lg_committing (fs_log f) ->
     log_only f f' -> same_inodes sl sl' -> through (recovers start R) f f' -> recovers start R (d_now (fs_disk f')) -> Q tt [] f' sl') ->
  wpf [] recover_from_log f sl Q.
Proof using HL.
  intros C HR L1 L2 L3 HQ. unfold recover_from_log.
  apply wpf_bind. eapply wpf_read_head; [exact C|apply HR|apply HR|done|done|done|]. intros f1 sl1 C1 G1 O1 D1 U1 W1 S1.
  apply wpf_bind. eapply wpf_install_recover; [exact C1|done|exact HR|]. intros V2 f2 sl2 C2 Ha2 R2 Hs2 O2 S2 T2.
  destruct (disk_only_log _ _ O2) as [E2 _].
  eapply (wpf_clear_log V2 R); [exact C2|done|done|done|rewrite E2; apply G1..|].
  intros V3 f3 sl3 C3 Hh3 Ha3 He3 E3 O3 S3 T3 R3. apply (HQ V3); try done.
  - intros b Hb. rewrite Hh3 by done. symmetry. by apply Hs2.
  - rewrite E3, E2. destruct G1 as [g1 g2 g3 g4 g5]. by split.
  - rewrite E3, E2. done.
  - rewrite E3, E2. done.
  - eapply log_only_trans; [exact O1|]. eapply log_only_trans; [apply disk_log_only; exact O2|exact O3].
  - intros c. by rewrite S3, S2, S1.
  - eapply through_trans; [|exact T3]. eapply through_trans; [|exact T2]. by apply through_same.
Qed.

End crash.
