(* ===== verification/XvLogTx.v ===== *)
(** Booting, and the operations of a transaction: [begin_op], [log_write] and
    [end_op]. *)

From S2P Require Import Prelude XvMem XvFsTypes XvKernel XvMsg XvSched XvSchedProofs XvBio XvBlock XvLog XvFsLogic XvBioList XvBioProofs XvBioSpec XvLogProofs XvLogCommit XvLogCrash.

Set Default Proof Using "Type".

(** * Starting the machine *)

(** A machine that was just switched on, with disk [c]: static data is zero. *)
Record booted {BD : BlockDev} {AM : Ambient} {rely : protocol} {BL : BlockDevLaws BD rely} (c : gmap Z bytes) (f : fsst) : Prop := mk_booted {
  bt_len : length (fs_buf f) = S NBUF;
  bt_buf : Forall (fun x => b_dev x = 0 /\ b_refcnt x = 0 /\ b_disk x = 0 /\ len (b_data x) = BSIZE) (fs_buf f);
  bt_dev : dev_ok (fs_vd f);
  bt_disk : fs_disk f = mk_platter c [];
  bt_block : len (lg_block (fs_log f)) = LOGBLOCKS;
  bt_idle : lg_outstanding (fs_log f) = 0 /\ lg_committing (fs_log f) = 0;
}.

Section boot.
Context {BD : BlockDev} {AM : Ambient} {rely : protocol} {BL : BlockDevLaws BD rely} (i : nat) (p : proc) (dev start : Z).
Notation pid := (p_pid p).
Notation wpf := (wpf (rely := rely) i p).
Notation cache := (cache (BL := BL) dev (p_pid p)).
Notation lg_ok := (lg_ok dev start).
Implicit Types (V R : gmap Z bytes) (H : held) (P : gset Z) (f : fsst) (sl : gmap sleepid sleeplock).

Lemma wpf_initlock h l f sl (Q : unit -> list lockid -> fsst -> gmap sleepid sleeplock -> Prop) :
  l ∉ h -> Q tt h f sl -> wpf h (initlock l) f sl Q.
Proof.
  intros Hl HQ s [Hp Hc Hn Hk Ht He Hnd Hpl Hr Hm] <- <-. apply wpk_modify. exists h. split; [|split; [|exact HQ]].
  - split; kproj; try done; [|by eapply amb_same]. rewrite Hk. apply delete_id. by apply locks_of_None.
  - split; [kst_eq|]. kproj. apply Forall_Forall2_diag, Forall_true. apply woke_refl.
Qed.

Lemma wpf_initsleeplock h a f sl (Q : unit -> list lockid -> fsst -> gmap sleepid sleeplock -> Prop) :
  LSleep a ∉ h -> Q tt h f (<[a := mk_sleeplock 0 0]> sl) -> wpf h (initsleeplock a) f sl Q.
Proof. intros Hl HQ. unfold initsleeplock. apply wpf_bind, wpf_initlock; [done|]. by apply wpf_put_sleep. Qed.

Definition plain_buf (x : buf) : Prop := b_dev x = 0 /\ b_refcnt x = 0 /\ b_disk x = 0 /\ len (b_data x) = BSIZE.

Lemma plain_alike x y : alike x y -> plain_buf x -> plain_buf y.
Proof. intros (_ & E2 & E3 & _ & E5 & E6)%alike_fields. unfold plain_buf. by rewrite E2, E3, E5, E6. Qed.

Lemma plain_alter g k (bs : list buf) : (forall y, alike y (g y)) -> Forall plain_buf bs -> Forall plain_buf (alter g k bs).
Proof.
  intros Hg Hb. rewrite !Forall_lookup in *. intros j y Hy. destruct (decide (k = j)) as [->|Hne].
  - rewrite list_lookup_alter_eq in Hy. destruct (bs !! j) as [x|] eqn:E; [|done]. simplify_eq/=.
    eapply plain_alike; [apply Hg|by eapply Hb].
  - rewrite list_lookup_alter_ne in Hy by done. by eapply Hb.
Qed.

Lemma wpf_binit_link k f sl (Q : unit -> list lockid -> fsst -> gmap sleepid sleeplock -> Prop) :
  length (fs_buf f) = S NBUF -> (k < NBUF)%nat -> (forall h, fs_buf f !! NBUF = Some h -> (b_next h < S NBUF)%nat) ->
  Q tt [] (set_buf (to_front k (fs_buf f)) f) (<[SBuf k := mk_sleeplock 0 0]> sl) -> wpf [] (binit_link k) f sl Q.
Proof.
  intros Hlen Hk Hn HQ. destruct (lookup_lt_is_Some_2 (fs_buf f) NBUF) as [hd Hd]; [lia|]. specialize (Hn hd Hd).
  unfold binit_link. apply wpf_bind. eapply wpf_get_buf; [done|].
  apply wpf_bind, wpf_upd_buf; [apply lookup_lt_is_Some; lia|].
  apply wpf_bind, wpf_upd_buf; [apply lookup_lt_is_Some; simpl; rewrite length_alter; lia|].
  apply wpf_bind, wpf_initsleeplock; [set_solver|].
  apply wpf_bind, wpf_upd_buf; [apply lookup_lt_is_Some; simpl; rewrite !length_alter; lia|].
  apply wpf_upd_buf; [apply lookup_lt_is_Some; simpl; rewrite !length_alter; lia|]. simpl.
  assert (to_front k (fs_buf f) = alter (set_bnext k) NBUF (alter (set_bprev k) (b_next hd)
    (alter (set_bprev NBUF) k (alter (set_bnext (b_next hd)) k (fs_buf f))))) as Et.
  { unfold to_front. by rewrite Hd. }
  rewrite <- Et. exact HQ.
Qed.

Lemma seq_reverse k : (reverse (seq 0 (S k)) = k :: reverse (seq 0 k)).
Proof. by rewrite seq_S, reverse_app. Qed.

Lemma dll_next_below bs order h :
  Forall (fun k => (k < NBUF)%nat) order -> dll bs order -> bs !! NBUF = Some h -> (b_next h < S NBUF)%nat.
Proof. intros Hr [Hn _] Hh. eapply (links_below _ NBUF); [exact Hr|exact Hn|left|unfold next_of; by rewrite Hh]. Qed.

Lemma below_reverse_seq k : (k <= NBUF)%nat -> Forall (fun k => (k < NBUF)%nat) (reverse (seq 0 k)).
Proof. intros Hk. apply Forall_reverse, Forall_forall. intros j Hj%elem_of_seq. lia. Qed.

Lemma wpf_binit c f sl (Q : unit -> list lockid -> fsst -> gmap sleepid sleeplock -> Prop) :
  booted c f -> map_Forall (fun _ => block_sized) c -> dev <> 0 ->
  (forall f' sl', cache c ∅ ∅ f' sl' -> bufs_only f f' -> same_inodes sl sl' -> Q tt [] f' sl') ->
  wpf [] binit f sl Q.
Proof.
  intros [B1 B2 B3 B4 B5 B6] Hc Hdev HQ. unfold binit. apply wpf_bind, wpf_initlock; [set_solver|].
  apply wpf_bind, wpf_upd_buf; [apply lookup_lt_is_Some; lia|].
  apply wpf_bind, wpf_upd_buf; [apply lookup_lt_is_Some; simpl; rewrite length_alter; lia|]. cbn [fs_buf set_buf].
  apply (wpf_for_each i p [] _ _ (fun dn f' sl' => let k := length dn in bufs_only f f' /\ fs_vd f' = fs_vd f /\ same_inodes sl sl' /\
    length (fs_buf f') = S NBUF /\ Forall plain_buf (fs_buf f') /\ dll (fs_buf f') (reverse (seq 0 k)) /\
    forall j, (j < k)%nat -> sl' !! SBuf j = Some (mk_sleeplock 0 0))).
  - split; [by destruct f|]. split; [done|]. split; [done|]. simpl. rewrite !length_alter. split; [done|]. split; [by repeat apply plain_alter|].
    destruct (lookup_lt_is_Some_2 (fs_buf f) NBUF) as [hd Hd]; [lia|]. split; [|lia].
    split; simpl; unfold next_of, prev_of; by rewrite !list_lookup_alter_eq, Hd.
  - intros dn k rest f' sl' El (O & Ov & S & Hl & Hp & Hd & Hs).
    assert (seq 0 NBUF !! length dn = Some k) as Hk by (rewrite El; by apply list_lookup_middle).
    apply lookup_seq in Hk as [-> Hlt]. cbn [Nat.add] in *. set (k := length dn) in *.
    pose proof (below_reverse_seq k ltac:(lia)) as Hr.
    apply wpf_binit_link; [done|done|intros h Hh; by eapply dll_next_below|]. split; [done|].
    rewrite length_app. simpl. rewrite Nat.add_1_r. fold k. split; [eapply bufs_only_trans; [exact O|done]|].
    split; [done|]. split; [intros c'; by rewrite lookup_insert_ne|]. rewrite length_to_front. split; [done|]. split; [|split].
    + rewrite Forall_lookup in *. intros j y Hy. destruct (lookup_lt_is_Some_2 (fs_buf f') j) as [x Hx].
      { apply lookup_lt_Some in Hy. by rewrite length_to_front in Hy. }
      destruct (alike_to_front k _ _ _ Hx) as (y' & Hy' & Ha). simplify_eq. eapply plain_alike; [exact Ha|by eapply Hp].
    + rewrite seq_reverse. apply dll_to_front; [done|done|done| |done]. apply NoDup_cons. split.
      * rewrite elem_of_reverse, elem_of_seq. lia.
      * rewrite reverse_Permutation. apply NoDup_seq.
    + intros j Hj. destruct (decide (j = k)) as [->|]; [by rewrite lookup_insert_eq|].
      rewrite lookup_insert_ne by congruence. apply Hs. lia.
  - intros f' sl'. rewrite length_seq. intros (O & Ov & S & Hl & Hp & Hd & Hs). apply HQ; [|done|done].
    destruct (bufs_only_disk _ _ O) as [D _]. rewrite B4 in D. rewrite Forall_lookup in Hp.
    assert (forall b bno, ~ is_buf dev (fs_buf f') b bno) as Hno.
    { intros b bno (_ & x & Hx & E & _). destruct (Hp _ _ Hx) as (E' & _). congruence. }
    split; rewrite ?D; simpl; try done.
    + by rewrite Ov.
    + exists (reverse (seq 0 NBUF)). split; [apply reverse_Permutation|done].
    + intros a b bno Ha. by apply Hno in Ha.
    + intros b x Hb Hx. destruct (Hp _ _ Hx) as (E1 & E2 & E3 & E4). split; try done.
      * rewrite Hs by done. rewrite bool_decide_eq_false_2; [done|]. intros [E _]. congruence.
      * rewrite decide_False by congruence. done.
      * congruence.
      * congruence.
Qed.

(** The log is empty, in memory and on disk, and no operation is under way. *)
Record log_idle V f sl : Prop := mk_log_idle {
  id_cache : cache V ∅ ∅ f sl;
  id_area : area start V;
  id_entries : entries start V = [];
  id_log : lg_ok [] (fs_log f);
  id_out : lg_outstanding (fs_log f) = 0;
  id_com : lg_committing (fs_log f) = 0;
}.

Context (HL : log_layout dev start).

Lemma wpf_initlog c R sb f sl (Q : unit -> list lockid -> fsst -> gmap sleepid sleeplock -> Prop) :
  cache c ∅ ∅ f sl -> recovers start R c -> i32 (sb_logstart sb) = start ->
  len (lg_block (fs_log f)) = LOGBLOCKS -> lg_outstanding (fs_log f) = 0 -> lg_committing (fs_log f) = 0 ->
  (forall V f' sl', log_idle V f' sl' -> same_home start R V -> log_only f f' -> same_inodes sl sl' ->
     through (recovers start R) f f' -> recovers start R (d_now (fs_disk f')) -> Q tt [] f' sl') ->
  wpf [] (initlog dev sb) f sl Q.
Proof using HL.
  intros C HR Hsb Hb Ho Hc HQ. unfold initlog. apply wpf_bind. change (BSIZE <=? 4 + 4 * LOGBLOCKS) with false. apply wpf_ret.
  apply wpf_bind, wpf_initlock; [set_solver|]. apply wpf_bind, wpf_upd_log. rewrite Hsb.
  eapply (wpf_recover i p dev start HL c R); [by apply cache_log|done|done|done|done|].
  intros V f' sl' C' Ha He Hs Hlg Ho' Hc' O S T R'. simpl in *. apply (HQ V); try done.
  - split; try done; congruence.
Qed.

(** However often the machine crashes while it recovers, up to [n] times, and
    starts again, recovery ends with the blocks [R]. *)
Fixpoint survives (n : nat) (sb : superblock) (R c : gmap Z bytes) : Prop :=
  forall f sl, booted c f ->
    wpf [] (binit;; initlog dev sb) f sl (fun _ h f' sl' =>
      h = [] /\ same_home start R (d_now (fs_disk f')) /\ log_idle (d_now (fs_disk f')) f' sl' /\
      match n with
      | O => True
      | S m => Forall (survives m sb R) (d_now (fs_disk f') :: d_past (fs_disk f'))
      end).

Lemma recovers_survives n sb R c : dev <> 0 -> i32 (sb_logstart sb) = start -> recovers start R c -> survives n sb R c.
Proof using HL.
  intros Hdev Hsb. revert c. induction n as [|n IH]; intros c HR f sl B.
  all: apply wpf_bind; eapply wpf_binit; [exact B|apply HR|done|]; intros f1 sl1 C1 O1 S1.
  all: pose proof B as [B1 B2 B3 B4 B5 [B6 B7]]; destruct (bufs_only_disk _ _ O1) as [D1 G1].
  all: eapply (wpf_initlog c R); [exact C1|done|done|by rewrite G1..|]; intros V f2 sl2 I2 Hs2 O2 S2 T2 R2.
  all: assert (d_now (fs_disk f2) = V) as E2 by (eapply cache_now; exact (id_cache _ _ _ I2)); rewrite E2.
  all: split; [done|]; split; [done|]; split; [done|].
  - done.
  - rewrite E2 in R2. constructor; [by apply IH|]. destruct T2 as (new & -> & F). rewrite D1, B4. simpl. rewrite app_nil_r.
    eapply Forall_impl; [exact F|]. exact IH.
Qed.

(** * Transactions *)

(** With [o] operations under way, at most one: code sees the blocks [V], uses the
    blocks [H], and has logged the blocks [lh]. *)
Record tx (o : Z) V H (lh : list Z) f sl : Prop := mk_tx {
  tx_cache : cache V H (list_to_set lh) f sl;
  tx_area : area start V;
  tx_entries : entries start V = [];
  tx_listed : listed start V lh;
  tx_log : lg_ok lh (fs_log f);
  tx_out : lg_outstanding (fs_log f) = o;
  tx_com : lg_committing (fs_log f) = 0;
}.

(** The disk and everything above the log stay. *)
Definition tx_frame f f' : Prop := log_only f f' /\ fs_disk f' = fs_disk f.

Lemma tx_frame_refl f : tx_frame f f.
Proof. split; [|done]. by destruct f. Qed.

Lemma tx_frame_trans f f1 f2 : tx_frame f f1 -> tx_frame f1 f2 -> tx_frame f f2.
Proof. intros [O1 D1] [O2 D2]. split; [by eapply log_only_trans|congruence]. Qed.

Lemma tx_frame_bufs f f' : bufs_only f f' -> tx_frame f f'.
Proof. intros O. split; [by apply disk_log_only, bufs_disk_only|]. by apply bufs_only_disk in O as [? _]. Qed.

Lemma tx_begin V f sl : log_idle V f sl -> tx 1 V ∅ [] (set_log (set_outstanding (0 + 1) (fs_log f)) f) sl.
Proof.
  clear HL. intros [C Ha He [g1 g2 g3 g4 g5] Ho Hc]. split; try done.
  - by apply cache_log.
  - split; [done|apply NoDup_nil_2|apply Forall_nil_2|apply Forall_nil_2].
Qed.

Lemma wpf_begin_op V f sl (Q : unit -> list lockid -> fsst -> gmap sleepid sleeplock -> Prop) :
  log_idle V f sl -> (forall f', tx 1 V ∅ [] f' sl -> tx_frame f f' -> Q tt [] f' sl) -> wpf [] begin_op f sl Q.
Proof.
  clear HL. intros I HQ. pose proof I as [C Ha He Hlg Ho Hc]. unfold begin_op. apply wpf_bind, wpf_acquire; [set_solver|done|].
  destruct naps; simpl; (apply wpf_bind, wpf_get_log; rewrite Hc, Ho, (lo_n _ _ _ _ Hlg); cbn [negb Z.eqb orb];
    change (LOGBLOCKS <? len (@nil Z) + (0 + 1) * MAXOPBLOCKS) with false; apply wpf_bind, wpf_upd_log, wpf_release, HQ;
    [by apply tx_begin|split; [by destruct f|done]]).
Qed.

(** The blocks logged after a write to [b]. *)
Definition logging (b : Z) (lh : list Z) : list Z := if decide (b ∈ lh) then lh else lh ++ [b].

Lemma listed_logging V b lh : listed start V lh -> home start b -> is_Some (V !! b) -> len lh < LOGBLOCKS -> listed start V (logging b lh).
Proof.
  clear HL. intros [L1 L2 L3 L4] Hb Hv Hl. unfold logging. case_decide as Hin; [done|]. split.
  - rewrite length_app. simpl. lia.
  - apply NoDup_app. split; [done|]. split; [set_solver|apply NoDup_singleton].
  - by apply Forall_app; split; [|constructor].
  - by apply Forall_app; split; [|constructor].
Qed.

Lemma lh_find_in lh lg b k : lg_ok lh lg -> NoDup lh -> lh !! k = Some b -> lh_find b (lg_n lg) (lg_block lg) = Z.of_nat k.
Proof.
  intros [_ _ Hn Hb _] Hnd Hk. unfold lh_find. rewrite Hn, Nat2Z.id, Hb. by rewrite (find_index_at lh Z.eqb k b); [|apply Z.eqb_eq|..].
Qed.

Lemma lh_find_new lh lg b : lg_ok lh lg -> b ∉ lh -> lh_find b (lg_n lg) (lg_block lg) = len lh.
Proof.
  intros [_ _ Hn Hb _] Hk. unfold lh_find. rewrite Hn, Nat2Z.id, Hb.
  replace (find_index (Z.eqb b) lh) with (@None nat); [done|]. symmetry. apply find_index_None, Forall_forall. intros x Hx. apply Z.eqb_neq. congruence.
Qed.

Lemma tx_view o V H lh f sl b t d :
  cache V H (list_to_set lh) f sl -> area start V -> entries start V = [] -> listed start V lh -> lg_ok lh (fs_log f) ->
  lg_outstanding (fs_log f) = o -> lg_committing (fs_log f) = 0 ->
  H !! b = Some (t, d) -> b ∈ lh -> home start b -> is_Some (V !! b) -> tx o (<[b := d]> V) H lh f sl.
Proof.
  clear HL. intros C Ha He Hl Hlg Ho Hc Hb Hin Hh Hv.
  assert (b <> start) as Hne by (intros ->; apply (log_not_home start 0); [unfold LOGBLOCKS, MAXOPBLOCKS; lia|by rewrite Z.add_0_r]).
  split; try done.
  - eapply cache_view; [done|done|by apply elem_of_list_to_set|done].
  - by apply area_insert.
  - by rewrite entries_insert.
  - eapply listed_ext; [|exact Hl]. intros c _ Hc'. by apply is_Some_insert.
Qed.

Lemma wpf_log_write o V H lh f sl b t d (Q : unit -> list lockid -> fsst -> gmap sleepid sleeplock -> Prop) :
  1 <= o -> tx o V H lh f sl -> H !! b = Some (t, d) -> home start b -> is_Some (V !! b) -> len lh < LOGBLOCKS ->
  (forall f', tx o (<[b := d]> V) H (logging b lh) f' sl -> tx_frame f f' -> Q tt [] f' sl) ->
  wpf [] (log_write t) f sl Q.
Proof.
  clear HL. intros H1 T Hb Hh Hv Hroom HQ. pose proof T as [C Ha He Hl Hlg Ho Hc].
  unfold log_write. apply wpf_bind, wpf_acquire; [set_solver|done|]. apply wpf_bind, wpf_get_log.
  rewrite (lo_n _ _ _ _ Hlg), Ho. destruct (Z.leb_spec LOGBLOCKS (len lh)); [lia|]. destruct (Z.ltb_spec o 1); [lia|].
  destruct (held_buf _ _ _ _ _ _ _ _ _ _ C Hb) as (x & Hlt & Hx & Hdev & E & Hdat & K).
  apply wpf_bind. eapply wpf_get_buf; [done|]. rewrite E. destruct Hh as [Hr Hh']. rewrite i32_small by lia.
  assert (home start b) as Hh by done. rewrite <- (lo_n _ _ _ _ Hlg).
  destruct (decide (b ∈ lh)) as [Hin|Hin].
  - pose proof Hin as [k Hk]%list_elem_of_lookup_1. rewrite (lh_find_in _ _ _ _ Hlg (li_nodup _ _ _ Hl) Hk).
    apply lookup_lt_Some in Hk as Hkl. apply wpf_bind, wpf_set_lh_block; [rewrite (lo_len _ _ _ _ Hlg); lia|].
    rewrite (list_insert_id (lg_block (fs_log f))).
    2: { rewrite <- (lo_block _ _ _ _ Hlg) in Hk. by apply lookup_take_Some in Hk as [? _]. }
    replace (set_log (set_lgblock (lg_block (fs_log f)) (fs_log f)) f) with f by (destruct f as [? ? ? []]; done).
    rewrite (lo_n _ _ _ _ Hlg). destruct (Z.eqb_spec (Z.of_nat k) (len lh)); [lia|]. apply wpf_bind, wpf_ret, wpf_release, HQ; [|apply tx_frame_refl].
    unfold logging. rewrite decide_True by done. by eapply tx_view.
  - rewrite (lh_find_new _ _ _ Hlg Hin). apply wpf_bind, wpf_set_lh_block; [rewrite (lo_len _ _ _ _ Hlg); lia|].
    rewrite (lo_n _ _ _ _ Hlg), Z.eqb_refl. apply wpf_bind, wpf_bind.
    eapply wpf_bpin; [apply cache_log; exact C|exact Hb|by rewrite elem_of_list_to_set|set_solver|].
    intros f2 C2 B2. apply wpf_upd_log, wpf_release. destruct (bufs_only_disk _ _ B2) as [D2 G2]. simpl in D2, G2.
    apply HQ; [|split].
    + eapply (tx_view o V); unfold logging; rewrite ?decide_False by done; try done.
      * apply cache_log. replace (list_to_set (lh ++ [b])) with ({[b]} ∪ list_to_set lh : gset Z) by set_solver. exact C2.
      * pose proof (listed_logging V b lh Hl Hh Hv Hroom) as HL'. unfold logging in HL'. by rewrite decide_False in HL'.
      * simpl. rewrite G2. destruct Hlg as [g1 g2 g3 g4 g5]. split; simpl; try done.
        -- rewrite length_app. simpl. lia.
        -- rewrite length_app. simpl. rewrite Nat.add_1_r, (take_S_r _ _ b) by (apply list_lookup_insert_eq; lia).
           by rewrite take_insert_ge, g4.
        -- by rewrite length_insert.
      * simpl. by rewrite G2.
      * simpl. by rewrite G2.
      * set_solver.
    + eapply log_only_trans; [|apply log_only_set]. eapply log_only_trans; [|apply disk_log_only, bufs_disk_only; exact B2]. apply log_only_set.
    + simpl. by rewrite D2.
Qed.

Lemma wpf_end_op V lh f sl (Q : unit -> list lockid -> fsst -> gmap sleepid sleeplock -> Prop) :
  tx 1 V ∅ lh f sl -> len lh < Z.of_nat NBUF ->
  (forall V' f' sl', log_idle V' f' sl' -> same_home start V V' -> log_only f f' -> same_inodes sl sl' ->
     atomically start (d_now (fs_disk f)) V f f' -> Q tt [] f' sl') ->
  wpf [] end_op f sl Q.
Proof using HL.
  intros [C Ha He Hl Hlg Ho Hc] Hroom HQ. unfold end_op. apply wpf_bind, wpf_acquire; [set_solver|done|].
  apply wpf_bind, wpf_upd_log. apply wpf_bind, wpf_get_log. cbn [fs_log set_log lg_committing set_outstanding lg_outstanding].
  rewrite Hc, Ho. cbn [negb Z.eqb Z.sub Z.add Z.opp Z.pos_sub]. apply wpf_bind, wpf_bind, wpf_upd_log, wpf_ret, wpf_bind, wpf_release.
  set (f1 := set_log _ _). assert (fs_log f1 = set_committing 1 (set_outstanding 0 (fs_log f))) as G1 by done.
  apply wpf_bind. eapply (wpf_commit i p dev start HL V lh f1).
  - unfold f1. by repeat apply cache_log.
  - rewrite G1. destruct Hlg as [g1 g2 g3 g4 g5]. by split.
  - done.
  - done.
  - done.
  - done.
  - intros V' f2 sl2 C2 Hh2 Ha2 He2 G2 O2 S2 A2. apply wpf_bind, wpf_acquire; [set_solver|done|]. apply wpf_bind, wpf_upd_log.
    apply wpf_bind, wpf_wakeup, wpf_release, (HQ V'); try done.
    + rewrite G1 in G2. destruct Hlg as [g1 g2 g3 g4 g5]. split; simpl; rewrite ?G2; try done. { by apply cache_log. }
    + eapply log_only_trans; [|apply log_only_set]. eapply log_only_trans; [|exact O2]. unfold f1.
      eapply log_only_trans; [|apply log_only_set]. apply log_only_set.
Qed.

(** * Blocks inside a transaction *)

(** Between operations the log is idle. *)
Lemma tx_idle V f sl : log_idle V f sl <-> tx 0 V ∅ [] f sl.
Proof.
  clear HL. split.
  - intros [C Ha He Hlg Ho Hc]. split; try done. split; [done|apply NoDup_nil_2|apply Forall_nil_2|apply Forall_nil_2].
  - intros [C Ha He Hl Hlg Ho Hc]. by split.
Qed.

Lemma tx_bufs o V H H' lh f f' sl sl' :
  tx o V H lh f sl -> cache V H' (list_to_set lh) f' sl' -> bufs_only f f' -> tx o V H' lh f' sl'.
Proof. clear HL. intros [C Ha He Hl Hlg Ho Hc] C' O. destruct (bufs_only_disk _ _ O) as [_ G]. split; rewrite ?G; done. Qed.

(** There is a buffer for one more block. *)
Definition room (H : held) (lh : list Z) : Prop := (size H + length lh < NBUF)%nat.

Lemma room_cache H lh : room H lh -> (size (dom H ∪ list_to_set lh) < NBUF)%nat.
Proof.
  clear HL. unfold room. intros Hr. eapply Nat.le_lt_trans; [apply size_union_le|]. rewrite size_dom.
  assert (size (list_to_set lh : gset Z) <= length lh)%nat; [|lia]. clear Hr. induction lh as [|b lh IH]; [done|].
  simpl. eapply Nat.le_trans; [apply size_union_le|]. rewrite size_singleton. lia.
Qed.

Lemma wpf_tx_bread o V H lh f sl b d (Q : nat -> list lockid -> fsst -> gmap sleepid sleeplock -> Prop) :
  tx o V H lh f sl -> V !! b = Some d -> H !! b = None -> b ∈ lh \/ room H lh ->
  (forall t f' sl', tx o V (<[b := (t, d)]> H) lh f' sl' -> tx_frame f f' -> same_inodes sl sl' -> Q t [] f' sl') ->
  wpf [] (bread dev b) f sl Q.
Proof.
  clear HL. intros T Hv Hn Hr HQ. eapply wpf_bread; [apply T|exact Hv|done| |].
  { destruct Hr as [Hin|Hr%room_cache]; [left; by apply elem_of_list_to_set|by right]. }
  intros t f' sl' C' O S. apply HQ; [by eapply tx_bufs|by apply tx_frame_bufs|done].
Qed.

Lemma wpf_tx_get o V H lh f sl b t d off n (Q : bytes -> list lockid -> fsst -> gmap sleepid sleeplock -> Prop) :
  tx o V H lh f sl -> H !! b = Some (t, d) -> 0 <= off -> 0 <= n -> off + n <= BSIZE ->
  Q (slice off n d) [] f sl -> wpf [] (bdata_get t off n) f sl Q.
Proof. clear HL. intros T. eapply wpf_bdata_get. apply T. Qed.

Lemma wpf_tx_put o V H lh f sl b t d off l (Q : unit -> list lockid -> fsst -> gmap sleepid sleeplock -> Prop) :
  tx o V H lh f sl -> H !! b = Some (t, d) -> 0 <= off -> off + len l <= BSIZE ->
  (forall f', tx o V (<[b := (t, splice off l d)]> H) lh f' sl -> tx_frame f f' -> Q tt [] f' sl) ->
  wpf [] (bdata_put t off l) f sl Q.
Proof.
  clear HL. intros T Hb H1 H2 HQ. eapply wpf_bdata_put; [apply T|exact Hb|done|done|].
  intros f' C' O. apply HQ; [by eapply tx_bufs|by apply tx_frame_bufs].
Qed.

Lemma wpf_tx_brelse o V H lh f sl b t d (Q : unit -> list lockid -> fsst -> gmap sleepid sleeplock -> Prop) :
  tx o V H lh f sl -> H !! b = Some (t, d) -> V !! b = Some d ->
  (forall f' sl', tx o V (delete b H) lh f' sl' -> tx_frame f f' -> same_inodes sl sl' -> Q tt [] f' sl') ->
  wpf [] (brelse t) f sl Q.
Proof.
  clear HL. intros T Hb Hv HQ. eapply wpf_brelse; [apply T|exact Hb|exact Hv|].
  intros f' sl' C' O S. apply HQ; [by eapply tx_bufs|by apply tx_frame_bufs|done].
Qed.

(** The typical use of a buffer in a transaction. *)
Definition update_block (b off : Z) (l : bytes) : KM unit :=
  t ← bread dev b;
  bdata_put t off l;;
  log_write t;;
  brelse t.

Lemma wpf_update_block V lh f sl b d off l (Q : unit -> list lockid -> fsst -> gmap sleepid sleeplock -> Prop) :
  tx 1 V ∅ lh f sl -> V !! b = Some d -> home start b -> 0 <= off -> off + len l <= BSIZE -> len lh < Z.of_nat NBUF ->
  (forall f' sl', tx 1 (<[b := splice off l d]> V) ∅ (logging b lh) f' sl' -> tx_frame f f' -> same_inodes sl sl' -> Q tt [] f' sl') ->
  wpf [] (update_block b off l) f sl Q.
Proof.
  clear HL. intros T Hv Hh Ho Hl Hroom HQ. unfold update_block. apply wpf_bind.
  eapply wpf_tx_bread; [exact T|exact Hv|done|right; unfold room; rewrite map_size_empty; lia|].
  intros t f1 sl1 T1 F1 S1. apply wpf_bind. eapply wpf_tx_put; [exact T1|apply lookup_insert_eq|done|done|].
  intros f2 T2 F2. rewrite insert_insert_eq in T2.
  apply wpf_bind. eapply wpf_log_write; [done|exact T2|apply lookup_insert_eq|done|by eexists|unfold LOGBLOCKS, MAXOPBLOCKS, NBUF in *; lia|].
  intros f3 T3 F3. eapply wpf_tx_brelse; [exact T3|apply lookup_insert_eq|apply lookup_insert_eq|]. intros f4 sl4 T4 F4 S4.
  rewrite delete_insert_id in T4 by done. apply HQ; [done|exact (tx_frame_trans _ _ _ F1 (tx_frame_trans _ _ _ F2 (tx_frame_trans _ _ _ F3 F4)))|].
  intros k. by rewrite S4, S1.
Qed.

End boot.
