(* ===== verification/XvLogClaims.v ===== *)
(** Atomic transactions, and a log that is too long for the cache. *)

From S2P Require Import Prelude XvMem XvFsTypes XvKernel XvMsg XvSched XvSchedProofs XvBio XvBlock XvLog XvFsLogic XvBioList XvBioProofs XvBioSpec XvLogProofs XvLogCommit XvLogCrash XvLogTx XvExample.

(** * A disk that answers at once *)

Definition instant_rw (b : nat) (write : Z) : KM unit :=
  x ← get_buf b;
  o ← fs_gets (fun f => d_now (fs_disk f) !! b_blockno x);
  match o with
  | None => panic (L"virtio_disk_intr status")
  | Some blk =>
      if write =? 0 then put_buf b (set_bdata blk x)
      else fs_modify (fun f => set_disk (mk_platter (<[b_blockno x := b_data x]> (d_now (fs_disk f)))
                                                    (d_now (fs_disk f) :: d_past (fs_disk f))) f)
  end.

#[global] Instance instant_disk : BlockDev := {| virtio_disk_rw := instant_rw; naps := 0 |}.

#[global] Program Instance instant_laws {AM : Ambient} rely : BlockDevLaws instant_disk rely := {| dev_ok := fun _ => True |}.
Next Obligation.
  intros AM rely i p b x blk f sl Q _ Hb Hx Hd Hk HQ. cbn [virtio_disk_rw instant_disk]. unfold instant_rw.
  apply wpf_bind. eapply wpf_get_buf; [done|]. apply wpf_bind, wpf_gets. rewrite Hk. cbn [Z.eqb]. apply wpf_put_buf.
  replace (set_buf _ f) with (set_vd (fs_vd f) (set_buf (<[b := set_bdata blk x]> (fs_buf f)) f)) by (by destruct f). by apply HQ.
Qed.
Next Obligation.
  intros AM rely i p b x f sl Q _ Hb Hx Hd [blk Hk] HQ. cbn [virtio_disk_rw instant_disk]. unfold instant_rw.
  apply wpf_bind. eapply wpf_get_buf; [done|]. apply wpf_bind, wpf_gets. rewrite Hk. cbn [Z.eqb]. apply wpf_modify.
  match goal with |- Q _ _ ?g _ => replace g with (set_vd (fs_vd f) g) by (by destruct f) end. by apply (HQ (fs_vd f)).
Qed.

(** * Transactions *)

Section claims.
Context {BD : BlockDev} {AM : Ambient} {rely : protocol} {BL : BlockDevLaws BD rely} (i : nat) (p : proc) (dev start : Z).

(** C4: a transaction is atomic across crashes.  Let [body] be code that, inside a
    transaction, turns the blocks [V] into the blocks [V'] with [log_write] and
    logs fewer blocks than there are buffers.  Then [begin_op], [body], [end_op]
    ends without panic with [V'] on the disk outside the log.  Wherever the machine
    crashes on the way, and however often it crashes again while recovering, the
    next start ends with either all of [V] or all of [V'], and with [V'] from some
    disk write on. *)
Theorem transaction_atomic (body : KM unit) (sb : superblock) (V V' : gmap Z bytes) f sl :
  log_layout dev start -> dev <> 0 -> i32 (sb_logstart sb) = start ->
  log_idle p dev start V f sl ->
  (forall f1 sl1, tx p dev start 1 V ∅ [] f1 sl1 -> wpf (rely := rely) i p [] body f1 sl1 (fun _ h f2 sl2 =>
     h = [] /\ fs_disk f2 = fs_disk f1 /\ exists lh, tx p dev start 1 V' ∅ lh f2 sl2 /\ len lh < Z.of_nat NBUF)) ->
  wpf (rely := rely) i p [] (begin_op;; body;; end_op) f sl (fun _ h f' sl' =>
    h = [] /\ log_idle p dev start (d_now (fs_disk f')) f' sl' /\ same_home start V' (d_now (fs_disk f')) /\
    exists olds news, d_past (fs_disk f') = news ++ olds ++ d_past (fs_disk f) /\
      forall n, Forall (survives i p dev start n sb V) olds /\
                Forall (survives i p dev start n sb V') (d_now (fs_disk f') :: news)).
Proof.
  intros HL Hdev Hsb I Hbody. apply wpf_bind. eapply wpf_begin_op; [exact I|]. intros f1 T1 [_ D1].
  apply wpf_bind. eapply wpf_mono; [by apply Hbody|]. intros [] h2 f2 sl2 (-> & D2 & lh & T2 & Hroom).
  eapply (wpf_end_op i p dev start HL V'); [exact T2|done|]. intros V3 f3 sl3 I3 Hs3 O3 S3 (olds & news & E & F1 & F2).
  assert (d_now (fs_disk f3) = V3) as E3 by (eapply cache_now; exact (id_cache _ _ _ _ _ _ I3)).
  assert (d_now (fs_disk f2) = V) as E2.
  { rewrite D2, D1. eapply cache_now. exact (id_cache _ _ _ _ _ _ I). }
  rewrite E3. split; [done|]. split; [done|]. split; [done|]. exists olds, news. rewrite E, D2, D1. split; [done|].
  rewrite E2 in F1. rewrite E3 in F2.
  intros n. split; (eapply Forall_impl; [eassumption|]); intros c; by apply recovers_survives.
Qed.

End claims.

(** * A disk to try them on *)

(** Nothing is asked of user memory. *)
#[local] Instance any_memory : Ambient := {| amb := fun _ => True; amb_frame := fun _ _ _ _ => I |}.

(** 70 empty blocks, with the log in blocks 2 to 32. *)
Definition ex_sb : superblock := mk_sb 0x10203040 70 30 10 31 2 33 34.
Definition ex_disk : gmap Z bytes := list_to_map ((fun b => (Z.of_nat b, replicate 1024 0)) <$> seq 0 70).

Definition ex_fs : fsst :=
  mk_fs (mk_platter ex_disk []) (fs_vd no_fs) (replicate (S NBUF) (mk_buf 0 0 0 0 0 0 0 (replicate 1024 0)))
    (mk_log 0 0 0 0 0 (replicate 30 0)) ex_sb [] (fs_cons no_fs) (replicate NFILE (mk_file FD_NONE 0 0 0 0 0 0 0)).

Definition ex_fs_procs : list proc :=
  ex_proc RUNNING 1 None (pg 0) PGSIZE [] :: ex_proc RUNNING 2 (Some 0%nat) (pg 4) PGSIZE [] ::
  ex_proc RUNNING 3 (Some 0%nat) 0 0 [] :: replicate 61 (ex_proc UNUSED 0 None 0 0 []).

Definition ex_fs_state (f : fsst) : kst := set_fs f (set_procs ex_fs_procs (ex_state 0 [])).

Lemma ex_inside f : inside 0 (ex_proc RUNNING 1 None (pg 0) PGSIZE []) [] (ex_fs_state f).
Proof.
  split; try done.
  - apply NoDup_nil_2.
Qed.

Lemma ex_disk_lookup b : 0 <= b < 70 -> ex_disk !! b = Some (replicate 1024 0).
Proof.
  intros Hb. unfold ex_disk. apply elem_of_list_to_map_1.
  - rewrite <- list_fmap_compose. apply NoDup_fmap_2; [|apply NoDup_seq]. intros x y. simpl. lia.
  - apply list_elem_of_fmap. exists (Z.to_nat b). split; [f_equal; lia|]. apply elem_of_seq. lia.
Qed.

Lemma ex_disk_sized : map_Forall (fun _ => block_sized) ex_disk.
Proof.
  intros b d Hd%elem_of_list_to_map_2. apply list_elem_of_fmap in Hd as (k & [= -> ->] & _). done.
Qed.

Lemma ex_head : head_n (replicate 1024 0) = 0.
Proof. vm_compute. reflexivity. Qed.

Lemma ex_entries : entries 2 ex_disk = [].
Proof. unfold entries. rewrite ex_disk_lookup by lia. unfold head_blocks. by rewrite ex_head. Qed.

Lemma ex_recovers : recovers 2 ex_disk ex_disk.
Proof.
  split.
  - split.
    + intros k Hk. rewrite ex_disk_lookup; [by eexists|]. unfold LOGBLOCKS, MAXOPBLOCKS in Hk. lia.
    + intros hd Hd. rewrite ex_disk_lookup in Hd by lia. simplify_eq. by rewrite ex_head.
  - apply ex_disk_sized.
  - rewrite ex_entries. split; [done|apply NoDup_nil_2|apply Forall_nil_2|apply Forall_nil_2].
  - intros b Hb. unfold replay_at. by rewrite ex_entries.
Qed.

Lemma ex_booted rely : booted (rely := rely) (BD := instant_disk) ex_disk ex_fs.
Proof. split; try done. by apply Forall_replicate. Qed.

(** Two blocks in a transaction. *)
Definition ex_body : KM unit := update_block 1 33 0 [1; 2];; update_block 1 40 8 [3].

Lemma ex_two_blocks {rely} i p V f1 sl1 : is_Some (V !! 33) -> is_Some (V !! 40) -> exists d d',
  V !! 33 = Some d /\ V !! 40 = Some d' /\
  (tx (rely := rely) p 1 2 1 V ∅ [] f1 sl1 -> wpf (rely := rely) i p [] ex_body f1 sl1 (fun _ h f2 sl2 =>
     h = [] /\ fs_disk f2 = fs_disk f1 /\ exists lh, tx (rely := rely) p 1 2 1 (<[40 := splice 8 [3] d']> (<[33 := splice 0 [1; 2] d]> V)) ∅ lh f2 sl2 /\
     len lh < Z.of_nat NBUF)).
Proof.
  intros [d Hd] [d' Hd']. exists d, d'. split; [done|]. split; [done|]. intros T. unfold ex_body. apply wpf_bind.
  eapply wpf_update_block; [exact T|exact Hd|split; unfold LOGBLOCKS, MAXOPBLOCKS; lia|done|done|done|]. intros f2 sl2 T2 F2 S2.
  eapply wpf_update_block; [exact T2|by rewrite lookup_insert_ne|split; unfold LOGBLOCKS, MAXOPBLOCKS; lia|done|done|done|].
  intros f3 sl3 T3 F3 S3. split; [done|]. split; [destruct F2 as [_ <-]; by destruct F3 as [_ ->]|]. eexists. split; [exact T3|]. done.
Qed.

(** From switching the machine on, two blocks are written as one transaction. *)
Lemma transaction_atomic_witness :
  wpk alone (binit;; initlog 1 ex_sb;; (begin_op;; ex_body;; end_op)) (ex_fs_state ex_fs) (fun _ s' =>
    let d := d_now (fs_disk (k_fs s')) in
    d !! 33 = Some (splice 0 [1; 2] (replicate 1024 0)) /\ d !! 40 = Some (splice 8 [3] (replicate 1024 0))).
Proof.
  set (p := ex_proc RUNNING 1 None (pg 0) PGSIZE []).
  assert (wpf (rely := alone) 0 p [] (binit;; initlog 1 ex_sb;; (begin_op;; ex_body;; end_op)) ex_fs ∅ (fun _ _ f' _ =>
    d_now (fs_disk f') !! 33 = Some (splice 0 [1; 2] (replicate 1024 0)) /\ d_now (fs_disk f') !! 40 = Some (splice 8 [3] (replicate 1024 0)))) as H.
  { assert (home 2 33 /\ home 2 40) as [H33 H40] by (split; split; unfold LOGBLOCKS, MAXOPBLOCKS; lia).
    apply wpf_bind. eapply (wpf_binit 0 p 1 ex_disk); [apply ex_booted|apply ex_disk_sized|done|]. intros f1 sl1 C1 O1 S1.
    destruct (bufs_only_disk _ _ O1) as [D1 G1].
    apply wpf_bind. eapply (wpf_initlog 0 p 1 2 ltac:(by split) ex_disk ex_disk ex_sb); [exact C1|apply ex_recovers|done|by rewrite G1..|].
    intros V f2 sl2 I2 Hs2 _ _ _ _.
    assert (V !! 33 = Some (replicate 1024 0) /\ V !! 40 = Some (replicate 1024 0)) as [E33 E40].
    { by rewrite !Hs2, !ex_disk_lookup. }
    destruct (ex_two_blocks (rely := alone) 0 p V f2 sl2 (ltac:(by eexists)) (ltac:(by eexists))) as (d & d' & Ed & Ed' & _).
    eapply wpf_mono.
    { eapply (transaction_atomic (rely := alone) 0 p 1 2 ex_body ex_sb V); [by split|done|done|exact I2|]. intros f3 sl3 T3.
      destruct (ex_two_blocks (rely := alone) 0 p V f3 sl3 (ltac:(by eexists)) (ltac:(by eexists))) as (e & e' & Ee & Ee' & W).
      assert (e = d) as -> by congruence. assert (e' = d') as -> by congruence. by apply W. }
    intros [] h f' sl' (_ & _ & Hs & _). rewrite !Hs by done. rewrite lookup_insert_ne, !lookup_insert_eq by done.
    split; congruence. }
  refine (wpf_run 0 p [] _ _ _ _ _ _ H (ex_inside _) eq_refl eq_refl _). intros [] h' s' _ _ HQ. exact HQ.
Defined.

(** * A log that is too long for the cache *)

(** The scheduler gives the CPU to process [i]. *)
Definition as_proc (i : nat) (m : KM unit) : KM unit := modify (set_cpu (ex_cpu i));; m.

(** Three processes update ten blocks each, from [b] on, in overlapping operations. *)
Definition ten_blocks (b : nat) : KM unit :=
  for_each (Z.of_nat <$> seq b 10) (fun b => update_block 1 b 0 [1]).

Definition three_operations : KM unit :=
  as_proc 0 begin_op;; as_proc 1 begin_op;; as_proc 2 begin_op;;
  as_proc 0 (ten_blocks 35);; as_proc 1 (ten_blocks 45);; as_proc 2 (ten_blocks 55);;
  as_proc 0 end_op;; as_proc 1 end_op;; as_proc 2 end_op.

