(* ===== verification/XvFsBits.v ===== *)
(** The free map as a set of bits, and the structures on disk as numbers. *)

From S2P Require Import Prelude XvMem XvFsTypes XvKernel XvMsg XvSched XvBio XvBlock XvLog XvFs.
Import Fs.

(** * Loops *)

Lemma elem_of_steps step bound x : 0 < step -> x ∈ steps step bound <-> exists k, x = step * k /\ 0 <= k /\ x < bound.
Proof.
  intros Hs. unfold steps. rewrite list_elem_of_fmap. setoid_rewrite elem_of_seq.
  pose proof (Z.div_mod (bound + step - 1) step ltac:(lia)) as E. pose proof (Z.mod_pos_bound (bound + step - 1) step Hs) as M.
  set (q := (bound + step - 1) / step) in *. split.
  - intros (k & -> & Hk). exists (Z.of_nat k). split; [done|]. split; [lia|]. nia.
  - intros (k & -> & Hk & Hb). exists (Z.to_nat k). split; [f_equal; lia|]. split; [lia|]. nia.
Qed.

(** The elements before and after one of the loop. *)
Lemma steps_split step bound dn x rest :
  0 < step -> steps step bound = dn ++ x :: rest -> x = step * len dn /\ x < bound.
Proof.
  intros Hs E. assert (steps step bound !! length dn = Some x) as Hx by (rewrite E; by apply list_lookup_middle).
  split.
  - unfold steps in Hx. rewrite list_lookup_fmap in Hx. destruct (seq _ _ !! _) as [k|] eqn:Ek; [|done].
    apply lookup_seq in Ek as [-> _]. by simplify_eq/=.
  - apply list_elem_of_lookup_2, (elem_of_steps step bound x Hs) in Hx. by destruct Hx as (k & _ & _ & H).
Qed.

Lemma steps_done step bound dn rest k :
  0 < step -> steps step bound = dn ++ rest -> 0 <= k < len dn -> step * k ∈ dn.
Proof.
  intros Hs E Hk. apply list_elem_of_lookup. exists (Z.to_nat k).
  assert (steps step bound !! Z.to_nat k = dn !! Z.to_nat k) as <- by (rewrite E; apply lookup_app_l; lia).
  destruct (lookup_lt_is_Some_2 dn (Z.to_nat k)) as [y Hy]; [lia|].
  assert (steps step bound !! Z.to_nat k = Some y) as Hy' by (rewrite E, lookup_app_l by lia; done).
  rewrite Hy'. unfold steps in Hy'. rewrite list_lookup_fmap in Hy'. destruct (seq _ _ !! _) as [j|] eqn:Ej; [|done].
  apply lookup_seq in Ej as [-> _]. simplify_eq/=. do 2 f_equal. lia.
Qed.

Lemma length_steps step bound : 0 < step -> 0 <= bound -> bound <= step * len (steps step bound) < bound + step.
Proof.
  intros Hs Hb. unfold steps. rewrite length_fmap, length_seq.
  pose proof (Z.div_mod (bound + step - 1) step ltac:(lia)) as E. pose proof (Z.mod_pos_bound (bound + step - 1) step Hs) as M.
  assert (0 <= (bound + step - 1) / step) by (apply Z.div_pos; lia). rewrite Z2Nat.id by done. lia.
Qed.

(** * Bits *)

Definition byte_at (d : bytes) (k : Z) : Z := default 0 (zlookup d k).

(** Bit [k] of a block of the free map. *)
Definition bit (d : bytes) (k : Z) : bool := Z.testbit (byte_at d (k / 8)) (k mod 8).

Definition set_bit (d : bytes) (k : Z) : bytes :=
  splice (k / 8) [u8 (Z.lor (byte_at d (k / 8)) (Z.shiftl 1 (k mod 8)))] d.

Definition clear_bit (d : bytes) (k : Z) : bytes :=
  splice (k / 8) [u8 (Z.land (byte_at d (k / 8)) (Z.lnot (Z.shiftl 1 (k mod 8))))] d.

Lemma land_bit x j : 0 <= j -> (Z.land x (Z.shiftl 1 j) =? 0) = negb (Z.testbit x j).
Proof.
  intros Hj. rewrite Z.shiftl_1_l. destruct (Z.testbit x j) eqn:E; simpl.
  - apply Z.eqb_neq. intros E0. assert (Z.testbit (Z.land x (2 ^ j)) j = true) as Ht.
    { rewrite Z.land_spec, E, Z.pow2_bits_true by done. done. }
    by rewrite E0, Z.bits_0 in Ht.
  - apply Z.eqb_eq, Z.bits_inj'. intros n Hn. rewrite Z.land_spec, Z.bits_0, Z.pow2_bits_eqb by done.
    destruct (Z.eqb_spec j n) as [->|]; [by rewrite E|apply andb_false_r].
Qed.

Lemma byte_num d k : 0 <= k < len d -> le_num (slice k 1 d) = byte_at d k.
Proof.
  intros Hk. unfold byte_at, zlookup. destruct (Z.leb_spec 0 k); [|lia].
  destruct (lookup_lt_is_Some_2 d (Z.to_nat k)) as [x Hx]; [lia|]. rewrite Hx. unfold slice.
  rewrite (drop_S _ _ _ Hx). simpl. lia.
Qed.

Lemma byte_splice k x d j : 0 <= k < len d -> 0 <= j -> byte_at (splice k [x] d) j = if k =? j then x else byte_at d j.
Proof.
  intros Hk Hj. unfold byte_at, zlookup. destruct (Z.leb_spec 0 j); [|lia]. rewrite lookup_splice by lia. simpl.
  destruct (Z.eqb_spec k j) as [->|].
  - rewrite decide_True by lia. replace (Z.to_nat j - Z.to_nat j)%nat with 0%nat by lia. done.
  - rewrite decide_False by lia. done.
Qed.

Lemma testbit_u8 x j : 0 <= j < 8 -> Z.testbit (u8 x) j = Z.testbit x j.
Proof. intros Hj. unfold u8. by rewrite Z.mod_pow2_bits_low by lia. Qed.

Lemma bit_index k : 0 <= k -> 0 <= k mod 8 < 8 /\ 0 <= k / 8 /\ k = 8 * (k / 8) + k mod 8.
Proof. intros Hk. pose proof (Z.mod_pos_bound k 8). pose proof (Z.div_pos k 8). pose proof (Z.div_mod k 8). lia. Qed.

Lemma bit_set d k j : 0 <= k < 8 * len d -> 0 <= j -> bit (set_bit d k) j = (k =? j) || bit d j.
Proof.
  intros Hk Hj. unfold bit, set_bit. destruct (bit_index k) as (K1 & K2 & K3); [lia|]. destruct (bit_index j Hj) as (J1 & J2 & J3).
  rewrite byte_splice by lia. destruct (Z.eqb_spec (k / 8) (j / 8)) as [E|E].
  - rewrite testbit_u8, Z.lor_spec, Z.shiftl_1_l, Z.pow2_bits_eqb by lia. rewrite <- E, orb_comm. f_equal.
    apply eq_bool_prop_intro. rewrite !Is_true_true, !Z.eqb_eq. lia.
  - destruct (Z.eqb_spec k j) as [->|]; [done|]. done.
Qed.

Lemma bit_clear d k j : 0 <= k < 8 * len d -> 0 <= j -> bit (clear_bit d k) j = negb (k =? j) && bit d j.
Proof.
  intros Hk Hj. unfold bit, clear_bit. destruct (bit_index k) as (K1 & K2 & K3); [lia|]. destruct (bit_index j Hj) as (J1 & J2 & J3).
  rewrite byte_splice by lia. destruct (Z.eqb_spec (k / 8) (j / 8)) as [E|E].
  - rewrite testbit_u8, Z.land_spec, Z.lnot_spec, Z.shiftl_1_l, Z.pow2_bits_eqb by lia. rewrite <- E, andb_comm. f_equal. f_equal.
    apply eq_bool_prop_intro. rewrite !Is_true_true, !Z.eqb_eq. lia.
  - destruct (Z.eqb_spec k j) as [->|]; [done|]. done.
Qed.

Lemma length_set_bit d k : 0 <= k < 8 * len d -> len (set_bit d k) = len d.
Proof. intros Hk. destruct (bit_index k) as (K1 & K2 & K3); [lia|]. apply length_splice; simpl; lia. Qed.

Lemma length_clear_bit d k : 0 <= k < 8 * len d -> len (clear_bit d k) = len d.
Proof. intros Hk. destruct (bit_index k) as (K1 & K2 & K3); [lia|]. apply length_splice; simpl; lia. Qed.
