(* ===== verification/XvFsTx.v ===== *)
(** File-system code, outside or inside a transaction ([o] is 0 or 1).  [fstx T S V H lh f sl]: the blocks are
    [V], of which [H] are in use and [lh] are logged; the inode table is [T] and the
    inode locks are [S].  The disk itself, the super block, console and open files stay. *)

From S2P Require Import Prelude XvMem XvFsTypes XvKernel XvMsg XvSched XvSchedProofs XvBio XvBlock XvLog XvFsLogic XvBioList XvBioProofs XvBioSpec XvLogProofs XvLogCommit XvLogCrash XvLogTx XvFs.

Set Default Proof Using "Type".

(** What the file system has above its inodes. *)
Record above := mk_above {
  ab_cons : console;
  ab_files : list file;
}.

Section fstx.
Context {AM : Ambient} {BD : BlockDev} {rely : protocol} {BL : BlockDevLaws BD rely} (i : nat) (p : proc) (dev start : Z).
Context (o : Z) (K : platter) (sb : superblock) (cn : above).
Notation wpf := (wpf (rely := rely) i p).
Notation tx := (tx (BL := BL) p dev start o).
Implicit Types (T : list inode) (S : gmap sleepid sleeplock) (V : gmap Z bytes) (H : held) (lh : list Z) (f : fsst) (sl : gmap sleepid sleeplock).

Record fstx T S V H lh f sl : Prop := mk_fstx {
  ft_tx : tx V H lh f sl;
  ft_disk : fs_disk f = K;
  ft_super : fs_sb f = sb;
  ft_inode : fs_inode f = T;
  ft_above : mk_above (fs_cons f) (fs_files f) = cn;
  ft_locks : same_inodes S sl;
}.

Lemma fstx_frame T S V H lh V' H' lh' f sl f' sl' :
  fstx T S V H lh f sl -> tx V' H' lh' f' sl' -> tx_frame f f' -> same_inodes sl sl' -> fstx T S V' H' lh' f' sl'.
Proof.
  intros [X1 X2 X3 X4 X5 X6] X' [O D] Hs. unfold log_only, disk_only in O. split; try done; try (rewrite O; done).
  - by rewrite D.
  - intros k. by rewrite Hs.
Qed.

(** * Blocks *)

Lemma ft_bread T S V H lh f sl b d (Q : nat -> list lockid -> fsst -> gmap sleepid sleeplock -> Prop) :
  fstx T S V H lh f sl -> V !! b = Some d -> H !! b = None -> b ∈ lh \/ room H lh ->
  (forall t f' sl', fstx T S V (<[b := (t, d)]> H) lh f' sl' -> Q t [] f' sl') ->
  wpf [] (bread dev b) f sl Q.
Proof.
  intros X Hv Hn Hr HQ. eapply wpf_tx_bread; [apply X|exact Hv|done|done|]. intros t f' sl' X' F' S'. apply HQ. by eapply fstx_frame.
Qed.

Lemma ft_get T S V H lh f sl b t d off n (Q : bytes -> list lockid -> fsst -> gmap sleepid sleeplock -> Prop) :
  fstx T S V H lh f sl -> H !! b = Some (t, d) -> 0 <= off -> 0 <= n -> off + n <= BSIZE ->
  Q (slice off n d) [] f sl -> wpf [] (bdata_get t off n) f sl Q.
Proof. intros X. eapply wpf_tx_get. apply X. Qed.

Lemma ft_put T S V H lh f sl b t d off l (Q : unit -> list lockid -> fsst -> gmap sleepid sleeplock -> Prop) :
  fstx T S V H lh f sl -> H !! b = Some (t, d) -> 0 <= off -> off + len l <= BSIZE ->
  (forall f', fstx T S V (<[b := (t, splice off l d)]> H) lh f' sl -> Q tt [] f' sl) ->
  wpf [] (bdata_put t off l) f sl Q.
Proof.
  intros X Hb H1 H2 HQ. eapply wpf_tx_put; [apply X|exact Hb|done|done|]. intros f' X' F'. apply HQ. by eapply fstx_frame.
Qed.

Lemma ft_log T S V H lh f sl b t d (Q : unit -> list lockid -> fsst -> gmap sleepid sleeplock -> Prop) :
  fstx T S V H lh f sl -> H !! b = Some (t, d) -> home start b -> is_Some (V !! b) -> len lh < LOGBLOCKS -> 1 <= o ->
  (forall f', fstx T S (<[b := d]> V) H (logging b lh) f' sl -> Q tt [] f' sl) ->
  wpf [] (log_write t) f sl Q.
Proof.
  intros X Hb Hh Hv Hl Ho HQ. eapply wpf_log_write; [done|apply X|exact Hb|done|done|done|]. intros f' X' F'. apply HQ. by eapply fstx_frame.
Qed.

Lemma ft_brelse T S V H lh f sl b t d (Q : unit -> list lockid -> fsst -> gmap sleepid sleeplock -> Prop) :
  fstx T S V H lh f sl -> H !! b = Some (t, d) -> V !! b = Some d ->
  (forall f' sl', fstx T S V (delete b H) lh f' sl' -> Q tt [] f' sl') ->
  wpf [] (brelse t) f sl Q.
Proof.
  intros X Hb Hv HQ. eapply wpf_tx_brelse; [apply X|exact Hb|exact Hv|]. intros f' sl' X' F' S'. apply HQ. by eapply fstx_frame.
Qed.

(** A block that was used again has the buffer that was free. *)
Lemma fstx_sized T S V H lh f sl b d : fstx T S V H lh f sl -> V !! b = Some d -> len d = BSIZE.
Proof. intros X Hd. by apply (ca_view _ _ _ _ _ _ _ (tx_cache _ _ _ _ _ _ _ _ _ (ft_tx _ _ _ _ _ _ _ X))) in Hd. Qed.

Lemma fstx_listed T S V H lh f sl : fstx T S V H lh f sl -> NoDup lh /\ len lh <= LOGBLOCKS.
Proof. intros X. destruct (tx_listed _ _ _ _ _ _ _ _ _ (ft_tx _ _ _ _ _ _ _ X)) as [L1 L2 _ _]. done. Qed.

Lemma ft_get_sb T S V H lh f sl (Q : superblock -> list lockid -> fsst -> gmap sleepid sleeplock -> Prop) :
  fstx T S V H lh f sl -> Q sb [] f sl -> wpf [] Fs.get_sb f sl Q.
Proof. intros X HQ. apply wpf_gets. by rewrite (ft_super _ _ _ _ _ _ _ X). Qed.

(** * Inodes *)

Lemma ft_get_ip T S V H lh f sl k x (Q : inode -> list lockid -> fsst -> gmap sleepid sleeplock -> Prop) h :
  fstx T S V H lh f sl -> T !! k = Some x -> Q x h f sl -> wpf h (Fs.get_ip (Fs.ip_ptr k)) f sl Q.
Proof.
  intros X Hk HQ. unfold Fs.get_ip. apply wpf_bind, wpf_gets. rewrite (ft_inode _ _ _ _ _ _ _ X). unfold Fs.ip_ptr, Fs.ip_slot.
  destruct (Z.ltb_spec 0 (Z.of_nat k + 1)); [|lia]. replace (Z.to_nat (Z.of_nat k + 1 - 1)) with k by lia. rewrite Hk. by apply wpf_ret.
Qed.

Lemma fstx_set_inode T S V H lh f sl T' : fstx T S V H lh f sl -> fstx T' S V H lh (set_inode T' f) sl.
Proof.
  intros [X1 X2 X3 X4 X5 X6]. split; try done. destruct X1 as [C Ha He Hl Hlg Ho Hc]. split; try done.
  destruct C. by split.
Qed.

Lemma ft_upd_ip T S V H lh f sl k x g (Q : unit -> list lockid -> fsst -> gmap sleepid sleeplock -> Prop) h :
  fstx T S V H lh f sl -> T !! k = Some x ->
  (forall f', fstx (<[k := g x]> T) S V H lh f' sl -> Q tt h f' sl) -> wpf h (Fs.upd_ip (Fs.ip_ptr k) g) f sl Q.
Proof.
  intros X Hk HQ. unfold Fs.upd_ip. apply wpf_bind. eapply ft_get_ip; [exact X|exact Hk|]. apply wpf_modify, HQ.
  rewrite (ft_inode _ _ _ _ _ _ _ X). unfold Fs.ip_ptr, Fs.ip_slot. replace (Z.to_nat (Z.of_nat k + 1 - 1)) with k by lia.
  by eapply fstx_set_inode.
Qed.

Lemma ft_upd_d T S V H lh f sl k x g (Q : unit -> list lockid -> fsst -> gmap sleepid sleeplock -> Prop) h :
  fstx T S V H lh f sl -> T !! k = Some x ->
  (forall f', fstx (<[k := set_id (g (i_d x)) x]> T) S V H lh f' sl -> Q tt h f' sl) -> wpf h (Fs.upd_d (Fs.ip_ptr k) g) f sl Q.
Proof. intros X Hk HQ. eapply ft_upd_ip; [exact X|exact Hk|exact HQ]. Qed.

Lemma ft_ip_addr T S V H lh f sl k x j a (Q : Z -> list lockid -> fsst -> gmap sleepid sleeplock -> Prop) h :
  fstx T S V H lh f sl -> T !! k = Some x -> zlookup (di_addrs (i_d x)) j = Some a -> Q a h f sl ->
  wpf h (Fs.ip_addr (Fs.ip_ptr k) j) f sl Q.
Proof.
  intros X Hk Hj HQ. unfold Fs.ip_addr. apply wpf_bind. eapply ft_get_ip; [exact X|exact Hk|]. rewrite Hj. by apply wpf_ret.
Qed.

(** [ip->addrs[j] = a]. *)
Definition put_addr (j a : Z) (x : inode) : inode := set_id (set_diaddrs (<[Z.to_nat j := a]> (di_addrs (i_d x))) (i_d x)) x.

Lemma ft_set_ip_addr T S V H lh f sl k x j a (Q : unit -> list lockid -> fsst -> gmap sleepid sleeplock -> Prop) h :
  fstx T S V H lh f sl -> T !! k = Some x -> 0 <= j < len (di_addrs (i_d x)) ->
  (forall f', fstx (<[k := put_addr j a x]> T) S V H lh f' sl -> Q tt h f' sl) ->
  wpf h (Fs.set_ip_addr (Fs.ip_ptr k) j a) f sl Q.
Proof.
  intros X Hk Hj HQ. unfold Fs.set_ip_addr. apply wpf_bind. eapply ft_get_ip; [exact X|exact Hk|].
  destruct (Z.leb_spec 0 j); [|lia]. destruct (Z.ltb_spec j (len (di_addrs (i_d x)))); [|lia]. eapply ft_upd_d; [exact X|exact Hk|exact HQ].
Qed.

End fstx.
