(* ===== verification/XvFsBlocks.v ===== *)
(** Allocation of blocks: [balloc] takes a block that the free map says is free,
    and zeroes it; [bfree] gives one back. *)

From S2P Require Import Prelude XvMem XvFsTypes XvKernel XvMsg XvSched XvSchedProofs XvBio XvBlock XvLog XvFsLogic XvBioList XvBioProofs XvBioSpec XvLogProofs XvLogCommit XvLogCrash XvLogTx XvFs XvFsBits XvFsTx.
Import Fs.

Set Default Proof Using "Type".

(** * Layout *)

(** The first data block. *)
Definition data0 (sb : superblock) : Z := sb_bmapstart sb + sb_size sb / BPB + 1.

(** Log, inodes, free map and data follow each other. *)
Record fs_layout (start : Z) (sb : superblock) : Prop := mk_fs_layout {
  fl_start : 0 <= start;
  fl_log : start + LOGBLOCKS < sb_inodestart sb;
  fl_ninodes : 0 < sb_ninodes sb < 2 ^ 16;
  fl_inodes : sb_inodestart sb + sb_ninodes sb / IPB < sb_bmapstart sb;
  fl_size : 0 < sb_size sb;
  fl_data : data0 sb <= sb_size sb < 2 ^ 31;
}.

Definition zeros : bytes := replicate (Z.to_nat BSIZE) 0.

(** All blocks of the file system are on the disk. *)
Definition covers (sb : superblock) (V : gmap Z bytes) : Prop := forall b, 0 <= b < sb_size sb -> is_Some (V !! b).

(** What the free map says of block [b]. *)
Definition used (sb : superblock) (V : gmap Z bytes) (b : Z) : bool :=
  match V !! BBLOCK b sb with Some d => bit d (b mod BPB) | None => false end.

(** The blocks before the data are not up for allocation. *)
Definition meta_used (sb : superblock) (V : gmap Z bytes) : Prop := forall b, 0 <= b < data0 sb -> used sb V b = true.

(** The blocks after the free-map entry of [b] was set. *)
Definition mark (sb : superblock) (b : Z) (V : gmap Z bytes) : gmap Z bytes :=
  <[BBLOCK b sb := set_bit (default [] (V !! BBLOCK b sb)) (b mod BPB)]> V.

Definition unmark (sb : superblock) (b : Z) (V : gmap Z bytes) : gmap Z bytes :=
  <[BBLOCK b sb := clear_bit (default [] (V !! BBLOCK b sb)) (b mod BPB)]> V.

(** The blocks after [b] was allocated. *)
Definition took (sb : superblock) (b : Z) (V : gmap Z bytes) : gmap Z bytes := <[b := zeros]> (mark sb b V).

(** Blocks of the free map. *)
Definition in_map (sb : superblock) (b : Z) : Prop := sb_bmapstart sb <= b < data0 sb.

Lemma logging_length b lh : (length (logging b lh) <= Datatypes.S (length lh))%nat.
Proof. unfold logging. case_decide; [lia|]. rewrite length_app. simpl. lia. Qed.

Lemma elem_of_logging b c lh : c ∈ logging b lh <-> c = b \/ c ∈ lh.
Proof. unfold logging. case_decide; set_solver. Qed.

Section layout.
Context {start : Z} {sb : superblock} (FL : fs_layout start sb).

Lemma bblock_range b : 0 <= b < sb_size sb -> BBLOCK b sb = b / BPB + sb_bmapstart sb /\ in_map sb (BBLOCK b sb).
Proof using FL.
  intros Hb. destruct FL as [F1 F2 F3 F4 F0 F5]. unfold BBLOCK, in_map, data0 in *.
  assert (0 <= b / BPB <= sb_size sb / BPB) by (split; [apply Z.div_pos; [lia|done]|apply Z.div_le_mono; [done|lia]]).
  assert (0 <= sb_ninodes sb / IPB) by (apply Z.div_pos; [lia|done]).
  rewrite u32_small by (unfold LOGBLOCKS, MAXOPBLOCKS in *; lia). lia.
Qed.

Lemma iblock_range n : 0 <= n < sb_ninodes sb -> IBLOCK n sb = n / IPB + sb_inodestart sb /\ sb_inodestart sb <= IBLOCK n sb < sb_bmapstart sb.
Proof using FL.
  intros Hb. destruct FL as [F1 F2 F3 F4 F0 F5]. unfold IBLOCK, data0 in *.
  assert (0 <= n / IPB <= sb_ninodes sb / IPB) by (split; [apply Z.div_pos; [lia|done]|apply Z.div_le_mono; [done|lia]]).
  assert (0 <= sb_size sb / BPB) by (apply Z.div_pos; [lia|done]).
  rewrite u32_small by (unfold LOGBLOCKS, MAXOPBLOCKS in *; lia). lia.
Qed.

Lemma data_home b : sb_inodestart sb <= b < sb_size sb -> home start b.
Proof using FL. intros Hb. destruct FL as [F1 F2 F3 F4 F0 F5]. split; [unfold LOGBLOCKS, MAXOPBLOCKS in *|]; lia. Qed.

Lemma data0_pos : sb_inodestart sb < data0 sb /\ 0 < data0 sb /\ 0 <= sb_inodestart sb /\ sb_inodestart sb < sb_bmapstart sb.
Proof using FL.
  destruct FL as [F1 F2 F3 F4 F0 F5]. unfold data0 in *. assert (0 <= sb_size sb / BPB) by (apply Z.div_pos; [lia|done]).
  assert (0 <= sb_ninodes sb / IPB) by (apply Z.div_pos; [lia|done]). unfold LOGBLOCKS, MAXOPBLOCKS in *. lia.
Qed.

Lemma bmap_data0 : sb_bmapstart sb < data0 sb.
Proof using FL. pose proof (fl_size _ _ FL). unfold data0. assert (0 <= sb_size sb / BPB) by (apply Z.div_pos; [lia|done]). lia. Qed.

Lemma map_home b : in_map sb b -> home start b /\ 0 <= b < sb_size sb.
Proof using FL.
  intros Hb. pose proof data0_pos. unfold in_map in Hb. pose proof (fl_data _ _ FL). split; [apply data_home; lia|lia].
Qed.

Lemma bpb_mod b : 0 <= b mod BPB < 8 * BSIZE.
Proof. pose proof (Z.mod_pos_bound b BPB ltac:(done)) as Hm. rewrite Z.mul_comm. exact Hm. Qed.

(** * The free map *)

Lemma used_insert V a d b : 0 <= b < sb_size sb -> ~ in_map sb a -> used sb (<[a := d]> V) b = used sb V b.
Proof using FL. intros Hb Ha. unfold used. destruct (bblock_range b Hb) as [_ Hm]. rewrite lookup_insert_ne; [done|]. by intros ->. Qed.

Lemma same_bit b c : 0 <= b < sb_size sb -> 0 <= c < sb_size sb -> BBLOCK b sb = BBLOCK c sb -> b mod BPB = c mod BPB -> b = c.
Proof using FL.
  intros Hb Hc E1 E2. destruct (bblock_range b Hb) as [B _]. destruct (bblock_range c Hc) as [C _].
  rewrite (Z.div_mod b BPB), (Z.div_mod c BPB) by (unfold BPB, BSIZE; lia). lia.
Qed.

Lemma used_mark V b c :
  map_Forall (fun _ => block_sized) V -> 0 <= b < sb_size sb -> 0 <= c < sb_size sb -> is_Some (V !! BBLOCK b sb) ->
  used sb (mark sb b V) c = (b =? c) || used sb V c.
Proof using FL.
  intros Hs Hb Hc [d Hd]. unfold used, mark. rewrite Hd. simpl. specialize (Hs _ _ Hd). unfold block_sized in Hs.
  destruct (decide (BBLOCK b sb = BBLOCK c sb)) as [E|E].
  - rewrite E, lookup_insert_eq. rewrite E in Hd. rewrite Hd. rewrite bit_set; [|rewrite Hs; apply bpb_mod|apply bpb_mod].
    f_equal. destruct (Z.eqb_spec b c) as [->|Hne]; [apply Z.eqb_refl|]. apply Z.eqb_neq. intros E2. apply Hne. by apply same_bit.
  - rewrite lookup_insert_ne by done. destruct (Z.eqb_spec b c) as [->|]; [done|]. done.
Qed.

Lemma used_unmark V b c :
  map_Forall (fun _ => block_sized) V -> 0 <= b < sb_size sb -> 0 <= c < sb_size sb -> is_Some (V !! BBLOCK b sb) ->
  used sb (unmark sb b V) c = negb (b =? c) && used sb V c.
Proof using FL.
  intros Hs Hb Hc [d Hd]. unfold used, unmark. rewrite Hd. simpl. specialize (Hs _ _ Hd). unfold block_sized in Hs.
  destruct (decide (BBLOCK b sb = BBLOCK c sb)) as [E|E].
  - rewrite E, lookup_insert_eq. rewrite E in Hd. rewrite Hd. rewrite bit_clear; [|rewrite Hs; apply bpb_mod|apply bpb_mod].
    f_equal. f_equal. destruct (Z.eqb_spec b c) as [->|Hne]; [apply Z.eqb_refl|]. apply Z.eqb_neq. intros E2. apply Hne. by apply same_bit.
  - rewrite lookup_insert_ne by done. destruct (Z.eqb_spec b c) as [->|]; [done|]. done.
Qed.

Lemma used_took V b c :
  map_Forall (fun _ => block_sized) V -> data0 sb <= b < sb_size sb -> 0 <= c < sb_size sb -> is_Some (V !! BBLOCK b sb) ->
  used sb (took sb b V) c = (b =? c) || used sb V c.
Proof using FL.
  intros Hs Hb Hc Hd. pose proof data0_pos. unfold took. rewrite used_insert; [|done|unfold in_map; lia]. apply used_mark; [done|lia|done|done].
Qed.

(** * Budget *)

(** There is room for [n] more blocks in log and cache. *)
Definition budget (n : nat) (H : held) (lh : list Z) : Prop := (size H + length lh + n <= NBUF)%nat.

Lemma budget_room H lh : budget 1 H lh -> room H lh.
Proof. unfold budget, room. lia. Qed.

Lemma budget_log H lh : budget 1 H lh -> len lh < LOGBLOCKS.
Proof. unfold budget, NBUF, LOGBLOCKS, MAXOPBLOCKS. lia. Qed.

Lemma budget_nil n : (n <= NBUF)%nat -> budget n ∅ [].
Proof. unfold budget. by rewrite map_size_empty. Qed.

Lemma budget_le n m H lh : (n <= m)%nat -> budget m H lh -> budget n H lh.
Proof. unfold budget. lia. Qed.

Lemma budget_logging n b H lh : budget (Datatypes.S n) H lh -> budget n H (logging b lh).
Proof. unfold budget. pose proof (logging_length b lh). lia. Qed.

Lemma budget_held n b v H lh : budget (Datatypes.S n) H lh -> budget n (<[b := v]> H) lh.
Proof. unfold budget. pose proof (map_size_insert b v H) as E. destruct (H !! b); unfold id in E; lia. Qed.

End layout.

Section blocks.
Context {AM : Ambient} {BD : BlockDev} {rely : protocol} {BL : BlockDevLaws BD rely} (i : nat) (p : proc) (dev start : Z).
Context (o : Z) (K : platter) (sb : superblock) (cn : above) (FL : fs_layout start sb).
Notation wpf := (wpf (rely := rely) i p).
Notation fstx := (fstx (BL := BL) p dev start o K sb cn).
Implicit Types (T : list inode) (S : gmap sleepid sleeplock) (V : gmap Z bytes) (H : held) (lh : list Z) (f : fsst) (sl : gmap sleepid sleeplock).

Lemma fstx_view T S V H lh f sl : fstx T S V H lh f sl -> map_Forall (fun _ => block_sized) V.
Proof. intros X b d Hd. by eapply fstx_sized. Qed.

Lemma ft_bzero T S V H lh f sl b (Q : unit -> list lockid -> fsst -> gmap sleepid sleeplock -> Prop) :
  fstx T S V H lh f sl -> is_Some (V !! b) -> H !! b = None -> home start b -> budget 1 H lh -> 1 <= o ->
  (forall f' sl', fstx T S (<[b := zeros]> V) H (logging b lh) f' sl' -> Q tt [] f' sl') ->
  wpf [] (bzero dev b) f sl Q.
Proof.
  intros X [d Hd] Hn Hh Hr Ho HQ. unfold bzero. apply wpf_bind.
  eapply ft_bread; [exact X|exact Hd|done|right; by apply budget_room|]. intros t f1 sl1 X1.
  apply wpf_bind. eapply ft_put; [exact X1|apply lookup_insert_eq|done|done|]. intros f2 X2. rewrite insert_insert_eq in X2.
  assert (splice 0 (replicate (Z.to_nat BSIZE) 0) d = zeros) as Ez by (apply splice_all; rewrite (fstx_sized _ _ _ _ _ _ _ _ _ _ _ _ _ _ _ _ X Hd); done).
  rewrite Ez in X2. apply wpf_bind. eapply ft_log; [exact X2|apply lookup_insert_eq|done|by eexists|by apply (budget_log H)|done|]. intros f3 X3.
  eapply ft_brelse; [exact X3|apply lookup_insert_eq|apply lookup_insert_eq|]. intros f4 sl4 X4. rewrite delete_insert_id in X4 by done. by apply HQ.
Qed.

(** The blocks in use are data blocks that are not free. *)
Definition held_data V H : Prop := forall b, is_Some (H !! b) -> data0 sb <= b < sb_size sb /\ used sb V b = true.

Lemma held_data_empty V : held_data V ∅.
Proof. intros b [x Hx]. by rewrite lookup_empty in Hx. Qed.

Lemma held_data_none V H b : held_data V H -> b < data0 sb \/ used sb V b = false -> H !! b = None.
Proof. intros Hd Hb. destruct (H !! b) as [x|] eqn:E; [|done]. destruct (Hd b ltac:(by eexists)) as [H1 H2]. destruct Hb; [lia|congruence]. Qed.

Lemma ft_balloc_scan T S V H lh f sl b t dm (Q : option Z -> list lockid -> fsst -> gmap sleepid sleeplock -> Prop) :
  fstx T S V (<[BBLOCK b sb := (t, dm)]> H) lh f sl -> V !! BBLOCK b sb = Some dm -> H !! BBLOCK b sb = None ->
  covers sb V -> held_data V H -> meta_used sb V -> budget 2 H lh -> 0 <= b < sb_size sb -> b mod BPB = 0 -> 1 <= o ->
  (forall a f' sl', data0 sb <= a < sb_size sb -> used sb V a = false ->
     fstx T S (took sb a V) H (logging a (logging (BBLOCK a sb) lh)) f' sl' -> Q (Some a) [] f' sl') ->
  (forall f' sl', fstx T S V (<[BBLOCK b sb := (t, dm)]> H) lh f' sl' -> (forall c, b <= c < b + BPB -> c < sb_size sb -> used sb V c = true) ->
     Q None [] f' sl') ->
  wpf [] (balloc_scan dev (sb_size sb) b t) f sl Q.
Proof using FL.
  intros X Hdm HnH Hcov Hheld Hmeta Hbud Hb Hb0 Ho Hyes Hno. pose proof (data0_pos FL) as Hd0. unfold balloc_scan.
  pose proof (fstx_sized _ _ _ _ _ _ _ _ _ _ _ _ _ _ _ _ X Hdm) as Hsz.
  assert (forall c, b <= c < b + BPB -> c < sb_size sb -> BBLOCK c sb = BBLOCK b sb /\ c mod BPB = c - b) as Hsame.
  { intros c Hc Hc'. destruct (bblock_range FL b Hb) as [-> _]. destruct (bblock_range FL c) as [-> _]; [lia|].
    assert (b = BPB * (b / BPB)) as Eb by (pose proof (Z.div_mod b BPB ltac:(done)); lia).
    rewrite (Z.div_unique c BPB (b / BPB) (c - b)) by lia. split; [done|]. symmetry. apply (Z.mod_unique c BPB (b / BPB) (c - b)); lia. }
  apply (wpf_for_some i p [] _ _ (fun dn f' sl' => fstx T S V (<[BBLOCK b sb := (t, dm)]> H) lh f' sl' /\ forall c, b <= c < b + len dn -> used sb V c = true)).
  - split; [done|]. simpl. lia.
  - intros dn bi rest f1 sl1 Hl [X1 Hu]. apply (steps_split 1) in Hl as [-> Hlt]; [|lia]. rewrite Z.mul_1_l in *.
    set (bi := len dn) in *. assert (0 <= bi < BPB /\ b + bi < sb_size sb) as [Hbi Hsz'] by lia.
    destruct (Hsame (b + bi)) as [Ebb Emod]; [lia|lia|]. replace (b + bi - b) with bi in Emod by lia.
    destruct (bit_index bi) as (M1 & M2 & M3); [lia|]. unfold BPB in Hbi.
    apply wpf_bind. eapply ft_get; [exact X1|apply lookup_insert_eq|lia|lia|lia|].
    rewrite byte_num by lia. rewrite land_bit by lia.
    assert (used sb V (b + bi) = Z.testbit (byte_at dm (bi / 8)) (bi mod 8)) as Eu by (unfold used; by rewrite Ebb, Hdm, Emod).
    rewrite <- Eu. destruct (used sb V (b + bi)) eqn:Eub; cbn [negb].
    + apply wpf_ret. split; [done|]. split; [done|]. intros c Hc. rewrite length_app in Hc. simpl in Hc.
      destruct (decide (c = b + bi)) as [->|]; [done|]. apply Hu. lia.
    + assert (data0 sb <= b + bi) as Hdata.
      { destruct (Z.le_gt_cases (data0 sb) (b + bi)); [done|]. rewrite Hmeta in Eub by lia. done. }
      destruct (bblock_range FL b Hb) as [_ Hmap]. destruct (map_home FL _ Hmap) as [Hhome _].
      apply wpf_bind. eapply ft_put; [exact X1|apply lookup_insert_eq|lia|simpl; lia|]. intros f2 X2. rewrite insert_insert_eq in X2.
      fold (set_bit dm bi) in X2. apply wpf_bind.
      eapply ft_log; [exact X2|apply lookup_insert_eq|done|by eexists|apply (budget_log H); eapply budget_le; [|exact Hbud]; lia|done|].
      intros f3 X3. apply wpf_bind. eapply ft_brelse; [exact X3|apply lookup_insert_eq|apply lookup_insert_eq|]. intros f4 sl4 X4.
      rewrite delete_insert_id in X4 by done.
      assert (<[BBLOCK b sb := set_bit dm bi]> V = mark sb (b + bi) V) as Em by (unfold mark; by rewrite Ebb, Emod, Hdm).
      rewrite Em in X4. apply wpf_bind. eapply ft_bzero; [exact X4| | | | | |].
      * unfold mark. apply is_Some_insert, Hcov. lia.
      * eapply held_data_none; [exact Hheld|by right].
      * apply (data_home FL). lia.
      * by apply budget_logging.
      * done.
      * intros f5 sl5 X5. apply wpf_ret. rewrite <- Ebb in X5. by apply Hyes.
  - intros f1 sl1 [X1 Hu]. apply Hno; [done|]. intros c Hc Hc'. apply Hu.
    pose proof (length_steps 1 (Z.min BPB (sb_size sb - b))). unfold BPB, BSIZE in *. lia.
Qed.

Lemma ft_balloc T S V H lh f sl (Q : Z -> list lockid -> fsst -> gmap sleepid sleeplock -> Prop) :
  fstx T S V H lh f sl -> covers sb V -> held_data V H -> meta_used sb V -> budget 2 H lh -> 1 <= o ->
  (forall f' sl', fstx T S V H lh f' sl' -> (forall b, 0 <= b < sb_size sb -> used sb V b = true) -> Q 0 [] f' sl') ->
  (forall a f' sl', data0 sb <= a < sb_size sb -> used sb V a = false ->
     fstx T S (took sb a V) H (logging a (logging (BBLOCK a sb) lh)) f' sl' -> Q a [] f' sl') ->
  wpf [] (balloc dev) f sl Q.
Proof using FL.
  intros X Hcov Hheld Hmeta Hbud Ho Hno Hyes. pose proof (data0_pos FL) as Hd0. pose proof (fl_data _ _ FL) as Hsize. unfold balloc.
  apply wpf_bind. eapply ft_get_sb; [exact X|]. apply wpf_bind.
  apply (wpf_for_some i p [] _ _ (fun dn f' sl' => fstx T S V H lh f' sl' /\ forall c, 0 <= c < BPB * len dn -> c < sb_size sb -> used sb V c = true)).
  - split; [done|]. simpl. lia.
  - intros dn b rest f1 sl1 Hl [X1 Hu]. apply (steps_split BPB) in Hl as [-> Hlt]; [|unfold BPB, BSIZE; lia].
    assert (0 <= BPB * len dn < sb_size sb) as Hb by (unfold BPB, BSIZE in *; lia). set (b := BPB * len dn) in *.
    destruct (bblock_range FL b Hb) as [_ Hmap]. destruct (map_home FL _ Hmap) as [Hhome Hin]. destruct (Hcov _ Hin) as [dm Hdm].
    assert (H !! BBLOCK b sb = None) as Hn by (eapply held_data_none; [exact Hheld|left; apply Hmap]).
    apply wpf_bind. eapply ft_bread; [exact X1|exact Hdm|done|right; apply budget_room; eapply budget_le; [|exact Hbud]; lia|].
    intros t f2 sl2 X2. apply wpf_bind.
    eapply (ft_balloc_scan T S V H lh f2 sl2 b t dm); [exact X2|done|done|done|done|done|done|done| |done| |].
    + unfold b. rewrite Z.mul_comm. apply Z_mod_mult.
    + intros a f3 sl3 Ha Hua X3. apply wpf_ret, wpf_ret. rewrite u32_small by lia. by eapply Hyes.
    + intros f3 sl3 X3 Hu3. apply wpf_bind. eapply ft_brelse; [exact X3|apply lookup_insert_eq|exact Hdm|]. intros f4 sl4 X4.
      rewrite delete_insert_id in X4 by done. apply wpf_ret. split; [done|]. split; [done|]. intros c Hc Hc'. rewrite length_app in Hc. simpl in Hc.
      destruct (Z.lt_ge_cases c b); [apply Hu; lia|]. apply Hu3; [|done]. unfold b in *. lia.
  - intros f1 sl1 [X1 Hu]. apply wpf_ret, Hno; [done|]. intros b Hb. apply Hu; [|lia].
    pose proof (length_steps BPB (sb_size sb)). unfold BPB, BSIZE in *. lia.
Qed.

Lemma ft_bfree T S V H lh f sl b (Q : unit -> list lockid -> fsst -> gmap sleepid sleeplock -> Prop) :
  fstx T S V H lh f sl -> covers sb V -> held_data V H -> data0 sb <= b < sb_size sb -> used sb V b = true -> budget 1 H lh -> 1 <= o ->
  (forall f' sl', fstx T S (unmark sb b V) H (logging (BBLOCK b sb) lh) f' sl' -> Q tt [] f' sl') ->
  wpf [] (bfree dev b) f sl Q.
Proof using FL.
  intros X Hcov Hheld Hb Hu Hbud Ho HQ. pose proof (data0_pos FL) as Hd0. unfold bfree. apply wpf_bind. eapply ft_get_sb; [exact X|].
  destruct (bblock_range FL b ltac:(lia)) as [_ Hmap]. destruct (map_home FL _ Hmap) as [Hhome Hin]. destruct (Hcov _ Hin) as [dm Hdm].
  assert (H !! BBLOCK b sb = None) as Hn by (eapply held_data_none; [exact Hheld|left; apply Hmap]).
  pose proof (fstx_sized _ _ _ _ _ _ _ _ _ _ _ _ _ _ _ _ X Hdm) as Hsz.
  apply wpf_bind. eapply ft_bread; [exact X|exact Hdm|done|right; by apply budget_room|]. intros t f1 sl1 X1.
  pose proof (bpb_mod b) as Hm. destruct (bit_index (b mod BPB)) as (M1 & M2 & M3); [lia|].
  apply wpf_bind. eapply ft_get; [exact X1|apply lookup_insert_eq|lia|lia|lia|]. rewrite byte_num, land_bit by lia.
  assert (Z.testbit (byte_at dm (b mod BPB / 8)) ((b mod BPB) mod 8) = true) as -> by (unfold used in Hu; by rewrite Hdm in Hu).
  cbn [negb]. apply wpf_bind. eapply ft_put; [exact X1|apply lookup_insert_eq|lia|simpl; lia|]. intros f2 X2. rewrite insert_insert_eq in X2.
  fold (clear_bit dm (b mod BPB)) in X2. apply wpf_bind. eapply ft_log; [exact X2|apply lookup_insert_eq|done|by eexists|by apply (budget_log H)|done|].
  intros f3 X3. eapply ft_brelse; [exact X3|apply lookup_insert_eq|apply lookup_insert_eq|]. intros f4 sl4 X4.
  rewrite delete_insert_id in X4 by done. apply HQ. unfold unmark. by rewrite Hdm.
Qed.

End blocks.
