(* ===== verification/XvFsMap.v ===== *)
(** The blocks of an inode: the map from block indices of a file to disk blocks,
    through the direct entries and the indirect block, and how it grows. *)

From S2P Require Import Prelude XvMem XvFsTypes XvKernel XvMsg XvSched XvBio XvBlock XvLog XvFsLogic XvBioProofs XvBioSpec XvLogProofs XvLogCommit XvLogCrash XvLogTx XvFs XvFsBits XvFsBlocks.
Import Fs.

Set Default Proof Using "Type".

(** The indirect block. *)
Definition ind (d : dinode) : Z := default 0 (zlookup (di_addrs d) NDIRECT).

(** Where block [bn] of the file is; 0 if it is not allocated. *)
Definition addr_of (V : gmap Z bytes) (d : dinode) (bn : Z) : Z :=
  if bn <? NDIRECT then default 0 (zlookup (di_addrs d) bn)
  else if ind d =? 0 then 0 else num32 (4 * (bn - NDIRECT)) (default [] (V !! ind d)).

(** The blocks that belong to the inode. *)
Definition holds (V : gmap Z bytes) (d : dinode) (b : Z) : Prop :=
  b <> 0 /\ (b = ind d \/ exists bn, 0 <= bn < MAXFILE /\ addr_of V d bn = b).

(** * Maps in order *)

(** [am] and [ix] name different data blocks that [U] says are in use, and all
    blocks below [size] are there. *)
Record map_ok (sb : superblock) (U : Z -> bool) (am : Z -> Z) (ix size : Z) : Prop := mk_map_ok {
  mo_data : forall bn, 0 <= bn < MAXFILE -> am bn <> 0 -> data0 sb <= am bn < sb_size sb /\ U (am bn) = true;
  mo_ind : ix <> 0 -> data0 sb <= ix < sb_size sb /\ U ix = true;
  mo_inj : forall bn bn', 0 <= bn < MAXFILE -> 0 <= bn' < MAXFILE -> am bn = am bn' -> am bn <> 0 -> bn = bn';
  mo_sep : forall bn, 0 <= bn < MAXFILE -> am bn <> 0 -> am bn <> ix;
  mo_full : forall bn, 0 <= bn -> bn * BSIZE < size -> am bn <> 0;
}.

Record ino_ok (sb : superblock) (V : gmap Z bytes) (d : dinode) : Prop := mk_ino_ok {
  io_len : len (di_addrs d) = NDIRECT + 1;
  io_size : 0 <= di_size d <= MAXFILE * BSIZE;
  io_map : map_ok sb (used sb V) (addr_of V d) (ind d) (di_size d);
}.

Lemma map_ok_ext sb U U' am am' ix size :
  (forall b, data0 sb <= b < sb_size sb -> U b = true -> U' b = true) -> (forall bn, 0 <= bn < MAXFILE -> am' bn = am bn) ->
  size <= MAXFILE * BSIZE -> map_ok sb U am ix size -> map_ok sb U' am' ix size.
Proof.
  intros HU Ha Hs [M1 M2 M3 M4 M5]. split.
  - intros bn Hbn. rewrite Ha by done. intros Hn. destruct (M1 bn Hbn Hn). auto.
  - intros Hi. destruct (M2 Hi). auto.
  - intros bn bn' H1 H2. rewrite !Ha by done. auto.
  - intros bn Hbn. rewrite Ha by done. auto.
  - intros bn Hbn Hlt. rewrite Ha by (unfold BSIZE in *; lia). auto.
Qed.

(** A new block at index [n]. *)
Lemma map_ok_link sb U am ix size n a :
  map_ok sb U am ix size -> 0 <= n < MAXFILE -> 0 < data0 sb <= a -> a < sb_size sb -> U a = true -> a <> ix ->
  (forall bn, 0 <= bn < MAXFILE -> am bn <> a) -> map_ok sb U (fun bn => if bn =? n then a else am bn) ix size.
Proof.
  intros [M1 M2 M3 M4 M5] Hn Ha Ha' HU Hi Hf. split.
  - intros bn Hbn. destruct (Z.eqb_spec bn n); [|by auto]. intros _. split; [lia|done].
  - done.
  - intros bn bn' H1 H2. destruct (Z.eqb_spec bn n), (Z.eqb_spec bn' n); subst; auto.
    + intros E _. by destruct (Hf bn' H2).
    + intros E _. by destruct (Hf bn H1).
  - intros bn Hbn. destruct (Z.eqb_spec bn n); auto.
  - intros bn Hbn Hlt. destruct (Z.eqb_spec bn n); [lia|]. auto.
Qed.

(** The first indirect block. *)
Lemma map_ok_ind sb U am size a :
  map_ok sb U am 0 size -> data0 sb <= a < sb_size sb -> U a = true ->
  (forall bn, 0 <= bn < MAXFILE -> am bn <> a) -> map_ok sb U am a size.
Proof. intros [M1 M2 M3 M4 M5] Ha HU Hf. by split; auto. Qed.

Lemma map_ok_size sb U am ix size size' : map_ok sb U am ix size -> (forall bn, 0 <= bn -> bn * BSIZE < size' -> am bn <> 0) -> map_ok sb U am ix size'.
Proof. intros [M1 M2 M3 M4 M5] H. by split. Qed.

(** * Lookup under changes *)

Lemma addr_insert V d b v bn : b <> ind d -> addr_of (<[b := v]> V) d bn = addr_of V d bn.
Proof. intros Hb. unfold addr_of. rewrite lookup_insert_ne by done. done. Qed.

Lemma addr_ext V V' d bn : V' !! ind d = V !! ind d -> addr_of V' d bn = addr_of V d bn.
Proof. intros E. unfold addr_of. by rewrite E. Qed.

Lemma holds_ext V V' d b : V' !! ind d = V !! ind d -> holds V' d b <-> holds V d b.
Proof. intros E. unfold holds. by setoid_rewrite (addr_ext V V' d _ E). Qed.

Lemma addr_direct V d bn : bn < NDIRECT -> addr_of V d bn = default 0 (zlookup (di_addrs d) bn).
Proof. intros H. unfold addr_of. by destruct (Z.ltb_spec bn NDIRECT); [|lia]. Qed.

Lemma addr_indirect V d bn : NDIRECT <= bn -> ind d <> 0 -> addr_of V d bn = num32 (4 * (bn - NDIRECT)) (default [] (V !! ind d)).
Proof.
  intros H Hi. unfold addr_of. destruct (Z.ltb_spec bn NDIRECT); [lia|]. by destruct (Z.eqb_spec (ind d) 0).
Qed.

(** The inode with entry [j] set. *)
Definition put_daddr (j a : Z) (d : dinode) : dinode := set_diaddrs (<[Z.to_nat j := a]> (di_addrs d)) d.

Lemma zlookup_insert {A} (l : list A) i j (x : A) : 0 <= i < len l -> 0 <= j -> zlookup (<[Z.to_nat i := x]> l) j = if j =? i then Some x else zlookup l j.
Proof.
  intros Hi Hj. unfold zlookup. destruct (Z.leb_spec 0 j); [|lia]. destruct (Z.eqb_spec j i) as [->|].
  - apply list_lookup_insert_eq. lia.
  - apply list_lookup_insert_ne. lia.
Qed.

Lemma ind_put_direct d j a : 0 <= j < NDIRECT -> len (di_addrs d) = NDIRECT + 1 -> ind (put_daddr j a d) = ind d.
Proof. intros Hj Hl. unfold ind, put_daddr. simpl. rewrite zlookup_insert by (unfold NDIRECT in *; lia). by destruct (Z.eqb_spec NDIRECT j); [lia|]. Qed.

Lemma ind_put_ind d a : len (di_addrs d) = NDIRECT + 1 -> ind (put_daddr NDIRECT a d) = a.
Proof. intros Hl. unfold ind, put_daddr. simpl. rewrite zlookup_insert by (unfold NDIRECT in *; lia). done. Qed.

Lemma addr_put_direct V d j a bn : 0 <= j < NDIRECT -> len (di_addrs d) = NDIRECT + 1 -> 0 <= bn ->
  addr_of V (put_daddr j a d) bn = if bn =? j then a else addr_of V d bn.
Proof.
  intros Hj Hl Hbn. unfold addr_of. rewrite ind_put_direct by done. unfold put_daddr. simpl.
  destruct (Z.ltb_spec bn NDIRECT).
  - rewrite zlookup_insert by lia. by destruct (Z.eqb_spec bn j).
  - by destruct (Z.eqb_spec bn j); [lia|].
Qed.

Lemma num32_zeros off : 0 <= off -> num32 off zeros = 0.
Proof.
  intros Ho. unfold num32, slice, zeros. rewrite drop_replicate, take_replicate. generalize (Z.to_nat 4 `min` (Z.to_nat BSIZE - Z.to_nat off))%nat.
  intros n. unfold le_num. induction n as [|n IH]; [done|]. simpl. lia.
Qed.

(** A fresh indirect block has no entries. *)
Lemma addr_put_ind V d a bn : len (di_addrs d) = NDIRECT + 1 -> ind d = 0 -> V !! a = Some zeros -> 0 <= bn ->
  addr_of V (put_daddr NDIRECT a d) bn = addr_of V d bn.
Proof.
  intros Hl Hi Ha Hbn. destruct (Z.ltb_spec bn NDIRECT).
  - rewrite !addr_direct by done. unfold put_daddr. simpl. rewrite zlookup_insert by lia. by destruct (Z.eqb_spec bn NDIRECT); [lia|].
  - unfold addr_of. rewrite ind_put_ind, Hi by done. destruct (Z.ltb_spec bn NDIRECT); [lia|]. simpl.
    destruct (a =? 0); [done|]. rewrite Ha. simpl. rewrite num32_zeros; [done|lia].
Qed.

(** An entry of the indirect block is set. *)
Lemma addr_put_entry V d n a da bn : NDIRECT <= n < MAXFILE -> 0 <= bn < MAXFILE -> ind d <> 0 -> V !! ind d = Some da -> len da = BSIZE -> 0 <= a < 2 ^ 32 ->
  addr_of (<[ind d := splice (4 * (n - NDIRECT)) (le_bytes 4 a) da]> V) d bn = if bn =? n then a else addr_of V d bn.
Proof.
  intros Hn Hbn Hi Hda Hl Ha. destruct (Z.ltb_spec bn NDIRECT).
  - rewrite !addr_direct by done. by destruct (Z.eqb_spec bn n); [lia|].
  - rewrite !addr_indirect by done. rewrite lookup_insert_eq, Hda. cbn [from_option id]. unfold MAXFILE, NINDIRECT, BSIZE in *.
    change (NDIRECT + 1024 / 4) with 268 in *. unfold NDIRECT in *. destruct (Z.eqb_spec bn n) as [->|Hne].
    + rewrite num32_put by lia. by apply u32_small.
    + rewrite num32_put_other by lia. done.
Qed.

Lemma byte_zeros k : byte_at zeros k = 0.
Proof.
  unfold byte_at, zlookup. destruct (0 <=? k); [|done]. unfold zeros. destruct (replicate _ _ !! _) as [x|] eqn:E; [|done].
  by apply lookup_replicate_1 in E as [-> _].
Qed.

(** * Contents *)

(** Byte [off] of the file; what is not allocated reads as zero. *)
Definition fbyte (V : gmap Z bytes) (d : dinode) (off : Z) : Z :=
  let a := addr_of V d (off / BSIZE) in
  if a =? 0 then 0 else byte_at (default [] (V !! a)) (off mod BSIZE).

(** The contents. *)
Definition fdata (V : gmap Z bytes) (d : dinode) : bytes := (fun k => fbyte V d (Z.of_nat k)) <$> seq 0 (Z.to_nat (di_size d)).

(** The inode's blocks may have changed and new ones may have been taken; blocks
    in use that it does not own are the same. *)
Record extends (sb : superblock) (V : gmap Z bytes) (d : dinode) (V' : gmap Z bytes) (d' : dinode) : Prop := mk_extends {
  ex_ok : ino_ok sb V' d';
  ex_fields : d' = set_disize (di_size d') (set_diaddrs (di_addrs d') d);
  ex_frame : forall b, (0 <= b < sb_size sb -> used sb V b = true) -> ~ in_map sb b -> ~ holds V d b -> V' !! b = V !! b;
  ex_used : forall b, 0 <= b < sb_size sb -> used sb V b = true -> used sb V' b = true;
  ex_new : forall b, 0 <= b < sb_size sb -> used sb V' b = true -> used sb V b = true \/ holds V' d' b;
  ex_addr : forall bn, 0 <= bn < MAXFILE -> addr_of V d bn <> 0 -> addr_of V' d' bn = addr_of V d bn;
  ex_ind : ind d <> 0 -> ind d' = ind d;
  ex_fresh : forall b, holds V' d' b -> holds V d b \/ used sb V b = false;
  ex_dom : forall b, is_Some (V !! b) -> is_Some (V' !! b);
}.

Lemma holds_data sb V d b : ino_ok sb V d -> holds V d b -> data0 sb <= b < sb_size sb /\ used sb V b = true.
Proof. intros [_ _ M] [Hb [->|(bn & Hbn & <-)]]; [by apply M|]. by apply (mo_data _ _ _ _ _ M). Qed.

Lemma extends_holds sb V d V' d' b : extends sb V d V' d' -> holds V d b -> holds V' d' b.
Proof.
  intros X [Hb [->|(bn & Hbn & E)]]; (split; [done|]).
  - left. symmetry. by apply (ex_ind _ _ _ _ _ X).
  - right. exists bn. split; [done|]. rewrite (ex_addr _ _ _ _ _ X bn Hbn); congruence.
Qed.

Lemma extends_refl sb V d : ino_ok sb V d -> extends sb V d V d.
Proof. intros Hok. split; auto. by destruct d. Qed.

Lemma extends_trans sb V d V1 d1 V2 d2 : ino_ok sb V d -> data0 sb >= 0 -> extends sb V d V1 d1 -> extends sb V1 d1 V2 d2 -> extends sb V d V2 d2.
Proof.
  intros Hok Hd0 X Y. split.
  - apply Y.
  - rewrite (ex_fields _ _ _ _ _ Y), (ex_fields _ _ _ _ _ X). done.
  - intros b Hu Hm Hh. rewrite (ex_frame _ _ _ _ _ Y b).
    + by apply X.
    + intros Hb. apply X; auto.
    + done.
    + intros Hh'. destruct (ex_fresh _ _ _ _ _ X b Hh') as [?|Hf]; [done|].
      destruct (holds_data _ _ _ _ (ex_ok _ _ _ _ _ X) Hh') as [Hr _]. rewrite Hu in Hf by lia. done.
  - intros b Hb Hu. apply Y; [done|]. by apply X.
  - intros b Hb Hu. destruct (ex_new _ _ _ _ _ Y b Hb Hu) as [H1|]; [|by right]. destruct (ex_new _ _ _ _ _ X b Hb H1); [by left|right]. by eapply extends_holds.
  - intros bn Hbn Hne. rewrite (ex_addr _ _ _ _ _ Y bn Hbn); [exact (ex_addr _ _ _ _ _ X bn Hbn Hne)|]. by rewrite (ex_addr _ _ _ _ _ X bn Hbn Hne).
  - intros Hi. rewrite (ex_ind _ _ _ _ _ Y); [exact (ex_ind _ _ _ _ _ X Hi)|]. by rewrite (ex_ind _ _ _ _ _ X Hi).
  - intros b Hb. destruct (ex_fresh _ _ _ _ _ Y b Hb) as [H1|H1]; [by apply X|]. right.
    destruct (holds_data _ _ _ _ (ex_ok _ _ _ _ _ Y) Hb) as [Hr _].
    destruct (used sb V b) eqn:E; [|done]. rewrite (ex_used _ _ _ _ _ X b) in H1; [done|lia|done].
  - intros b Hb. by apply Y, X.
Qed.

Section extends.
Context {start : Z} {sb : superblock} (FL : fs_layout start sb).

Lemma data_not_map b : data0 sb <= b -> ~ in_map sb b.
Proof. unfold in_map. lia. Qed.

Lemma took_lookup V a b : 0 <= a < sb_size sb -> b <> a -> ~ in_map sb b -> took sb a V !! b = V !! b.
Proof using FL.
  intros Ha Hb Hm. unfold took, mark. destruct (bblock_range FL a Ha) as [_ Hma].
  rewrite !lookup_insert_ne; [done| |done]. by intros <-.
Qed.

(** The two ways in which a block [a] becomes block [n] of the file. *)
Lemma extends_link V d V' d' n a :
  ino_ok sb V d -> 0 <= n < MAXFILE -> addr_of V d n = 0 -> data0 sb <= a < sb_size sb -> used sb V a = false ->
  (forall b, b <> a -> ~ in_map sb b -> (b = ind d -> ind d = 0) -> V' !! b = V !! b) -> (forall b, is_Some (V !! b) -> is_Some (V' !! b)) ->
  (forall c, 0 <= c < sb_size sb -> used sb V' c = (a =? c) || used sb V c) -> V' !! a = Some zeros ->
  len (di_addrs d') = NDIRECT + 1 -> d' = set_diaddrs (di_addrs d') d -> ind d' = ind d ->
  (forall bn, 0 <= bn < MAXFILE -> addr_of V' d' bn = if bn =? n then a else addr_of V d bn) ->
  extends sb V d V' d' /\ forall o, 0 <= o < MAXFILE * BSIZE -> fbyte V' d' o = fbyte V d o.
Proof using FL.
  intros Hok Hn H0 Ha Hua HV Hdom HU Hz Hl Hf Hi Ham. pose proof (data0_pos FL) as Hd0. pose proof Hok as [Hlen Hsz M].
  assert (forall bn, 0 <= bn < MAXFILE -> addr_of V d bn <> a) as Hnew.
  { intros bn Hbn E. destruct (mo_data _ _ _ _ _ M bn Hbn) as [_ Hu]; [lia|]. congruence. }
  assert (a <> ind d) as Hai. { intros E. destruct (mo_ind _ _ _ _ _ M) as [_ Hu]; [lia|]. congruence. }
  assert (forall b, holds V' d' b <-> b = a \/ holds V d b) as Hholds.
  { intros b. unfold holds. rewrite Hi. split.
    - intros [Hb [->|(bn & Hbn & E)]]; [by eauto|]. rewrite Ham in E by done. destruct (Z.eqb_spec bn n); [by left|]. right. eauto.
    - intros [->|[Hb [->|(bn & Hbn & E)]]]; [|by auto|].
      + split; [lia|]. right. exists n. split; [done|]. rewrite Ham, Z.eqb_refl by done. done.
      + split; [done|]. right. exists bn. split; [done|]. rewrite Ham by done. destruct (Z.eqb_spec bn n) as [->|]; [congruence|done]. }
  split; [split|].
  - split; [done|rewrite Hf; done|]. rewrite Hi, Hf. simpl.
    eapply map_ok_ext; [|exact Ham|apply Hsz|apply (map_ok_link _ _ _ _ _ n a)].
    + intros b Hb Hu. exact Hu.
    + eapply map_ok_ext; [|done|apply Hsz|exact M]. intros b Hb Hu. rewrite HU by lia. by rewrite Hu, orb_true_r.
    + done.
    + lia.
    + lia.
    + rewrite HU by lia. by rewrite Z.eqb_refl.
    + done.
    + done.
  - rewrite Hf. by destruct d.
  - intros b Hu Hm Hh. apply HV; [|done|].
    + intros ->. rewrite Hu in Hua by lia. done.
    + intros ->. destruct (decide (ind d = 0)) as [E|E]; [done|]. destruct Hh. by split; [|left].
  - intros b Hb Hu. rewrite HU by done. by rewrite Hu, orb_true_r.
  - intros b Hb Hu. rewrite HU in Hu by done. apply orb_true_iff in Hu as [->%Z.eqb_eq|Hu]; [right|by left]. apply Hholds. by left.
  - intros bn Hbn Hne. rewrite Ham by done. destruct (Z.eqb_spec bn n) as [->|]; [congruence|done].
  - done.
  - intros b [->|Hb]%Hholds; [by right|by left].
  - done.
  - intros o Ho. assert (0 <= o / BSIZE < MAXFILE) as Hbn.
    { split; [apply Z.div_pos; [lia|done]|apply Z.div_lt_upper_bound; [done|lia]]. }
    unfold fbyte. rewrite Ham by done. destruct (Z.eqb_spec (o / BSIZE) n) as [->|].
    + rewrite H0, Hz. simpl. destruct (Z.eqb_spec a 0); [done|]. apply byte_zeros.
    + destruct (Z.eqb_spec (addr_of V d (o / BSIZE)) 0) as [|Hne]; [done|]. destruct (mo_data _ _ _ _ _ M _ Hbn Hne) as [Hr Hu].
      rewrite HV; [done|congruence|by apply data_not_map; lia|]. intros E. by destruct (mo_sep _ _ _ _ _ M _ Hbn Hne).
Qed.

Lemma extends_direct V d j a :
  ino_ok sb V d -> map_Forall (fun _ => block_sized) V -> covers sb V -> 0 <= j < NDIRECT -> addr_of V d j = 0 ->
  data0 sb <= a < sb_size sb -> used sb V a = false ->
  extends sb V d (took sb a V) (put_daddr j a d) /\ forall o, 0 <= o < MAXFILE * BSIZE -> fbyte (took sb a V) (put_daddr j a d) o = fbyte V d o.
Proof using FL.
  intros Hok Hs Hcov Hj H0 Ha Hua. pose proof (data0_pos FL) as Hd0. pose proof Hok as [Hlen Hsz M].
  destruct (bblock_range FL a ltac:(lia)) as [_ Hma]. destruct (map_home FL _ Hma) as [_ Hr].
  assert (took sb a V !! ind d = V !! ind d) as Ei.
  { destruct (decide (ind d = 0)) as [E|E].
    - rewrite E. apply took_lookup; [lia|lia|]. unfold in_map. lia.
    - destruct (mo_ind _ _ _ _ _ M E) as [Hr' Hu]. apply took_lookup; [lia|congruence|by apply data_not_map; lia]. }
  apply (extends_link V d _ _ j a); try done.
  - unfold MAXFILE, NINDIRECT, NDIRECT, BSIZE in *. change (1024 / 4) with 256. lia.
  - intros b Hb Hm _. apply took_lookup; [lia|done|done].
  - intros b Hb. unfold took, mark. by do 2 apply is_Some_insert.
  - intros c Hc. apply (used_took FL); [done|done|done|]. by apply Hcov.
  - apply lookup_insert_eq.
  - unfold put_daddr. simpl. by rewrite length_insert.
  - by apply ind_put_direct.
  - intros bn Hbn. rewrite addr_put_direct by (done || lia). by rewrite (addr_ext V (took sb a V) d bn Ei).
Qed.

Lemma extends_entry V d n a da :
  ino_ok sb V d -> map_Forall (fun _ => block_sized) V -> covers sb V -> NDIRECT <= n < MAXFILE -> ind d <> 0 -> addr_of V d n = 0 ->
  data0 sb <= a < sb_size sb -> used sb V a = false -> V !! ind d = Some da ->
  let V' := <[ind d := splice (4 * (n - NDIRECT)) (le_bytes 4 a) da]> (took sb a V) in
  extends sb V d V' d /\ forall o, 0 <= o < MAXFILE * BSIZE -> fbyte V' d o = fbyte V d o.
Proof using FL.
  intros Hok Hs Hcov Hn Hi H0 Ha Hua Hda V'. pose proof (data0_pos FL) as Hd0. pose proof Hok as [Hlen Hsz M]. pose proof (fl_data _ _ FL) as Hsize.
  destruct (bblock_range FL a ltac:(lia)) as [_ Hma]. destruct (map_home FL _ Hma) as [_ Hr].
  destruct (mo_ind _ _ _ _ _ M Hi) as [Hr' Hu].
  assert (took sb a V !! ind d = Some da) as Ei by (rewrite took_lookup; [done|lia|congruence|by apply data_not_map; lia]).
  assert (0 <= n) by (unfold NDIRECT in *; lia).
  apply (extends_link V d _ _ n a); try done.
  - lia.
  - intros b Hb Hm Hbi. unfold V'. rewrite lookup_insert_ne by (intros <-; by apply Hi, Hbi). apply took_lookup; [lia|done|done].
  - intros b Hb. unfold V', took, mark. by do 3 apply is_Some_insert.
  - intros c Hc. unfold V'. rewrite (used_insert FL); [|done|by apply data_not_map; lia]. apply (used_took FL); [done|done|done|]. by apply Hcov.
  - unfold V'. rewrite lookup_insert_ne by congruence. apply lookup_insert_eq.
  - by destruct d.
  - intros bn Hbn. unfold V'. rewrite addr_put_entry; [|done|done|done|done|by apply (Hs (ind d))|lia].
    rewrite (addr_ext V (took sb a V) d bn); [done|]. by rewrite Ei, Hda.
Qed.

(** The indirect block itself. *)
Lemma extends_ind V d a :
  ino_ok sb V d -> map_Forall (fun _ => block_sized) V -> covers sb V -> ind d = 0 ->
  data0 sb <= a < sb_size sb -> used sb V a = false ->
  extends sb V d (took sb a V) (put_daddr NDIRECT a d) /\
  forall o, 0 <= o < MAXFILE * BSIZE -> fbyte (took sb a V) (put_daddr NDIRECT a d) o = fbyte V d o.
Proof using FL.
  intros Hok Hs Hcov Hi Ha Hua. pose proof (data0_pos FL) as Hd0. pose proof Hok as [Hlen Hsz M].
  destruct (bblock_range FL a ltac:(lia)) as [_ Hma]. destruct (map_home FL _ Hma) as [_ Hr].
  assert (forall bn, 0 <= bn < MAXFILE -> addr_of V d bn <> a) as Hnew.
  { intros bn Hbn E. destruct (mo_data _ _ _ _ _ M bn Hbn) as [_ Hu]; [lia|]. congruence. }
  assert (forall b, b <> a -> ~ in_map sb b -> took sb a V !! b = V !! b) as HV by (intros; apply took_lookup; [lia|done|done]).
  assert (forall bn, 0 <= bn < MAXFILE -> addr_of (took sb a V) (put_daddr NDIRECT a d) bn = addr_of V d bn) as Ham.
  { intros bn Hbn. rewrite addr_put_ind; [|done|done|apply lookup_insert_eq|lia]. apply addr_ext. rewrite Hi. apply HV; [lia|unfold in_map; lia]. }
  assert (forall c, 0 <= c < sb_size sb -> used sb (took sb a V) c = (a =? c) || used sb V c) as HU.
  { intros c Hc. apply (used_took FL); [done|done|done|]. by apply Hcov. }
  assert (forall b, holds (took sb a V) (put_daddr NDIRECT a d) b <-> b = a \/ holds V d b) as Hholds.
  { intros b. unfold holds. rewrite ind_put_ind, Hi by done. split.
    - intros [Hb [->|(bn & Hbn & E)]]; [by left|]. rewrite Ham in E by done. right. eauto.
    - intros [->|[Hb [->|(bn & Hbn & E)]]]; [split; [lia|by left]|done|]. split; [done|]. right. exists bn. split; [done|]. by rewrite Ham. }
  split; [split|].
  - split; [unfold put_daddr; simpl; by rewrite length_insert|done|]. rewrite ind_put_ind by done. simpl.
    eapply map_ok_ext; [|exact Ham|apply Hsz|apply map_ok_ind]; [done| |done| |done].
    + rewrite <- Hi. eapply map_ok_ext; [|done|apply Hsz|exact M]. intros b Hb Hu. rewrite HU by lia. by rewrite Hu, orb_true_r.
    + rewrite HU by lia. by rewrite Z.eqb_refl.
  - by destruct d.
  - intros b Hu Hm Hh. apply HV; [|done]. intros ->. rewrite Hu in Hua by lia. done.
  - intros b Hb Hu. rewrite HU by done. by rewrite Hu, orb_true_r.
  - intros b Hb Hu. rewrite HU in Hu by done. apply orb_true_iff in Hu as [->%Z.eqb_eq|Hu]; [right|by left]. apply Hholds. by left.
  - intros bn Hbn _. by apply Ham.
  - done.
  - intros b [->|Hb]%Hholds; [by right|by left].
  - intros b Hb. unfold took, mark. by do 2 apply is_Some_insert.
  - intros o Ho. assert (0 <= o / BSIZE < MAXFILE) as Hbn.
    { split; [apply Z.div_pos; [lia|done]|apply Z.div_lt_upper_bound; [done|lia]]. }
    unfold fbyte. rewrite Ham by done. destruct (Z.eqb_spec (addr_of V d (o / BSIZE)) 0) as [|Hne]; [done|].
    destruct (mo_data _ _ _ _ _ M _ Hbn Hne) as [Hr2 Hu]. rewrite HV; [done|congruence|by apply data_not_map; lia].
Qed.

(** Writing to a block of the file. *)
Lemma extends_write V d bn v :
  ino_ok sb V d -> 0 <= bn < MAXFILE -> addr_of V d bn <> 0 ->
  extends sb V d (<[addr_of V d bn := v]> V) d /\
  forall o, 0 <= o < MAXFILE * BSIZE -> fbyte (<[addr_of V d bn := v]> V) d o = if o / BSIZE =? bn then byte_at v (o mod BSIZE) else fbyte V d o.
Proof using FL.
  intros Hok Hbn Hne. pose proof (data0_pos FL) as Hd0. pose proof Hok as [Hlen Hsz M].
  destruct (mo_data _ _ _ _ _ M _ Hbn Hne) as [Hr Hu]. pose proof (mo_sep _ _ _ _ _ M _ Hbn Hne) as Hsep. set (a := addr_of V d bn) in *.
  assert (forall n, addr_of (<[a := v]> V) d n = addr_of V d n) as Ham by (intros n; by apply addr_insert).
  assert (forall b, holds (<[a := v]> V) d b <-> holds V d b) as Hholds by (intros b; apply holds_ext, lookup_insert_ne; done).
  assert (forall b, 0 <= b < sb_size sb -> used sb (<[a := v]> V) b = used sb V b) as HU.
  { intros b Hb. apply (used_insert FL); [done|by apply data_not_map; lia]. }
  split; [split|].
  - split; [done|done|]. eapply map_ok_ext; [|intros n _; apply Ham|apply Hsz|exact M]. intros b Hb Hu'. by rewrite HU by lia.
  - by destruct d.
  - intros b Hu' Hm Hh. apply lookup_insert_ne. intros <-. apply Hh. split; [done|]. right. by exists bn.
  - intros b Hb Hu'. by rewrite HU.
  - intros b Hb Hu'. rewrite HU in Hu' by done. by left.
  - intros n Hn _. apply Ham.
  - done.
  - intros b Hb. left. by apply Hholds.
  - intros b Hb. by apply is_Some_insert.
  - intros o Ho. assert (0 <= o / BSIZE < MAXFILE) as Hbn'.
    { split; [apply Z.div_pos; [lia|done]|apply Z.div_lt_upper_bound; [done|lia]]. }
    unfold fbyte. rewrite Ham. destruct (Z.eqb_spec (o / BSIZE) bn) as [->|Hn].
    + fold a. destruct (Z.eqb_spec a 0); [done|]. by rewrite lookup_insert_eq.
    + destruct (Z.eqb_spec (addr_of V d (o / BSIZE)) 0) as [|Hne']; [done|]. rewrite lookup_insert_ne; [done|].
      intros E. apply Hn. by apply (mo_inj _ _ _ _ _ M).
Qed.

(** A larger file. *)
Lemma extends_size V d V' d' size :
  extends sb V d V' d' -> 0 <= size <= MAXFILE * BSIZE -> (forall bn, 0 <= bn -> bn * BSIZE < size -> addr_of V' d' bn <> 0) ->
  extends sb V d V' (set_disize size d').
Proof.
  intros X Hs Hf. assert (forall bn, addr_of V' (set_disize size d') bn = addr_of V' d' bn) as Ham by done.
  destruct X as [[Hlen Hsz M] X2 X3 X4 X5 X6 X7 X8 X9]. split; try done.
  - split; [done|done|]. eapply map_ok_size; [exact M|done].
  - rewrite X2. done.
Qed.

End extends.
