(* ===== verification/XvFsFile.v ===== *)
(** Reading and writing the contents of a locked inode. *)

From S2P Require Import Prelude XvMem XvFsTypes XvKernel XvMsg XvSched XvSchedProofs XvBio XvBlock XvLog XvFsLogic XvBioList XvBioProofs XvBioSpec XvLogProofs XvLogCommit XvLogCrash XvLogTx XvFs XvFsBits XvFsTx XvFsBlocks XvFsMap.
Import Fs.

Set Default Proof Using "Type".

(** All blocks are there, and those before the data are not free. *)
Definition disk_ok (sb : superblock) (V : gmap Z bytes) : Prop := covers sb V /\ meta_used sb V.

Lemma extends_disk_ok sb V d V' d' : data0 sb <= sb_size sb -> extends sb V d V' d' -> disk_ok sb V -> disk_ok sb V'.
Proof.
  intros Hd X [H1 H2]. split.
  - intros b Hb. by apply X, H1.
  - intros b Hb. apply X; [lia|]. by apply H2.
Qed.

Lemma insert_lookup_id {A} (T : list A) k x y : T !! k = Some x -> <[k := y]> T !! k = Some y.
Proof. intros H. apply list_lookup_insert_eq. by eapply lookup_lt_Some. Qed.

Lemma set_id_put j a x : put_addr j a x = set_id (put_daddr j a (i_d x)) x.
Proof. done. Qed.

Section file.
Context {AM : Ambient} {BD : BlockDev} {rely : protocol} {BL : BlockDevLaws BD rely} (i : nat) (p : proc) (dev start : Z).
Context (o : Z) (K : platter) (sb : superblock) (cn : above) (FL : fs_layout start sb).
Notation wpf := (wpf (rely := rely) i p).
Notation fstx := (fstx (BL := BL) p dev start o K sb cn).
Implicit Types (T : list inode) (S : gmap sleepid sleeplock) (V : gmap Z bytes) (H : held) (lh : list Z) (f : fsst) (sl : gmap sleepid sleeplock).

(** * The block map *)

Lemma ind_zlookup d : len (di_addrs d) = NDIRECT + 1 -> zlookup (di_addrs d) NDIRECT = Some (ind d).
Proof. intros Hl. unfold ind. destruct (zlookup_lt (di_addrs d) NDIRECT) as [a ->]; [unfold NDIRECT in *; lia|done]. Qed.

Lemma direct_zlookup V d bn : len (di_addrs d) = NDIRECT + 1 -> 0 <= bn < NDIRECT -> zlookup (di_addrs d) bn = Some (addr_of V d bn).
Proof. intros Hl Hb. rewrite addr_direct by lia. destruct (zlookup_lt (di_addrs d) bn) as [a ->]; [lia|done]. Qed.

Lemma bn_entry_range bn : NDIRECT <= bn < MAXFILE -> 0 <= 4 * (bn - NDIRECT) /\ 4 * (bn - NDIRECT) + 4 <= BSIZE /\ (bn - NDIRECT <? NINDIRECT) = true.
Proof. unfold MAXFILE, NINDIRECT, NDIRECT, BSIZE. change (1024 / 4) with 256. intros Hb. split; [lia|]. split; [lia|]. apply Z.ltb_lt. lia. Qed.

Lemma ft_bmap_read T S V lh f sl k x bn (Q : Z -> list lockid -> fsst -> gmap sleepid sleeplock -> Prop) :
  fstx T S V ∅ lh f sl -> T !! k = Some x -> i_dev x = dev -> ino_ok sb V (i_d x) -> disk_ok sb V -> 0 <= bn < MAXFILE ->
  addr_of V (i_d x) bn <> 0 -> budget 1 ∅ lh ->
  (forall f' sl', fstx T S V ∅ lh f' sl' -> Q (addr_of V (i_d x) bn) [] f' sl') ->
  wpf [] (bmap (ip_ptr k) bn) f sl Q.
Proof using FL.
  intros X Hk Hdev Hok [Hcov Hmeta] Hbn Hne Hbud HQ. pose proof Hok as [Hlen Hsz M]. pose proof (data0_pos FL) as Hd0.
  unfold bmap. destruct (Z.ltb_spec bn NDIRECT) as [Hlt|Hge].
  - apply wpf_bind. eapply ft_ip_addr; [exact X|exact Hk|apply (direct_zlookup V); [done|lia]|].
    destruct (Z.eqb_spec (addr_of V (i_d x) bn) 0); [done|]. by apply wpf_ret, HQ.
  - destruct (bn_entry_range bn) as (E1 & E2 & ->); [lia|].
    assert (ind (i_d x) <> 0) as Hi.
    { intros E. apply Hne. unfold addr_of. rewrite E. by destruct (Z.ltb_spec bn NDIRECT); [lia|]. }
    destruct (mo_ind _ _ _ _ _ M Hi) as [Hr Hu]. destruct (Hcov (ind (i_d x))) as [da Hda]; [lia|].
    apply wpf_bind. eapply ft_ip_addr; [exact X|exact Hk|by apply ind_zlookup|]. destruct (Z.eqb_spec (ind (i_d x)) 0); [done|].
    apply wpf_bind, wpf_ret. destruct (Z.eqb_spec (ind (i_d x)) 0); [done|].
    apply wpf_bind. eapply ft_get_ip; [exact X|exact Hk|]. rewrite Hdev.
    apply wpf_bind. eapply ft_bread; [exact X|exact Hda|done|right; by apply budget_room|]. intros t f1 sl1 X1.
    apply wpf_bind. eapply ft_get; [exact X1|apply lookup_insert_eq|done|lia|done|].
    assert (le_num (slice (4 * (bn - NDIRECT)) 4 da) = addr_of V (i_d x) bn) as -> by (rewrite addr_indirect, Hda by done; done).
    destruct (Z.eqb_spec (addr_of V (i_d x) bn) 0); [done|]. apply wpf_bind, wpf_ret, wpf_bind.
    eapply ft_brelse; [exact X1|apply lookup_insert_eq|exact Hda|]. intros f2 sl2 X2. rewrite delete_insert_id in X2 by done. by apply wpf_ret, HQ.
Qed.

(** Free-map blocks that are written for a data block at [a], and for an indirect
    block. *)
Definition fresh (a : Z) : nat := if a =? 0 then 1%nat else 0%nat.
Definition new_ind (d d' : dinode) : nat := if (ind d =? 0) && negb (ind d' =? 0) then 1%nat else 0%nat.

(** What [bmap] may do: take blocks, of which it logs at most four, and leave the
    contents as they are. *)
Record mapped_to bn V d lh V' d' lh' : Prop := mk_mapped_to {
  mt_ext : extends sb V d V' d';
  mt_bytes : forall off, 0 <= off < MAXFILE * BSIZE -> fbyte V' d' off = fbyte V d off;
  mt_size : di_size d' = di_size d;
  mt_log : exists ms, (length ms <= fresh (addr_of V d bn) + new_ind d d')%nat /\
    forall b, b ∈ lh' -> b ∈ lh \/ b ∈ ms \/ b <> 0 /\ (b = ind d' \/ b = addr_of V' d' bn);
  mt_len : (length lh' <= length lh + 4)%nat;
  mt_full : addr_of V' d' bn = 0 -> forall b, 0 <= b < sb_size sb -> used sb V' b = true;
}.

Lemma mapped_refl bn V d lh :
  ino_ok sb V d -> (addr_of V d bn = 0 -> forall b, 0 <= b < sb_size sb -> used sb V b = true) -> mapped_to bn V d lh V d lh.
Proof. intros Hok Hf. split; [by apply extends_refl|done|done| |lia|done]. exists []. split; [simpl; lia|auto]. Qed.

(** The block that was allocated and its entry in the free map are logged. *)
Lemma took_logged a lh b : 0 < a < sb_size sb -> b ∈ logging a (logging (BBLOCK a sb) lh) -> b ∈ lh \/ b = BBLOCK a sb \/ b <> 0 /\ b = a.
Proof. intros Ha. rewrite !elem_of_logging. intros [->|[->|?]]; auto. right. right. split; [lia|done]. Qed.

Lemma took_length a b lh : (length (logging a (logging b lh)) <= length lh + 2)%nat.
Proof. pose proof (logging_length a (logging b lh)). pose proof (logging_length b lh). lia. Qed.

Lemma logged3 c a b lh : (length (logging c (logging a (logging b lh))) <= length (logging c lh) + 2)%nat.
Proof.
  pose proof (took_length a b lh). destruct (decide (c ∈ lh)) as [Hc|Hc].
  - assert (c ∈ logging a (logging b lh)) by (rewrite !elem_of_logging; auto). unfold logging at 1. rewrite decide_True by done.
    unfold logging at 3. rewrite decide_True by done. lia.
  - pose proof (logging_length c (logging a (logging b lh))). unfold logging at 4. rewrite decide_False by done. rewrite length_app. simpl. lia.
Qed.

(** An entry of the indirect block that is missing. *)
Lemma ft_bmap_entry T S V lh f sl k x bn (Q : Z -> list lockid -> fsst -> gmap sleepid sleeplock -> Prop) :
  fstx T S V ∅ lh f sl -> T !! k = Some x -> i_dev x = dev -> ino_ok sb V (i_d x) -> disk_ok sb V -> NDIRECT <= bn < MAXFILE ->
  ind (i_d x) <> 0 -> addr_of V (i_d x) bn = 0 -> budget 3 ∅ lh -> 1 <= o ->
  (forall f' sl', fstx T S V ∅ lh f' sl' -> (forall b, 0 <= b < sb_size sb -> used sb V b = true) -> Q 0 [] f' sl') ->
  (forall V' lh' f' sl', fstx T S V' ∅ lh' f' sl' -> extends sb V (i_d x) V' (i_d x) ->
     (forall off, 0 <= off < MAXFILE * BSIZE -> fbyte V' (i_d x) off = fbyte V (i_d x) off) ->
     (exists m, forall b, b ∈ lh' -> b ∈ lh \/ b = m \/ b <> 0 /\ (b = ind (i_d x) \/ b = addr_of V' (i_d x) bn)) ->
     (length lh' <= length (logging (ind (i_d x)) lh) + 2)%nat -> addr_of V' (i_d x) bn <> 0 -> Q (addr_of V' (i_d x) bn) [] f' sl') ->
  wpf [] (bmap_entry (ip_ptr k) (ind (i_d x)) (bn - NDIRECT)) f sl Q.
Proof using FL.
  intros X Hk Hdev Hok [Hcov Hmeta] Hbn Hi E0 Hbud Ho Hno Hyes. pose proof Hok as [Hlen Hsz M]. pose proof (data0_pos FL) as Hd0. pose proof (fl_data _ _ FL) as Hsize.
  assert (0 <= bn < MAXFILE) as Hbn0 by (unfold NDIRECT in *; lia).
  destruct (bn_entry_range bn Hbn) as (E1 & E2 & _). destruct (mo_ind _ _ _ _ _ M Hi) as [Hr Hu]. destruct (Hcov (ind (i_d x))) as [da Hda]; [lia|].
  assert (map_Forall (fun _ => block_sized) V) as HsV by (by eapply fstx_view). unfold bmap_entry. apply wpf_bind. eapply ft_get_ip; [exact X|exact Hk|]. rewrite Hdev.
  apply wpf_bind. eapply ft_bread; [exact X|exact Hda|done|right; apply budget_room; eapply budget_le; [|exact Hbud]; lia|]. intros t f1 sl1 X1.
  apply wpf_bind. eapply ft_get; [exact X1|apply lookup_insert_eq|done|lia|done|].
  assert (le_num (slice (4 * (bn - NDIRECT)) 4 da) = 0) as -> by (rewrite addr_indirect, Hda in E0 by (done || lia); done). rewrite Z.eqb_refl.
  assert (held_data sb V (<[ind (i_d x) := (t, da)]> ∅)) as Hheld.
  { intros b [v Hb]. apply lookup_insert_Some in Hb as [[<- _]|[_ Hb]]; [done|]. by rewrite lookup_empty in Hb. }
  do 2 apply wpf_bind. eapply ft_balloc; [done|exact X1|done|done|done|by apply budget_held|done| |].
  - intros f2 sl2 X2 Hall. rewrite Z.eqb_refl. apply wpf_bind, wpf_ret, wpf_ret, wpf_bind.
    eapply ft_brelse; [exact X2|apply lookup_insert_eq|exact Hda|]. intros f3 sl3 X3. rewrite delete_insert_id in X3 by done. by apply wpf_ret, Hno.
  - intros a f2 sl2 Ha Hua X2. destruct (Z.eqb_spec a 0); [lia|]. do 2 apply wpf_bind.
    assert (took sb a V !! ind (i_d x) = Some da) as Htk by (rewrite (took_lookup FL); [done|lia|congruence|by apply data_not_map; lia]).
    eapply ft_put; [exact X2|apply lookup_insert_eq|done|rewrite le_bytes_length; lia|]. intros f3 X3. rewrite insert_insert_eq in X3.
    eapply ft_log; [exact X3|apply lookup_insert_eq|apply (data_home FL); lia|by eexists| |done|].
    { pose proof (took_length a (BBLOCK a sb) lh). unfold budget in Hbud. unfold LOGBLOCKS, MAXOPBLOCKS, NBUF in *. lia. }
    intros f4 X4. apply wpf_ret, wpf_bind. eapply ft_brelse; [exact X4|apply lookup_insert_eq|apply lookup_insert_eq|]. intros f5 sl5 X5.
    rewrite delete_insert_id in X5 by done. apply wpf_ret. destruct (extends_entry FL V (i_d x) bn a da) as [Y1 Y2]; try done.
    assert (addr_of (<[ind (i_d x) := splice (4 * (bn - NDIRECT)) (le_bytes 4 a) da]> (took sb a V)) (i_d x) bn = a) as Ea.
    { rewrite addr_put_entry, Z.eqb_refl; [done|done|lia|done|done|by apply (HsV (ind (i_d x)))|lia]. }
    rewrite <- Ea at 1. eapply Hyes; [exact X5|done|done| | |by rewrite Ea].
    + exists (BBLOCK a sb). intros b. rewrite elem_of_logging, Ea. intros [->|Hb]; [by auto|]. apply took_logged in Hb; [|lia]. naive_solver.
    + apply logged3.
Qed.

Lemma ft_bmap T S V lh f sl k x bn (Q : Z -> list lockid -> fsst -> gmap sleepid sleeplock -> Prop) :
  fstx T S V ∅ lh f sl -> T !! k = Some x -> i_dev x = dev -> ino_ok sb V (i_d x) -> disk_ok sb V -> 0 <= bn < MAXFILE ->
  budget 5 ∅ lh -> 1 <= o ->
  (forall V' d' lh' f' sl', fstx (<[k := set_id d' x]> T) S V' ∅ lh' f' sl' -> mapped_to bn V (i_d x) lh V' d' lh' ->
     Q (addr_of V' d' bn) [] f' sl') ->
  wpf [] (bmap (ip_ptr k) bn) f sl Q.
Proof using FL.
  intros X Hk Hdev Hok Hd Hbn Hbud Ho HQ. pose proof Hok as [Hlen Hsz M]. pose proof (data0_pos FL) as Hd0. pose proof (fl_data _ _ FL) as Hsize.
  destruct (decide (addr_of V (i_d x) bn = 0)) as [E0|Hne].
  2: { eapply (ft_bmap_read T S V lh f sl k x); [done..|eapply budget_le; [|exact Hbud]; lia|]. intros f' sl' X'.
       eapply HQ; [|by apply mapped_refl; [|intros ?]]. rewrite list_insert_id; [exact X'|]. rewrite Hk. by destruct x. }
  pose proof Hd as [Hcov Hmeta]. assert (map_Forall (fun _ => block_sized) V) as HsV by (by eapply fstx_view).
  unfold bmap. destruct (Z.ltb_spec bn NDIRECT) as [Hlt|Hge].
  - apply wpf_bind. eapply ft_ip_addr; [exact X|exact Hk|apply (direct_zlookup V); [done|lia]|]. rewrite E0, Z.eqb_refl.
    apply wpf_bind. eapply ft_get_ip; [exact X|exact Hk|]. rewrite Hdev.
    apply wpf_bind. eapply ft_balloc; [done|exact X|done|apply held_data_empty|done|eapply budget_le; [|exact Hbud]; lia|done| |].
    + intros f1 sl1 X1 Hall. rewrite Z.eqb_refl. apply wpf_ret. rewrite <- E0. eapply HQ; [|by apply mapped_refl].
      rewrite list_insert_id; [exact X1|]. rewrite Hk. by destruct x.
    + intros a f1 sl1 Ha Hua X1. destruct (Z.eqb_spec a 0); [lia|]. apply wpf_bind. eapply ft_set_ip_addr; [exact X1|exact Hk|unfold NDIRECT in *; lia|].
      intros f2 X2. apply wpf_ret. rewrite set_id_put in X2. destruct (extends_direct FL V (i_d x) bn a) as [Y1 Y2]; try done; [lia|].
      assert (addr_of (took sb a V) (put_daddr bn a (i_d x)) bn = a) as Ea by (rewrite addr_put_direct, Z.eqb_refl by (done || lia); done).
      rewrite <- Ea at 1. eapply HQ; [exact X2|]. split; [done|done|done| |pose proof (took_length a (BBLOCK a sb) lh); lia|rewrite Ea; lia].
      exists [BBLOCK a sb]. split; [unfold fresh; rewrite E0; simpl; lia|]. intros b Hb%took_logged; [|lia]. rewrite Ea. set_solver.
  - destruct (bn_entry_range bn) as (E1 & E2 & ->); [lia|]. apply wpf_bind. eapply ft_ip_addr; [exact X|exact Hk|by apply ind_zlookup|].
    destruct (Z.eqb_spec (ind (i_d x)) 0) as [Ei|Ei].
    + apply wpf_bind, wpf_bind. eapply ft_get_ip; [exact X|exact Hk|]. rewrite Hdev.
      apply wpf_bind. eapply ft_balloc; [done|exact X|done|apply held_data_empty|done|eapply budget_le; [|exact Hbud]; lia|done| |].
      * intros f1 sl1 X1 Hall. rewrite Z.eqb_refl. apply wpf_bind, wpf_ret, wpf_ret. rewrite Z.eqb_refl. apply wpf_ret.
        rewrite <- E0. eapply HQ; [|by apply mapped_refl]. rewrite list_insert_id; [exact X1|]. rewrite Hk. by destruct x.
      * intros a f1 sl1 Ha Hua X1. destruct (Z.eqb_spec a 0); [lia|]. apply wpf_bind. eapply ft_set_ip_addr; [exact X1|exact Hk|unfold NDIRECT in *; lia|].
        intros f2 X2. apply wpf_ret. destruct (Z.eqb_spec a 0); [lia|]. rewrite set_id_put in X2.
        destruct (extends_ind FL V (i_d x) a) as [Y1 Y2]; try done. set (d1 := put_daddr NDIRECT a (i_d x)) in *.
        assert (ind d1 = a) as Ei1 by (by apply ind_put_ind).
        assert (addr_of (took sb a V) d1 bn = 0) as E1'.
        { unfold d1. rewrite addr_put_ind; [|done|done|apply lookup_insert_eq|lia]. rewrite <- E0. apply addr_ext. rewrite Ei.
          apply (took_lookup FL); [lia|lia|unfold in_map; lia]. }
        rewrite <- Ei1. eapply (ft_bmap_entry _ S (took sb a V) _ f2 sl1 k (set_id d1 x)).
        -- exact X2.
        -- by eapply insert_lookup_id.
        -- done.
        -- apply Y1.
        -- eapply extends_disk_ok; [lia|exact Y1|done].
        -- lia.
        -- simpl. lia.
        -- exact E1'.
        -- by do 2 apply budget_logging.
        -- done.
        -- intros f3 sl3 X3 Hall. rewrite <- E1'. eapply HQ; [exact X3|]. split; [done|done|done| |pose proof (took_length a (BBLOCK a sb) lh); lia|done].
           exists [BBLOCK a sb]. split; [unfold fresh; rewrite E0; simpl; lia|]. intros b Hb%took_logged; [|lia]. rewrite Ei1. set_solver.
        -- intros V3 lh3 f3 sl3 X3 Z1 Z2 Z3 Z4 Z5. simpl in *. eapply HQ; [exact X3|]. split.
           ++ eapply extends_trans; [exact Hok|lia|exact Y1|exact Z1].
           ++ intros off Hoff. by rewrite Z2, Y2.
           ++ done.
           ++ destruct Z3 as [m Z3]. exists [BBLOCK a sb; m]. split.
              { unfold fresh, new_ind. rewrite E0, Ei, Ei1. simpl. destruct (Z.eqb_spec a 0); [lia|]. simpl. lia. }
              intros b Hb. destruct (Z3 b Hb) as [Hb'|[->|?]]; [|set_solver|by auto]. apply took_logged in Hb'; [|lia]. rewrite Ei1. set_solver.
           ++ rewrite Ei1 in Z4. unfold logging at 1 in Z4. rewrite decide_True in Z4 by (rewrite elem_of_logging; by left).
              pose proof (took_length a (BBLOCK a sb) lh). lia.
           ++ done.
    + apply wpf_bind, wpf_ret. destruct (Z.eqb_spec (ind (i_d x)) 0); [done|].
      eapply (ft_bmap_entry T S V lh f sl k x); [done..|lia|done|done|eapply budget_le; [|exact Hbud]; lia|done| |].
      * intros f1 sl1 X1 Hall. rewrite <- E0. eapply HQ; [|by apply mapped_refl]. rewrite list_insert_id; [exact X1|]. rewrite Hk. by destruct x.
      * intros V1 lh1 f1 sl1 X1 Z1 Z2 Z3 Z4 Z5. eapply HQ; [rewrite list_insert_id; [exact X1|rewrite Hk; by destruct x]|].
        split; [done|done|done| | |done].
        -- destruct Z3 as [m Z3]. exists [m]. split; [unfold fresh; rewrite E0; simpl; lia|]. intros b Hb%Z3. set_solver.
        -- pose proof (logging_length (ind (i_d x)) lh). lia.
Qed.

End file.
