(* ===== verification/XvFsInode.v ===== *)
(** Inodes on disk: [struct dinode] as bytes, and [iupdate]. *)

From S2P Require Import Prelude XvMem XvFsTypes XvKernel XvMsg XvSched XvSchedProofs XvBio XvBlock XvLog XvFsLogic XvBioList XvBioProofs XvBioSpec XvLogProofs XvLogCommit XvLogCrash XvLogTx XvFs XvFsBits XvFsTx XvFsBlocks XvFsMap XvFsFile.
Import Fs.

Set Default Proof Using "Type".

#[local] Opaque le_bytes.

(** * [struct dinode] *)

(** Fields that fit their types. *)
Record dinode_wf (d : dinode) : Prop := mk_dinode_wf {
  dw_type : i16 (di_type d) = di_type d;
  dw_major : i16 (di_major d) = di_major d;
  dw_minor : i16 (di_minor d) = di_minor d;
  dw_nlink : i16 (di_nlink d) = di_nlink d;
  dw_size : u32 (di_size d) = di_size d;
  dw_addrs : length (di_addrs d) = 13%nat /\ Forall (fun a => u32 a = a) (di_addrs d);
}.

Lemma i16_mod z : i16 (z mod 256 ^ 2) = i16 z.
Proof. unfold i16. change (256 ^ 2) with (2 ^ 16). by rewrite Zplus_mod_idemp_l. Qed.

Lemma length_concat_words l : length (concat (le_bytes 4 <$> l)) = (4 * length l)%nat.
Proof. induction l as [|a l IH]; [done|]. rewrite fmap_cons. cbn [concat length]. rewrite length_app, le_bytes_length, IH. lia. Qed.

Lemma dinode_bytes_length d : length (di_addrs d) = 13%nat -> length (dinode_bytes d) = 64%nat.
Proof. intros Hl. unfold dinode_bytes. rewrite !length_app, !le_bytes_length, length_concat_words, Hl. done. Qed.

Lemma slice_app_skip l1 l2 off n : len l1 <= off -> slice off n (l1 ++ l2) = slice (off - len l1) n l2.
Proof. intros Ho. unfold slice. rewrite drop_app_ge by lia. do 2 f_equal. lia. Qed.

Lemma slice_app_head n l1 l2 : len l1 = n -> slice 0 n (l1 ++ l2) = l1.
Proof. intros <-. unfold slice. rewrite Nat2Z.id, drop_0. by rewrite take_app_length. Qed.

(** The word at index [k] of an array of words. *)
Lemma words_at l k a : l !! k = Some a -> slice (4 * Z.of_nat k) 4 (concat (le_bytes 4 <$> l)) = le_bytes 4 a.
Proof.
  revert k. induction l as [|x l IH]; intros k Hk; [done|]. rewrite fmap_cons. cbn [concat].
  destruct k as [|k]; simplify_eq/=.
  - apply slice_app_head. by rewrite le_bytes_length.
  - rewrite slice_app_skip by (rewrite le_bytes_length; lia). rewrite le_bytes_length. rewrite <- (IH k Hk). f_equal. lia.
Qed.

Lemma dinode_roundtrip d : dinode_wf d -> dinode_of (dinode_bytes d) = d.
Proof.
  intros [W1 W2 W3 W4 W5 [W6 W7]]. unfold dinode_of, dinode_bytes.
  change (2 * 0) with 0. change (2 * 1) with 2. change (2 * 2) with 4. change (2 * 3) with 6. change (4 * 2) with 8.
  rewrite (slice_app_head 2) by (by rewrite le_bytes_length).
  rewrite (slice_app_skip _ _ 2) by (by rewrite le_bytes_length). rewrite le_bytes_length. change (2 - Z.of_nat 2) with 0. rewrite (slice_app_head 2) by (by rewrite le_bytes_length).
  rewrite !(slice_app_skip (le_bytes 2 (di_type d)) _ 4), !(slice_app_skip (le_bytes 2 (di_type d)) _ 6), !(slice_app_skip (le_bytes 2 (di_type d)) _ 8) by (by rewrite le_bytes_length).
  rewrite !le_bytes_length. change (4 - Z.of_nat 2) with 2. change (6 - Z.of_nat 2) with 4. change (8 - Z.of_nat 2) with 6.
  rewrite !(slice_app_skip (le_bytes 2 (di_major d)) _ 2), !(slice_app_skip (le_bytes 2 (di_major d)) _ 4), !(slice_app_skip (le_bytes 2 (di_major d)) _ 6) by (by rewrite le_bytes_length).
  rewrite !le_bytes_length. change (2 - Z.of_nat 2) with 0. change (4 - Z.of_nat 2) with 2. change (6 - Z.of_nat 2) with 4. rewrite (slice_app_head 2) by (by rewrite le_bytes_length).
  rewrite !(slice_app_skip (le_bytes 2 (di_minor d)) _ 2), !(slice_app_skip (le_bytes 2 (di_minor d)) _ 4) by (by rewrite le_bytes_length).
  rewrite !le_bytes_length. change (2 - Z.of_nat 2) with 0. change (4 - Z.of_nat 2) with 2. rewrite (slice_app_head 2) by (by rewrite le_bytes_length).
  rewrite !(slice_app_skip (le_bytes 2 (di_nlink d)) _ 2) by (by rewrite le_bytes_length). rewrite le_bytes_length. change (2 - Z.of_nat 2) with 0. rewrite (slice_app_head 4) by (by rewrite le_bytes_length).
  rewrite !le_num_bytes, !i16_mod, W1, W2, W3, W4. change (256 ^ Z.of_nat 4) with (2 ^ 32). fold (u32 (di_size d)). rewrite W5.
  destruct d as [t mj mn nl sz ad]. cbn [di_type di_major di_minor di_nlink di_size di_addrs] in *. f_equal. apply list_eq. intros k. rewrite list_lookup_fmap.
  destruct (decide (k < 13)%nat) as [Hk|Hk].
  - replace (seq 0 13 !! k) with (Some k) by (symmetry; apply lookup_seq; lia). cbn [fmap option_fmap option_map]. destruct (lookup_lt_is_Some_2 ad k) as [a Ha]; [lia|]. rewrite Ha. f_equal.
    rewrite (slice_app_skip (le_bytes 2 t)) by (rewrite le_bytes_length; lia). rewrite (slice_app_skip (le_bytes 2 mj)) by (rewrite !le_bytes_length; lia).
    rewrite (slice_app_skip (le_bytes 2 mn)) by (rewrite !le_bytes_length; lia). rewrite (slice_app_skip (le_bytes 2 nl)) by (rewrite !le_bytes_length; lia).
    rewrite (slice_app_skip (le_bytes 4 sz)) by (rewrite !le_bytes_length; lia). rewrite !le_bytes_length.
    replace (4 * (3 + Z.of_nat k) - Z.of_nat 2 - Z.of_nat 2 - Z.of_nat 2 - Z.of_nat 2 - Z.of_nat 4) with (4 * Z.of_nat k) by lia.
    rewrite (words_at _ _ a) by done. rewrite le_num_bytes. exact (Forall_lookup_1 _ _ _ _ W7 Ha).
  - rewrite (lookup_ge_None_2 ad) by lia. by rewrite lookup_ge_None_2 by (rewrite length_seq; lia).
Qed.

(** * Inodes in their blocks *)

Definition inode_at (sb : superblock) (n : Z) (V : gmap Z bytes) : dinode :=
  dinode_of (slice (dinode_off n) 64 (default [] (V !! IBLOCK n sb))).

Definition put_inode (sb : superblock) (n : Z) (d : dinode) (V : gmap Z bytes) : gmap Z bytes :=
  <[IBLOCK n sb := splice (dinode_off n) (dinode_bytes d) (default [] (V !! IBLOCK n sb))]> V.

Lemma dinode_off_range n : 0 <= dinode_off n /\ dinode_off n + 64 <= BSIZE.
Proof. unfold dinode_off, IPB, BSIZE. change (1024 / 64) with 16. pose proof (Z.mod_pos_bound n 16). lia. Qed.

Section inodes.
Context {start : Z} {sb : superblock} (FL : fs_layout start sb).

Lemma inode_at_put n d V blk : 0 <= n < sb_ninodes sb -> V !! IBLOCK n sb = Some blk -> len blk = BSIZE -> dinode_wf d -> inode_at sb n (put_inode sb n d V) = d.
Proof.
  intros Hn Hb Hl Hw. unfold inode_at, put_inode. rewrite lookup_insert_eq, Hb. cbn [from_option id].
  pose proof (dinode_bytes_length d (proj1 (dw_addrs _ Hw))) as Hd. destruct (dinode_off_range n).
  replace 64 with (len (dinode_bytes d)) by lia. rewrite slice_splice by lia. by apply dinode_roundtrip.
Qed.

Lemma inode_at_other n m d V blk : 0 <= n < sb_ninodes sb -> 0 <= m < sb_ninodes sb -> n <> m -> V !! IBLOCK n sb = Some blk -> len blk = BSIZE ->
  length (di_addrs d) = 13%nat -> inode_at sb m (put_inode sb n d V) = inode_at sb m V.
Proof using FL.
  intros Hn Hm Hne Hb Hl Hd. unfold inode_at, put_inode. destruct (iblock_range FL n Hn) as [En _]. destruct (iblock_range FL m Hm) as [Em _].
  destruct (decide (IBLOCK n sb = IBLOCK m sb)) as [E|E].
  - rewrite <- E, lookup_insert_eq, Hb. cbn [from_option id]. pose proof (dinode_bytes_length d Hd) as Hdl.
    destruct (dinode_off_range n), (dinode_off_range m). f_equal. apply slice_splice_other; [lia..|].
    unfold dinode_off. assert (n mod IPB <> m mod IPB); [|lia]. intros E2. apply Hne.
    rewrite (Z.div_mod n IPB), (Z.div_mod m IPB) by done. lia.
  - by rewrite lookup_insert_ne.
Qed.

(** Inode blocks are neither in the free map nor in use as data. *)
Lemma put_inode_used n d V b : 0 <= n < sb_ninodes sb -> 0 <= b < sb_size sb -> used sb (put_inode sb n d V) b = used sb V b.
Proof using FL. intros Hn Hb. apply (used_insert FL); [done|]. destruct (iblock_range FL n Hn). unfold in_map. lia. Qed.

Lemma put_inode_data n d V b : 0 <= n < sb_ninodes sb -> data0 sb <= b -> put_inode sb n d V !! b = V !! b.
Proof using FL. intros Hn Hb. destruct (iblock_range FL n Hn). apply lookup_insert_ne. pose proof (bmap_data0 FL). lia. Qed.

Lemma put_inode_ind n d V e : 0 <= n < sb_ninodes sb -> ino_ok sb V e -> forall bn, addr_of (put_inode sb n d V) e bn = addr_of V e bn.
Proof using FL.
  intros Hn [_ _ M] bn. destruct (decide (ind e = 0)) as [E|E].
  - unfold addr_of. by rewrite E.
  - apply addr_ext, put_inode_data; [done|]. by apply (mo_ind _ _ _ _ _ M).
Qed.

Lemma put_inode_ok n d V e : 0 <= n < sb_ninodes sb -> ino_ok sb V e -> ino_ok sb (put_inode sb n d V) e.
Proof using FL.
  intros Hn Hok. pose proof Hok as [Hlen Hsz M]. pose proof (data0_pos FL). split; [done|done|].
  eapply map_ok_ext; [|intros bn _; by apply put_inode_ind|apply Hsz|exact M].
  intros b Hb Hu. rewrite put_inode_used; [done|done|lia].
Qed.

Lemma put_inode_fbyte n d V e off : 0 <= n < sb_ninodes sb -> ino_ok sb V e -> 0 <= off < MAXFILE * BSIZE -> fbyte (put_inode sb n d V) e off = fbyte V e off.
Proof using FL.
  intros Hn Hok Ho. unfold fbyte. rewrite put_inode_ind by done. destruct (Z.eqb_spec (addr_of V e (off / BSIZE)) 0) as [|Hne]; [done|].
  rewrite put_inode_data; [done|done|]. apply (mo_data _ _ _ _ _ (io_map _ _ _ Hok)); [|done].
  split; [apply Z.div_pos; [lia|done]|apply Z.div_lt_upper_bound; [done|lia]].
Qed.

Lemma put_inode_disk_ok n d V : 0 <= n < sb_ninodes sb -> disk_ok sb V -> disk_ok sb (put_inode sb n d V).
Proof using FL.
  intros Hn [H1 H2]. pose proof (fl_data _ _ FL). split.
  - intros b Hb. by apply is_Some_insert, H1.
  - intros b Hb. rewrite put_inode_used; [by apply H2|done|lia].
Qed.

End inodes.

Section iupdate.
Context {AM : Ambient} {BD : BlockDev} {rely : protocol} {BL : BlockDevLaws BD rely} (i : nat) (p : proc) (dev start : Z).
Context (o : Z) (K : platter) (sb : superblock) (cn : above) (FL : fs_layout start sb).
Notation wpf := (wpf (rely := rely) i p).
Notation fstx := (fstx (BL := BL) p dev start o K sb cn).
Implicit Types (T : list inode) (S : gmap sleepid sleeplock) (V : gmap Z bytes) (H : held) (lh : list Z) (f : fsst) (sl : gmap sleepid sleeplock).

Lemma iblock_home n : 0 <= n < sb_ninodes sb -> home start (IBLOCK n sb) /\ 0 <= IBLOCK n sb < sb_size sb.
Proof using FL.
  intros Hn. destruct (iblock_range FL n Hn) as [_ Hr]. pose proof (data0_pos FL) as Hd0. pose proof (fl_data _ _ FL) as Hsize.
  pose proof (bmap_data0 FL). split; [apply (data_home FL)|]; lia.
Qed.

Lemma ft_iupdate T S V lh f sl k x (Q : unit -> list lockid -> fsst -> gmap sleepid sleeplock -> Prop) :
  fstx T S V ∅ lh f sl -> T !! k = Some x -> i_dev x = dev -> 0 <= i_inum x < sb_ninodes sb -> length (di_addrs (i_d x)) = 13%nat ->
  disk_ok sb V -> budget 1 ∅ lh -> 1 <= o ->
  (forall f' sl', fstx T S (put_inode sb (i_inum x) (i_d x) V) ∅ (logging (IBLOCK (i_inum x) sb) lh) f' sl' -> Q tt [] f' sl') ->
  wpf [] (iupdate (ip_ptr k)) f sl Q.
Proof using FL.
  intros X Hk Hdev Hn Hl [Hcov _] Hbud Ho HQ. destruct (iblock_home _ Hn) as [Hh Hr]. destruct (Hcov _ Hr) as [blk Hb].
  destruct (dinode_off_range (i_inum x)) as [O1 O2]. pose proof (dinode_bytes_length _ Hl) as Hdl.
  unfold iupdate. apply wpf_bind. eapply ft_get_ip; [exact X|exact Hk|]. apply wpf_bind. eapply ft_get_sb; [exact X|]. rewrite Hdev.
  apply wpf_bind. eapply ft_bread; [exact X|exact Hb|done|right; by apply budget_room|]. intros t f1 sl1 X1.
  apply wpf_bind. eapply ft_get_ip; [exact X1|exact Hk|].
  apply wpf_bind. eapply ft_put; [exact X1|apply lookup_insert_eq|done|lia|]. intros f2 X2. rewrite insert_insert_eq in X2.
  apply wpf_bind. eapply ft_log; [exact X2|apply lookup_insert_eq|done|by eexists|by apply (budget_log ∅)|done|]. intros f3 X3.
  eapply ft_brelse; [exact X3|apply lookup_insert_eq|apply lookup_insert_eq|]. intros f4 sl4 X4. rewrite delete_insert_id in X4 by done.
  apply HQ. unfold put_inode. by rewrite Hb.
Qed.

End iupdate.
