(* ===== verification/XvFsInv.v ===== *)
(** The invariant of the file system: every block in use belongs to one inode, and
    what writing to one file does to the others. *)

From S2P Require Import Prelude XvMem XvFsTypes XvKernel XvMsg XvSched XvSchedProofs XvBio XvBlock XvLog XvFsLogic XvBioList XvBioProofs XvBioSpec XvLogProofs XvLogCommit XvLogCrash XvLogTx XvFs XvFsBits XvFsTx XvFsBlocks XvFsMap XvFsFile XvFsInode.
Import Fs.

Set Default Proof Using "Type".

(** * Inodes whose blocks stay *)

Definition agree (V V' : gmap Z bytes) (d : dinode) : Prop := forall b, holds V d b -> V' !! b = V !! b.

Lemma agree_addr V V' d bn : agree V V' d -> addr_of V' d bn = addr_of V d bn.
Proof.
  intros Ha. destruct (decide (ind d = 0)) as [E|E]; [unfold addr_of; by rewrite E|]. apply addr_ext, Ha. split; [done|by left].
Qed.

Lemma agree_holds V V' d b : agree V V' d -> holds V' d b <-> holds V d b.
Proof. intros Ha. unfold holds. by setoid_rewrite (agree_addr V V' d _ Ha). Qed.

Lemma agree_fbyte V V' d off : agree V V' d -> 0 <= off < MAXFILE * BSIZE -> fbyte V' d off = fbyte V d off.
Proof.
  intros Ha Ho. unfold fbyte. rewrite (agree_addr V V') by done. destruct (Z.eqb_spec (addr_of V d (off / BSIZE)) 0) as [|Hne]; [done|].
  rewrite (Ha (addr_of V d (off / BSIZE))); [done|]. split; [done|]. right. exists (off / BSIZE). split; [|done].
  split; [apply Z.div_pos; [lia|done]|apply Z.div_lt_upper_bound; [done|lia]].
Qed.

Lemma agree_fdata V V' d : agree V V' d -> di_size d <= MAXFILE * BSIZE -> fdata V' d = fdata V d.
Proof.
  intros Ha Hs. unfold fdata. apply list_fmap_ext. intros j k Hk. apply agree_fbyte; [done|]. apply lookup_seq in Hk as [-> Hk]. lia.
Qed.

Lemma agree_ino_ok sb V V' d :
  agree V V' d -> (forall b, data0 sb <= b < sb_size sb -> used sb V b = true -> used sb V' b = true) -> ino_ok sb V d -> ino_ok sb V' d.
Proof.
  intros Ha Hu [Hl Hs M]. split; [done|done|]. eapply map_ok_ext; [exact Hu|intros bn _; by apply agree_addr|apply Hs|exact M].
Qed.

(** No block is free. *)
Definition full (sb : superblock) (V : gmap Z bytes) : Prop := forall b, 0 <= b < sb_size sb -> used sb V b = true.

(** * The invariant *)

(** Inode [n] is in use. *)
Definition live (sb : superblock) (V : gmap Z bytes) (n : Z) : Prop := 0 < n < sb_ninodes sb /\ di_type (inode_at sb n V) <> 0.

Record fs_ok (sb : superblock) (V : gmap Z bytes) : Prop := mk_fs_ok {
  fo_sized : map_Forall (fun _ => block_sized) V;
  fo_disk : disk_ok sb V;
  fo_ino : forall n, live sb V n -> ino_ok sb V (inode_at sb n V);
  fo_apart : forall n m b, live sb V n -> live sb V m -> holds V (inode_at sb n V) b -> holds V (inode_at sb m V) b -> n = m;
  fo_owned : forall b, data0 sb <= b < sb_size sb -> used sb V b = true -> exists n, live sb V n /\ holds V (inode_at sb n V) b;
}.

(** The contents of file [n]. *)
Definition contents (sb : superblock) (V : gmap Z bytes) (n : Z) : bytes := fdata V (inode_at sb n V).

(** All inodes but [n] are the same, and have the same contents. *)
Definition same_others (sb : superblock) (n : Z) (V V' : gmap Z bytes) : Prop :=
  forall m, 0 <= m < sb_ninodes sb -> m <> n ->
    inode_at sb m V' = inode_at sb m V /\ (live sb V m -> contents sb V' m = contents sb V m).

Lemma live_ext sb V V' n : inode_at sb n V' = inode_at sb n V -> live sb V n <-> live sb V' n.
Proof. intros E. unfold live. by rewrite E. Qed.

Lemma same_others_refl sb n V : same_others sb n V V.
Proof. done. Qed.

Lemma same_others_trans sb n V V1 V2 : same_others sb n V V1 -> same_others sb n V1 V2 -> same_others sb n V V2.
Proof.
  intros H1 H2 m Hm Hne. destruct (H1 m Hm Hne) as [A1 B1]. destruct (H2 m Hm Hne) as [A2 B2]. split; [congruence|].
  intros Hl. rewrite B2, B1; [done..|]. by apply (live_ext sb V V1 m A1).
Qed.

Lemma i16_i16 z : i16 (i16 z) = i16 z.
Proof. unfold i16. rewrite Zplus_mod. f_equal. rewrite <- (Zplus_mod _ (2 ^ 15)). replace ((z + 2 ^ 15) mod 2 ^ 16 - 2 ^ 15 + 2 ^ 15) with ((z + 2 ^ 15) mod 2 ^ 16) by lia. apply Zmod_mod. Qed.

Section inv.
Context {start : Z} {sb : superblock} (FL : fs_layout start sb).

Lemma ino_ok_addr V d j a : ino_ok sb V d -> di_addrs d !! j = Some a -> a = 0 \/ data0 sb <= a < sb_size sb.
Proof.
  intros [Hl Hs M] Hj. destruct (decide (a = 0)) as [|Hne]; [by left|right].
  pose proof (lookup_lt_Some _ _ _ Hj) as Hlt. assert (zlookup (di_addrs d) (Z.of_nat j) = Some a) as Hz.
  { unfold zlookup. destruct (Z.leb_spec 0 (Z.of_nat j)); [|lia]. by rewrite Nat2Z.id. }
  destruct (Z.lt_ge_cases (Z.of_nat j) NDIRECT) as [Hd|Hd].
  - assert (addr_of V d (Z.of_nat j) = a) as Ea by (rewrite addr_direct, Hz by done; done).
    rewrite <- Ea. apply (mo_data _ _ _ _ _ M); [change MAXFILE with 268; unfold NDIRECT in *; lia|congruence].
  - assert (ind d = a) as Ea by (unfold ind; replace NDIRECT with (Z.of_nat j) by lia; by rewrite Hz).
    rewrite <- Ea. apply (mo_ind _ _ _ _ _ M). congruence.
Qed.

(** Inodes in order fit into [struct dinode]. *)
Lemma ino_ok_wf V d : ino_ok sb V d -> i16 (di_type d) = di_type d -> i16 (di_major d) = di_major d -> i16 (di_minor d) = di_minor d ->
  i16 (di_nlink d) = di_nlink d -> dinode_wf d.
Proof using FL.
  intros Hok W1 W2 W3 W4. pose proof Hok as [Hl Hs M]. pose proof (fl_data _ _ FL) as Hd. pose proof (data0_pos FL) as Hp. split; try done.
  - apply u32_small. unfold MAXFILE, NINDIRECT, NDIRECT, BSIZE in Hs. change (1024 / 4) with 256 in Hs. lia.
  - split; [unfold NDIRECT in Hl; lia|]. apply Forall_lookup. intros j a Hj. apply u32_small.
    destruct (ino_ok_addr V d j a Hok Hj) as [->|]; lia.
Qed.

Lemma inode_at_i16 n V : let d := inode_at sb n V in
  i16 (di_type d) = di_type d /\ i16 (di_major d) = di_major d /\ i16 (di_minor d) = di_minor d /\ i16 (di_nlink d) = di_nlink d.
Proof. unfold inode_at, dinode_of. cbn [di_type di_major di_minor di_nlink]. by rewrite !i16_i16. Qed.

Lemma extends_wf n V V' d' : extends sb V (inode_at sb n V) V' d' -> dinode_wf d'.
Proof using FL.
  intros X. destruct (inode_at_i16 n V) as (W1 & W2 & W3 & W4). pose proof (ex_fields _ _ _ _ _ X) as E.
  eapply ino_ok_wf; [apply X|..]; rewrite E; done.
Qed.

(** Writing to one inode leaves the inode blocks alone. *)
Lemma extends_inode_at V d V' d' m : disk_ok sb V -> ino_ok sb V d -> extends sb V d V' d' -> 0 <= m < sb_ninodes sb -> inode_at sb m V' = inode_at sb m V.
Proof using FL.
  intros [_ Hmeta] Hok X Hm. destruct (iblock_range FL m Hm) as [_ Hr]. pose proof (bmap_data0 FL). pose proof (data0_pos FL). unfold inode_at.
  rewrite (ex_frame _ _ _ _ _ X); [done| | |].
  - intros _. apply Hmeta. lia.
  - unfold in_map. lia.
  - intros Hh. apply (holds_data sb) in Hh; [lia|done].
Qed.

(** The disk after file [n] was changed and its inode was written. *)
Lemma fs_ok_extends V n V' d' :
  fs_ok sb V -> live sb V n -> extends sb V (inode_at sb n V) V' d' -> map_Forall (fun _ => block_sized) V' ->
  let V2 := put_inode sb n d' V' in
  fs_ok sb V2 /\ inode_at sb n V2 = d' /\ live sb V2 n /\ contents sb V2 n = fdata V' d' /\ same_others sb n V V2.
Proof using FL.
  intros [F1 F2 F3 F4 F5] Hn X Hz V2. pose proof (F3 n Hn) as Hok. pose proof Hn as [Hrn _]. pose proof (fl_data _ _ FL) as Hsz. pose proof (data0_pos FL) as Hd0.
  assert (disk_ok sb V') as Hd' by (eapply extends_disk_ok; [lia|exact X|done]). assert (disk_ok sb V2) as Hd2 by (apply (put_inode_disk_ok FL); [lia|done]).
  destruct (iblock_home start sb FL n ltac:(lia)) as [_ Hib]. destruct (proj1 Hd' _ Hib) as [blk Hb]. pose proof (Hz _ _ Hb) as Hbl. unfold block_sized in Hbl.
  pose proof (extends_wf n _ _ _ X) as Hwf. assert (inode_at sb n V2 = d') as En by (eapply inode_at_put; [lia|exact Hb|done|done]).
  assert (forall m, 0 <= m < sb_ninodes sb -> m <> n -> inode_at sb m V2 = inode_at sb m V) as Eo.
  { intros m Hm Hne. unfold V2. erewrite (inode_at_other FL n m); [|lia|done|done|exact Hb|done|apply Hwf]. by eapply extends_inode_at. }
  assert (live sb V2 n) as Hn2 by (split; [done|]; rewrite En, (ex_fields _ _ _ _ _ X); apply Hn).
  assert (forall m, live sb V2 m <-> live sb V m) as Hlive.
  { intros m. destruct (decide (m = n)) as [->|Hne]; [done|]. unfold live. split; intros [H1 H2]; (split; [done|]); [rewrite <- Eo by lia|rewrite Eo by lia]; done. }
  assert (forall b, data0 sb <= b -> V2 !! b = V' !! b) as E2 by (intros b Hb'; apply (put_inode_data FL); [lia|done]).
  assert (agree V' V2 d') as A2 by (intros b Hh; apply E2; by apply (holds_data sb) in Hh; [lia|apply X]).
  assert (forall b, 0 <= b < sb_size sb -> used sb V2 b = used sb V' b) as U2 by (intros b Hb'; apply (put_inode_used FL); [lia|done]).
  assert (forall m, live sb V m -> m <> n -> agree V V2 (inode_at sb m V)) as Am.
  { intros m Hm Hne b Hh. destruct (holds_data sb _ _ _ (F3 m Hm) Hh) as [Hr Hu]. rewrite E2 by lia. apply X; [done|unfold in_map; lia|].
    intros Hh'. apply Hne. by apply (F4 m n b). }
  split; [|split; [done|split; [done|split]]].
  - split.
    + intros b d. unfold V2, put_inode. rewrite lookup_insert_Some. intros [[<- <-]|[_ Hb']]; [|by apply (Hz b)]. unfold block_sized.
      rewrite Hb. cbn [from_option id]. pose proof (dinode_bytes_length d' (proj1 (dw_addrs _ Hwf))). destruct (dinode_off_range n).
      rewrite length_splice; lia.
    + done.
    + intros m Hm%Hlive. destruct (decide (m = n)) as [->|Hne].
      * rewrite En. eapply agree_ino_ok; [exact A2| |apply X]. intros b Hb' Hu. by rewrite U2 by lia.
      * rewrite Eo by (destruct Hm; lia || done). eapply agree_ino_ok; [by apply Am| |by apply F3]. intros b Hb' Hu. rewrite U2 by lia. apply X; [lia|done].
    + assert (forall m b, live sb V m -> m <> n -> holds V2 d' b -> holds V2 (inode_at sb m V) b -> False) as Hone.
      { intros m b Hm Hne H1 H2. apply (agree_holds V) in H2; [|by apply Am]. apply (agree_holds V') in H1; [|done].
        destruct (holds_data sb _ _ _ (F3 m Hm) H2) as [Hr Hu]. destruct (ex_fresh _ _ _ _ _ X b H1) as [H3|H3]; [|congruence]. apply Hne. by apply (F4 m n b). }
      intros m1 m2 b L1%Hlive L2%Hlive. destruct (decide (m1 = n)) as [->|N1], (decide (m2 = n)) as [->|N2]; [done|..].
      * rewrite En, Eo by (destruct L2; lia || done). intros H1 H2. by destruct (Hone m2 b).
      * rewrite En, Eo by (destruct L1; lia || done). intros H1 H2. by destruct (Hone m1 b).
      * rewrite !Eo by (destruct L1, L2; lia || done). intros H1 H2. apply (agree_holds V) in H1, H2; [|by apply Am..]. by apply (F4 m1 m2 b).
    + intros b Hb' Hu. rewrite U2 in Hu by lia. destruct (ex_new _ _ _ _ _ X b ltac:(lia) Hu) as [H1|H1].
      * destruct (F5 b Hb' H1) as (m & Lm & Hh). exists m. split; [by apply Hlive|]. destruct (decide (m = n)) as [->|Hne].
        -- rewrite En. apply (agree_holds V'); [done|]. by eapply extends_holds.
        -- rewrite Eo by (destruct Lm; lia || done). apply (agree_holds V); [by apply Am|done].
      * exists n. split; [done|]. rewrite En. by apply (agree_holds V').
  - unfold contents. rewrite En. apply agree_fdata; [done|]. apply (io_size _ _ _ (ex_ok _ _ _ _ _ X)).
  - intros m Hm Hne. split; [by apply Eo|]. intros Lm. unfold contents. rewrite Eo by done. apply agree_fdata; [by apply Am|]. apply (io_size _ _ _ (F3 m Lm)).
Qed.

(** Blocks of the log do not matter. *)
Lemma fs_ok_home V V' : fs_ok sb V -> same_home start V V' -> area start V' -> map_Forall (fun _ => block_sized) V' ->
  fs_ok sb V' /\ (forall n, 0 <= n < sb_ninodes sb -> inode_at sb n V' = inode_at sb n V) /\ forall n, live sb V n -> contents sb V' n = contents sb V n.
Proof using FL.
  intros [F1 F2 F3 F4 F5] Hs Ha Hz. pose proof (fl_data _ _ FL) as Hsz. pose proof (data0_pos FL) as Hd0.
  assert (forall b, sb_inodestart sb <= b < sb_size sb -> V' !! b = V !! b) as E by (intros b Hb; apply Hs, (data_home FL); lia).
  assert (forall n, 0 <= n < sb_ninodes sb -> inode_at sb n V' = inode_at sb n V) as En.
  { intros n Hn. destruct (iblock_range FL n Hn) as [_ Hr]. pose proof (bmap_data0 FL). unfold inode_at. rewrite E by lia. done. }
  assert (forall b, 0 <= b < sb_size sb -> used sb V' b = used sb V b) as Eu.
  { intros b Hb. destruct (bblock_range FL b Hb) as [_ Hm]. unfold in_map in Hm. unfold used. rewrite E by lia. done. }
  assert (forall n, live sb V' n <-> live sb V n) as Hlive by (intros n; split; intros [H1 H2]; (split; [done|]); [rewrite <- En by lia|rewrite En by lia]; done).
  assert (forall n, live sb V n -> agree V V' (inode_at sb n V)) as Am.
  { intros n Hn b Hh. destruct (holds_data sb _ _ _ (F3 n Hn) Hh) as [Hr _]. apply E. lia. }
  split; [split|split]; try done.
  - destruct F2 as [C M]. split.
    + intros b Hb. destruct (decide (start <= b <= start + LOGBLOCKS)) as [Hl|Hl].
      * replace b with (start + (b - start)) by lia. apply Ha. lia.
      * rewrite Hs; [by apply C|]. split; [lia|done].
    + intros b Hb. rewrite Eu by lia. by apply M.
  - intros n Hn%Hlive. rewrite En by (destruct Hn; lia). eapply agree_ino_ok; [by apply Am| |by apply F3]. intros b Hb Hu. by rewrite Eu by lia.
  - intros n m b Hn%Hlive Hm%Hlive. rewrite !En by (destruct Hn, Hm; lia). intros H1 H2. apply (agree_holds V) in H1, H2; [|by apply Am..]. by apply (F4 n m b).
  - intros b Hb Hu. rewrite Eu in Hu by lia. destruct (F5 b Hb Hu) as (n & Hn & Hh). exists n. split; [by apply Hlive|].
    rewrite En by (destruct Hn; lia). apply (agree_holds V); [by apply Am|done].
  - intros n Hn. unfold contents. rewrite En by (destruct Hn; lia). apply agree_fdata; [by apply Am|]. apply (io_size _ _ _ (F3 n Hn)).
Qed.

Lemma full_home V V' : same_home start V V' -> full sb V -> full sb V'.
Proof using FL.
  intros Hs Hf b Hb. destruct (bblock_range FL b Hb) as [_ Hm]. destruct (map_home FL _ Hm) as [Hh _]. unfold used. rewrite Hs by done. by apply Hf.
Qed.

Lemma full_put_inode n d V : 0 <= n < sb_ninodes sb -> full sb V -> full sb (put_inode sb n d V).
Proof using FL. intros Hn Hf b Hb. rewrite (put_inode_used FL) by done. by apply Hf. Qed.

End inv.
