(* ===== verification/XvFsOps.v ===== *)
(** Operations of the file system: transactions, inode locks and open files. *)

From S2P Require Import Prelude XvMem XvFsTypes XvKernel XvMsg XvSched XvSchedProofs XvPipe XvBio XvBlock XvLog XvFsLogic XvBioList XvBioProofs XvBioSpec XvLogProofs XvLogCommit XvLogCrash XvLogTx XvFs XvSysfile XvFsBits XvFsTx XvFsBlocks XvFsMap XvFsFile XvFsInode.
Import Fs.

Set Default Proof Using "Type".

Definition locked_by (pid : Z) : sleeplock := mk_sleeplock 1 pid.

(** The entry after [ilock]: the inode is read if it was not there. *)
Definition loaded (sb : superblock) (V : gmap Z bytes) (x : inode) : inode :=
  if i_valid x =? 0 then set_ivalid 1 (set_id (inode_at sb (i_inum x) V) x) else x.

Section ops.
Context {AM : Ambient} {BD : BlockDev} {rely : protocol} {BL : BlockDevLaws BD rely} (i : nat) (p : proc) (dev start : Z).
Context (sb : superblock) (FL : fs_layout start sb) (HL : log_layout dev start).
Notation wpf := (wpf (rely := rely) i p).
Notation fstx o K := (fstx (BL := BL) p dev start o K sb).
Implicit Types (o : Z) (K : platter) (cn : above) (T : list inode) (S : gmap sleepid sleeplock) (V : gmap Z bytes) (H : held) (lh : list Z) (f : fsst) (sl : gmap sleepid sleeplock).

(** * Transactions *)

Lemma ft_now K cn T S V f sl : fstx 0 K cn T S V ∅ [] f sl -> d_now K = V.
Proof. intros X. rewrite <- (ft_disk _ _ _ _ _ _ _ _ _ _ _ _ _ _ X). eapply cache_now. apply (tx_cache _ _ _ _ _ _ _ _ _ (ft_tx _ _ _ _ _ _ _ _ _ _ _ _ _ _ X)). Qed.

Lemma ft_begin K cn T S V f sl (Q : unit -> list lockid -> fsst -> gmap sleepid sleeplock -> Prop) :
  fstx 0 K cn T S V ∅ [] f sl -> (forall f', fstx 1 K cn T S V ∅ [] f' sl -> Q tt [] f' sl) -> wpf [] begin_op f sl Q.
Proof.
  intros X HQ. pose proof X as [X1%tx_idle X2 X3 X4 X5 X6]. eapply wpf_begin_op; [exact X1|]. intros f' X' [O D]. apply HQ.
  unfold log_only, disk_only in O. split; try done; try (rewrite O; done). congruence.
Qed.

Lemma ft_end K cn T S V lh f sl (Q : unit -> list lockid -> fsst -> gmap sleepid sleeplock -> Prop) :
  fstx 1 K cn T S V ∅ lh f sl -> len lh < Z.of_nat NBUF ->
  (forall K' V' f' sl', fstx 0 K' cn T S V' ∅ [] f' sl' -> same_home start V V' -> atomically start (d_now K) V f f' -> fs_disk f' = K' -> Q tt [] f' sl') ->
  wpf [] end_op f sl Q.
Proof using HL.
  intros X Hl HQ. pose proof X as [X1 X2 X3 X4 X5 X6]. eapply (wpf_end_op i p dev start HL); [exact X1|done|]. intros V' f' sl' I' Hs O Hi A.
  rewrite X2 in A. apply (HQ (fs_disk f') V'); [|done..]. unfold log_only, disk_only in O.
  split; [by apply tx_idle|done|by rewrite O..|]. intros k. by rewrite Hi.
Qed.

(** * Open files *)

Lemma ft_get_file o K cn T S V H lh f sl fi x (Q : file -> list lockid -> fsst -> gmap sleepid sleeplock -> Prop) h :
  fstx o K cn T S V H lh f sl -> ab_files cn !! fi = Some x -> Q x h f sl -> wpf h (get_file fi) f sl Q.
Proof.
  intros X Hx HQ. unfold get_file. apply wpf_bind, (wpf_gets _ _ _ (fun f => fs_files f !! fi)).
  rewrite <- (ft_above _ _ _ _ _ _ _ _ _ _ _ _ _ _ X) in Hx. cbn [ab_files] in Hx. rewrite Hx. by apply wpf_ret.
Qed.

Definition with_files (l : list file) (cn : above) : above := mk_above (ab_cons cn) l.

Lemma ft_upd_file o K cn T S V H lh f sl fi x g (Q : unit -> list lockid -> fsst -> gmap sleepid sleeplock -> Prop) h :
  fstx o K cn T S V H lh f sl -> ab_files cn !! fi = Some x ->
  (forall f', fstx o K (with_files (<[fi := g x]> (ab_files cn)) cn) T S V H lh f' sl -> Q tt h f' sl) -> wpf h (upd_file fi g) f sl Q.
Proof.
  intros X Hx HQ. unfold upd_file. apply wpf_bind. eapply ft_get_file; [exact X|exact Hx|].
  apply (wpf_modify _ _ _ (fun f => set_files (<[fi := g x]> (fs_files f)) f)), HQ.
  destruct X as [X1 X2 X3 X4 <- X6]. split; try done. destruct X1 as [C Ha He Hl Hlg Ho Hc]. split; try done. by destruct C.
Qed.

(** * Inode locks *)

Lemma ip_ptr_nz k : (ip_ptr k =? 0) = false.
Proof. apply Z.eqb_neq. unfold ip_ptr. lia. Qed.

Lemma ip_lock_ptr k : ip_lock (ip_ptr k) = SInode k.
Proof. unfold ip_lock, ip_slot, ip_ptr. f_equal. lia. Qed.

Lemma fstx_lock o K cn T S V H lh f sl k l :
  fstx o K cn T S V H lh f sl -> fstx o K cn T (<[SInode k := l]> S) V H lh f (<[SInode k := l]> sl).
Proof.
  intros [X1 X2 X3 X4 X5 X6]. split; try done.
  - destruct X1 as [C Ha He Hl Hlg Ho Hc]. split; try done. destruct C. split; try done.
    intros b x Hb Hx. destruct (ca_bufs b x Hb Hx). split; try done. by rewrite lookup_insert_ne.
  - intros j. destruct (decide (j = k)) as [->|]; [by rewrite !lookup_insert_eq|]. rewrite !lookup_insert_ne by congruence. apply X6.
Qed.

Lemma ft_ilock o K cn T S V lh f sl k x l (Q : unit -> list lockid -> fsst -> gmap sleepid sleeplock -> Prop) :
  fstx o K cn T S V ∅ lh f sl -> T !! k = Some x -> 1 <= i_ref x -> S !! SInode k = Some l -> sl_locked l = 0 ->
  i_dev x = dev -> 0 <= i_inum x < sb_ninodes sb -> covers sb V -> budget 1 ∅ lh ->
  (i_valid x = 0 -> di_type (inode_at sb (i_inum x) V) <> 0) ->
  (forall f' sl', fstx o K cn (<[k := loaded sb V x]> T) (<[SInode k := locked_by (p_pid p)]> S) V ∅ lh f' sl' -> Q tt [] f' sl') ->
  wpf [] (ilock (ip_ptr k)) f sl Q.
Proof using FL.
  clear HL. intros X Hk Hr Hl Hfree Hdev Hn Hcov Hbud Htype HQ. unfold ilock. rewrite ip_ptr_nz. apply wpf_bind. eapply ft_get_ip; [exact X|exact Hk|].
  destruct (Z.ltb_spec (i_ref x) 1); [lia|]. rewrite ip_lock_ptr. apply wpf_bind.
  eapply wpf_acquiresleep; [set_solver|by rewrite (ft_locks _ _ _ _ _ _ _ _ _ _ _ _ _ _ X)|done|].
  apply (fstx_lock _ _ _ _ _ _ _ _ _ _ k (locked_by (p_pid p))) in X. apply wpf_bind. eapply ft_get_ip; [exact X|exact Hk|].
  unfold loaded in HQ. destruct (Z.eqb_spec (i_valid x) 0) as [Ev|Ev].
  2: { apply wpf_ret, HQ. rewrite list_insert_id; done. }
  apply wpf_bind. eapply ft_get_sb; [exact X|]. rewrite Hdev. destruct (iblock_home start sb FL _ Hn) as [Hh Hrg]. destruct (Hcov _ Hrg) as [blk Hb].
  apply wpf_bind. eapply ft_bread; [exact X|exact Hb|done|right; by apply budget_room|]. intros t f1 sl1 X1.
  destruct (dinode_off_range (i_inum x)) as [O1 O2]. apply wpf_bind. eapply ft_get; [exact X1|apply lookup_insert_eq|done|done|done|].
  assert (dinode_of (slice (dinode_off (i_inum x)) 64 blk) = inode_at sb (i_inum x) V) as Ed by (unfold inode_at; by rewrite Hb).
  apply wpf_bind. eapply ft_upd_d; [exact X1|exact Hk|]. intros f2 X2. rewrite Ed in X2.
  apply wpf_bind. eapply ft_brelse; [exact X2|apply lookup_insert_eq|exact Hb|]. intros f3 sl3 X3. rewrite delete_insert_id in X3 by done.
  apply wpf_bind. eapply ft_upd_ip; [exact X3|by eapply insert_lookup_id|]. intros f4 X4. rewrite list_insert_insert_eq in X4.
  apply wpf_bind. eapply ft_get_ip; [exact X4|by eapply insert_lookup_id|]. cbn [i_d set_ivalid set_id].
  destruct (Z.eqb_spec (di_type (inode_at sb (i_inum x) V)) 0) as [E|E]; [by destruct (Htype Ev)|]. by apply wpf_ret, HQ.
Qed.

Lemma ft_iunlock o K cn T S V H lh f sl k x (Q : unit -> list lockid -> fsst -> gmap sleepid sleeplock -> Prop) :
  fstx o K cn T S V H lh f sl -> T !! k = Some x -> 1 <= i_ref x -> S !! SInode k = Some (locked_by (p_pid p)) ->
  (forall f' sl', fstx o K cn T (<[SInode k := mk_sleeplock 0 0]> S) V H lh f' sl' -> Q tt [] f' sl') ->
  wpf [] (iunlock (ip_ptr k)) f sl Q.
Proof.
  clear FL HL. intros X Hk Hr Hl HQ. unfold iunlock. rewrite ip_ptr_nz, ip_lock_ptr. pose proof (ft_locks _ _ _ _ _ _ _ _ _ _ _ _ _ _ X k) as Es. rewrite Hl in Es.
  apply wpf_bind. eapply wpf_holdingsleep; [set_solver|exact Es|]. cbn [negb]. apply wpf_bind. eapply ft_get_ip; [exact X|exact Hk|].
  destruct (Z.ltb_spec (i_ref x) 1); [lia|]. eapply wpf_releasesleep; [set_solver|by eexists|]. by apply HQ, fstx_lock.
Qed.

End ops.
