(* ===== verification/XvFsIo.v ===== *)
(** [readi] and [writei]: what is read is what the file holds, and what is written
    is what the file holds afterwards. *)

From S2P Require Import Prelude XvMem XvFsTypes XvKernel XvMsg XvSched XvSchedProofs XvBio XvBlock XvLog XvFsLogic XvBioList XvBioProofs XvBioSpec XvLogProofs XvLogCommit XvLogCrash XvLogTx XvFs XvFsBits XvFsTx XvFsBlocks XvFsMap XvFsFile XvFsInode.
Import Fs.

Set Default Proof Using "Type".

(** * Stretches of a file *)

(** [n] bytes of the file from [off] on. *)
Definition fslice (V : gmap Z bytes) (d : dinode) (off n : Z) : bytes := (fun k => fbyte V d (off + Z.of_nat k)) <$> seq 0 (Z.to_nat n).

Lemma length_fslice V d off n : 0 <= n -> len (fslice V d off n) = n.
Proof. intros Hn. unfold fslice. rewrite length_fmap, length_seq. lia. Qed.

Lemma lookup_fslice V d off n k : (k < Z.to_nat n)%nat -> fslice V d off n !! k = Some (fbyte V d (off + Z.of_nat k)).
Proof.
  intros Hk. unfold fslice. rewrite list_lookup_fmap. replace (seq 0 (Z.to_nat n) !! k) with (Some k); [done|]. symmetry. apply lookup_seq. lia.
Qed.

Lemma fslice_app V d off m n : 0 <= m -> 0 <= n -> fslice V d off m ++ fslice V d (off + m) n = fslice V d off (m + n).
Proof.
  intros Hm Hn. apply list_eq. intros k. destruct (decide (k < Z.to_nat (m + n))%nat) as [Hk|Hk].
  - rewrite (lookup_fslice _ _ _ (m + n)) by done. destruct (decide (k < Z.to_nat m)%nat) as [Hk'|Hk'].
    + rewrite lookup_app_l by (pose proof (length_fslice V d off m); lia). by rewrite lookup_fslice.
    + pose proof (length_fslice V d off m). rewrite lookup_app_r by lia. rewrite lookup_fslice by lia. do 2 f_equal. lia.
  - pose proof (length_fslice V d off m). pose proof (length_fslice V d (off + m) n). pose proof (length_fslice V d off (m + n)).
    rewrite !lookup_ge_None_2; [done|lia|]. rewrite length_app. lia.
Qed.

Lemma fslice_fdata V d off n : 0 <= off -> 0 <= n -> off + n <= di_size d -> fslice V d off n = slice off n (fdata V d).
Proof.
  intros Ho Hn Hs. apply list_eq. intros k. rewrite lookup_slice. case_decide as Hk.
  - rewrite lookup_fslice by done. unfold fdata. rewrite list_lookup_fmap.
    replace (seq 0 (Z.to_nat (di_size d)) !! (Z.to_nat off + k)%nat) with (Some (Z.to_nat off + k)%nat) by (symmetry; apply lookup_seq; lia).
    simpl. do 2 f_equal. lia.
  - apply lookup_ge_None_2. pose proof (length_fslice V d off n). lia.
Qed.

Lemma off_block off : 0 <= off -> 0 <= off / BSIZE /\ 0 <= off mod BSIZE < BSIZE /\ off = BSIZE * (off / BSIZE) + off mod BSIZE.
Proof.
  intros Ho. split; [apply Z.div_pos; [lia|done]|]. split; [by apply Z.mod_pos_bound|by apply Z.div_mod].
Qed.

Lemma same_block off o : 0 <= off -> off <= o < off - off mod BSIZE + BSIZE -> o / BSIZE = off / BSIZE /\ o mod BSIZE = off mod BSIZE + (o - off).
Proof.
  intros Ho Hr. destruct (off_block off Ho) as (H1 & H2 & H3).
  assert (o / BSIZE = off / BSIZE) as E by (symmetry; apply (Z.div_unique o BSIZE _ (off mod BSIZE + (o - off))); lia). split; [done|].
  symmetry. apply (Z.mod_unique o BSIZE (off / BSIZE)); lia.
Qed.

(** A stretch inside a block. *)
Lemma slice_block V d off m blk :
  0 <= off -> 0 <= m -> off mod BSIZE + m <= BSIZE -> addr_of V d (off / BSIZE) <> 0 -> V !! addr_of V d (off / BSIZE) = Some blk -> len blk = BSIZE ->
  slice (off mod BSIZE) m blk = fslice V d off m.
Proof.
  intros Ho Hm Hs Hne Hb Hl. destruct (off_block off Ho) as (H1 & H2 & H3). apply list_eq. intros k. rewrite lookup_slice. case_decide as Hk.
  - rewrite lookup_fslice by done. unfold fbyte. destruct (same_block off (off + Z.of_nat k)) as [-> ->]; [done|lia|].
    destruct (Z.eqb_spec (addr_of V d (off / BSIZE)) 0); [done|]. rewrite Hb. cbn [from_option id]. unfold byte_at, zlookup.
    destruct (Z.leb_spec 0 (off mod BSIZE + (off + Z.of_nat k - off))); [|lia].
    replace (Z.to_nat (off mod BSIZE + (off + Z.of_nat k - off))) with (Z.to_nat (off mod BSIZE) + k)%nat by lia.
    destruct (lookup_lt_is_Some_2 blk (Z.to_nat (off mod BSIZE) + k)) as [y ->]; [lia|done].
  - symmetry. apply lookup_ge_None_2. pose proof (length_fslice V d off m). lia.
Qed.

Section io.
Context {AM : Ambient} {U : UserCopy} {BD : BlockDev} {rely : protocol} {BL : BlockDevLaws BD rely} (i : nat) (p : proc) (dev start : Z).
Context (o : Z) (K : platter) (sb : superblock) (cn : above) (FL : fs_layout start sb).
Notation wpf := (wpf (rely := rely) i p).
Notation fstx := (fstx (BL := BL) p dev start o K sb cn).
Implicit Types (T : list inode) (S : gmap sleepid sleeplock) (V : gmap Z bytes) (H : held) (lh : list Z) (f : fsst) (sl : gmap sleepid sleeplock).

(** * Where data goes and comes from *)

(** Copying to such a destination succeeds, or fails if it is in user memory. *)
Definition takes (user : bool) : Prop := forall dst l f sl (Q : Z -> list lockid -> fsst -> gmap sleepid sleeplock -> Prop),
  (match dst with None => user = false | Some va => user = true /\ is_u64 va /\ Forall is_byte l end) ->
  (forall rc, rc = 0 \/ rc = -1 /\ user = true -> Q rc [] f sl) -> wpf [] (either_copyout dst l) f sl Q.

(** The source holds [data]. *)
Definition gives (src : source) (data : bytes) : Prop := forall at_ n f sl (Q : Z * bytes -> list lockid -> fsst -> gmap sleepid sleeplock -> Prop),
  0 <= at_ -> 0 < n -> at_ + n <= len data -> Q (0, slice at_ n data) [] f sl -> wpf [] (either_copyin src at_ n) f sl Q.

Lemma takes_kernel : takes false.
Proof.
  intros dst l f sl Q Hd HQ. destruct dst; [by destruct Hd|]. unfold either_copyout. apply wpf_bind, wpf_myproc, wpf_bind, wpf_get_proc, wpf_ret, HQ. by left.
Qed.

Lemma gives_kernel obj : gives (Kernel obj) obj.
Proof.
  intros at_ n f sl Q H1 H2 H3 HQ. unfold either_copyin. apply wpf_bind, wpf_myproc, wpf_bind, wpf_get_proc.
  destruct (Z.leb_spec (at_ + n) (len obj)); [|lia]. by apply wpf_ret.
Qed.

(** * Reading *)

Lemma ft_readi_loop user T S V lh k x off0 n (Q : Z * bytes -> list lockid -> fsst -> gmap sleepid sleeplock -> Prop) :
  T !! k = Some x -> i_dev x = dev -> ino_ok sb V (i_d x) -> disk_ok sb V -> budget 1 ∅ lh -> takes user ->
  0 <= off0 -> off0 + n <= di_size (i_d x) -> (user = true -> forall off, 0 <= off < di_size (i_d x) -> is_byte (fbyte V (i_d x) off)) ->
  (forall r got f' sl', fstx T S V ∅ lh f' sl' -> r = n /\ got = fslice V (i_d x) off0 n \/ r = -1 /\ user = true -> Q (r, got) [] f' sl') ->
  forall fuel dst tot got f sl, fstx T S V ∅ lh f sl -> 0 <= tot <= n -> got = fslice V (i_d x) off0 tot ->
  (match dst with None => user = false | Some va => user = true /\ is_u64 va end) ->
  (tot < n -> (off0 + tot) mod BSIZE + (n - tot) <= Z.of_nat fuel * BSIZE) ->
  wpf [] (readi_loop fuel (ip_ptr k) dst n tot (off0 + tot) got) f sl Q.
Proof using FL.
  intros Hk Hdev Hok Hd Hbud Htk Ho Hn Hby HQ fuel. pose proof Hok as [Hlen Hsz M]. pose proof (data0_pos FL) as Hd0.
  induction fuel as [|fuel IH]; intros dst tot got f sl X Ht Hgot Hdst Hfuel; simpl; destruct (Z.ltb_spec tot n) as [Hlt|Hge].
  all: try (apply wpf_ret, HQ; [done|left; by replace tot with n in * by lia]).
  { destruct (off_block (off0 + tot)); lia. }
  destruct (off_block (off0 + tot)) as (B1 & B2 & B3); [lia|]. set (off := off0 + tot) in *.
  assert (addr_of V (i_d x) (off / BSIZE) <> 0) as Hne by (apply (mo_full _ _ _ _ _ M); lia).
  assert (0 <= off / BSIZE < MAXFILE) as Hbn by (split; [done|]; apply Z.div_lt_upper_bound; [done|lia]).
  apply wpf_bind. eapply (ft_bmap_read i p dev start o K sb cn FL T S V lh f sl k x); [done..|]. intros f1 sl1 X1.
  destruct (Z.eqb_spec (addr_of V (i_d x) (off / BSIZE)) 0); [done|]. apply wpf_bind. eapply ft_get_ip; [exact X1|exact Hk|]. rewrite Hdev.
  destruct (mo_data _ _ _ _ _ M _ Hbn Hne) as [Hr Hu]. destruct (proj1 Hd (addr_of V (i_d x) (off / BSIZE))) as [blk Hb]; [lia|].
  apply wpf_bind. eapply ft_bread; [exact X1|exact Hb|done|right; by apply budget_room|]. intros t f2 sl2 X2.
  set (m := Z.min (n - tot) (BSIZE - off mod BSIZE)). assert (0 < m /\ off mod BSIZE + m <= BSIZE /\ tot + m <= n) as (M1 & M2 & M3) by lia.
  apply wpf_bind. eapply ft_get; [exact X2|apply lookup_insert_eq|lia|lia|lia|].
  assert (len blk = BSIZE) as Hbl by (by eapply fstx_sized). rewrite (slice_block V (i_d x)) by (done || lia).
  apply wpf_bind, Htk.
  { destruct dst as [va|]; [|done]. destruct Hdst as [-> Hva]. split; [done|]. split; [done|]. apply Forall_lookup. intros j y Hy.
    assert (j < Z.to_nat m)%nat as Hj by (apply lookup_lt_Some in Hy; pose proof (length_fslice V (i_d x) off m); lia).
    rewrite lookup_fslice in Hy by done. simplify_eq. apply Hby; [done|lia]. }
  intros rc Hrc. apply wpf_bind. eapply ft_brelse; [exact X2|apply lookup_insert_eq|exact Hb|]. intros f3 sl3 X3. rewrite delete_insert_id in X3 by done.
  destruct Hrc as [->|[-> ->]]; cbn [Z.eqb].
  - replace (off + m) with (off0 + (tot + m)) by lia. apply IH; [done|lia| | |].
    + rewrite Hgot. unfold off. rewrite fslice_app by lia. done.
    + destruct dst as [va|]; [|done]. destruct Hdst as [-> Hva]. split; [done|]. apply u64_range.
    + destruct (Z.le_gt_cases (n - tot) (BSIZE - off mod BSIZE)).
      * lia.
      * assert (m = BSIZE - off mod BSIZE) as Em by lia. replace (off0 + (tot + m)) with (BSIZE * (off / BSIZE + 1)) by lia.
        intros _. rewrite Z.mul_comm, Z_mod_mult. lia.
  - apply wpf_ret, HQ; [done|by right].
Qed.

Lemma rounds_enough off n : 0 <= off -> 0 <= n -> off mod BSIZE + n <= Z.of_nat (rounds n) * BSIZE.
Proof.
  intros Ho Hn. destruct (off_block off Ho) as (_ & B2 & _). destruct (off_block n Hn) as (C1 & C2 & C3). unfold rounds. rewrite Z2Nat.id by lia. lia.
Qed.

(** How much [readi] reads. *)
Definition read_len (size off n : Z) : Z := if (size <? off) || (2 ^ 32 <=? off + n) then 0 else Z.min n (size - off).

Lemma ft_readi user T S V lh f sl k x dst off n (Q : Z * bytes -> list lockid -> fsst -> gmap sleepid sleeplock -> Prop) :
  fstx T S V ∅ lh f sl -> T !! k = Some x -> i_dev x = dev -> ino_ok sb V (i_d x) -> disk_ok sb V -> budget 1 ∅ lh -> takes user ->
  (match dst with None => user = false | Some va => user = true /\ is_u64 va end) ->
  (user = true -> forall off, 0 <= off < di_size (i_d x) -> is_byte (fbyte V (i_d x) off)) ->
  0 <= off < 2 ^ 32 -> 0 <= n < 2 ^ 32 ->
  (forall r got f' sl', fstx T S V ∅ lh f' sl' ->
     (let m := read_len (di_size (i_d x)) off n in r = m /\ got = slice off m (fdata V (i_d x)) \/ r = -1 /\ user = true) -> Q (r, got) [] f' sl') ->
  wpf [] (readi (ip_ptr k) dst off n) f sl Q.
Proof using FL.
  intros X Hk Hdev Hok Hd Hbud Htk Hdst Hby Ho Hn HQ. pose proof Hok as [Hlen Hsz M]. unfold readi. apply wpf_bind. eapply ft_get_ip; [exact X|exact Hk|].
  unfold read_len in HQ. assert (MAXFILE * BSIZE = 274432) as Emax by done.
  assert ((u32 (off + n) <? off) = (2 ^ 32 <=? off + n)) as ->.
  { destruct (Z.leb_spec (2 ^ 32) (off + n)).
    - apply Z.ltb_lt. unfold u32. rewrite <- (Z.mod_unique (off + n) (2 ^ 32) 1 (off + n - 2 ^ 32)); lia.
    - apply Z.ltb_ge. rewrite u32_small; lia. }
  destruct ((di_size (i_d x) <? off) || (2 ^ 32 <=? off + n)) eqn:E.
  { apply wpf_ret, HQ; [done|]. left. split; [done|]. done. }
  apply orb_false_iff in E as [E1%Z.ltb_ge E2%Z.leb_gt]. rewrite (u32_small (off + n)) by lia.
  set (m := if di_size (i_d x) <? off + n then di_size (i_d x) - off else n).
  assert (m = Z.min n (di_size (i_d x) - off)) as Em by (unfold m; destruct (Z.ltb_spec (di_size (i_d x)) (off + n)); lia).
  apply wpf_bind. rewrite <- (Z.add_0_r off) at 1. apply (ft_readi_loop user T S V lh k x off m); try done; try lia.
  - intros r got f' sl' X' Hr. apply wpf_ret. destruct Hr as [[-> ->]|[-> Hu]].
    + rewrite i32_small by lia. apply HQ; [done|]. left. split; [done|]. rewrite <- Em. apply fslice_fdata; lia.
    + apply HQ; [done|by right].
  - intros Hm. rewrite Z.add_0_r, Z.sub_0_r. apply rounds_enough; lia.
Qed.

(** * Writing *)

(** [w] was written at [off0], in blocks that begin before [off0 + n], of which [c]
    were not there before. *)
Record wrote (c : nat) off0 n (w : bytes) V d lh V' d' lh' : Prop := mk_wrote {
  wt_ext : extends sb V d V' d';
  wt_bytes : forall off, 0 <= off < MAXFILE * BSIZE ->
    fbyte V' d' off = if (off0 <=? off) && (off <? off0 + len w) then byte_at w (off - off0) else fbyte V d off;
  wt_size : di_size d' = di_size d;
  wt_alloc : forall bn, 0 <= bn -> off0 < (bn + 1) * BSIZE -> bn * BSIZE < off0 + len w -> w <> [] -> addr_of V' d' bn <> 0;
  wt_log : exists ms, (length ms <= c + new_ind d d')%nat /\ forall b, b ∈ lh' -> b ∈ lh \/ b ∈ ms \/
    b <> 0 /\ (b = ind d' \/ exists bn, off0 / BSIZE <= bn /\ bn * BSIZE < off0 + n /\ b = addr_of V' d' bn);
}.

Lemma wrote_refl off0 n V d lh : ino_ok sb V d -> wrote 0 off0 n [] V d lh V d lh.
Proof.
  intros Hok. split; [by apply extends_refl| |done| |exists []; split; [simpl; lia|by auto]].
  - intros off Hoff. destruct (Z.leb_spec off0 off), (Z.ltb_spec off (off0 + len (@nil Z))); simpl in *; try done. lia.
  - done.
Qed.

Lemma byte_splice_list k l d j : 0 <= k -> k + len l <= len d -> 0 <= j ->
  byte_at (splice k l d) j = if (k <=? j) && (j <? k + len l) then byte_at l (j - k) else byte_at d j.
Proof.
  intros Hk Hl Hj. unfold byte_at, zlookup. destruct (Z.leb_spec 0 j); [|lia]. rewrite lookup_splice by lia.
  destruct (Z.leb_spec k j), (Z.ltb_spec j (k + len l)); cbn [andb].
  - rewrite decide_True by lia. destruct (Z.leb_spec 0 (j - k)); [|lia]. do 2 f_equal. lia.
  - by rewrite decide_False by lia.
  - by rewrite decide_False by lia.
  - by rewrite decide_False by lia.
Qed.

Lemma byte_app l1 l2 j : 0 <= j -> byte_at (l1 ++ l2) j = if j <? len l1 then byte_at l1 j else byte_at l2 (j - len l1).
Proof.
  intros Hj. unfold byte_at, zlookup. destruct (Z.leb_spec 0 j); [|lia]. destruct (Z.ltb_spec j (len l1)).
  - by rewrite lookup_app_l by lia.
  - rewrite lookup_app_r by lia. destruct (Z.leb_spec 0 (j - len l1)); [|lia]. do 2 f_equal. lia.
Qed.

Lemma new_ind_trans V d V1 d1 V2 d2 : extends sb V d V1 d1 -> extends sb V1 d1 V2 d2 -> (new_ind d d1 + new_ind d1 d2 <= new_ind d d2)%nat.
Proof.
  intros X Y. pose proof (ex_ind _ _ _ _ _ X) as E1. pose proof (ex_ind _ _ _ _ _ Y) as E2. unfold new_ind.
  destruct (Z.eqb_spec (ind d) 0), (Z.eqb_spec (ind d1) 0), (Z.eqb_spec (ind d2) 0); cbn [andb negb]; lia.
Qed.

(** What [bmap] did for one more block. *)
Lemma wrote_map c off0 n w V d lh V1 d1 lh1 bn V2 d2 lh2 :
  ino_ok sb V d -> 0 <= off0 -> off0 + n <= MAXFILE * BSIZE -> len w <= n -> off0 / BSIZE <= bn -> bn * BSIZE < off0 + n ->
  wrote c off0 n w V d lh V1 d1 lh1 -> mapped_to sb bn V1 d1 lh1 V2 d2 lh2 -> wrote (c + fresh (addr_of V1 d1 bn)) off0 n w V d lh V2 d2 lh2.
Proof using FL.
  intros Hok Ho Hmax Hw Hb1 Hb2 [W1 W2 W3 W4 W5] [T1 T2 T3 T4 _ _]. pose proof (data0_pos FL) as Hd0. destruct (off_block off0 Ho) as (B1 & B2 & B3). split.
  - eapply extends_trans; [exact Hok|lia|exact W1|exact T1].
  - intros q Hq. by rewrite T2, W2.
  - congruence.
  - intros j H1 H2 H3 H4. rewrite (ex_addr _ _ _ _ _ T1); [by apply W4| |by apply W4]. unfold BSIZE in *. lia.
  - destruct W5 as (ms & L1 & W5). destruct T4 as (ms' & L2 & T4). exists (ms ++ ms').
    split; [rewrite length_app; pose proof (new_ind_trans _ _ _ _ _ _ W1 T1); lia|]. intros b Hb.
    destruct (T4 b Hb) as [H1|[H1|[Hb0 [-> | ->]]]]; [|by (right; left; apply elem_of_app; auto)|by auto|by eauto 10].
    destruct (W5 b H1) as [H2|[H2|[Hb0 [->|(j & R1 & R2 & ->)]]]]; [by auto|by (right; left; apply elem_of_app; auto)| |]; right; right; (split; [done|]).
    + left. symmetry. by apply (ex_ind _ _ _ _ _ T1).
    + right. exists j. split; [done|]. split; [done|]. symmetry. apply (ex_addr _ _ _ _ _ T1); [|done]. unfold BSIZE in *. lia.
Qed.

(** [dat] in the block that follows what was written. *)
Lemma wrote_more c off0 n w V d lh V2 d2 lh2 dat blk off :
  off = off0 + len w ->
  ino_ok sb V d -> 0 <= off0 -> off0 + n <= MAXFILE * BSIZE -> off mod BSIZE + len dat <= BSIZE -> 0 < len dat -> len dat <= n - len w ->
  wrote c off0 n w V d lh V2 d2 lh2 -> addr_of V2 d2 (off / BSIZE) <> 0 -> V2 !! addr_of V2 d2 (off / BSIZE) = Some blk -> len blk = BSIZE ->
  wrote c off0 n (w ++ dat) V d lh (<[addr_of V2 d2 (off / BSIZE) := splice (off mod BSIZE) dat blk]> V2) d2 (logging (addr_of V2 d2 (off / BSIZE)) lh2).
Proof using FL.
  intros Eoff Hok Ho Hmax Hdat Hpos Hn [W1 W2 W3 W4 W5] Hne Hb Hl. pose proof (data0_pos FL) as Hd0. set (a := addr_of V2 d2 (off / BSIZE)) in *.
  destruct (off_block off) as (B1 & B2 & B3); [lia|].
  assert (0 <= off / BSIZE < MAXFILE) as Hbn by (split; [done|]; apply Z.div_lt_upper_bound; [done|lia]).
  pose proof (ex_ok _ _ _ _ _ W1) as Hok2. destruct (extends_write FL V2 d2 (off / BSIZE) (splice (off mod BSIZE) dat blk) Hok2 Hbn Hne) as [Y1 Y2]. fold a in Y1, Y2.
  assert (a <> ind d2) as Hai by (apply (mo_sep _ _ _ _ _ (io_map _ _ _ Hok2)); done).
  assert (forall bn, addr_of (<[a := splice (off mod BSIZE) dat blk]> V2) d2 bn = addr_of V2 d2 bn) as Ham by (intros bn; by apply addr_insert).
  split.
  - eapply extends_trans; [exact Hok|lia|exact W1|exact Y1].
  - intros q Hq. rewrite Y2 by done. rewrite length_app. destruct (off_block q) as (Q1 & Q2 & Q3); [lia|]. pose proof (W2 q Hq) as Eq.
    assert (q / BSIZE = off / BSIZE -> byte_at blk (q mod BSIZE) = fbyte V2 d2 q) as Ebl.
    { intros E. unfold fbyte. rewrite E. fold a. destruct (Z.eqb_spec a 0); [done|]. by rewrite Hb. }
    destruct (Z.eqb_spec (q / BSIZE) (off / BSIZE)) as [E|E].
    + rewrite byte_splice_list by lia. rewrite Ebl, Eq by done.
      destruct (Z.leb_spec (off mod BSIZE) (q mod BSIZE)), (Z.ltb_spec (q mod BSIZE) (off mod BSIZE + len dat)), (Z.leb_spec off0 q), (Z.ltb_spec q (off0 + len w)), (Z.ltb_spec q (off0 + Z.of_nat (length w + length dat))); cbn [andb]; try lia; try done.
      * rewrite byte_app by lia. destruct (Z.ltb_spec (q - off0) (len w)); [lia|]. f_equal. lia.
      * rewrite byte_app by lia. destruct (Z.ltb_spec (q - off0) (len w)); [done|lia].
    + rewrite Eq. destruct (Z.leb_spec off0 q), (Z.ltb_spec q (off0 + len w)), (Z.ltb_spec q (off0 + Z.of_nat (length w + length dat))); cbn [andb]; try lia; try done.
      * rewrite byte_app by lia. destruct (Z.ltb_spec (q - off0) (len w)); [done|lia].
      * destruct E. destruct (same_block off q); [lia|lia|done].
  - done.
  - intros bn H1 H2 H3 _. rewrite length_app in H3. rewrite Ham. destruct (decide (bn = off / BSIZE)) as [->|Hne']; [done|].
    assert (bn * BSIZE < off0 + len w) as H4 by (unfold BSIZE in *; lia).
    assert (w <> []) as Hw by (intros ->; simpl in *; unfold BSIZE in *; lia). by apply W4.
  - setoid_rewrite Ham. destruct W5 as (ms & L1 & W5). exists ms. split; [done|]. intros b. rewrite elem_of_logging. intros [->|Hb']; [|by auto].
    right. right. split; [done|]. right. exists (off / BSIZE). split; [apply Z.div_le_mono; [done|lia]|]. split; [lia|done].
Qed.

(** The next piece of the data. *)
Lemma take_next (w data : bytes) m : w = take (length w) data -> 0 <= m -> len w + m <= len data ->
  w ++ slice (len w) m data = take (length (w ++ slice (len w) m data)) data.
Proof.
  intros Hw Hm Hl. assert (len (slice (len w) m data) = m) as Es by (apply length_slice; lia).
  rewrite length_app. replace (length (slice (len w) m data)) with (Z.to_nat m) by lia. unfold slice. rewrite Nat2Z.id.
  rewrite Hw at 1. apply take_take_drop.
Qed.

Lemma set_id_id d d' x : set_id d' (set_id d x) = set_id d' x.
Proof. done. Qed.

(** Blocks up to [off]. *)
Definition blocks_to (off : Z) : Z := (off + BSIZE - 1) / BSIZE.

Lemma blocks_to_aligned bn : blocks_to (BSIZE * bn) = bn.
Proof. unfold blocks_to, BSIZE. symmetry. apply (Z.div_unique _ _ _ 1023); lia. Qed.

Lemma blocks_to_inside bn r : 0 < r <= BSIZE -> blocks_to (BSIZE * bn + r) = bn + 1.
Proof. unfold blocks_to, BSIZE. intros Hr. symmetry. apply (Z.div_unique _ _ _ (r - 1)); lia. Qed.

Lemma blocks_to_le off off' : off <= off' -> blocks_to off <= blocks_to off'.
Proof. intros H. apply Z.div_le_mono; [done|lia]. Qed.

(** One more block counts only if the write begins at its start. *)
Lemma blocks_to_next off m a : 0 <= off -> 0 < m -> off mod BSIZE + m <= BSIZE -> (off mod BSIZE <> 0 -> a <> 0) ->
  Z.of_nat (fresh a) + blocks_to off <= blocks_to (off + m).
Proof.
  intros Ho Hm Hb Ha. destruct (off_block off Ho) as (B1 & B2 & B3). set (q := off / BSIZE) in *. set (r := off mod BSIZE) in *.
  replace (off + m) with (BSIZE * q + (r + m)) by lia. rewrite (blocks_to_inside q (r + m)) by lia. rewrite B3.
  destruct (decide (r = 0)) as [->|Hr].
  - rewrite Z.add_0_r, blocks_to_aligned. unfold fresh. destruct (a =? 0); lia.
  - rewrite blocks_to_inside by lia. unfold fresh. destruct (Z.eqb_spec a 0); [|lia]. by destruct (Ha Hr).
Qed.

(** A block that is written from its middle is there. *)
Lemma wrote_middle c off0 n w V d lh V1 d1 lh1 off :
  off = off0 + len w -> ino_ok sb V d -> 0 <= off0 <= di_size d -> off0 + n <= MAXFILE * BSIZE -> len w < n -> wrote c off0 n w V d lh V1 d1 lh1 ->
  off mod BSIZE <> 0 -> addr_of V1 d1 (off / BSIZE) <> 0.
Proof.
  intros Eoff Hok Ho Hmax Hw [W1 W2 W3 W4 W5] Hm. destruct (off_block off) as (B1 & B2 & B3); [lia|].
  assert (0 <= off / BSIZE < MAXFILE) as Hbn by (split; [done|]; apply Z.div_lt_upper_bound; [done|lia]).
  destruct (decide (w = [])) as [->|Hne].
  - simpl in *. assert (addr_of V d (off / BSIZE) <> 0) as H1 by (apply (mo_full _ _ _ _ _ (io_map _ _ _ Hok)); lia).
    by rewrite (ex_addr _ _ _ _ _ W1).
  - apply W4; [done|lia|lia|done].
Qed.

Lemma ft_writei_loop T S V lh k x src data off0 n (Q : Z * Z -> list lockid -> fsst -> gmap sleepid sleeplock -> Prop) :
  T !! k = Some x -> i_dev x = dev -> ino_ok sb V (i_d x) -> disk_ok sb V -> gives src data -> 1 <= o ->
  0 <= off0 <= di_size (i_d x) -> 0 <= n <= len data -> off0 + n <= MAXFILE * BSIZE ->
  (forall c w V' d' lh' f' sl', fstx (<[k := set_id d' x]> T) S V' ∅ lh' f' sl' -> wrote c off0 n w V (i_d x) lh V' d' lh' ->
     Z.of_nat c + blocks_to off0 <= blocks_to (off0 + n) ->
     w = take (length w) data -> len w <= n -> budget 2 ∅ lh' ->
     (len w = n \/ di_size (i_d x) < off0 + n /\ forall b, 0 <= b < sb_size sb -> used sb V' b = true) -> Q (len w, off0 + len w) [] f' sl') ->
  forall fuel r c w V1 d1 lh1 f sl, fstx (<[k := set_id d1 x]> T) S V1 ∅ lh1 f sl -> wrote c off0 n w V (i_d x) lh V1 d1 lh1 ->
    Z.of_nat c + blocks_to off0 <= blocks_to (off0 + len w) ->
    w = take (length w) data -> len w <= n -> budget (5 * r + 2) ∅ lh1 ->
    (len w < n -> (off0 + len w) mod BSIZE + (n - len w) <= Z.of_nat fuel * BSIZE) ->
    (len w < n -> (off0 + len w) mod BSIZE + (n - len w) <= Z.of_nat r * BSIZE) ->
  wpf [] (writei_loop fuel (ip_ptr k) src n (len w) (off0 + len w)) f sl Q.
Proof using FL.
  intros Hk Hdev Hok Hd Hgv Ho Hoff Hn Hmax HQ fuel. pose proof (data0_pos FL) as Hd0. pose proof (fl_data _ _ FL) as Hsize.
  induction fuel as [|fuel IH]; intros r c w V1 d1 lh1 f sl X W Hc Hw Hlw Hbud Hfuel Hr; cbn [writei_loop]; destruct (Z.ltb_spec (len w) n) as [Hlt|Hge].
  all: try (apply wpf_ret; eapply HQ; [exact X|exact W|pose proof (blocks_to_le (off0 + len w) (off0 + n)); lia|done|done|eapply budget_le; [|exact Hbud]; lia|left; lia]).
  { specialize (Hfuel Hlt). destruct (off_block (off0 + len w)); lia. }
  destruct (off_block (off0 + len w)) as (B1 & B2 & B3); [lia|]. set (off := off0 + len w) in *.
  destruct r as [|r]; [specialize (Hr Hlt); lia|].
  assert (0 <= off / BSIZE < MAXFILE) as Hbn by (split; [done|]; apply Z.div_lt_upper_bound; [done|lia]).
  assert (<[k := set_id d1 x]> T !! k = Some (set_id d1 x)) as Hk1 by (by eapply insert_lookup_id).
  apply wpf_bind. eapply (ft_bmap i p dev start o K sb cn FL _ S V1 lh1 f sl k (set_id d1 x)); [exact X|exact Hk1|done|apply W| |done|eapply budget_le; [|exact Hbud]; lia|done|].
  { eapply extends_disk_ok; [lia|apply W|done]. }
  intros V2 d2 lh2 f2 sl2 X2 T2. cbn [i_d set_id] in *. rewrite list_insert_insert_eq, set_id_id in X2.
  assert (<[k := set_id d2 x]> T !! k = Some (set_id d2 x)) as Hk2 by (by eapply insert_lookup_id).
  set (m := Z.min (n - len w) (BSIZE - off mod BSIZE)). assert (0 < m /\ off mod BSIZE + m <= BSIZE /\ len w + m <= n) as (M1 & M2 & M3) by lia.
  pose proof (wrote_middle _ _ _ _ _ _ _ _ _ _ off eq_refl Hok Hoff Hmax Hlt W) as Hmid.
  pose proof (blocks_to_next off m (addr_of V1 d1 (off / BSIZE)) ltac:(lia) M1 M2 Hmid) as Hnext.
  assert (wrote (c + fresh (addr_of V1 d1 (off / BSIZE))) off0 n w V (i_d x) lh V2 d2 lh2) as W2.
  { eapply wrote_map; [done|lia|done|done| | |exact W|exact T2]; [apply Z.div_le_mono; [done|lia]|lia]. }
  destruct (Z.eqb_spec (addr_of V2 d2 (off / BSIZE)) 0) as [E0|Hne].
  { apply wpf_ret. eapply HQ; [exact X2|exact W2| |done|lia| |right; split; [|by apply T2]].
    - pose proof (blocks_to_le (off + m) (off0 + n)). lia.
    - pose proof (mt_len _ _ _ _ _ _ _ _ T2). unfold budget in *. lia.
    - destruct (Z.lt_ge_cases (off / BSIZE * BSIZE) (di_size (i_d x))) as [Hin|]; [|lia].
      pose proof (mo_full _ _ _ _ _ (io_map _ _ _ Hok) _ B1 Hin) as Hne. by rewrite (ex_addr _ _ _ _ _ (wt_ext _ _ _ _ _ _ _ _ _ _ W2) _ Hbn Hne) in E0. }
  pose proof (ex_ok _ _ _ _ _ (mt_ext _ _ _ _ _ _ _ _ T2)) as Hok2. destruct (mo_data _ _ _ _ _ (io_map _ _ _ Hok2) _ Hbn Hne) as [Hra Hua].
  assert (disk_ok sb V2) as Hd2 by (eapply extends_disk_ok; [lia|apply T2|eapply extends_disk_ok; [lia|apply W|done]]).
  destruct (proj1 Hd2 (addr_of V2 d2 (off / BSIZE))) as [blk Hb]; [lia|]. assert (len blk = BSIZE) as Hbl by (by eapply fstx_sized).
  apply wpf_bind. eapply ft_get_ip; [exact X2|exact Hk2|]. cbn [i_dev set_id]. rewrite Hdev.
  pose proof (mt_len _ _ _ _ _ _ _ _ T2) as Hl2.
  apply wpf_bind. eapply ft_bread; [exact X2|exact Hb|done|right; apply budget_room; unfold budget in *; lia|]. intros t f3 sl3 X3.
  apply wpf_bind, Hgv; [lia|lia|lia|]. set (dat := slice (len w) m data). assert (len dat = m) as Hdl by (apply length_slice; lia).
  apply wpf_bind. eapply ft_put; [exact X3|apply lookup_insert_eq|lia|lia|]. intros f4 X4. rewrite insert_insert_eq in X4. cbn [Z.eqb].
  apply wpf_bind. eapply ft_log; [exact X4|apply lookup_insert_eq|apply (data_home FL); lia|by eexists| |done|].
  { unfold budget, NBUF, LOGBLOCKS, MAXOPBLOCKS in *. lia. }
  intros f5 X5. apply wpf_bind. eapply ft_brelse; [exact X5|apply lookup_insert_eq|apply lookup_insert_eq|]. intros f6 sl6 X6.
  rewrite delete_insert_id in X6 by done.
  assert (len (w ++ dat) = len w + m) as Ewd by (rewrite length_app; lia).
  replace (off + m) with (off0 + len (w ++ dat)) by lia. rewrite <- Ewd.
  eapply (IH r _ (w ++ dat) _ _ _ f6 sl6 X6).
  - eapply wrote_more; [..|exact W2|done|done|done]; done || lia.
  - replace (off0 + len (w ++ dat)) with (off + m) by lia. lia.
  - apply take_next; [done|lia|lia].
  - lia.
  - pose proof (logging_length (addr_of V2 d2 (off / BSIZE)) lh2). unfold budget in *. lia.
  - intros Hm. assert (m = BSIZE - off mod BSIZE) as Em by lia. replace (off0 + len (w ++ dat)) with (BSIZE * (off / BSIZE + 1)) by lia.
    rewrite (Z.mul_comm BSIZE), Z_mod_mult. specialize (Hfuel Hlt). lia.
  - intros Hm. assert (m = BSIZE - off mod BSIZE) as Em by lia. replace (off0 + len (w ++ dat)) with (BSIZE * (off / BSIZE + 1)) by lia.
    rewrite (Z.mul_comm BSIZE), Z_mod_mult. specialize (Hr Hlt). lia.
Qed.

(** The file after writing [w]: it is longer if the data reaches behind its end. *)
Definition grown (off : Z) (w : bytes) (d : dinode) : dinode := set_disize (Z.max (di_size d) (off + len w)) d.

Lemma wrote_extends c off0 n w V d lh V' d' lh' :
  ino_ok sb V d -> 0 <= off0 <= di_size d -> off0 + n <= MAXFILE * BSIZE -> len w <= n ->
  wrote c off0 n w V d lh V' d' lh' -> extends sb V d V' (grown off0 w d').
Proof.
  intros Hok Ho Hmax Hw [W1 W2 W3 W4 W5]. pose proof (io_size _ _ _ Hok) as Hs. unfold grown. rewrite W3. apply extends_size; [done|lia|].
  intros bn Hbn Hlt. destruct (Z.lt_ge_cases (bn * BSIZE) (di_size d)) as [H1|H1].
  - pose proof (mo_full _ _ _ _ _ (io_map _ _ _ Hok) bn Hbn H1) as Hne. rewrite (ex_addr _ _ _ _ _ W1); [done| |done]. unfold BSIZE in *. lia.
  - apply W4; [done|unfold BSIZE in *; lia|lia|]. intros ->. simpl in *. lia.
Qed.

Lemma wrote_fdata c off0 n w V d lh V' d' lh' :
  ino_ok sb V d -> 0 <= off0 <= di_size d -> off0 + n <= MAXFILE * BSIZE -> len w <= n ->
  wrote c off0 n w V d lh V' d' lh' -> fdata V' (grown off0 w d') = splice off0 w (fdata V d).
Proof.
  intros Hok Ho Hmax Hw [W1 W2 W3 W4 W5]. pose proof (io_size _ _ _ Hok) as Hs. unfold fdata, grown. cbn [di_size set_disize]. rewrite W3.
  set (g := fun k => fbyte V d (Z.of_nat k)). assert (length (g <$> seq 0 (Z.to_nat (di_size d))) = Z.to_nat (di_size d)) as Eg by (by rewrite length_fmap, length_seq).
  apply list_eq. intros j. rewrite lookup_splice by lia. rewrite !list_lookup_fmap.
  destruct (decide (j < Z.to_nat (Z.max (di_size d) (off0 + len w)))%nat) as [Hj|Hj].
  - replace (seq 0 (Z.to_nat (Z.max (di_size d) (off0 + len w))) !! j) with (Some j) by (symmetry; apply lookup_seq; lia). cbn [fmap option_fmap option_map].
    change (fbyte V' (set_disize _ d') (Z.of_nat j)) with (fbyte V' d' (Z.of_nat j)). rewrite W2 by lia. case_decide as Hd.
    + destruct (Z.leb_spec off0 (Z.of_nat j)), (Z.ltb_spec (Z.of_nat j) (off0 + len w)); cbn [andb]; try lia. unfold byte_at, zlookup.
      destruct (Z.leb_spec 0 (Z.of_nat j - off0)); [|lia]. replace (Z.to_nat (Z.of_nat j - off0)) with (j - Z.to_nat off0)%nat by lia.
      destruct (lookup_lt_is_Some_2 w (j - Z.to_nat off0)) as [y ->]; [lia|done].
    + replace ((off0 <=? Z.of_nat j) && (Z.of_nat j <? off0 + len w)) with false.
      2: { destruct (Z.leb_spec off0 (Z.of_nat j)), (Z.ltb_spec (Z.of_nat j) (off0 + len w)); cbn [andb]; try done. lia. }
      replace (seq 0 (Z.to_nat (di_size d)) !! j) with (Some j) by (symmetry; apply lookup_seq; lia). done.
  - rewrite (lookup_ge_None_2 (seq _ _)) by (rewrite length_seq; lia). simpl. case_decide; [lia|].
    by rewrite (lookup_ge_None_2 (seq _ _)) by (rewrite length_seq; lia).
Qed.

Lemma ft_writei T S V lh f sl k x src data off n r (Q : Z -> list lockid -> fsst -> gmap sleepid sleeplock -> Prop) :
  fstx T S V ∅ lh f sl -> T !! k = Some x -> i_dev x = dev -> 0 <= i_inum x < sb_ninodes sb -> ino_ok sb V (i_d x) -> disk_ok sb V -> gives src data -> 1 <= o ->
  0 <= off <= di_size (i_d x) -> 0 <= n <= len data -> off + n <= MAXFILE * BSIZE -> off mod BSIZE + n <= Z.of_nat r * BSIZE -> budget (5 * r + 2) ∅ lh ->
  (forall c w V' d' lh' f' sl', fstx (<[k := set_id (grown off w d') x]> T) S (put_inode sb (i_inum x) (grown off w d') V') ∅ (logging (IBLOCK (i_inum x) sb) lh') f' sl' ->
     wrote c off n w V (i_d x) lh V' d' lh' -> Z.of_nat c + blocks_to off <= blocks_to (off + n) -> w = take (length w) data -> len w <= n -> budget 2 ∅ lh' -> map_Forall (fun _ => block_sized) V' ->
     (len w = n \/ di_size (i_d x) < off + n /\ forall b, 0 <= b < sb_size sb -> used sb V' b = true) -> Q (len w) [] f' sl') ->
  wpf [] (writei (ip_ptr k) src off n) f sl Q.
Proof using FL.
  intros X Hk Hdev Hn Hok Hd Hgv Ho Hoff Hlen Hmax Hr Hbud HQ. pose proof (io_size _ _ _ Hok) as Hsz. pose proof (fl_data _ _ FL) as Hsize.
  assert (MAXFILE * BSIZE = 274432) as Emax by done. unfold writei. apply wpf_bind. eapply ft_get_ip; [exact X|exact Hk|].
  rewrite (u32_small (off + n)) by lia. destruct (Z.ltb_spec (di_size (i_d x)) off), (Z.ltb_spec (off + n) off); cbn [orb]; try lia.
  destruct (Z.ltb_spec (MAXFILE * BSIZE) (off + n)); [lia|].
  apply wpf_bind. assert (<[k := set_id (i_d x) x]> T = T) as ET by (apply list_insert_id; rewrite Hk; by destruct x).
  assert (off = off + len (@nil Z)) as E0 by (simpl; lia). rewrite E0 at 1. change 0 with (len (@nil Z)) at 1.
  eapply (ft_writei_loop T S V lh k x src data off n _ Hk Hdev Hok Hd Hgv Ho Hoff Hlen Hmax) with (r := r) (d1 := i_d x);
    [|by rewrite ET|by apply wrote_refl|simpl; rewrite Z.add_0_r; lia|done|simpl; lia|done|intros _; simpl; rewrite Z.add_0_r, Z.sub_0_r; apply rounds_enough; lia|intros _; simpl; by rewrite Z.add_0_r, Z.sub_0_r].
  intros c w V' d' lh' f' sl' X' W Hc Hw Hlw Hbud' Hfull.
  assert (<[k := set_id d' x]> T !! k = Some (set_id d' x)) as Hk' by (by eapply insert_lookup_id). assert (map_Forall (fun _ => block_sized) V') as Hz by (by eapply fstx_view).
  apply wpf_bind. eapply ft_get_ip; [exact X'|exact Hk'|]. cbn [i_d set_id].
  pose proof (wrote_extends _ _ _ _ _ _ _ _ _ _ Hok Hoff Hmax Hlw W) as Hext.
  assert (disk_ok sb V') as Hd' by (eapply extends_disk_ok; [lia|exact Hext|done]).
  assert (length (di_addrs (grown off w d')) = 13%nat) as Hl13.
  { pose proof (io_len _ _ _ (ex_ok _ _ _ _ _ Hext)) as E. unfold NDIRECT in E. lia. }
  assert (forall f2 sl2, fstx (<[k := set_id (grown off w d') x]> T) S V' ∅ lh' f2 sl2 -> wpf [] (iupdate (ip_ptr k);; mret (i32 (len w))) f2 sl2 Q) as Hend.
  { intros f2 sl2 X2. apply wpf_bind. eapply (ft_iupdate i p dev start o K sb cn FL _ S V' lh' f2 sl2 k (set_id (grown off w d') x)); [exact X2|by eapply insert_lookup_id|done|done|done|done|eapply budget_le; [|exact Hbud']; lia|done|].
    intros f3 sl3 X3. apply wpf_ret. rewrite i32_small by lia. eapply HQ; [exact X3|exact W|done|done|done|done|done|done]. }
  apply wpf_bind. destruct (Z.ltb_spec (di_size d') (off + len w)) as [Hlt|Hge].
  - eapply ft_upd_d; [exact X'|exact Hk'|]. intros f2 X2. rewrite list_insert_insert_eq, set_id_id in X2. apply Hend.
    unfold grown. rewrite Z.max_r by lia. exact X2.
  - apply wpf_ret, Hend. unfold grown. rewrite Z.max_l by lia. replace (set_disize (di_size d') d') with d' by (by destruct d'). exact X'.
Qed.

(** Writes that are refused. *)
Lemma ft_writei_refused T S V lh f sl k x src off n (Q : Z -> list lockid -> fsst -> gmap sleepid sleeplock -> Prop) :
  fstx T S V ∅ lh f sl -> T !! k = Some x -> ino_ok sb V (i_d x) -> 0 <= off < 2 ^ 32 -> 0 <= n < 2 ^ 32 ->
  di_size (i_d x) < off \/ MAXFILE * BSIZE < off + n -> Q (-1) [] f sl -> wpf [] (writei (ip_ptr k) src off n) f sl Q.
Proof.
  intros X Hk Hok Ho Hn Hbad HQ. pose proof (io_size _ _ _ Hok) as Hsz. assert (MAXFILE * BSIZE = 274432) as Emax by done.
  unfold writei. apply wpf_bind. eapply ft_get_ip; [exact X|exact Hk|].
  destruct (Z.ltb_spec (di_size (i_d x)) off); cbn [orb]; [by apply wpf_ret|].
  destruct (Z.ltb_spec (u32 (off + n)) off); [by apply wpf_ret|].
  assert (off + n < 2 ^ 32 \/ 2 ^ 32 <= off + n) as [Hs|Hs] by lia.
  - rewrite u32_small by lia. destruct (Z.ltb_spec (MAXFILE * BSIZE) (off + n)); [by apply wpf_ret|lia].
  - unfold u32 in *. rewrite <- (Z.mod_unique (off + n) (2 ^ 32) 1 (off + n - 2 ^ 32)) in * by lia. lia.
Qed.

End io.
