(* ===== verification/XvFsUser.v ===== *)
(** User memory, as file-system code sees it: a buffer that holds data to be
    written, and memory that can be written to. *)

From S2P Require Import Prelude XvMem XvFsTypes XvKernel XvMsg XvSched XvSchedProofs XvBio XvBlock XvFsLogic XvFs XvFsIo.
Import Fs.

Set Default Proof Using "Type".

Section user.
Context {U : UserCopy} {UL : UserCopyLaws U}.

Lemma buffer_frame pt va data s s' : vm_ok s /\ user_has s pt va data -> same_vm s s' -> vm_ok s' /\ user_has s' pt va data.
Proof using UL. intros [H1 H2] E. split; [by eapply vm_ok_frame|]. eapply user_has_frame; [exact H2|]. by destruct E as [-> _]. Qed.

(** Address space [pt] holds [data] at [va]. *)
Definition user_buffer (pt va : Z) (data : bytes) : Ambient :=
  {| amb := fun s => vm_ok s /\ user_has s pt va data; amb_frame := buffer_frame pt va data |}.

(** Nothing is known of the contents of user memory. *)
Definition user_memory : Ambient := {| amb := vm_ok; amb_frame := vm_ok_frame |}.

Lemma inside_copy {AM : Ambient} i p s : inside i p [] s -> vm_ok s -> p_pagetable p <> 0 -> copy_ctx i (p_pagetable p) s.
Proof.
  intros [Hp Hc Hn Hk Ht He Hnd Hpl Hr Ha] Hv Hpt. split; [done|]. split; [done|]. split; [done|]. split; [by exists p|]. by rewrite Hk.
Qed.

Lemma u64_u64_add a b : u64 (u64 a + b) = u64 (a + b).
Proof. unfold u64. by rewrite Zplus_mod_idemp_l. Qed.

Lemma gives_user {rely} i p addr data j : p_pagetable p <> 0 -> 0 <= j <= len data ->
  gives (AM := user_buffer (p_pagetable p) addr data) (rely := rely) i p (User (u64 (addr + j))) (drop (Z.to_nat j) data).
Proof using UL.
  intros Hpt Hj at_ n f sl Q H1 H2 H3 HQ. rewrite length_drop in H3. unfold either_copyin. apply wpf_bind, wpf_myproc, wpf_bind, wpf_get_proc.
  rewrite u64_u64_add. intros s Hi Hf Hs. pose proof (in_amb _ _ _ _ Hi) as [Hv Hu]. pose proof (inside_copy _ _ _ Hi Hv Hpt) as Hc.
  destruct (user_has_part s _ addr data (Z.to_nat (j + at_)) (Z.to_nat n) Hu) as [Hr Hd]; [lia|lia|]. rewrite Z2Nat.id in Hr, Hd by lia.
  rewrite Z.add_assoc in Hr, Hd. assert (take (Z.to_nat n) (drop (Z.to_nat (j + at_)) data) = slice at_ n (drop (Z.to_nat j) data)) as E.
  { unfold slice. rewrite drop_drop. do 2 f_equal. lia. }
  rewrite E in Hd. assert (len (slice at_ n (drop (Z.to_nat j) data)) = n) as El by (apply length_slice; rewrite ?length_drop; lia).
  replace (u64 (addr + j + at_)) with (addr + j + at_) by (symmetry; by apply u64_small). rewrite <- El at 1.
  eapply wpk_mono; [by eapply wpk_copyin_has|]. intros [rc d] s' (-> & -> & ->). exists []. split; [done|]. split; [apply others_refl|]. by rewrite Hf, Hs.
Qed.

Lemma takes_user {rely} i p : p_pagetable p <> 0 -> takes (AM := user_memory) (rely := rely) i p true.
Proof using UL.
  intros Hpt dst l f sl Q Hd HQ. destruct dst as [va|]; [|done]. destruct Hd as (_ & Hva & Hl).
  unfold either_copyout. apply wpf_bind, wpf_myproc, wpf_bind, wpf_get_proc. intros s Hi Hf Hs. pose proof (in_amb _ _ _ _ Hi) as Hv.
  eapply wpk_mono; [eapply wpk_copyout; [by apply (inside_copy _ _ _ Hi)|done|lia|done]|]. intros rc s' (Hm & Hv' & Hrc). exists [].
  destruct Hi as [Ip Ic In Ik It Ie Ind Ipl Ir Ia]. rewrite Hm. split; [|split].
  - split; kproj; try done. by rewrite <- Hm.
  - split; [kst_eq|]. kproj. apply Forall_Forall2_diag, Forall_true. apply woke_refl.
  - kproj. rewrite Hf, Hs. apply HQ. destruct Hrc; auto.
Qed.

End user.
