(* ===== verification/XvFsWrite.v ===== *)
(** [filewrite] on an inode: every piece is a transaction, and after a crash the
    file holds a prefix of what was written. *)

From S2P Require Import Prelude XvMem XvFsTypes XvKernel XvMsg XvSched XvSchedProofs XvPipe XvBio XvBlock XvLog XvFsLogic XvBioList XvBioProofs XvBioSpec XvLogProofs XvLogCommit XvLogCrash XvLogTx XvFs XvSysfile XvFsBits XvFsTx XvFsBlocks XvFsMap XvFsFile XvFsInode XvFsInv XvFsOps XvFsIo.
Import Fs.

Set Default Proof Using "Type".

Lemma splice_app off (w w' l : bytes) : 0 <= off <= len l -> splice (off + len w) w' (splice off w l) = splice off (w ++ w') l.
Proof.
  intros Ho. assert (off + len w <= len (splice off w l)).
  { unfold splice. rewrite !length_app, length_take, length_drop. lia. }
  apply list_eq. intros j. rewrite !lookup_splice by lia. rewrite length_app. repeat case_decide; try lia; try done.
  - rewrite lookup_app_r by lia. f_equal. lia.
  - by rewrite lookup_app_l by lia.
Qed.

Lemma splice_nil off l : splice off [] l = l.
Proof. unfold splice. cbn [length]. rewrite Nat.add_0_r. simpl. by rewrite take_drop. Qed.

(** * What a write does to the disk *)

(** On the disk [R], file [n] has [w] at [off]; all else is as on [V]. *)
Record wrote_to (sb : superblock) (V : gmap Z bytes) (n off : Z) (w : bytes) (R : gmap Z bytes) : Prop := mk_wrote_to {
  wo_ok : fs_ok sb R;
  wo_live : live sb R n;
  wo_contents : contents sb R n = splice off w (contents sb V n);
  wo_fields : let d := inode_at sb n R in d = set_disize (di_size d) (set_diaddrs (di_addrs d) (inode_at sb n V));
  wo_others : same_others sb n V R;
}.

Lemma wrote_to_refl sb V n off : fs_ok sb V -> live sb V n -> wrote_to sb V n off [] V.
Proof. intros H1 H2. split; [done|done|by rewrite splice_nil|by destruct (inode_at sb n V)|done]. Qed.

Lemma length_contents sb V n : 0 <= di_size (inode_at sb n V) -> len (contents sb V n) = di_size (inode_at sb n V).
Proof. intros H. unfold contents, fdata. rewrite length_fmap, length_seq. lia. Qed.

Lemma wrote_to_trans sb V n off w V1 w' V2 :
  0 <= off <= len (contents sb V n) -> wrote_to sb V n off w V1 -> wrote_to sb V1 n (off + len w) w' V2 -> wrote_to sb V n off (w ++ w') V2.
Proof.
  intros Ho [A1 A2 A3 A4 A5] [B1 B2 B3 B4 B5]. split; [done|done| | |by eapply same_others_trans].
  - by rewrite B3, A3, splice_app.
  - cbv zeta in *. rewrite B4, A4. done.
Qed.

Section write.
Context {AM : Ambient} {U : UserCopy} {BD : BlockDev} {DV : Devices} {rely : protocol} {BL : BlockDevLaws BD rely} (i : nat) (p : proc) (dev start : Z).
Context (sb : superblock) (FL : fs_layout start sb) (HL : log_layout dev start).
Notation wpf := (wpf (rely := rely) i p).
Notation fstx o K := (fstx (BL := BL) p dev start o K sb).
Implicit Types (K : platter) (cn : above) (T : list inode) (S : gmap sleepid sleeplock) (V R : gmap Z bytes) (lh : list Z) (f : fsst) (sl : gmap sleepid sleeplock).

(** File [fi] is open for inode [n], which has entry [k], at offset [off]; the inode
    is not locked. *)
Record opened cn T S V (fi k : nat) (n off : Z) : Prop := mk_opened {
  op_file : exists y, ab_files cn !! fi = Some y /\ f_type y = FD_INODE /\ f_ip y = ip_ptr k /\ f_off y = off;
  op_inode : exists x, T !! k = Some x /\ 1 <= i_ref x /\ i_dev x = dev /\ i_inum x = n /\ (i_valid x <> 0 -> i_d x = inode_at sb n V);
  op_lock : exists l, S !! SInode k = Some l /\ sl_locked l = 0;
}.

Lemma loaded_is V x n : i_inum x = n -> (i_valid x <> 0 -> i_d x = inode_at sb n V) -> loaded sb V x = set_ivalid (i_valid (loaded sb V x)) (set_id (inode_at sb n V) x) /\ i_valid (loaded sb V x) <> 0.
Proof.
  intros <- Hv. unfold loaded. destruct (Z.eqb_spec (i_valid x) 0) as [E|E]; [done|]. split; [|done]. rewrite <- Hv by done. by destruct x.
Qed.

(** One piece: the body of the loop of [filewrite], up to the end of its transaction. *)
Definition piece {B} (fi : nat) (src : source) (n1 : Z) (cont : Z -> KM B) : KM B :=
  begin_op;;
  x ← get_file fi;
  ilock (f_ip x);;
  x ← get_file fi;
  r ← writei (f_ip x) src (f_off x) n1;
  (if 0 <? r then upd_file fi (fun x => set_foff (u32 (f_off x + r)) x) else mret tt);;
  iunlock (f_ip x);;
  end_op;;
  cont r.

(** The states the disk was in, and is in, lead to [V] or [R]. *)
Definition led_to V R f f' : Prop := exists olds news, d_past (fs_disk f') = news ++ olds ++ d_past (fs_disk f) /\
  Forall (recovers start V) olds /\ Forall (recovers start R) (d_now (fs_disk f') :: news).

(** After the transaction, the disk is as good as the blocks that were logged. *)
Lemma wrote_to_home V n off w R R' : live sb R n -> wrote_to sb V n off w R -> same_home start R R' -> area start R' -> map_Forall (fun _ => block_sized) R' ->
  wrote_to sb V n off w R' /\ inode_at sb n R' = inode_at sb n R.
Proof using FL.
  intros Hn [A1 A2 A3 A4 A5] Hs Ha Hz. destruct (fs_ok_home FL R R' A1 Hs Ha Hz) as (B1 & B2 & B3). assert (inode_at sb n R' = inode_at sb n R) as E by (apply B2; destruct Hn; lia).
  split; [|done]. split; [done|by eapply live_ext|by rewrite B3|by rewrite E|]. intros m Hm Hne. destruct (A5 m Hm Hne) as [C1 C2]. split; [by rewrite B2|].
  intros Hl. rewrite B3; [by apply C2|]. by eapply live_ext.
Qed.

(** [writei] under an inode lock. *)
Lemma wrote_to_writei V n c off n1 w V' d' lh lh' :
  fs_ok sb V -> live sb V n -> 0 <= off <= di_size (inode_at sb n V) -> off + n1 <= MAXFILE * BSIZE -> len w <= n1 ->
  wrote sb c off n1 w V (inode_at sb n V) lh V' d' lh' -> map_Forall (fun _ => block_sized) V' ->
  let R := put_inode sb n (grown off w d') V' in wrote_to sb V n off w R /\ inode_at sb n R = grown off w d'.
Proof using FL.
  intros Hf Hn Ho Hmax Hw W Hz R. pose proof (fo_ino _ _ Hf n Hn) as Hok. pose proof (wrote_extends sb _ _ _ _ _ _ _ _ _ _ Hok Ho Hmax Hw W) as X.
  destruct (fs_ok_extends FL V n V' _ Hf Hn X Hz) as (A1 & A2 & A3 & A4 & A5). split; [|done]. split; [done|done| | |done].
  - fold R in A4. rewrite A4. unfold contents. eapply wrote_fdata; [exact Hok|done|exact Hmax|done|exact W].
  - cbv zeta. fold R in A2. rewrite A2. apply (ex_fields _ _ _ _ _ X).
Qed.

(** Changes to one open file and to one entry of the inode table. *)
Definition only_file (fi : nat) (cn cn' : above) : Prop := exists y, cn' = with_files (<[fi := y]> (ab_files cn)) cn.
Definition only_inode (k : nat) (T T' : list inode) : Prop := exists x, T' = <[k := x]> T.

Lemma only_file_trans fi cn cn1 cn2 : only_file fi cn cn1 -> only_file fi cn1 cn2 -> only_file fi cn cn2.
Proof. intros [y1 ->] [y2 ->]. exists y2. unfold with_files. simpl. by rewrite list_insert_insert_eq. Qed.

Lemma only_inode_trans k T T1 T2 : only_inode k T T1 -> only_inode k T1 T2 -> only_inode k T T2.
Proof. intros [y1 ->] [y2 ->]. exists y2. by rewrite list_insert_insert_eq. Qed.

Lemma piece_budget off n1 : 0 <= off -> n1 <= write_max -> off mod BSIZE + n1 <= Z.of_nat 4 * BSIZE.
Proof. intros Ho Hn. change write_max with 3072 in Hn. destruct (off_block off Ho) as (_ & Hm & _). unfold BSIZE in *. lia. Qed.

(** What is left to do after [writei]. *)
Lemma ft_piece_end {B} K cn T S V R lh f sl fi k n off w x y r (cont : Z -> KM B) V0 f0 (Q : B -> list lockid -> fsst -> gmap sleepid sleeplock -> Prop) :
  fstx 1 K cn T S R ∅ lh f sl -> len lh < Z.of_nat NBUF -> d_now K = V -> fs_disk f0 = K ->
  ab_files cn !! fi = Some y -> f_type y = FD_INODE -> f_ip y = ip_ptr k -> f_off y = off -> 0 <= off -> off + len w < 2 ^ 32 ->
  T !! k = Some x -> 1 <= i_ref x -> i_dev x = dev -> i_inum x = n -> i_d x = inode_at sb n R ->
  S !! SInode k = Some (locked_by (p_pid p)) -> wrote_to sb V0 n off w R -> r = len w \/ r = -1 /\ w = [] ->
  (forall K' cn' S' V' f' sl', fstx 0 K' cn' T S' V' ∅ [] f' sl' -> opened cn' T S' V' fi k n (off + len w) -> only_file fi cn cn' ->
     S' = <[SInode k := mk_sleeplock 0 0]> S -> same_home start R V' -> wrote_to sb V0 n off w V' -> led_to V R f0 f' -> wpf [] (cont r) f' sl' Q) ->
  wpf [] ((if 0 <? r then upd_file fi (fun x => set_foff (u32 (f_off x + r)) x) else mret tt);; iunlock (f_ip y);; end_op;; cont r) f sl Q.
Proof using FL HL.
  intros X Hlh HK Hf0 Hy Hty Hip Hoff Ho Hmax Hk Href Hdev Hinum Hd Hlk Hw Hr HQ. set (y' := set_foff (off + len w) y).
  assert (forall f1, fstx 1 K (with_files (<[fi := y']> (ab_files cn)) cn) T S R ∅ lh f1 sl -> wpf [] (iunlock (f_ip y);; end_op;; cont r) f1 sl Q) as Hend.
  { intros f1 X1. rewrite Hip. apply wpf_bind. eapply ft_iunlock; [exact X1|exact Hk|done|exact Hlk|]. intros f2 sl2 X2.
    apply wpf_bind. eapply (ft_end i p dev start sb HL); [exact X2|done|]. intros K' V' f3 sl3 X3 Hs A D.
    assert (area start V' /\ map_Forall (fun _ => block_sized) V') as [Ha Hz].
    { split; [exact (tx_area _ _ _ _ _ _ _ _ _ (ft_tx _ _ _ _ _ _ _ _ _ _ _ _ _ _ X3))|by eapply fstx_view]. }
    destruct (wrote_to_home V0 n off w R V' (wo_live _ _ _ _ _ _ Hw) Hw Hs Ha Hz) as [Hw' Ei]. eapply HQ; [exact X3| |by eexists|done|done|done|].
    - split.
      + exists y'. split; [|done]. cbn [ab_files with_files]. apply list_lookup_insert_eq. by eapply lookup_lt_Some.
      + exists x. split; [done|]. split; [done|]. split; [done|]. split; [done|]. intros _. by rewrite Ei.
      + exists (mk_sleeplock 0 0). split; [apply lookup_insert_eq|done].
    - unfold led_to, atomically in *. rewrite Hf0. rewrite (ft_disk _ _ _ _ _ _ _ _ _ _ _ _ _ _ X2), HK in A. exact A. }
  assert (fstx 1 K (with_files (<[fi := y]> (ab_files cn)) cn) T S R ∅ lh f sl) as Xy.
  { rewrite list_insert_id by done. by destruct cn. }
  apply wpf_bind. destruct (Z.ltb_spec 0 r) as [Hlt|Hge].
  - eapply ft_upd_file; [exact X|exact Hy|]. intros f1 X1. apply Hend. unfold y'. destruct Hr as [->|[-> _]]; [|lia]. by rewrite Hoff, u32_small in X1 by lia.
  - apply wpf_ret, Hend. assert (len w = 0) as E by (destruct Hr as [->|[_ ->]]; [lia|done]). unfold y'. rewrite E, Z.add_0_r, <- Hoff.
    replace (set_foff (f_off y) y) with y by (by destruct y). exact Xy.
Qed.

Lemma ft_piece {B} K cn T S V f sl fi k n off src data n1 (cont : Z -> KM B) (Q : B -> list lockid -> fsst -> gmap sleepid sleeplock -> Prop) :
  fstx 0 K cn T S V ∅ [] f sl -> opened cn T S V fi k n off -> fs_ok sb V -> live sb V n -> gives (rely := rely) i p src data ->
  0 <= n1 <= len data -> n1 <= write_max -> 0 <= off <= di_size (inode_at sb n V) ->
  (forall r w R K' cn' T' S' V' f' sl', fstx 0 K' cn' T' S' V' ∅ [] f' sl' -> opened cn' T' S' V' fi k n (off + len w) ->
     only_file fi cn cn' -> only_inode k T T' -> S' = <[SInode k := mk_sleeplock 0 0]> S -> wrote_to sb V n off w R -> wrote_to sb V n off w V' -> led_to V R f f' ->
     w = take (length w) data -> len w <= n1 ->
     r = len w /\ (len w = n1 \/ di_size (inode_at sb n V) < off + n1 /\ full sb V') \/ r = -1 /\ w = [] /\ MAXFILE * BSIZE < off + n1 -> wpf [] (cont r) f' sl' Q) ->
  wpf [] (piece fi src n1 cont) f sl Q.
Proof using FL HL.
  intros X [(y & Hy & Hty & Hip & Hoff) (x & Hk & Href & Hdev & Hinum & Hv) (l & Hl & Hfree)] Hf Hn Hgv Hn1 Hmax Ho HQ.
  pose proof (ft_now _ _ _ _ _ _ _ _ _ _ _ X) as HK. pose proof (ft_disk _ _ _ _ _ _ _ _ _ _ _ _ _ _ X) as HKf. pose proof (fo_ino _ _ Hf n Hn) as Hok.
  pose proof (io_size _ _ _ Hok) as Hsz. assert (MAXFILE * BSIZE = 274432) as Emax by done. change write_max with 3072 in *. pose proof Hn as [Hrn Htn].
  unfold piece. apply wpf_bind. eapply ft_begin; [exact X|]. intros f1 X1. apply wpf_bind. eapply ft_get_file; [exact X1|exact Hy|]. rewrite Hip.
  apply wpf_bind. eapply (ft_ilock i p dev start sb FL); [exact X1|exact Hk|done|exact Hl|done|done|lia|apply (fo_disk _ _ Hf)|apply budget_nil; unfold NBUF; lia|by rewrite Hinum|].
  intros f2 sl2 X2. destruct (loaded_is V x n Hinum Hv) as [Eld Hvl]. set (xl := loaded sb V x) in *.
  assert (i_d xl = inode_at sb n V /\ i_inum xl = n /\ i_dev xl = dev /\ 1 <= i_ref xl) as (Ed & En & Edev & Er) by (rewrite Eld; done).
  apply wpf_bind. eapply ft_get_file; [exact X2|exact Hy|]. rewrite Hip, Hoff. assert (<[k := xl]> T !! k = Some xl) as Hkl by (by eapply insert_lookup_id).
  assert (<[SInode k := locked_by (p_pid p)]> S !! SInode k = Some (locked_by (p_pid p))) as Hlk by apply lookup_insert_eq. apply wpf_bind.
  destruct (Z.le_gt_cases (off + n1) (MAXFILE * BSIZE)) as [Hfit|Hbig].
  - eapply (ft_writei i p dev start 1 K sb cn FL _ _ V [] f2 sl2 k xl src data off n1 4);
      [exact X2|exact Hkl|done|lia|by rewrite Ed|apply Hf|done|done|by rewrite Ed|done|done|apply piece_budget; [lia|done]|apply budget_nil; unfold NBUF; lia|].
    intros c w V' d' lh' f3 sl3 X3 W Hc Hw Hlw Hbud Hz Hfull. rewrite Ed, En in *. rewrite list_insert_insert_eq in X3.
    destruct (wrote_to_writei V n c off n1 w V' d' [] lh' Hf Hn Ho Hfit Hlw W Hz) as [Hwt Ei].
    rewrite <- Hip. eapply (ft_piece_end _ _ _ _ V _ _ _ _ fi k n off w); [exact X3| |exact HK|exact HKf|exact Hy|done|done|done|lia|lia|by eapply insert_lookup_id|done|done|done|by rewrite Ei|exact Hlk|exact Hwt|by left|].
    { unfold budget in Hbud. rewrite map_size_empty in Hbud. pose proof (logging_length (IBLOCK n sb) lh'). lia. }
    intros K' cn' S' V2 f4 sl4 X4 Hop Hof -> Hs Hw2 Hled. eapply HQ; [exact X4|exact Hop|done|by eexists|by rewrite insert_insert_eq|exact Hwt|done|exact Hled|done|done|].
    left. split; [done|]. destruct Hfull as [?|[Hend Hfull]]; [by left|right]. split; [done|]. eapply (full_home FL); [exact Hs|]. apply (full_put_inode FL); [lia|done].
  - eapply ft_writei_refused; [exact X2|exact Hkl|by rewrite Ed|lia|lia|by right|]. rewrite <- Hip.
    eapply (ft_piece_end _ _ _ _ V V _ _ _ fi k n off []); [exact X2|done|exact HK|exact HKf|exact Hy|done|done|done|lia|simpl; lia|exact Hkl|done|done|done|done|exact Hlk|by apply wrote_to_refl|by right|].
    intros K' cn' S' V2 f4 sl4 X4 Hop Hof -> Hs Hw2 Hled. eapply HQ; [exact X4|exact Hop|done|by eexists|by rewrite insert_insert_eq|by apply wrote_to_refl|done|exact Hled|done|simpl; lia|].
    right. split; [done|]. split; [done|lia].
Qed.

(** * The whole call *)

(** Recovery from [c] finds a prefix of [data] at [off] in file [n]. *)
Definition torn V (n off : Z) (data : bytes) (c : gmap Z bytes) : Prop :=
  exists R m, 0 <= m <= len data /\ recovers start R c /\ wrote_to sb V n off (take (Z.to_nat m) data) R.

(** All that was on the disk since [f], and is on it in [f'], satisfies [P]. *)
Definition since (P : gmap Z bytes -> Prop) f f' : Prop :=
  exists new, d_past (fs_disk f') = new ++ d_past (fs_disk f) /\ Forall P (d_now (fs_disk f') :: new).

Lemma fstx_recovers K cn T S V f sl : fstx 0 K cn T S V ∅ [] f sl -> recovers start V (d_now (fs_disk f)).
Proof.
  intros X. rewrite (ft_disk _ _ _ _ _ _ _ _ _ _ _ _ _ _ X), (ft_now _ _ _ _ _ _ _ _ _ _ _ X).
  apply recovers_idle; [|by eapply fstx_view| |done]; apply (ft_tx _ _ _ _ _ _ _ _ _ _ _ _ _ _ X).
Qed.

Lemma torn_now K cn T S V V' n off data m f sl :
  fstx 0 K cn T S V' ∅ [] f sl -> wrote_to sb V n off (take (Z.to_nat m) data) V' -> 0 <= m <= len data -> torn V n off data (d_now (fs_disk f)).
Proof. intros X W Hm. exists V', m. split; [done|]. split; [by eapply fstx_recovers|done]. Qed.

Lemma take_and_next (data w : bytes) m : 0 <= m -> w = take (length w) (drop (Z.to_nat m) data) -> take (Z.to_nat m) data ++ w = take (Z.to_nat (m + len w)) data.
Proof. intros Hm Hw. rewrite Hw at 1. rewrite take_take_drop. f_equal. lia. Qed.

Lemma since_piece V V1 R n off data m (w : bytes) f0 f f' :
  since (torn V n off data) f0 f -> wrote_to sb V n off (take (Z.to_nat m) data) V1 -> wrote_to sb V n off (take (Z.to_nat (m + len w)) data) R ->
  0 <= m -> m + len w <= len data -> led_to V1 R f f' -> since (torn V n off data) f0 f'.
Proof.
  intros (new & E & F) W1 W2 Hm Hl (olds & news & E' & F1 & F2). exists (news ++ olds ++ new). split; [by rewrite E', E, <- !app_assoc|].
  apply Forall_cons in F as [_ F]. apply Forall_cons in F2 as [F2 F3].
  assert (forall c, recovers start R c -> torn V n off data c) as HR by (intros c Hc; exists R, (m + len w); split; [lia|done]).
  apply Forall_cons. split; [by apply HR|]. apply Forall_app. split; [by eapply Forall_impl|]. apply Forall_app. split; [|done].
  eapply Forall_impl; [exact F1|]. intros c Hc. exists V1, m. split; [lia|done].
Qed.

Lemma contents_length V n : fs_ok sb V -> live sb V n -> len (contents sb V n) = di_size (inode_at sb n V).
Proof. intros Hf Hn. apply length_contents. apply (io_size _ _ _ (fo_ino _ _ Hf n Hn)). Qed.

Lemma wrote_to_size V n off w V' : fs_ok sb V -> live sb V n -> 0 <= off <= di_size (inode_at sb n V) -> wrote_to sb V n off w V' ->
  off + len w <= di_size (inode_at sb n V').
Proof.
  intros Hf Hn Ho [A1 A2 A3 A4 A5]. rewrite <- contents_length by done. rewrite A3. rewrite <- contents_length in Ho by done.
  unfold splice. rewrite !length_app, length_take, length_drop. lia.
Qed.

Lemma wrote_to_longer V n off w V' : fs_ok sb V -> live sb V n -> wrote_to sb V n off w V' -> di_size (inode_at sb n V) <= di_size (inode_at sb n V').
Proof.
  intros Hf Hn [A1 A2 A3 A4 A5]. rewrite <- !contents_length by done. rewrite A3. unfold splice. rewrite !length_app, length_take, length_drop. lia.
Qed.

Lemma filewrite_loop_step fuel fi addr n j : filewrite_loop (Datatypes.S fuel) fi addr n j =
  if j <? n then
    let n1 := Z.min (n - j) write_max in
    piece fi (User (u64 (addr + j))) n1 (fun r => if negb (r =? n1) then mret j else filewrite_loop fuel fi addr n (j + r))
  else mret j.
Proof. reflexivity. Qed.

Lemma ft_filewrite_loop cn0 T0 S0 V f0 fi k n off addr data (Q : Z -> list lockid -> fsst -> gmap sleepid sleeplock -> Prop) :
  (forall j, 0 <= j <= len data -> gives (rely := rely) i p (User (u64 (addr + j))) (drop (Z.to_nat j) data)) ->
  fs_ok sb V -> live sb V n -> 0 <= off <= di_size (inode_at sb n V) ->
  (forall j m K cn T S V' f sl, fstx 0 K cn T S V' ∅ [] f sl -> opened cn T S V' fi k n (off + m) -> only_file fi cn0 cn -> only_inode k T0 T ->
     (exists l, S = <[SInode k := l]> S0) -> wrote_to sb V n off (take (Z.to_nat m) data) V' -> since (torn V n off data) f0 f -> 0 <= m <= len data ->
     j = len data /\ m = len data \/ j < len data /\ m < len data /\ di_size (inode_at sb n V) < off + len data /\ (full sb V' \/ MAXFILE * BSIZE < off + len data) -> Q j [] f sl) ->
  forall fuel j K cn T S V1 f sl, fstx 0 K cn T S V1 ∅ [] f sl -> opened cn T S V1 fi k n (off + j) -> only_file fi cn0 cn -> only_inode k T0 T ->
     (exists l, S = <[SInode k := l]> S0) -> wrote_to sb V n off (take (Z.to_nat j) data) V1 -> since (torn V n off data) f0 f -> 0 <= j <= len data ->
     (j < len data -> len data - j <= Z.of_nat fuel * write_max) ->
  wpf [] (filewrite_loop fuel fi addr (len data) j) f sl Q.
Proof using FL HL.
  intros Hgv Hf Hn Ho HQ fuel. pose proof (contents_length V n Hf Hn) as Hlc. assert (0 < write_max) as Hwm by done.
  induction fuel as [|fuel IH]; intros j K cn T S V1 f sl X Hop Hof Hoi Hs W Hsince Hj Hfuel; [cbn [filewrite_loop]|rewrite filewrite_loop_step]; destruct (Z.ltb_spec j (len data)) as [Hlt|Hge].
  all: try (apply wpf_ret; assert (j = len data) as Ej by lia; eapply HQ; [exact X|exact Hop|done|done|done|done|done|done|by left]).
  { specialize (Hfuel Hlt). lia. }
  cbv zeta. set (n1 := Z.min (len data - j) write_max). assert (len (take (Z.to_nat j) data) = j) as Hlt' by (rewrite length_take; lia).
  pose proof (wrote_to_size V n off _ V1 Hf Hn Ho W) as Hsz. rewrite Hlt' in Hsz. assert (len (drop (Z.to_nat j) data) = len data - j) as Hld by (rewrite length_drop; lia).
  eapply (ft_piece K cn T S V1 f sl fi k n (off + j) _ (drop (Z.to_nat j) data) n1);
    [exact X|exact Hop|apply W|apply W|by apply Hgv|lia|lia|lia|].
  intros r w R K' cn' T' S' V2 f2 sl2 X2 Hop2 Hof2 Hoi2 -> WR W2 Hled Hw Hlw Hr. set (m := j + len w).
  assert (take (Z.to_nat j) data ++ w = take (Z.to_nat m) data) as Em by (apply take_and_next; [lia|done]).
  assert (forall R', wrote_to sb V1 n (off + j) w R' -> wrote_to sb V n off (take (Z.to_nat m) data) R') as Hcomp.
  { intros R' WR'. rewrite <- Em. eapply wrote_to_trans; [lia|exact W|]. by rewrite Hlt'. }
  assert (since (torn V n off data) f0 f2) as Hs2 by (eapply (since_piece V V1 R n off data j w); [exact Hsince|exact W|by apply Hcomp|lia|lia|exact Hled]).
  assert (exists l, <[SInode k := mk_sleeplock 0 0]> S = <[SInode k := l]> S0) as Hs' by (destruct Hs as [l ->]; exists (mk_sleeplock 0 0); by rewrite insert_insert_eq).
  pose proof (only_file_trans _ _ _ _ Hof Hof2) as Hof'. pose proof (only_inode_trans _ _ _ _ Hoi Hoi2) as Hoi'. replace (off + j + len w) with (off + m) in Hop2 by lia.
  destruct (Z.eqb_spec r n1) as [->|Hne]; cbn [negb].
  - destruct Hr as [[E _]|(E & _)]; [|lia]. assert (j + n1 = m) as -> by lia. eapply IH; [exact X2|exact Hop2|done|done|done|by apply Hcomp|done|lia|lia].
  - apply wpf_ret. eapply (HQ j m); [exact X2|exact Hop2|done|done|done|by apply Hcomp|done|lia|]. right. split; [done|].
    pose proof (wrote_to_longer V n off _ V1 Hf Hn W) as Hlong. pose proof (io_size _ _ _ (fo_ino _ _ Hf n Hn)) as Hio.
    destruct Hr as [[-> [?|[Hend Hfull]]]|(_ & -> & Hbig)]; [done| |]; (split; [simpl in *; lia|]); (split; [lia|]); [by left|right; lia].
Qed.

End write.
