(* ===== verification/XvFsExample.v ===== *)
(** A disk with a root directory and one file, "f", on which the theorems about the
    file system are tried. *)

From S2P Require Import Prelude XvMem XvFsTypes XvKernel XvMsg XvSched XvBio XvBlock XvLog XvFsLogic XvBioProofs XvBioSpec XvLogProofs XvLogCommit XvLogCrash XvLogTx XvLogClaims XvFs XvFsBits XvFsTx XvFsBlocks XvFsMap XvFsFile XvFsInode XvFsInv.
Import Fs.

Definition ex_ino (type size a : Z) : dinode := mk_dinode type 0 0 1 size (a :: replicate 12 0).
Definition ex_root : dinode := ex_ino T_DIR 48 35.
Definition ex_file : dinode := ex_ino T_FILE 10 36.

Definition ex_dirent (n : Z) (name : bytes) : bytes := le_bytes 2 n ++ name ++ replicate (14 - length name) 0.

Definition fill (l : bytes) : bytes := l ++ replicate (1024 - length l) 0.
Definition ex_iblock : bytes := fill (replicate 64 0 ++ dinode_bytes ex_root ++ dinode_bytes ex_file).
Definition ex_bitmap : bytes := fill [255; 255; 255; 255; 31].
Definition ex_dirblock : bytes := fill (ex_dirent 1 (L".") ++ ex_dirent 1 (L"..") ++ ex_dirent 2 (L"f")).
Definition ex_fblock : bytes := fill (L"0123456789").

Definition ex_img : gmap Z bytes := <[33 := ex_iblock]> (<[34 := ex_bitmap]> (<[35 := ex_dirblock]> (<[36 := ex_fblock]> ex_disk))).

(** * The disk is in order *)

Lemma ex_fs_layout : fs_layout 2 ex_sb.
Proof. by split. Qed.

Lemma ex_log_layout : log_layout 1 2.
Proof. by split. Qed.

Lemma ex_img_sized : map_Forall (fun _ => block_sized) ex_img.
Proof. unfold ex_img. do 4 (apply map_Forall_insert_2; [vm_compute; reflexivity|]). apply ex_disk_sized. Qed.

Lemma ex_img_covers : covers ex_sb ex_img.
Proof. intros b Hb. unfold ex_img. do 4 apply is_Some_insert. rewrite ex_disk_lookup; [by eexists|exact Hb]. Qed.

Lemma ex_used b : 0 <= b < 70 -> used ex_sb ex_img b = (b <? 37).
Proof.
  intros Hb. assert (Forall (fun k => used ex_sb ex_img (Z.of_nat k) = (Z.of_nat k <? 37)) (seq 0 70)) as H.
  { by_decide. }
  rewrite Forall_forall in H. rewrite <- (Z2Nat.id b) by lia. apply H. apply elem_of_seq. lia.
Qed.

Lemma ex_inode_at n : 0 < n < 10 -> inode_at ex_sb n ex_img = if n =? 1 then ex_root else if n =? 2 then ex_file else mk_dinode 0 0 0 0 0 (replicate 13 0).
Proof.
  intros Hn. assert (n = 1 \/ n = 2 \/ n = 3 \/ n = 4 \/ n = 5 \/ n = 6 \/ n = 7 \/ n = 8 \/ n = 9) as H by lia.
  destruct_or! H; subst n; vm_compute; reflexivity.
Qed.

(** Inodes with one block. *)
Lemma ex_addr V type size a bn : 0 <= bn -> addr_of V (ex_ino type size a) bn = if bn =? 0 then a else 0.
Proof.
  intros Hbn. unfold addr_of, ind, ex_ino. cbn [di_addrs]. unfold NDIRECT. change (zlookup (a :: replicate 12 0) 12) with (Some 0). cbn [from_option id Z.eqb].
  destruct (Z.eqb_spec bn 0) as [->|Hne]; [done|]. destruct (Z.ltb_spec bn 12); [|done]. unfold zlookup. destruct (Z.leb_spec 0 bn); [|lia].
  destruct (Z.to_nat bn) as [|m] eqn:E; [lia|]. simpl. change (0 :: _) with (replicate 12 0). rewrite lookup_replicate_2 by lia. done.
Qed.

Lemma ex_holds_block V type size a b : holds V (ex_ino type size a) b -> b = a.
Proof. intros [Hb [->|(bn & Hbn & E)]]; [done|]. rewrite ex_addr in E by lia. destruct (bn =? 0); congruence. Qed.

Lemma ex_ino_ok type size a : 35 <= a < 37 -> 0 <= size <= 1024 -> ino_ok ex_sb ex_img (ex_ino type size a).
Proof.
  intros Ha Hs. split; [done|change (MAXFILE * BSIZE) with 274432; simpl; lia|]. split.
  - intros bn Hbn. rewrite ex_addr by lia. destruct (bn =? 0); [|done]. intros _. split; [change (data0 ex_sb) with 35; change (sb_size ex_sb) with 70; lia|].
    rewrite ex_used by lia. apply Z.ltb_lt. lia.
  - done.
  - intros bn bn' H1 H2. rewrite !ex_addr by lia. destruct (Z.eqb_spec bn 0), (Z.eqb_spec bn' 0); try done; lia.
  - intros bn Hbn. rewrite ex_addr by lia. done.
  - intros bn Hbn Hlt. cbn [di_size ex_ino] in Hlt. rewrite ex_addr by lia. destruct (Z.eqb_spec bn 0); [lia|]. unfold BSIZE in Hlt. lia.
Qed.

Lemma ex_live n : live ex_sb ex_img n -> n = 1 /\ inode_at ex_sb n ex_img = ex_root \/ n = 2 /\ inode_at ex_sb n ex_img = ex_file.
Proof.
  intros [Hn Ht]. change (sb_ninodes ex_sb) with 10 in Hn. rewrite ex_inode_at in * by done.
  destruct (Z.eqb_spec n 1), (Z.eqb_spec n 2); auto; try lia. by destruct Ht.
Qed.

Lemma ex_live_root : live ex_sb ex_img 1.
Proof. split; [done|]. by rewrite ex_inode_at. Qed.

Lemma ex_live_file : live ex_sb ex_img 2.
Proof. split; [done|]. by rewrite ex_inode_at. Qed.

Lemma ex_holds_own V type size a : a <> 0 -> holds V (ex_ino type size a) a.
Proof. intros Ha. split; [done|]. right. exists 0. split; [done|]. by rewrite ex_addr. Qed.

Lemma ex_img_ok : fs_ok ex_sb ex_img.
Proof.
  split.
  - apply ex_img_sized.
  - split; [apply ex_img_covers|]. intros b Hb. change (data0 ex_sb) with 35 in Hb. rewrite ex_used by lia. apply Z.ltb_lt. lia.
  - intros n [[_ ->]|[_ ->]]%ex_live; by apply ex_ino_ok.
  - intros n m b [[-> ->]|[-> ->]]%ex_live [[-> ->]|[-> ->]]%ex_live; [done|..|done]; intros H1%ex_holds_block H2%ex_holds_block; congruence.
  - intros b Hb. change (data0 ex_sb) with 35 in Hb. change (sb_size ex_sb) with 70 in Hb. rewrite ex_used by lia. intros Hu%Z.ltb_lt.
    assert (b = 35 \/ b = 36) as [-> | ->] by lia; [exists 1|exists 2]; (split; [apply ex_live_root || apply ex_live_file|]); rewrite ex_inode_at by done; by apply ex_holds_own.
Qed.

(** * A machine with that disk *)

Definition no_dinode : dinode := mk_dinode 0 0 0 0 0 (replicate 13 0).

(** "f" is open: entry 0 of the inode table, which was not read yet, and file 0, at
    offset 4. *)
Definition ex_inodes : list inode := mk_inode 1 2 1 0 no_dinode :: replicate 49 (mk_inode 0 0 0 0 no_dinode).
Definition ex_files : list file := mk_file FD_INODE 1 1 1 0 1 4 0 :: replicate 99 (mk_file FD_NONE 0 0 0 0 0 0 0).
Definition ex_locks : gmap sleepid sleeplock := list_to_map ((fun k => (SInode k, mk_sleeplock 0 0)) <$> seq 0 50).
Definition ex_above : above := mk_above (fs_cons no_fs) ex_files.

Definition ex_open : fsst :=
  mk_fs (mk_platter ex_img []) (fs_vd no_fs) (replicate (S NBUF) (mk_buf 0 0 0 0 0 0 0 (replicate 1024 0)))
    (mk_log 0 0 0 0 0 (replicate 30 0)) ex_sb ex_inodes (fs_cons no_fs) ex_files.

Lemma ex_img_log k : 0 <= k <= 30 -> ex_img !! (2 + k) = Some (replicate 1024 0).
Proof. intros Hk. unfold ex_img. rewrite !lookup_insert_ne by lia. apply ex_disk_lookup. lia. Qed.

Lemma ex_img_area : area 2 ex_img /\ entries 2 ex_img = [].
Proof.
  pose proof (ex_img_log 0 ltac:(lia)) as H0. rewrite Z.add_0_r in H0. split; [split|].
  - intros k Hk. rewrite ex_img_log; [by eexists|exact Hk].
  - intros hd Hd. rewrite H0 in Hd. simplify_eq. by rewrite ex_head.
  - unfold entries. rewrite H0. unfold head_blocks. by rewrite ex_head.
Qed.

Section boot.
Context {AM : Ambient} {rely : protocol} (i : nat) (p : proc).
Notation fstx := (fstx (BD := instant_disk) (rely := rely) p 1 2 0).

(** Starting the machine, and then [body]. *)
Lemma ex_boot {B} (body : KM B) S (Q : B -> list lockid -> fsst -> gmap sleepid sleeplock -> Prop) :
  (forall V f sl, fstx (fs_disk f) ex_sb ex_above ex_inodes S V ∅ [] f sl -> fs_ok ex_sb V -> (forall n, 0 <= n < 10 -> inode_at ex_sb n V = inode_at ex_sb n ex_img) ->
     (forall n, live ex_sb ex_img n -> contents ex_sb V n = contents ex_sb ex_img n) -> wpf (rely := rely) i p [] body f sl Q) ->
  wpf (rely := rely) i p [] (binit;; initlog 1 ex_sb;; body) ex_open S Q.
Proof.
  intros Hbody. apply wpf_bind. eapply (wpf_binit i p 1 ex_img); [split; try done; by apply Forall_replicate|apply ex_img_sized|done|]. intros f1 sl1 C1 O1 S1.
  destruct (bufs_only_disk _ _ O1) as [D1 G1]. destruct ex_img_area as [Ha He].
  apply wpf_bind. eapply (wpf_initlog i p 1 2 ex_log_layout ex_img ex_img ex_sb); [exact C1|apply recovers_idle; [done|apply ex_img_sized|done|done]|done|by rewrite G1..|].
  intros V f2 sl2 I2 Hs2 O2 S2 _ _. unfold log_only, disk_only in O2. unfold bufs_only in O1.
  destruct (fs_ok_home ex_fs_layout ex_img V ex_img_ok Hs2) as (F1 & F2 & F3); [apply I2|apply (id_cache _ _ _ _ _ _ I2)|]. apply (Hbody V); try done.
  split; [by apply tx_idle|done|..]; try (rewrite O2, O1; done). intros k. by rewrite S2, S1.
Qed.

End boot.
