(* ===== verification/XvFsClaims.v ===== *)
(** Writing files: crash safety, the size of transactions, and reading back. *)

From S2P Require Import Prelude XvMem XvFsTypes XvKernel XvMsg XvVm XvPages XvWalk XvCopy XvExample XvCopyClaims XvSched XvSchedProofs XvPipe XvBio XvBlock XvLog XvFs XvSysfile XvFsLogic XvBioList XvBioProofs XvBioSpec XvLogProofs XvLogCommit XvLogCrash XvLogTx XvLogClaims XvFsBits XvFsTx XvFsBlocks XvFsMap XvFsFile XvFsInode XvFsInv XvFsOps XvFsIo XvFsUser XvFsWrite XvFsExample.
Import Fs.

Set Default Proof Using "Type".

(** * Writing to a file *)

Section crash.
Context {U : UserCopy} {UL : UserCopyLaws U} (i : nat) (p : proc) (dev start : Z) (sb : superblock) (addr : Z) (data : bytes).

(** The process has [data] at [addr]. *)
#[local] Instance memory : Ambient := user_buffer (p_pagetable p) addr data.
Context {BD : BlockDev} {DV : Devices} {rely : protocol} {BL : BlockDevLaws BD rely}.
Notation wpf := (wpf (rely := rely) i p).
Notation fstx := (fstx (BL := BL) p dev start 0).

(** A crash with disk [c] is survived, however often recovery is interrupted, with
    a prefix of [data] in file [n]. *)
Definition keeps_prefix (V : gmap Z bytes) (n off : Z) (c : gmap Z bytes) : Prop :=
  exists R m, 0 <= m <= len data /\ wrote_to sb V n off (take (Z.to_nat m) data) R /\ forall crashes, survives (rely := rely) i p dev start crashes sb R c.

(** C3: writing to a file is safe across crashes and touches nothing else.
    [filewrite] of [data] at the offset of an open file ends without panic.  It
    returns the length and the file then has [data] at that offset; or it returns
    -1, because the file had to grow and no block was free or it would be longer
    than the largest file, and the file has a proper prefix of [data] there.  The offset moves behind
    what was written.  The file system stays consistent (every block in use belongs
    to one inode), all other inodes and their contents stay, and wherever the
    machine crashes on the way, the next start finds a consistent file system with
    some prefix of [data] in the file. *)
Theorem filewrite_crash_safe K cn T S V f sl fi k n off y :
  fs_layout start sb -> log_layout dev start -> dev <> 0 -> i32 (sb_logstart sb) = start -> p_pagetable p <> 0 ->
  fstx K sb cn T S V ∅ [] f sl -> opened dev sb cn T S V fi k n off -> ab_files cn !! fi = Some y -> f_writable y <> 0 ->
  fs_ok sb V -> live sb V n -> 0 <= off <= di_size (inode_at sb n V) ->
  wpf [] (filewrite fi addr (len data)) f sl (fun r h f' sl' => h = [] /\ exists m K' cn' T' S' V',
    fstx K' sb cn' T' S' V' ∅ [] f' sl' /\ opened dev sb cn' T' S' V' fi k n (off + m) /\ only_file fi cn cn' /\ only_inode k T T' /\
    0 <= m <= len data /\ wrote_to sb V n off (take (Z.to_nat m) data) V' /\
    (r = len data /\ m = len data \/ r = -1 /\ m < len data /\ di_size (inode_at sb n V) < off + len data /\ (full sb V' \/ MAXFILE * BSIZE < off + len data)) /\
    since (keeps_prefix V n off) f f').
Proof using UL.
  intros FL HL Hdev Hsb Hpt X Hop Hy Hw Hf Hn Ho. pose proof Hop as [(y' & Hy' & Hty & Hip & Hoff) Hino Hlk]. rewrite Hy in Hy'. simplify_eq.
  unfold filewrite. apply wpf_bind. eapply ft_get_file; [exact X|exact Hy|]. destruct (Z.eqb_spec (f_writable y') 0); [done|]. rewrite Hty. apply wpf_bind.
  assert (0 < write_max) as Hwm by done. eapply (ft_filewrite_loop i p dev start sb FL HL cn T S V f fi k n (f_off y') addr data).
  - intros j Hj. by apply gives_user.
  - done.
  - done.
  - done.
  - intros j m K' cn' T' S' V' f' sl' X' Hop' Hof Hoi _ W Hs Hm Hr. apply wpf_ret. split; [done|]. exists m, K', cn', T', S', V'. do 6 (split; [done|]). split.
    + destruct Hr as [[-> ->]|(Hj & Hm' & Hr)]; [rewrite Z.eqb_refl; by left|]. destruct (Z.eqb_spec j (len data)); [lia|]. by right.
    + destruct Hs as (new & E & F). exists new. split; [done|]. eapply Forall_impl; [exact F|]. intros c (R & q & Hq & HR & HW).
      exists R, q. split; [done|]. split; [done|]. intros crashes. by apply recovers_survives.
  - exact X.
  - by rewrite Z.add_0_r.
  - exists y'. destruct cn as [cs fs]. unfold with_files. cbn [ab_files ab_cons] in *. by rewrite list_insert_id.
  - destruct Hino as (x & Hx & _). exists x. by rewrite list_insert_id.
  - destruct Hlk as (l & Hl & _). exists l. by rewrite insert_id.
  - by apply wrote_to_refl.
  - exists []. split; [done|]. apply Forall_singleton. eapply (torn_now _ _ _ _ _ _ _ _ _ _ _ _ _ 0); [exact X|by apply wrote_to_refl|lia].
  - lia.
  - intros Hd. pose proof (Z.div_mod (len data) write_max ltac:(done)). pose proof (Z.mod_pos_bound (len data) write_max Hwm).
    pose proof (Z.div_pos (len data) write_max ltac:(lia) Hwm). rewrite Z2Nat.id by lia. lia.
Qed.

End crash.

(** * Transactions of one write *)

Section files.
Context {AM : Ambient} {U : UserCopy} {BD : BlockDev} {rely : protocol} {BL : BlockDevLaws BD rely} (i : nat) (p : proc) (dev start : Z) (sb : superblock).
Notation wpf := (wpf (rely := rely) i p).
Notation fstx K := (fstx (BL := BL) p dev start 1 K sb).

(** Entry [k] of the table is inode [x], of a disk that is in order. *)
Definition inode_in_order (k : nat) (x : inode) (T : list inode) (V : gmap Z bytes) : Prop :=
  T !! k = Some x /\ i_dev x = dev /\ 0 <= i_inum x < sb_ninodes sb /\ ino_ok sb V (i_d x) /\ disk_ok sb V.

(** The blocks a write may log. *)
Lemma wrote_logged c off n w V d V' d' lh' :
  wrote sb c off n w V d [] V' d' lh' -> 0 <= off -> 0 <= n <= write_max -> Z.of_nat c + blocks_to off <= blocks_to (off + n) -> NoDup lh' -> len lh' <= 9.
Proof.
  intros W Ho Hn Hc Hnd. change write_max with 3072 in Hn. destruct (wt_log _ _ _ _ _ _ _ _ _ _ _ W) as (ms & Hms & Hin).
  set (q := off / BSIZE) in *. destruct (off_block off Ho) as (Q1 & Q2 & Q3). fold q in Q1, Q3.
  assert (Z.of_nat c <= 3) as Hc3.
  { pose proof (blocks_to_le off (off + n) ltac:(lia)). unfold blocks_to, BSIZE in *. assert ((off + n + 1024 - 1) / 1024 <= (off + 1024 - 1) / 1024 + 3); [|lia].
    rewrite <- Z.div_add by lia. apply Z.div_le_mono; lia. }
  assert (lh' ⊆+ ms ++ ind d' :: ((fun j => addr_of V' d' (q + Z.of_nat j)) <$> seq 0 4)) as Hsub.
  { apply NoDup_submseteq; [done|]. intros b Hb. destruct (Hin b Hb) as [Hb'|[?|[_ [->|(bn & R1 & R2 & ->)]]]]; [by apply elem_of_nil in Hb'|set_solver|set_solver|].
    apply elem_of_app. right. apply elem_of_cons. right. apply list_elem_of_fmap. exists (Z.to_nat (bn - q)). split; [f_equal; lia|].
    apply elem_of_seq. unfold BSIZE in *. lia. }
  apply submseteq_length in Hsub. rewrite length_app in Hsub. cbn [length] in Hsub. rewrite length_fmap, length_seq in Hsub. unfold new_ind in Hms.
  destruct ((ind d =? 0) && negb (ind d' =? 0)); lia.
Qed.

(** C13: the room that [begin_op] reserves in the log is enough for a piece of a
    write.  At the start of a transaction, [writei] of at most [write_max] bytes
    (the size of a piece in [filewrite]) ends with at most [MAXOPBLOCKS] blocks in
    the log, wherever the write begins and whatever blocks, indirect block and
    free-map blocks it needs. *)
Theorem write_fits_log K cn T S V f sl k x src data off n :
  fs_layout start sb -> fstx K cn T S V ∅ [] f sl -> inode_in_order k x T V -> gives (rely := rely) i p src data ->
  0 <= off <= di_size (i_d x) -> 0 <= n <= len data -> n <= write_max -> off + n <= MAXFILE * BSIZE ->
  wpf [] (writei (ip_ptr k) src off n) f sl (fun r h f' sl' => h = [] /\ lg_n (fs_log f') <= MAXOPBLOCKS).
Proof.
  intros FL X (Hk & Hdev & Hn & Hok & Hd) Hgv Ho Hl Hmax Hfit.
  eapply (ft_writei i p dev start 1 K sb cn FL T S V [] f sl k x src data off n 4); try done; [apply piece_budget; [lia|done]|apply budget_nil; unfold NBUF; lia|].
  intros c w V' d' lh' f' sl' X' W Hc Hw Hlw _ _ _. split; [done|]. rewrite (lo_n _ _ _ _ (tx_log _ _ _ _ _ _ _ _ _ (ft_tx _ _ _ _ _ _ _ _ _ _ _ _ _ _ X'))).
  pose proof (logging_length (IBLOCK (i_inum x) sb) lh'). destruct (fstx_listed _ _ _ _ _ _ _ _ _ _ _ _ _ _ X') as [Hnd _].
  assert (NoDup lh') as Hnd' by (unfold logging in Hnd; case_decide; [done|by apply NoDup_app in Hnd as (? & _)]).
  pose proof (wrote_logged _ _ _ _ _ _ _ _ _ W ltac:(lia) ltac:(lia) Hc Hnd'). unfold MAXOPBLOCKS. lia.
Qed.

(** * Reading back *)

(** C14: what was written is read.  In a transaction, [writei] of [data] at [off]
    returns how many bytes [r] it wrote, all of them unless the file had to grow and
    no block was free, and [readi] of [r] bytes at [off] then yields exactly the
    first [r] bytes of [data]. *)
Theorem write_then_read K cn T S V f sl k x data off :
  fs_layout start sb -> fstx K cn T S V ∅ [] f sl -> inode_in_order k x T V ->
  0 <= off <= di_size (i_d x) -> len data <= write_max -> off + len data <= MAXFILE * BSIZE ->
  wpf [] (r ← writei (ip_ptr k) (Kernel data) off (len data);
          '(r', got) ← readi (ip_ptr k) None off r;
          mret (r, r', got)) f sl (fun '(r, r', got) h f' sl' =>
    h = [] /\ r' = r /\ got = take (Z.to_nat r) data /\ (r = len data \/ di_size (i_d x) < off + len data)).
Proof.
  intros FL X (Hk & Hdev & Hn & Hok & Hd) Ho Hmax Hfit. assert (MAXFILE * BSIZE = 274432) as Emax by done. apply wpf_bind. pose proof (fl_data _ _ FL) as Hsize.
  eapply (ft_writei i p dev start 1 K sb cn FL T S V [] f sl k x (Kernel data) data off (len data) 4); try done;
    [apply gives_kernel|lia|apply piece_budget; [lia|done]|apply budget_nil; unfold NBUF; lia|].
  intros c w V' d' lh' f1 sl1 X1 W Hc Hw Hlw Hbud Hz Hfull. pose proof (wrote_extends sb _ _ _ _ _ _ _ _ _ _ Hok Ho Hfit Hlw W) as Hext.
  pose proof (wrote_fdata sb _ _ _ _ _ _ _ _ _ _ Hok Ho Hfit Hlw W) as Hdata. set (d2 := grown off w d') in *. pose proof (ex_ok _ _ _ _ _ Hext) as Hok2.
  pose proof (io_size _ _ _ Hok2) as Hs2. assert (off + len w <= di_size d2) as Hs3 by (unfold d2, grown; simpl; lia).
  apply wpf_bind. eapply (ft_readi i p dev start 1 K sb cn FL false _ S _ _ f1 sl1 k (set_id d2 x)); [exact X1|by eapply insert_lookup_id|done| | | |apply takes_kernel|done|done|lia|lia|].
  - by apply (put_inode_ok FL).
  - apply (put_inode_disk_ok FL); [done|]. eapply extends_disk_ok; [lia|exact Hext|done].
  - by apply budget_logging.
  - cbn [i_d set_id]. intros r got f2 sl2 X2 Hr. destruct Hr as [[-> ->]|[_ ?]]; [|done]. apply wpf_ret. split; [done|].
    assert (read_len (di_size d2) off (len w) = len w) as Erl.
    { unfold read_len. destruct (Z.ltb_spec (di_size d2) off), (Z.leb_spec (2 ^ 32) (off + len w)); cbn [orb]; lia. }
    rewrite Erl. split; [done|]. split; [|destruct Hfull as [?|[? _]]; auto].
    assert (fdata (put_inode sb (i_inum x) d2 V') d2 = splice off w (fdata V (i_d x))) as ->.
    { rewrite <- Hdata. unfold fdata. apply list_fmap_ext. intros a b Hb. apply lookup_seq in Hb as [-> Hb]. apply (put_inode_fbyte FL); [done|done|lia]. }
    assert (len (fdata V (i_d x)) = di_size (i_d x)) as El by (unfold fdata; rewrite length_fmap, length_seq; lia).
    rewrite Nat2Z.id, <- Hw. unfold slice, splice. rewrite drop_app_ge by (rewrite length_take; lia). rewrite length_take.
    replace (Z.to_nat off - Z.to_nat off `min` length (fdata V (i_d x)))%nat with 0%nat by lia. rewrite drop_0, Nat2Z.id. by rewrite take_app_length.
Qed.

(** * The block map *)

(** C12: [bmap] keeps inodes in order.  For an inode whose block map is in order (its
    blocks are data blocks, in use, and all different), [bmap] returns the address
    of block [bn]; the inode and the disk are in order afterwards, the contents of
    the file are the same, blocks in use that are not the inode's are the same, and
    the address is a data block in use unless no block is free. *)
Theorem bmap_keeps_order K cn T S V lh f sl k x bn :
  fs_layout start sb -> fstx K cn T S V ∅ lh f sl -> inode_in_order k x T V -> 0 <= bn < MAXFILE -> budget 5 ∅ lh ->
  wpf [] (bmap (ip_ptr k) bn) f sl (fun a h f' sl' => h = [] /\ exists V' d' lh',
    fstx K cn (<[k := set_id d' x]> T) S V' ∅ lh' f' sl' /\ inode_in_order k (set_id d' x) (<[k := set_id d' x]> T) V' /\
    fdata V' d' = fdata V (i_d x) /\ (forall b, 0 <= b < sb_size sb -> used sb V b = true -> ~ in_map sb b -> ~ holds V (i_d x) b -> V' !! b = V !! b) /\
    a = addr_of V' d' bn /\ (if a =? 0 then full sb V' else data0 sb <= a < sb_size sb /\ used sb V' a = true)).
Proof.
  intros FL X (Hk & Hdev & Hn & Hok & Hd) Hbn Hbud. pose proof (fl_data _ _ FL) as Hsize.
  eapply (ft_bmap i p dev start 1 K sb cn FL T S V lh f sl k x bn); try done. intros V' d' lh' f' sl' X' [M1 M2 M3 M4 M5 M6]. split; [done|]. exists V', d', lh'.
  pose proof (ex_ok _ _ _ _ _ M1) as Hok'. split; [done|]. split.
  { split; [by eapply insert_lookup_id|]. split; [done|]. split; [done|]. split; [done|]. eapply extends_disk_ok; [lia|exact M1|done]. }
  split.
  { pose proof (io_size _ _ _ Hok) as Hs. unfold fdata. rewrite M3. apply list_fmap_ext. intros a b Hb. apply lookup_seq in Hb as [-> Hb]. apply M2. lia. }
  split; [intros b Hb Hu Hm Hh; by apply M1|]. split; [done|]. destruct (Z.eqb_spec (addr_of V' d' bn) 0) as [E|E]; [exact (M6 E)|].
  by apply (mo_data _ _ _ _ _ (io_map _ _ _ Hok')).
Qed.

End files.

(** * On the example disk *)

Definition ex_machine : kst := set_sleep ex_locks (set_fs ex_open (ex_state 0 [])).
Definition ex_self : proc := ex_proc RUNNING 1 None (pg 0) PGSIZE [].

#[local] Instance no_devices : Devices := {| dev_read := fun _ => None; dev_write := fun _ => None |}.

Lemma ex_machine_inside : inside (AM := user_buffer (p_pagetable ex_self) 0 ex_text) 0 ex_self [] ex_machine.
Proof.
  split; try done.
  - apply NoDup_nil_2.
  - split; [exact (vm_good_frame _ _ (ex_state_vm 0 []) ltac:(done))|]. exact (proj1 ex_private).
Qed.

Lemma ex_opened V : (forall n, 0 <= n < 10 -> inode_at ex_sb n V = inode_at ex_sb n ex_img) -> opened 1 ex_sb ex_above ex_inodes ex_locks V 0 0 2 4.
Proof.
  intros _. split.
  - by eexists.
  - by eexists.
  - by eexists.
Qed.

(** From switching the machine on, "hello" is written over part of "0123456789". *)
Lemma filewrite_crash_safe_witness :
  wpk alone (binit;; initlog 1 ex_sb;; filewrite 0 0 5) ex_machine (fun r s' =>
    r = 5 /\ contents ex_sb (d_now (fs_disk (k_fs s'))) 2 = L"0123hello9" /\ contents ex_sb (d_now (fs_disk (k_fs s'))) 1 = contents ex_sb ex_img 1).
Proof.
  assert (wpf (AM := user_buffer (p_pagetable ex_self) 0 ex_text) (rely := alone) 0 ex_self [] (binit;; initlog 1 ex_sb;; filewrite 0 0 5) ex_open ex_locks
    (fun r _ f' _ => r = 5 /\ contents ex_sb (d_now (fs_disk f')) 2 = L"0123hello9" /\ contents ex_sb (d_now (fs_disk f')) 1 = contents ex_sb ex_img 1)) as H.
  { apply ex_boot. intros V f sl X Hok Hi Hc. assert (live ex_sb V 2) as Hl by (split; [done|]; rewrite Hi by done; by rewrite ex_inode_at).
    assert (inode_at ex_sb 2 V = ex_file) as E2 by (rewrite Hi by done; by rewrite ex_inode_at).
    eapply wpf_mono.
    - apply (filewrite_crash_safe (rely := alone) 0 ex_self 1 2 ex_sb 0 ex_text (fs_disk f) ex_above ex_inodes ex_locks V f sl 0 0 2 4 _ ex_fs_layout ex_log_layout
        ltac:(done) eq_refl ltac:(done) X (ex_opened V Hi) eq_refl ltac:(done) Hok Hl). rewrite E2. done.
    - intros r h f' sl' (-> & m & K' & cn' & T' & S' & V' & X' & _ & _ & _ & Hm & W & Hr & _). rewrite E2 in Hr.
      destruct Hr as [[-> ->]|(_ & _ & Hlt & _)]; [|done]. split; [done|].
      rewrite (ft_disk _ _ _ _ _ _ _ _ _ _ _ _ _ _ X'), (ft_now _ _ _ _ _ _ _ _ _ _ _ X'). destruct W as [_ _ Wc _ Wo]. split.
      + rewrite Wc, Hc by apply ex_live_file. vm_compute. reflexivity.
      + destruct (Wo 1) as [_ ->]; [done|done|..]; [by apply Hc, ex_live_root|]. split; [done|]. rewrite Hi by done. by rewrite ex_inode_at. }
  refine (wpf_run 0 ex_self [] _ _ _ _ _ _ H ex_machine_inside eq_refl eq_refl _). intros r h' s' _ _ HQ. exact HQ.
Defined.

(** In a transaction, with the inode of "f" locked. *)
Lemma ex_in_tx {AM : Ambient} {B} (body : KM B) (Q : B -> list lockid -> fsst -> gmap sleepid sleeplock -> Prop) :
  (forall K S V f sl x, fstx (BL := instant_laws alone) ex_self 1 2 1 K ex_sb ex_above (<[0%nat := x]> ex_inodes) S V ∅ [] f sl ->
     inode_in_order 1 ex_sb 0 x (<[0%nat := x]> ex_inodes) V -> i_d x = ex_file -> wpf (rely := alone) 0 ex_self [] body f sl Q) ->
  wpf (rely := alone) 0 ex_self [] (binit;; initlog 1 ex_sb;; begin_op;; ilock 1;; body) ex_open ex_locks Q.
Proof.
  intros Hbody. apply ex_boot. intros V f sl X Hok Hi Hc. apply wpf_bind. eapply ft_begin; [exact X|]. intros f1 X1.
  assert (inode_at ex_sb 2 V = ex_file) as E2 by (rewrite Hi by done; by rewrite ex_inode_at).
  apply wpf_bind. eapply (ft_ilock 0 ex_self 1 2 ex_sb ex_fs_layout 1 _ _ _ _ _ _ _ _ 0 (mk_inode 1 2 1 0 no_dinode) (mk_sleeplock 0 0));
    [exact X1|done|done|done|done|done|done|apply (fo_disk _ _ Hok)|apply budget_nil; unfold NBUF; lia|intros _; change (di_type (inode_at ex_sb 2 V) <> 0); by rewrite E2|].
  intros f2 sl2 X2. eapply Hbody; [exact X2| |done]. split; [done|]. split; [done|]. split; [done|]. split; [|apply Hok].
  change (ino_ok ex_sb V (inode_at ex_sb 2 V)). apply (fo_ino _ _ Hok). split; [done|]. by rewrite E2.
Qed.

Lemma ex_run_tx {B} (body : KM B) (Q : B -> fsst -> Prop) :
  wpf (AM := user_buffer (p_pagetable ex_self) 0 ex_text) (rely := alone) 0 ex_self [] body ex_open ex_locks (fun r _ f' _ => Q r f') ->
  wpk alone body ex_machine (fun r s' => Q r (k_fs s')).
Proof. intros H. refine (wpf_run 0 ex_self [] _ _ _ _ _ _ H ex_machine_inside eq_refl eq_refl _). intros r h' s' _ _ HQ. exact HQ. Qed.

Lemma write_fits_log_witness :
  wpk alone (binit;; initlog 1 ex_sb;; begin_op;; ilock 1;; writei 1 (Kernel (L"abc")) 10 3) ex_machine (fun r s' => lg_n (fs_log (k_fs s')) <= 10).
Proof.
  apply (ex_run_tx _ (fun _ f => lg_n (fs_log f) <= 10)), ex_in_tx. intros K S V f sl x X Hx Ex. eapply wpf_mono.
  - eapply (write_fits_log 0 ex_self 1 2 ex_sb K ex_above _ S V f sl 0 x (Kernel (L"abc")) (L"abc") 10 3 ex_fs_layout X Hx); try done; [apply gives_kernel|by rewrite Ex].
  - by intros r h f' sl' [_ H].
Defined.

Lemma write_then_read_witness :
  wpk alone (binit;; initlog 1 ex_sb;; begin_op;; ilock 1;;
             (r ← writei 1 (Kernel (L"hello")) 4 5; '(r', got) ← readi 1 None 4 r; mret (r, r', got))) ex_machine
    (fun x s' => x = (5, 5, L"hello")).
Proof.
  apply (ex_run_tx _ (fun x f => x = (5, 5, L"hello"))), ex_in_tx. intros K S V f sl x X Hx Ex. eapply wpf_mono.
  - eapply (write_then_read 0 ex_self 1 2 ex_sb K ex_above _ S V f sl 0 x (L"hello") 4 ex_fs_layout X Hx); [by rewrite Ex|done|done].
  - intros [[r r'] got] h f' sl' (_ & -> & -> & Hr). rewrite Ex in Hr. destruct Hr as [->|Hr]; [done|done].
Defined.

Lemma bmap_keeps_order_witness :
  wpk alone (binit;; initlog 1 ex_sb;; begin_op;; ilock 1;; bmap 1 0) ex_machine (fun a s' => a = 0 \/ 35 <= a < 70).
Proof.
  apply (ex_run_tx _ (fun a f => a = 0 \/ 35 <= a < 70)), ex_in_tx. intros K S V f sl x X Hx Ex. eapply wpf_mono.
  - apply (bmap_keeps_order 0 ex_self 1 2 ex_sb K ex_above _ S V [] f sl 0 x 0 ex_fs_layout X Hx); [done|apply budget_nil; unfold NBUF; lia].
  - intros a h f' sl' (_ & V' & d' & lh' & _ & _ & _ & _ & _ & Ha). destruct (Z.eqb_spec a 0); [by left|right]. apply Ha.
Defined.

(** * A write that fails *)

(** Ten bytes from the end of the user's only page, six of which are there; then
    the file is read, and block 36 of the disk is looked at. *)
Definition ex_bad_write : KM (Z * bytes * bytes) :=
  r ← filewrite 0 4090 10;
  ilock 1;;
  '(_, got) ← readi 1 None 0 10;
  iunlock 1;;
  d ← fs_gets (fun f => default [] (d_now (fs_disk f) !! 36));
  mret (r, got, take 10 d).

Definition result {A} (o : kres A) : option A := match o with KDone a _ => Some a | _ => None end.

